(** * MAEVN vocal pipeline: effect chains, DSP stages and the mastering chain

    A shallow embedding of the audio path of the plugin:
    - [Source/AIFXEngine.cpp]: [AIEffect] and the per-track [AIFXEngine];
    - [Source/OnnxEngine.cpp]: the readiness test and [runInference];
    - [Source/DSPModules.h]: [MultibandCompressor], [DeEsser],
      [StereoWidener], [EpicSpaceReverb] (pre-delay);
    - [Source/CinematicAudioEnhancer.cpp]: [MultibandCompressor],
      [CinematicReverb] (pre-delay), [StereoImager], [LoudnessNormalizer]
      and the [CinematicAudioEnhancer] orchestrator.

    Beyond these audio stages:
    - the rest of [AIFXEngine] (modes, clearing, prepare and reset) and its
      caller [processAllTracks] in [Source/PluginProcessor.cpp];
    - the model store of [OnnxEngine]: loading, unloading and reloading;
    - [TransientShaper], [Saturation], [Limiter] and [PTHVocalClone] of
      [Source/DSPModules.h];
    - [SubtleDelay] and [WarmSaturation] of
      [Source/CinematicAudioEnhancer.cpp];
    - the processor of [Source/LegendaryProducerFXSuiteUltimate.cpp]: its
      chain, the A/B comparison, the presets and the two meters.

    The C++ code computes on [float].  Every definition below is written
    once, over an interface [FloatOps] of the arithmetic operations the code
    uses, and is read at two instances: [binary32] (IEEE 754 single
    precision, from the Standard Library's [SpecFloat], executable) and
    [R] (the exact arithmetic that the floating-point operations round).

    The JUCE classes the code calls are not part of the repository.  The
    delay line is transcribed from JUCE's [juce_DelayLine.cpp]; filters,
    compressors and reverbs are kept abstract (interface [JuceDsp]). *)

From Stdlib Require Import ZArith QArith Reals Lra Lia List Bool String SpecFloat.
From stdpp Require Import base list gmap strings.

Set Default Proof Using "Type".

(* ===================================================================== *)
(** * Arithmetic on samples *)
(* ===================================================================== *)

Module Arith.

(** The operations of C++ [float] that the modelled code uses. *)
Class FloatOps (F : Type) := {
  f_lit   : Q -> F;            (* a literal such as [0.9f] *)
  f_of_int : Z -> F;           (* [static_cast<float>(n)] *)
  f_floor : F -> Z;            (* [static_cast<int>(std::floor(x))] *)
  f_add   : F -> F -> F;
  f_sub   : F -> F -> F;
  f_mul   : F -> F -> F;
  f_div   : F -> F -> F;
  f_abs   : F -> F;            (* [std::abs] *)
  f_ltb   : F -> F -> bool     (* [x < y] *)
}.

(** The functions of [<cmath>] that the modelled code uses. *)
Class LibmOps (F : Type) := {
  f_pow   : F -> F -> F;       (* [std::pow] *)
  f_sqrt  : F -> F;            (* [std::sqrt] *)
  f_log10 : F -> F             (* [std::log10] *)
}.

(** The operations of C++ [double] that the modelled code uses: the sample
    rate is a [double], and a [float] operand is promoted to it. *)
Class DoubleOps (F D : Type) := {
  d_of_float : F -> D;         (* the implicit promotion *)
  d_to_float : D -> F;         (* [static_cast<float>(x)] *)
  d_lit : Q -> D;              (* a literal such as [1000.0] *)
  d_mul : D -> D -> D;
  d_div : D -> D -> D
}.

Definition f_zero {F} `{FloatOps F} : F := f_lit 0.
Definition f_one {F} `{FloatOps F} : F := f_lit 1.

(** ** IEEE 754 binary32 *)

Definition binary32 : Type := spec_float.
Definition b32_prec : Z := 24.
Definition b32_emax : Z := 128.

Definition b32_of_int (z : Z) : binary32 :=
  binary_normalize b32_prec b32_emax z 0 false.

(** A literal [n/d] is the correctly rounded quotient of two exactly
    representable integers (|n|, d < 2^24 for every literal of the code). *)
Definition b32_lit (q : Q) : binary32 :=
  SFdiv b32_prec b32_emax (b32_of_int (Qnum q)) (b32_of_int (Zpos (Qden q))).

Definition b32_floor (x : binary32) : Z :=
  match x with
  | S754_finite s m e =>
      let v := if s then Z.neg m else Z.pos m in
      if (0 <=? e)%Z then (v * 2 ^ e)%Z else (v / 2 ^ (- e))%Z
  | _ => 0%Z
  end.

#[export] Instance binary32_ops : FloatOps binary32 := {
  f_lit := b32_lit;
  f_of_int := b32_of_int;
  f_floor := b32_floor;
  f_add := SFadd b32_prec b32_emax;
  f_sub := SFsub b32_prec b32_emax;
  f_mul := SFmul b32_prec b32_emax;
  f_div := SFdiv b32_prec b32_emax;
  f_abs := SFabs;
  f_ltb := SFltb
}.

(** ** IEEE 754 binary64, and its conversions with binary32 *)

Definition binary64 : Type := spec_float.
Definition b64_prec : Z := 53.
Definition b64_emax : Z := 1024.

Definition b64_of_int (z : Z) : binary64 :=
  binary_normalize b64_prec b64_emax z 0 false.

Definition b64_of_b32 (x : binary32) : binary64 :=
  match x with
  | S754_finite s m e => binary_round b64_prec b64_emax s m e
  | _ => x
  end.

Definition b32_of_b64 (x : binary64) : binary32 :=
  match x with
  | S754_finite s m e => binary_round b32_prec b32_emax s m e
  | _ => x
  end.

#[export] Instance binary64_ops : DoubleOps binary32 binary64 := {
  d_of_float := b64_of_b32;
  d_to_float := b32_of_b64;
  d_lit := fun q =>
    SFdiv b64_prec b64_emax (b64_of_int (Qnum q)) (b64_of_int (Zpos (Qden q)));
  d_mul := SFmul b64_prec b64_emax;
  d_div := SFdiv b64_prec b64_emax
}.

(** ** Exact arithmetic *)

Definition R_ltb (x y : R) : bool := if Rlt_dec x y then true else false.

#[export] Instance R_ops : FloatOps R := {
  f_lit := Q2R;
  f_of_int := IZR;
  f_floor := fun x => (up x - 1)%Z;
  f_add := Rplus;
  f_sub := Rminus;
  f_mul := Rmult;
  f_div := Rdiv;
  f_abs := Rabs;
  f_ltb := R_ltb
}.

#[export] Instance R_double : DoubleOps R R := {
  d_of_float := fun x => x;
  d_to_float := fun x => x;
  d_lit := Q2R;
  d_mul := Rmult;
  d_div := Rdiv
}.

(** [std::pow] agrees with [Rpower] on positive bases; the modelled code
    calls it on the bases [10] and [sibilance/threshold > 1] only. *)
#[export] Instance R_libm : LibmOps R := {
  f_pow := Rpower;
  f_sqrt := sqrt;
  f_log10 := fun x => (ln x / ln 10)%R
}.

End Arith.
Export Arith.

(* ===================================================================== *)
(** * The JUCE classes used by the code *)
(* ===================================================================== *)

Module Juce.

(** [juce::AudioBuffer<float>]: one list of samples per channel. *)
Abbreviation AudioBuffer F := (list (list F)).

Section Juce.
Context {F : Type} `{FloatOps F}.

Local Abbreviation AudioBuffer := (list (list F)).

(** [juce::jlimit (lower, upper, value)] *)
Definition jlimit (lower upper value : F) : F :=
  if f_ltb value lower then lower
  else if f_ltb upper value then upper else value.

(** [juce::jmin], [juce::jmax] *)
Definition jmin (a b : F) : F := if f_ltb b a then b else a.
Definition jmax (a b : F) : F := if f_ltb a b then b else a.

(** A [for (int i = 0; i < n; ++i)] loop over a state. *)
Definition for_range {S : Type} (n : nat) (body : nat -> S -> S) (s : S) : S :=
  fold_left (fun acc i => body i acc) (seq 0 n) s.

(** ** The member functions of [juce::AudioBuffer<float>] *)

Definition getNumChannels (b : AudioBuffer) : nat := length b.

Definition getNumSamples (b : AudioBuffer) : nat :=
  match b with
  | [] => 0
  | c :: _ => length c
  end.

(** Reads outside the buffer are undefined in C++; the model reads zero. *)
Definition getSample (b : AudioBuffer) (ch i : nat) : F :=
  default f_zero (b !! ch ≫= fun c => c !! i).

(** Writes outside the buffer are undefined in C++; the model drops them. *)
Definition setSample (b : AudioBuffer) (ch i : nat) (v : F) : AudioBuffer :=
  alter (fun c => <[i := v]> c) ch b.

(** [dest.copyFrom (destCh, 0, src, srcCh, 0, n)] *)
Definition copyFrom (dest : AudioBuffer) (destCh : nat)
    (src : AudioBuffer) (srcCh n : nat) : AudioBuffer :=
  alter (fun d => take n (default [] (src !! srcCh)) ++ drop n d) destCh dest.

(** [buffer.applyGain (gain)]: every sample of every channel. *)
Definition applyGain (b : AudioBuffer) (gain : F) : AudioBuffer :=
  map (map (fun x => f_mul x gain)) b.

(** [buffer.clear()] *)
Definition clear (b : AudioBuffer) : AudioBuffer :=
  map (map (fun _ => f_zero)) b.

(** ** Processors that work sample by sample

    [process (ProcessContextReplacing)] of a JUCE filter or compressor
    calls [processSample (channel, x)] for every channel in turn and every
    sample of the block in order. *)

Fixpoint run_samples {St : Type} (step : St -> F -> St * F)
    (st : St) (xs : list F) : St * list F :=
  match xs with
  | [] => (st, [])
  | x :: rest =>
      let '(st1, y) := step st x in
      let '(st2, ys) := run_samples step st1 rest in
      (st2, y :: ys)
  end.

Fixpoint run_channels {St : Type} (step : St -> nat -> F -> St * F)
    (ch : nat) (st : St) (b : AudioBuffer) : St * AudioBuffer :=
  match b with
  | [] => (st, [])
  | c :: rest =>
      let '(st1, c') := run_samples (fun s => step s ch) st c in
      let '(st2, rest') := run_channels step (S ch) st1 rest in
      (st2, c' :: rest')
  end.

(** [process] on an [AudioBlock] over the whole buffer. *)
Definition process_block {St : Type} (step : St -> nat -> F -> St * F)
    (st : St) (b : AudioBuffer) : St * AudioBuffer :=
  run_channels step 0 st b.

(** [process] on an [AudioBlock (pointers, numChannels, numSamples)]: the
    first [numSamples] samples of the first [numChannels] channels. *)
Definition process_subblock {St : Type} (step : St -> nat -> F -> St * F)
    (numChannels numSamples : nat) (st : St) (b : AudioBuffer)
    : St * AudioBuffer :=
  let '(st', head) :=
    run_channels step 0 st (map (take numSamples) (take numChannels b)) in
  (st', zip_with (fun h c => h ++ drop numSamples c) head (take numChannels b)
          ++ drop numChannels b).

(** ** [juce::dsp::DelayLine<float, DelayLineInterpolationTypes::Linear>]

    Transcribed from [juce_DelayLine.h/.cpp].  The line is a circular
    buffer of [totalSize] samples per channel.  Both cursors start at [0]
    and move backwards by one per call; [popSample] reads at
    [readPos + delayInt].  The cursors and sizes are non-negative [int]s
    and are kept in [nat]. *)

Record DelayLine := mkDelayLine {
  bufferData : AudioBuffer;
  writePos : list nat;
  readPos : list nat;
  delay : F;
  delayFrac : F;
  delayInt : nat;
  totalSize : nat
}.

(** [reset()] *)
Definition DelayLine_reset (d : DelayLine) : DelayLine :=
  {| bufferData := clear (bufferData d);
     writePos := map (fun _ => 0) (writePos d);
     readPos := map (fun _ => 0) (readPos d);
     delay := delay d; delayFrac := delayFrac d; delayInt := delayInt d;
     totalSize := totalSize d |}.

(** [setMaximumDelayInSamples (n)]:
    [totalSize = jmax (4, n + 2)], the buffer is resized, then [reset()]. *)
Definition DelayLine_setMaximumDelayInSamples (n : nat) (d : DelayLine)
    : DelayLine :=
  let size := Nat.max 4 (n + 2) in
  DelayLine_reset
    {| bufferData := map (fun _ => replicate size f_zero) (bufferData d);
       writePos := writePos d; readPos := readPos d;
       delay := delay d; delayFrac := delayFrac d; delayInt := delayInt d;
       totalSize := size |}.

(** [DelayLine (maximumDelayInSamples)] *)
Definition DelayLine_new (maximumDelayInSamples : nat) : DelayLine :=
  DelayLine_setMaximumDelayInSamples maximumDelayInSamples
    {| bufferData := []; writePos := []; readPos := [];
       delay := f_zero; delayFrac := f_zero; delayInt := 0; totalSize := 0 |}.

(** [prepare (spec)]: one circular buffer and one pair of cursors per
    channel, then [reset()]. *)
Definition DelayLine_prepare (numChannels : nat) (d : DelayLine) : DelayLine :=
  DelayLine_reset
    {| bufferData := replicate numChannels (replicate (totalSize d) f_zero);
       writePos := replicate numChannels 0;
       readPos := replicate numChannels 0;
       delay := delay d; delayFrac := delayFrac d; delayInt := delayInt d;
       totalSize := totalSize d |}.

Definition DelayLine_getMaximumDelayInSamples (d : DelayLine) : nat :=
  totalSize d - 2.

(** [setDelay (newDelayInSamples)] *)
Definition DelayLine_setDelay (newDelayInSamples : F) (d : DelayLine)
    : DelayLine :=
  let upperLimit :=
    f_of_int (Z.of_nat (DelayLine_getMaximumDelayInSamples d)) in
  let dly := jlimit f_zero upperLimit newDelayInSamples in
  let di := f_floor dly in
  {| bufferData := bufferData d; writePos := writePos d; readPos := readPos d;
     delay := dly;
     delayFrac := f_sub dly (f_of_int di);
     delayInt := Z.to_nat di;
     totalSize := totalSize d |}.

(** [interpolateSample (channel)], linear interpolation. *)
Definition DelayLine_interpolateSample (d : DelayLine) (channel : nat) : F :=
  let index1 := default 0 (readPos d !! channel) + delayInt d in
  let index2 := index1 + 1 in
  let wrap := totalSize d <=? index2 in
  let index1 := if wrap then index1 mod totalSize d else index1 in
  let index2 := if wrap then index2 mod totalSize d else index2 in
  let value1 := getSample (bufferData d) channel index1 in
  let value2 := getSample (bufferData d) channel index2 in
  f_add value1 (f_mul (delayFrac d) (f_sub value2 value1)).

(** [popSample (channel)] with the default arguments. *)
Definition DelayLine_popSample (d : DelayLine) (channel : nat)
    : F * DelayLine :=
  let result := DelayLine_interpolateSample d channel in
  let r := default 0 (readPos d !! channel) in
  (result,
   {| bufferData := bufferData d; writePos := writePos d;
      readPos := <[channel := (r + totalSize d - 1) mod totalSize d]> (readPos d);
      delay := delay d; delayFrac := delayFrac d; delayInt := delayInt d;
      totalSize := totalSize d |}).

(** [pushSample (channel, sample)] *)
Definition DelayLine_pushSample (d : DelayLine) (channel : nat) (sample : F)
    : DelayLine :=
  let w := default 0 (writePos d !! channel) in
  {| bufferData := setSample (bufferData d) channel w sample;
     writePos := <[channel := (w + totalSize d - 1) mod totalSize d]> (writePos d);
     readPos := readPos d;
     delay := delay d; delayFrac := delayFrac d; delayInt := delayInt d;
     totalSize := totalSize d |}.

End Juce.

Arguments DelayLine F : clear implicits.

(** [juce::dsp::Reverb::Parameters] *)
Record ReverbParameters (F : Type) := mkReverbParameters {
  rp_roomSize : F;
  rp_damping : F;
  rp_wetLevel : F;
  rp_dryLevel : F;
  rp_width : F;
  rp_freezeMode : F
}.
Arguments mkReverbParameters {F}.
Arguments rp_roomSize {F}.
Arguments rp_damping {F}.
Arguments rp_wetLevel {F}.
Arguments rp_dryLevel {F}.
Arguments rp_width {F}.
Arguments rp_freezeMode {F}.

(** ** The JUCE processors that stay abstract

    [D] stands for [double] (sample rates); the code only stores such
    values and hands them to JUCE. *)
Class JuceDsp (F D : Type) := {
  (* juce::dsp::LinkwitzRileyFilter<float>, processSample (channel, x) *)
  LinkwitzRileyFilter : Type;
  lr_processSample : LinkwitzRileyFilter -> nat -> F -> LinkwitzRileyFilter * F;
  (* juce::dsp::Compressor<float>, processSample (channel, x) *)
  Compressor : Type;
  comp_processSample : Compressor -> nat -> F -> Compressor * F;
  comp_setThreshold : F -> Compressor -> Compressor;
  comp_setRatio : F -> Compressor -> Compressor;
  (* juce::dsp::ProcessorDuplicator<IIR::Filter<float>, IIR::Coefficients<float>> *)
  IIRFilter : Type;
  IIRCoefficients : Type;
  iir_processSample : IIRFilter -> nat -> F -> IIRFilter * F;
  iir_setState : IIRCoefficients -> IIRFilter -> IIRFilter;
  iir_reset : IIRFilter -> IIRFilter;
  makeLowPass : D -> F -> IIRCoefficients;
  makeHighPass : D -> F -> IIRCoefficients;
  (* juce::dsp::Reverb, process (context) *)
  Reverb : Type;
  reverb_process : Reverb -> list (list F) -> Reverb * list (list F);
  reverb_setParameters : ReverbParameters F -> Reverb -> Reverb;
  reverb_prepare : D -> nat -> nat -> Reverb -> Reverb
}.

End Juce.
Export Juce.

(* ===================================================================== *)
(** * [OnnxEngine.cpp]: the inference backend *)
(* ===================================================================== *)

Module Onnx.

Section Onnx.
Context {F : Type}.

(** [Ort::Session::Run] either returns the output tensor or throws an
    [Ort::Exception]. *)
Inductive Outcome (A : Type) : Type :=
| Returns (a : A)
| Throws (what : string).
Arguments Returns {A} a.
Arguments Throws {A} what.

(** [try { body } catch (const Ort::Exception& e) { handler }] *)
Definition try_catch {A : Type} (body : Outcome A) (handler : string -> A) : A :=
  match body with
  | Returns a => a
  | Throws what => handler what
  end.

Record OrtSession := mkOrtSession {
  Run : list F -> list Z -> Outcome (list F)
}.

Record OnnxModel := mkOnnxModel {
  modelLoaded : bool;
  session : option OrtSession;      (* [std::unique_ptr<Ort::Session>] *)
  inputShape : list Z
}.

(** [OnnxModel::isReady] *)
Definition OnnxModel_isReady (m : OnnxModel) : bool := modelLoaded m.

(** [OnnxModel::runInference (inputData, inputShape, outputData)]: the
    [bool] result and the contents of [outputData] afterwards. *)
Definition OnnxModel_runInference (m : OnnxModel) (inputData : list F)
    (shape : list Z) (outputData : list F) : bool * list F :=
  match modelLoaded m, session m with
  | true, Some s =>
      try_catch
        (let actualShape :=
           match shape with [] => inputShape m | _ => shape end in
         match Run s inputData actualShape with
         | Returns floatArray => Returns (true, floatArray)
         | Throws what => Throws what
         end)
        (fun _ => (false, outputData))
  | _, _ => (false, outputData)
  end.

Record OnnxEngine := mkOnnxEngine {
  models : gmap string OnnxModel
}.

(** [OnnxEngine::isModelReady (role)] *)
Definition isModelReady (e : OnnxEngine) (role : string) : bool :=
  match models e !! role with
  | Some m => OnnxModel_isReady m
  | None => false
  end.

(** [OnnxEngine::runInference (role, inputData, inputShape, outputData)] *)
Definition runInference (e : OnnxEngine) (role : string)
    (inputData : list F) (shape : list Z) (outputData : list F)
    : bool * list F :=
  match models e !! role with
  | Some m =>
      if OnnxModel_isReady m
      then OnnxModel_runInference m inputData shape outputData
      else (false, outputData)
  | None => (false, outputData)
  end.

End Onnx.

Arguments Returns {A} a.
Arguments Throws {A} what.
Arguments OrtSession : clear implicits.
Arguments OnnxModel : clear implicits.
Arguments OnnxEngine : clear implicits.

End Onnx.
Export Onnx.

(* ===================================================================== *)
(** * [AIFXEngine.cpp]: effects and per-track chains *)
(* ===================================================================== *)

Module AIFX.

Section AIFX.
Context {F D : Type} `{FloatOps F}.

Local Abbreviation AudioBuffer := (Juce.AudioBuffer F).

(** ** [AIEffect]

    The effect holds a pointer to the engine; [engine] below is the object
    it points to at the time of the call, [None] for a null pointer. *)
Record AIEffect := mkAIEffect {
  modelRole : string;
  ai_currentSampleRate : D;
  inputBuffer : list F;
  outputBuffer : list F
}.

(** The write-back loop: [channelData[i] = outputBuffer[outputIndex++]]
    while [outputIndex < outputBuffer.size()]. *)
Definition copyBack_sample (output : list F) (channel i : nat)
    (s : AudioBuffer * nat) : AudioBuffer * nat :=
  let '(buffer, outputIndex) := s in
  match output !! outputIndex with
  | Some v => (alter (fun c => <[i := v]> c) channel buffer, S outputIndex)
  | None => (buffer, outputIndex)
  end.

Definition copyBack (output : list F) (numChannels numSamples : nat)
    (buffer : AudioBuffer) : AudioBuffer :=
  fst (for_range numChannels
         (fun channel => for_range numSamples (copyBack_sample output channel))
         (buffer, 0)).

(** [AIEffect::process (buffer, numSamples)] *)
Definition AIEffect_process (engine : option (OnnxEngine F)) (e : AIEffect)
    (buffer : AudioBuffer) (numSamples : nat) : AIEffect * AudioBuffer :=
  match engine with
  | None => (e, buffer)
  | Some onnxEngine =>
      if negb (isModelReady onnxEngine (modelRole e)) then (e, buffer)
      else
        let numChannels := length buffer in
        let input := concat (map (take numSamples) buffer) in
        let shape := [1%Z; Z.of_nat numChannels; Z.of_nat numSamples] in
        let '(ok, output) :=
          runInference onnxEngine (modelRole e) input shape (outputBuffer e) in
        let e' := {| modelRole := modelRole e;
                     ai_currentSampleRate := ai_currentSampleRate e;
                     inputBuffer := input;
                     outputBuffer := output |} in
        if ok then (e', copyBack output numChannels numSamples buffer)
        else (e', buffer)
  end.

(** [AIEffect::prepare (sampleRate, maxBlockSize)] *)
Definition AIEffect_prepare (sampleRate : D) (maxBlockSize : nat)
    (e : AIEffect) : AIEffect :=
  {| modelRole := modelRole e;
     ai_currentSampleRate := sampleRate;
     inputBuffer := take (maxBlockSize * 2)
                      (inputBuffer e ++ replicate (maxBlockSize * 2) f_zero);
     outputBuffer := take (maxBlockSize * 2)
                       (outputBuffer e ++ replicate (maxBlockSize * 2) f_zero) |}.

(** ** [Effect]: the abstract base class

    An object of a class derived from [Effect]: its current state and its
    virtual member functions. *)
Record Effect := mkEffect {
  eff_state : Type;
  eff_this : eff_state;
  eff_process : option (OnnxEngine F) -> eff_state -> AudioBuffer -> nat
                -> eff_state * AudioBuffer;
  eff_prepare : D -> nat -> eff_state -> eff_state;
  eff_reset : eff_state -> eff_state;
  eff_getName : string
}.

(** [effect->process (buffer, numSamples)] *)
Definition Effect_process (engine : option (OnnxEngine F)) (e : Effect)
    (buffer : AudioBuffer) (numSamples : nat) : Effect * AudioBuffer :=
  let '(st, buffer') := eff_process e engine (eff_this e) buffer numSamples in
  (mkEffect (eff_state e) st (eff_process e) (eff_prepare e) (eff_reset e)
     (eff_getName e), buffer').

(** [effect->prepare (sampleRate, maxBlockSize)] *)
Definition Effect_prepare (sampleRate : D) (maxBlockSize : nat) (e : Effect)
    : Effect :=
  mkEffect (eff_state e) (eff_prepare e sampleRate maxBlockSize (eff_this e))
    (eff_process e) (eff_prepare e) (eff_reset e) (eff_getName e).

(** [std::make_unique<AIEffect> (onnxEngine, modelRole)] seen as an [Effect];
    [rate] is the initial value of [currentSampleRate]. *)
Definition AIEffect_new (rate : D) (role : string) : Effect :=
  mkEffect AIEffect
    {| modelRole := role; ai_currentSampleRate := rate;
       inputBuffer := []; outputBuffer := [] |}
    AIEffect_process
    AIEffect_prepare
    (fun e => {| modelRole := modelRole e;
                 ai_currentSampleRate := ai_currentSampleRate e;
                 inputBuffer := []; outputBuffer := [] |})
    "AI Effect".

(** ** [AIFXEngine] *)

Inductive FXMode := Off | DSP | AI | Hybrid.

Record TrackFX := mkTrackFX {
  mode : FXMode;
  dspEffects : list Effect;
  aiEffects : list Effect
}.

Definition NUM_TRACKS : Z := 6.

(** [onnxEngine] is the engine object behind the pointer ([None]: null). *)
Record AIFXEngine := mkAIFXEngine {
  trackFX : list TrackFX;
  onnxEngine : option (OnnxEngine F);
  currentSampleRate : D;
  currentMaxBlockSize : nat
}.

(** [for (auto& effect : effects) effect->process (buffer, numSamples)] *)
Fixpoint processEffects (engine : option (OnnxEngine F)) (effects : list Effect)
    (buffer : AudioBuffer) (numSamples : nat) : list Effect * AudioBuffer :=
  match effects with
  | [] => ([], buffer)
  | effect :: rest =>
      let '(effect', buffer1) := Effect_process engine effect buffer numSamples in
      let '(rest', buffer2) := processEffects engine rest buffer1 numSamples in
      (effect' :: rest', buffer2)
  end.

(** [AIFXEngine::processDSP] *)
Definition processDSP (engine : option (OnnxEngine F)) (track : TrackFX)
    (buffer : AudioBuffer) (numSamples : nat) : TrackFX * AudioBuffer :=
  let '(dsp', buffer') :=
    processEffects engine (dspEffects track) buffer numSamples in
  (mkTrackFX (mode track) dsp' (aiEffects track), buffer').

(** [AIFXEngine::processAI] *)
Definition processAI (engine : option (OnnxEngine F)) (track : TrackFX)
    (buffer : AudioBuffer) (numSamples : nat) : TrackFX * AudioBuffer :=
  let '(ai', buffer') :=
    processEffects engine (aiEffects track) buffer numSamples in
  (mkTrackFX (mode track) (dspEffects track) ai', buffer').

(** [AIFXEngine::processHybrid] *)
Definition processHybrid (engine : option (OnnxEngine F)) (track : TrackFX)
    (buffer : AudioBuffer) (numSamples : nat) : TrackFX * AudioBuffer :=
  let '(track1, buffer1) := processDSP engine track buffer numSamples in
  processAI engine track1 buffer1 numSamples.

(** [AIFXEngine::process (buffer, numSamples, trackIndex)] *)
Definition process (fx : AIFXEngine) (buffer : AudioBuffer) (numSamples : nat)
    (trackIndex : Z) : AIFXEngine * AudioBuffer :=
  if ((trackIndex <? 0) || (NUM_TRACKS <=? trackIndex))%Z then (fx, buffer)
  else
    match trackFX fx !! Z.to_nat trackIndex with
    | None => (fx, buffer)
    | Some track =>
        let '(track', buffer') :=
          match mode track with
          | Off => (track, buffer)
          | DSP => processDSP (onnxEngine fx) track buffer numSamples
          | AI => processAI (onnxEngine fx) track buffer numSamples
          | Hybrid => processHybrid (onnxEngine fx) track buffer numSamples
          end in
        (mkAIFXEngine (<[Z.to_nat trackIndex := track']> (trackFX fx))
           (onnxEngine fx) (currentSampleRate fx) (currentMaxBlockSize fx),
         buffer')
    end.

Definition in_range (trackIndex : Z) : bool :=
  ((0 <=? trackIndex) && (trackIndex <? NUM_TRACKS))%Z.

Definition update_track (fx : AIFXEngine) (trackIndex : Z)
    (f : TrackFX -> TrackFX) : AIFXEngine :=
  mkAIFXEngine (alter f (Z.to_nat trackIndex) (trackFX fx))
    (onnxEngine fx) (currentSampleRate fx) (currentMaxBlockSize fx).

(** [AIFXEngine::setFXMode] *)
Definition setFXMode (fx : AIFXEngine) (trackIndex : Z) (m : FXMode)
    : AIFXEngine :=
  if in_range trackIndex
  then update_track fx trackIndex
         (fun t => mkTrackFX m (dspEffects t) (aiEffects t))
  else fx.

(** [AIFXEngine::addDSPEffect]: prepared, then [push_back]. *)
Definition addDSPEffect (fx : AIFXEngine) (trackIndex : Z) (effect : Effect)
    : AIFXEngine :=
  if in_range trackIndex
  then
    let effect' :=
      Effect_prepare (currentSampleRate fx) (currentMaxBlockSize fx) effect in
    update_track fx trackIndex
      (fun t => mkTrackFX (mode t) (dspEffects t ++ [effect']) (aiEffects t))
  else fx.

(** [AIFXEngine::addAIEffect]; the new effect is prepared at once, which
    overwrites the sample rate its constructor set. *)
Definition addAIEffect (fx : AIFXEngine) (trackIndex : Z)
    (role : string) : AIFXEngine :=
  if in_range trackIndex && bool_decide (is_Some (onnxEngine fx))
  then
    let effect' :=
      Effect_prepare (currentSampleRate fx) (currentMaxBlockSize fx)
        (AIEffect_new (currentSampleRate fx) role) in
    update_track fx trackIndex
      (fun t => mkTrackFX (mode t) (dspEffects t) (aiEffects t ++ [effect']))
  else fx.

End AIFX.

Arguments AIEffect : clear implicits.
Arguments Effect : clear implicits.
Arguments TrackFX : clear implicits.
Arguments AIFXEngine : clear implicits.

End AIFX.
Export AIFX.

(* ===================================================================== *)
(** * [Utilities.h] *)
(* ===================================================================== *)

Module Utilities.

Section Utilities.
Context {F : Type} `{FloatOps F} `{LibmOps F}.

(** [MAEVN::clamp (value, minValue, maxValue)] *)
Definition clamp (value minValue maxValue : F) : F :=
  jmax minValue (jmin value maxValue).

(** [MAEVN::dBToGain (dB)]: [std::pow (10.0f, dB / 20.0f)] *)
Definition dBToGain (dB : F) : F := f_pow (f_lit 10) (f_div dB (f_lit 20)).

End Utilities.

End Utilities.
Export Utilities.

(* ===================================================================== *)
(** * The pre-delay loop of the two reverbs *)
(* ===================================================================== *)

Module PreDelay.

Section PreDelay.
Context {F : Type} `{FloatOps F}.

Local Abbreviation AudioBuffer := (Juce.AudioBuffer F).
Local Abbreviation DelayLine := (Juce.DelayLine F).

(** The loop body shared by [CinematicReverb::process] and
    [EpicSpaceReverb::process]:
    [delayed = line.popSample (ch); line.pushSample (ch, data[i]);
     data[i] = delayed;] *)
Definition preDelay_sample (ch i : nat) (s : DelayLine * AudioBuffer)
    : DelayLine * AudioBuffer :=
  let '(line, data) := s in
  let '(delayed, line1) := DelayLine_popSample line ch in
  let line2 := DelayLine_pushSample line1 ch (getSample data ch i) in
  (line2, setSample data ch i delayed).

(** [for (ch < numChannels) for (i < numSamples) ...] *)
Definition applyPreDelay (line : DelayLine) (data : AudioBuffer)
    (numChannels numSamples : nat) : DelayLine * AudioBuffer :=
  for_range numChannels
    (fun ch => for_range numSamples (preDelay_sample ch)) (line, data).

End PreDelay.

End PreDelay.
Export PreDelay.

(* ===================================================================== *)
(** * [DSPModules.h], namespace [dspmodules] *)
(* ===================================================================== *)

Module DSPModules.

Section DSPModules.
Context {F D : Type} `{FloatOps F} `{LibmOps F} `{DoubleOps F D} `{JuceDsp F D}.

Local Abbreviation AudioBuffer := (Juce.AudioBuffer F).
Local Abbreviation DelayLine := (Juce.DelayLine F).

(** ** [dspmodules::MultibandCompressor] *)

Record MultibandCompressor := mkMultibandCompressor {
  lowCrossover : LinkwitzRileyFilter;
  highCrossover : LinkwitzRileyFilter;
  lowBandCompressor : Compressor;
  midBandCompressor : Compressor;
  highBandCompressor : Compressor;
  lowBandBuffer : AudioBuffer;
  midBandBuffer : AudioBuffer;
  highBandBuffer : AudioBuffer
}.

(** The band buffers as [prepare (spec)] sizes them. *)
Definition MultibandCompressor_prepare (numChannels maximumBlockSize : nat)
    (m : MultibandCompressor) : MultibandCompressor :=
  let sized := replicate numChannels (replicate maximumBlockSize f_zero) in
  mkMultibandCompressor (lowCrossover m) (highCrossover m)
    (lowBandCompressor m) (midBandCompressor m) (highBandCompressor m)
    sized sized sized.

(** First part of [process]: "Copy input to band buffers", "Apply crossover
    filters", "Mid band = original - low - high". *)
Definition MultibandCompressor_split (m : MultibandCompressor)
    (buffer : AudioBuffer) : MultibandCompressor :=
  let numSamples := getNumSamples buffer in
  let numChannels := getNumChannels buffer in
  let '(low0, mid0, high0) :=
    for_range numChannels
      (fun ch '(l, md, h) =>
         (copyFrom l ch buffer ch numSamples,
          copyFrom md ch buffer ch numSamples,
          copyFrom h ch buffer ch numSamples))
      (lowBandBuffer m, midBandBuffer m, highBandBuffer m) in
  let '(lowX, low1) := process_block lr_processSample (lowCrossover m) low0 in
  let '(highX, high1) := process_block lr_processSample (highCrossover m) high0 in
  let mid1 :=
    for_range numChannels
      (fun ch =>
         for_range numSamples
           (fun i midData =>
              setSample midData ch i
                (f_sub (f_sub (getSample buffer ch i) (getSample low1 ch i))
                   (getSample high1 ch i))))
      mid0 in
  mkMultibandCompressor lowX highX
    (lowBandCompressor m) (midBandCompressor m) (highBandCompressor m)
    low1 mid1 high1.

(** Second part: "Apply compression to each band". *)
Definition MultibandCompressor_compress (m : MultibandCompressor)
    : MultibandCompressor :=
  let '(lowC, low2) :=
    process_block comp_processSample (lowBandCompressor m) (lowBandBuffer m) in
  let '(midC, mid2) :=
    process_block comp_processSample (midBandCompressor m) (midBandBuffer m) in
  let '(highC, high2) :=
    process_block comp_processSample (highBandCompressor m) (highBandBuffer m) in
  mkMultibandCompressor (lowCrossover m) (highCrossover m)
    lowC midC highC low2 mid2 high2.

(** Third part: "Sum bands back together". *)
Definition sum_bands (low mid high : AudioBuffer)
    (numChannels numSamples : nat) (buffer : AudioBuffer) : AudioBuffer :=
  for_range numChannels
    (fun ch =>
       for_range numSamples
         (fun i outputData =>
            setSample outputData ch i
              (f_add (f_add (getSample low ch i) (getSample mid ch i))
                 (getSample high ch i))))
    (clear buffer).

(** [MultibandCompressor::process (buffer)] *)
Definition MultibandCompressor_process (m : MultibandCompressor)
    (buffer : AudioBuffer) : MultibandCompressor * AudioBuffer :=
  let m1 := MultibandCompressor_split m buffer in
  let m2 := MultibandCompressor_compress m1 in
  (m2, sum_bands (lowBandBuffer m2) (midBandBuffer m2) (highBandBuffer m2)
         (getNumChannels buffer) (getNumSamples buffer) buffer).

(** ** [dspmodules::DeEsser] *)

Record DeEsser := mkDeEsser {
  frequency : F;
  threshold : F;
  ratio : F;
  de_currentSampleRate : D;
  sibilanceFilter : IIRFilter;
  compressor : Compressor;
  sideChainBuffer : AudioBuffer
}.

(** [DeEsser()]; [rate] is [44100.0], the filter and compressor are
    default-constructed by JUCE. *)
Definition DeEsser_new (rate : D) (flt : IIRFilter) (cmp : Compressor)
    : DeEsser :=
  mkDeEsser (f_lit 6000) (f_lit (-20)) (f_lit 4) rate flt cmp [].

(** [setThreshold (dB)] *)
Definition DeEsser_setThreshold (dB : F) (d : DeEsser) : DeEsser :=
  let t := jlimit (f_lit (-60)) (f_lit 0) dB in
  mkDeEsser (frequency d) t (ratio d) (de_currentSampleRate d)
    (sibilanceFilter d) (comp_setThreshold t (compressor d))
    (sideChainBuffer d).

(** [setRatio (r)] *)
Definition DeEsser_setRatio (r : F) (d : DeEsser) : DeEsser :=
  let r' := jlimit (f_lit 1) (f_lit 20) r in
  mkDeEsser (frequency d) (threshold d) r' (de_currentSampleRate d)
    (sibilanceFilter d) (comp_setRatio r' (compressor d))
    (sideChainBuffer d).

(** [setFrequency (freq)] *)
Definition DeEsser_setFrequency (freq : F) (d : DeEsser) : DeEsser :=
  let f := jlimit (f_lit 2000) (f_lit 10000) freq in
  mkDeEsser f (threshold d) (ratio d) (de_currentSampleRate d)
    (iir_setState (makeHighPass (de_currentSampleRate d) f)
       (sibilanceFilter d))
    (compressor d) (sideChainBuffer d).

(** [prepare (spec)]: the sample rate, the coefficients of the high-pass
    filter ([updateFilterCoefficients]), the threshold and the ratio of the
    compressor, and the size of the side-chain buffer.  JUCE's [setSize]
    leaves the contents of the buffer open; the model fills it with zeros.
    What [prepare], [setAttack] and [setRelease] do inside the two JUCE
    objects stays inside their abstract states. *)
Definition DeEsser_prepare (sampleRate : D)
    (numChannels maximumBlockSize : nat) (d : DeEsser) : DeEsser :=
  mkDeEsser (frequency d) (threshold d) (ratio d) sampleRate
    (iir_setState (makeHighPass sampleRate (frequency d)) (sibilanceFilter d))
    (comp_setRatio (ratio d) (comp_setThreshold (threshold d) (compressor d)))
    (replicate numChannels (replicate maximumBlockSize f_zero)).

(** "Measure sibilance level": the mean over the channels of [std::abs]
    of the filtered side chain at sample [i]. *)
Definition sibilanceLevel (sideChain : AudioBuffer) (numChannels i : nat) : F :=
  f_div
    (for_range numChannels
       (fun ch level => f_add level (f_abs (getSample sideChain ch i)))
       f_zero)
    (f_of_int (Z.of_nat numChannels)).

(** "Calculate gain reduction based on sibilance". *)
Definition gainReduction (d : DeEsser) (level : F) : F :=
  let thresholdLinear := dBToGain (threshold d) in
  if f_ltb thresholdLinear level
  then
    let overThreshold := f_div level thresholdLinear in
    f_div f_one
      (f_pow overThreshold (f_sub f_one (f_div f_one (ratio d))))
  else f_one.

(** "Copy to sidechain buffer and filter": the filtered side chain and the
    filter afterwards. *)
Definition DeEsser_sideChain (d : DeEsser) (buffer : AudioBuffer)
    : IIRFilter * AudioBuffer :=
  let numSamples := getNumSamples buffer in
  let numChannels := getNumChannels buffer in
  process_block iir_processSample (sibilanceFilter d)
    (for_range numChannels
       (fun ch sc => copyFrom sc ch buffer ch numSamples)
       (sideChainBuffer d)).

(** "Apply gain reduction to original signal", sample [i]. *)
Definition DeEsser_sample (d : DeEsser) (sideChain : AudioBuffer)
    (numChannels i : nat) (buffer : AudioBuffer) : AudioBuffer :=
  let g := gainReduction d (sibilanceLevel sideChain numChannels i) in
  for_range numChannels
    (fun ch b => setSample b ch i (f_mul (getSample b ch i) g))
    buffer.

(** [DeEsser::process (buffer)] *)
Definition DeEsser_process (d : DeEsser) (buffer : AudioBuffer)
    : DeEsser * AudioBuffer :=
  let numSamples := getNumSamples buffer in
  let numChannels := getNumChannels buffer in
  let '(flt, sideChain) := DeEsser_sideChain d buffer in
  (mkDeEsser (frequency d) (threshold d) (ratio d) (de_currentSampleRate d)
     flt (compressor d) sideChain,
   for_range numSamples (DeEsser_sample d sideChain numChannels) buffer).

(** ** [dspmodules::StereoWidener] *)

Record StereoWidener := mkStereoWidener {
  width : F;
  sw_frequency : F;
  outputGain : F;
  sw_currentSampleRate : D;
  bassFilter : IIRFilter
}.

(** [StereoWidener()] *)
Definition StereoWidener_new (rate : D) (flt : IIRFilter) : StereoWidener :=
  mkStereoWidener (f_lit 1) (f_lit 200) (f_lit 1) rate flt.

(** [setWidth (w)] *)
Definition StereoWidener_setWidth (w : F) (s : StereoWidener) : StereoWidener :=
  mkStereoWidener (jlimit (f_lit 0) (f_lit 2) w) (sw_frequency s)
    (outputGain s) (sw_currentSampleRate s) (bassFilter s).

Definition StereoWidener_sample (s : StereoWidener) (i : nat)
    (buffer : AudioBuffer) : AudioBuffer :=
  let left := getSample buffer 0 i in
  let right := getSample buffer 1 i in
  let mid := f_mul (f_add left right) (f_lit (1 # 2)) in
  let side := f_mul (f_sub left right) (f_lit (1 # 2)) in
  let side := f_mul side (width s) in
  setSample
    (setSample buffer 0 i (f_mul (f_add mid side) (outputGain s)))
    1 i (f_mul (f_sub mid side) (outputGain s)).

(** [StereoWidener::process (buffer)] *)
Definition StereoWidener_process (s : StereoWidener) (buffer : AudioBuffer)
    : AudioBuffer :=
  if getNumChannels buffer <? 2 then buffer
  else for_range (getNumSamples buffer) (StereoWidener_sample s) buffer.

(** ** [dspmodules::EpicSpaceReverb] *)

Record EpicSpaceReverb := mkEpicSpaceReverb {
  preDelay : F;
  es_currentSampleRate : D;
  wetDryMix : F;
  earlyReflections : F;
  lateReverb : F;
  reverbTail : F;
  roomShape : F;
  reverb : Reverb;
  preDelayLine : DelayLine;
  earlyReflectionDelays : list DelayLine;
  dampingFilter : IIRFilter;
  wetBuffer : AudioBuffer
}.

Definition EARLY_REFLECTIONS_MIX : F := f_lit (3 # 10).
Definition ER_DECAY_FACTOR : F := f_lit (1 # 10).
Definition ROOM_SHAPE_OFFSET : F := f_lit (1 # 2).

(** [setPreDelay (ms)], with [updatePreDelay ()] *)
Definition EpicSpaceReverb_setPreDelay (ms : F) (r : EpicSpaceReverb)
    : EpicSpaceReverb :=
  let ms' := jlimit (f_lit 0) (f_lit 200) ms in
  mkEpicSpaceReverb ms' (es_currentSampleRate r)
    (wetDryMix r) (earlyReflections r) (lateReverb r)
    (reverbTail r) (roomShape r) (reverb r)
    (DelayLine_setDelay
       (d_to_float
          (d_div (d_mul (d_of_float ms') (es_currentSampleRate r)) (d_lit 1000)))
       (preDelayLine r))
    (earlyReflectionDelays r) (dampingFilter r) (wetBuffer r).

(** "Copy to wet buffer" and "Apply pre-delay": the delay line and the wet
    buffer when the pre-delay loop is done. *)
Definition EpicSpaceReverb_preDelay (r : EpicSpaceReverb) (buffer : AudioBuffer)
    : DelayLine * AudioBuffer :=
  let numSamples := getNumSamples buffer in
  let numChannels := getNumChannels buffer in
  let wet := copyFrom (wetBuffer r) 0 buffer 0 numSamples in
  let wet := if 1 <? numChannels
             then copyFrom wet 1 buffer 1 numSamples else wet in
  applyPreDelay (preDelayLine r) wet numChannels numSamples.

(** One tap of "Apply early reflections". *)
Definition earlyReflection_tap (r : EpicSpaceReverb) (x : F) (ch er : nat)
    (s : list DelayLine * F) : list DelayLine * F :=
  let '(delays, earlySum) := s in
  match delays !! er with
  | None => s
  | Some line =>
      let '(erSample, line1) := DelayLine_popSample line ch in
      let line2 := DelayLine_pushSample line1 ch x in
      let erGain :=
        f_mul (f_sub (f_lit 1) (f_mul (f_of_int (Z.of_nat er)) ER_DECAY_FACTOR))
          (earlyReflections r) in
      let erGain :=
        f_mul erGain
          (f_add ROOM_SHAPE_OFFSET (f_mul (roomShape r) ROOM_SHAPE_OFFSET)) in
      (<[er := line2]> delays, f_add earlySum (f_mul erSample erGain))
  end.

Definition earlyReflection_sample (r : EpicSpaceReverb) (i ch : nat)
    (s : list DelayLine * AudioBuffer) : list DelayLine * AudioBuffer :=
  let '(delays, wet) := s in
  let x := getSample wet ch i in
  let '(delays', earlySum) :=
    for_range 8 (earlyReflection_tap r x ch) (delays, f_zero) in
  (delays', setSample wet ch i (f_add x (f_mul earlySum EARLY_REFLECTIONS_MIX))).

(** [EpicSpaceReverb::process (buffer)] *)
Definition EpicSpaceReverb_process (r : EpicSpaceReverb) (buffer : AudioBuffer)
    : EpicSpaceReverb * AudioBuffer :=
  let numSamples := getNumSamples buffer in
  let numChannels := getNumChannels buffer in
  let '(pre, wet1) := EpicSpaceReverb_preDelay r buffer in
  let '(ers, wet2) :=
    if f_ltb (f_lit 0) (earlyReflections r)
    then for_range numSamples
           (fun i => for_range numChannels (earlyReflection_sample r i))
           (earlyReflectionDelays r, wet1)
    else (earlyReflectionDelays r, wet1) in
  let '(rev, wet3) := reverb_process (reverb r) wet2 in
  let '(damp, wet4) := process_block iir_processSample (dampingFilter r) wet3 in
  let wet5 := applyGain wet4 (f_mul (lateReverb r) (reverbTail r)) in
  (mkEpicSpaceReverb (preDelay r) (es_currentSampleRate r)
     (wetDryMix r) (earlyReflections r) (lateReverb r)
     (reverbTail r) (roomShape r) rev pre ers damp wet5,
   for_range numChannels
     (fun ch =>
        for_range numSamples
          (fun i outData =>
             setSample outData ch i
               (f_add
                  (f_mul (getSample outData ch i)
                     (f_sub (f_lit 1) (wetDryMix r)))
                  (f_mul (getSample wet5 ch i) (wetDryMix r)))))
     buffer).

End DSPModules.


End DSPModules.

(* ===================================================================== *)
(** * [CinematicAudioEnhancer.cpp], namespace [MAEVN] *)
(* ===================================================================== *)

Module Cinematic.

Section Cinematic.
Context {F D : Type} `{FloatOps F} `{LibmOps F} `{DoubleOps F D} `{JuceDsp F D}.

Local Abbreviation AudioBuffer := (Juce.AudioBuffer F).
Local Abbreviation DelayLine := (Juce.DelayLine F).

(** ** [CinematicReverb] *)

Record CinematicReverb := mkCinematicReverb {
  cr_reverb : Reverb;
  reverbParams : ReverbParameters F;
  cr_preDelayLine : DelayLine;
  preDelayMs : F;
  cr_currentSampleRate : D
}.

(** [CinematicReverb()]; [rate] is [44100.0], [rev] the default-constructed
    JUCE reverb, and the header declares [preDelayLine{192000}]. *)
Definition CinematicReverb_new (rate : D) (rev : Reverb) : CinematicReverb :=
  let params :=
    mkReverbParameters (f_lit (8 # 10)) (f_lit (4 # 10)) (f_lit (25 # 100))
      (f_lit (75 # 100)) (f_lit 1) (f_lit 0) in
  mkCinematicReverb (reverb_setParameters params rev) params
    (DelayLine_new (Z.to_nat 192000)) (f_lit 30) rate.

(** [static_cast<float>(ms * sampleRate / 1000.0)] *)
Definition delaySamples (ms : F) (sampleRate : D) : F :=
  d_to_float (d_div (d_mul (d_of_float ms) sampleRate) (d_lit 1000)).

(** [CinematicReverb::prepare (sampleRate, maxBlockSize)] *)
Definition CinematicReverb_prepare (sampleRate : D) (maxBlockSize : nat)
    (r : CinematicReverb) : CinematicReverb :=
  mkCinematicReverb
    (reverb_prepare sampleRate maxBlockSize 2 (cr_reverb r))
    (reverbParams r)
    (DelayLine_setDelay (delaySamples (preDelayMs r) sampleRate)
       (DelayLine_prepare 2 (cr_preDelayLine r)))
    (preDelayMs r) sampleRate.

(** [CinematicReverb::reset ()] is [reverb.reset()] and
    [preDelayLine.reset()]; only the delay line is followed here. *)
Definition CinematicReverb_resetLine (r : CinematicReverb) : CinematicReverb :=
  mkCinematicReverb (cr_reverb r) (reverbParams r)
    (DelayLine_reset (cr_preDelayLine r)) (preDelayMs r)
    (cr_currentSampleRate r).

(** [CinematicReverb::setPreDelay (ms)] *)
Definition CinematicReverb_setPreDelay (ms : F) (r : CinematicReverb)
    : CinematicReverb :=
  let ms' := jlimit (f_lit 0) (f_lit 200) ms in
  mkCinematicReverb (cr_reverb r) (reverbParams r)
    (DelayLine_setDelay (delaySamples ms' (cr_currentSampleRate r))
       (cr_preDelayLine r))
    ms' (cr_currentSampleRate r).

Definition with_reverbParams (p : ReverbParameters F) (r : CinematicReverb)
    : CinematicReverb :=
  mkCinematicReverb (reverb_setParameters p (cr_reverb r)) p
    (cr_preDelayLine r) (preDelayMs r) (cr_currentSampleRate r).

(** [CinematicReverb::setRoomSize (size)] *)
Definition CinematicReverb_setRoomSize (size : F) (r : CinematicReverb)
    : CinematicReverb :=
  let p := reverbParams r in
  with_reverbParams
    (mkReverbParameters (clamp size (f_lit 0) (f_lit 1)) (rp_damping p)
       (rp_wetLevel p) (rp_dryLevel p) (rp_width p) (rp_freezeMode p)) r.

(** [CinematicReverb::setWetLevel (level)] *)
Definition CinematicReverb_setWetLevel (level : F) (r : CinematicReverb)
    : CinematicReverb :=
  let p := reverbParams r in
  with_reverbParams
    (mkReverbParameters (rp_roomSize p) (rp_damping p)
       (clamp level (f_lit 0) (f_lit 1)) (rp_dryLevel p) (rp_width p)
       (rp_freezeMode p)) r.

(** [CinematicReverb::setDryLevel (level)] *)
Definition CinematicReverb_setDryLevel (level : F) (r : CinematicReverb)
    : CinematicReverb :=
  let p := reverbParams r in
  with_reverbParams
    (mkReverbParameters (rp_roomSize p) (rp_damping p) (rp_wetLevel p)
       (clamp level (f_lit 0) (f_lit 1)) (rp_width p) (rp_freezeMode p)) r.

(** "Apply pre-delay first": the delay line and the block when the
    pre-delay loop is done. *)
Definition CinematicReverb_preDelay (r : CinematicReverb) (buffer : AudioBuffer)
    (numSamples : nat) : DelayLine * AudioBuffer :=
  applyPreDelay (cr_preDelayLine r) buffer (getNumChannels buffer) numSamples.

(** [CinematicReverb::process (buffer, numSamples)]; the reverb works on
    the first [numSamples] samples of every channel. *)
Definition CinematicReverb_process (r : CinematicReverb) (buffer : AudioBuffer)
    (numSamples : nat) : CinematicReverb * AudioBuffer :=
  let '(line, delayed) := CinematicReverb_preDelay r buffer numSamples in
  let '(rev, wet) := reverb_process (cr_reverb r) (map (take numSamples) delayed) in
  (mkCinematicReverb rev (reverbParams r) line (preDelayMs r)
     (cr_currentSampleRate r),
   zip_with (fun w c => w ++ drop numSamples c) wet delayed).

(** ** [MAEVN::MultibandCompressor] (two channels) *)

Record MultibandCompressor := mkMultibandCompressor {
  lowCrossover : LinkwitzRileyFilter;
  highCrossover : LinkwitzRileyFilter;
  lowBandCompressor : Compressor;
  midBandCompressor : Compressor;
  highBandCompressor : Compressor;
  lowBandBuffer : AudioBuffer;
  midBandBuffer : AudioBuffer;
  highBandBuffer : AudioBuffer
}.

(** The band buffers as [prepare (sampleRate, maxBlockSize)] sizes them. *)
Definition MultibandCompressor_prepare (maxBlockSize : nat)
    (m : MultibandCompressor) : MultibandCompressor :=
  let sized := replicate 2 (replicate maxBlockSize f_zero) in
  mkMultibandCompressor (lowCrossover m) (highCrossover m)
    (lowBandCompressor m) (midBandCompressor m) (highBandCompressor m)
    sized sized sized.

(** First part of [process]: "Copy input to band buffers", "Apply crossover
    filters", "Mid band is what's left". *)
Definition MultibandCompressor_split (m : MultibandCompressor)
    (buffer : AudioBuffer) (numSamples : nat) : MultibandCompressor :=
  let low0 :=
    copyFrom (copyFrom (lowBandBuffer m) 0 buffer 0 numSamples)
      1 buffer 1 numSamples in
  let mid0 :=
    copyFrom (copyFrom (midBandBuffer m) 0 buffer 0 numSamples)
      1 buffer 1 numSamples in
  let high0 :=
    copyFrom (copyFrom (highBandBuffer m) 0 buffer 0 numSamples)
      1 buffer 1 numSamples in
  let '(lowX, low1) :=
    process_subblock lr_processSample 2 numSamples (lowCrossover m) low0 in
  let '(highX, high1) :=
    process_subblock lr_processSample 2 numSamples (highCrossover m) high0 in
  let mid1 :=
    for_range 2
      (fun channel =>
         for_range numSamples
           (fun i midData =>
              setSample midData channel i
                (f_sub
                   (f_sub (getSample midData channel i)
                      (getSample low1 channel i))
                   (getSample high1 channel i))))
      mid0 in
  mkMultibandCompressor lowX highX
    (lowBandCompressor m) (midBandCompressor m) (highBandCompressor m)
    low1 mid1 high1.

(** Second part: "Apply compression to each band". *)
Definition MultibandCompressor_compress (m : MultibandCompressor)
    : MultibandCompressor :=
  let '(lowC, low2) :=
    process_block comp_processSample (lowBandCompressor m) (lowBandBuffer m) in
  let '(midC, mid2) :=
    process_block comp_processSample (midBandCompressor m) (midBandBuffer m) in
  let '(highC, high2) :=
    process_block comp_processSample (highBandCompressor m) (highBandBuffer m) in
  mkMultibandCompressor (lowCrossover m) (highCrossover m)
    lowC midC highC low2 mid2 high2.

(** [MultibandCompressor::process (buffer, numSamples)]; the third part,
    "Sum bands back together", is the loop of [DSPModules.sum_bands]. *)
Definition MultibandCompressor_process (m : MultibandCompressor)
    (buffer : AudioBuffer) (numSamples : nat)
    : MultibandCompressor * AudioBuffer :=
  let m1 := MultibandCompressor_split m buffer numSamples in
  let m2 := MultibandCompressor_compress m1 in
  (m2, DSPModules.sum_bands (lowBandBuffer m2) (midBandBuffer m2)
         (highBandBuffer m2) 2 numSamples buffer).

(** ** [StereoImager] *)

Record StereoImager := mkStereoImager {
  stereoWidth : F;
  monoFrequency : F;
  si_currentSampleRate : D;
  lowPassFilter : IIRFilter
}.

(** [StereoImager()]; [rate] is [44100.0]. *)
Definition StereoImager_new (rate : D) (flt : IIRFilter) : StereoImager :=
  mkStereoImager (f_lit (12 # 10)) (f_lit 200) rate flt.

(** [StereoImager::setWidth (width)] *)
Definition StereoImager_setWidth (width : F) (s : StereoImager) : StereoImager :=
  mkStereoImager (jlimit (f_lit 0) (f_lit 2) width) (monoFrequency s)
    (si_currentSampleRate s) (lowPassFilter s).

(** [StereoImager::setMonoFrequency (frequency)] *)
Definition StereoImager_setMonoFrequency (frequency : F) (s : StereoImager)
    : StereoImager :=
  let f := jlimit (f_lit 50) (f_lit 500) frequency in
  mkStereoImager (stereoWidth s) f (si_currentSampleRate s)
    (iir_setState (makeLowPass (si_currentSampleRate s) f) (lowPassFilter s)).

(** [StereoImager::reset ()] *)
Definition StereoImager_reset (s : StereoImager) : StereoImager :=
  mkStereoImager (stereoWidth s) (monoFrequency s) (si_currentSampleRate s)
    (iir_reset (lowPassFilter s)).

(** The loop body of [StereoImager::process]. *)
Definition StereoImager_sample (s : StereoImager) (i : nat)
    (buffer : AudioBuffer) : AudioBuffer :=
  let left := getSample buffer 0 i in
  let right := getSample buffer 1 i in
  let mid := f_mul (f_add left right) (f_lit (1 # 2)) in
  let side := f_mul (f_sub left right) (f_lit (1 # 2)) in
  let side := f_mul side (stereoWidth s) in
  setSample (setSample buffer 0 i (f_add mid side)) 1 i (f_sub mid side).

(** [StereoImager::process (buffer, numSamples)]; no member is written. *)
Definition StereoImager_process (s : StereoImager) (buffer : AudioBuffer)
    (numSamples : nat) : AudioBuffer :=
  if getNumChannels buffer <? 2 then buffer
  else for_range numSamples (StereoImager_sample s) buffer.

(** ** [LoudnessNormalizer] *)

Record LoudnessNormalizer := mkLoudnessNormalizer {
  targetLUFS : F;
  currentLUFS : F;
  currentGain : F;
  rmsSum : F;
  rmsSampleCount : Z;
  ln_currentSampleRate : D
}.

Definition RMS_WINDOW_SIZE : Z := 44100.

(** [LoudnessNormalizer()]; [rate] is [44100.0]. *)
Definition LoudnessNormalizer_new (rate : D) : LoudnessNormalizer :=
  mkLoudnessNormalizer (f_lit (-14)) (f_lit (-24)) (f_lit 1) (f_lit 0) 0 rate.

(** [LoudnessNormalizer::reset ()] *)
Definition LoudnessNormalizer_reset (l : LoudnessNormalizer)
    : LoudnessNormalizer :=
  mkLoudnessNormalizer (targetLUFS l) (f_lit (-24)) (f_lit 1) (f_lit 0) 0
    (ln_currentSampleRate l).

(** [LoudnessNormalizer::setTargetLUFS (lufs)] *)
Definition LoudnessNormalizer_setTargetLUFS (lufs : F) (l : LoudnessNormalizer)
    : LoudnessNormalizer :=
  mkLoudnessNormalizer (jlimit (f_lit (-24)) (f_lit (-6)) lufs)
    (currentLUFS l) (currentGain l) (rmsSum l) (rmsSampleCount l)
    (ln_currentSampleRate l).

(** The clamped gain adjustment of [updateGain], in decibels. *)
Definition gainDB (l : LoudnessNormalizer) : F :=
  jlimit (f_lit (-12)) (f_lit 12) (f_sub (targetLUFS l) (currentLUFS l)).

(** [LoudnessNormalizer::updateGain ()] *)
Definition updateGain (l : LoudnessNormalizer) : LoudnessNormalizer :=
  let targetGain := dBToGain (gainDB l) in
  mkLoudnessNormalizer (targetLUFS l) (currentLUFS l)
    (f_add (f_mul (currentGain l) (f_lit (9 # 10)))
       (f_mul targetGain (f_lit (1 # 10))))
    (rmsSum l) (rmsSampleCount l) (ln_currentSampleRate l).

(** "Measure RMS": the sum of the squares of the block. *)
Definition sumSquares (buffer : AudioBuffer) (numSamples : nat) : F :=
  for_range (getNumChannels buffer)
    (fun channel =>
       for_range numSamples
         (fun i acc =>
            f_add acc
              (f_mul (getSample buffer channel i) (getSample buffer channel i))))
    f_zero.

(** The measurement part of [process]: the state before "Apply gain".
    [rmsSampleCount] is an [int]; it stays below [RMS_WINDOW_SIZE] plus one
    block, far from overflow. *)
Definition LoudnessNormalizer_measure (l : LoudnessNormalizer)
    (buffer : AudioBuffer) (numSamples : nat) : LoudnessNormalizer :=
  let sum := f_add (rmsSum l) (sumSquares buffer numSamples) in
  let count :=
    (rmsSampleCount l
     + Z.of_nat numSamples * Z.of_nat (getNumChannels buffer))%Z in
  if (RMS_WINDOW_SIZE <=? count)%Z
  then
    let rms := f_sqrt (f_div sum (f_of_int count)) in
    let lufs :=
      f_mul (f_lit 20) (f_log10 (f_add rms (f_lit (1 # 10000000)))) in
    let l' :=
      updateGain
        (mkLoudnessNormalizer (targetLUFS l) lufs (currentGain l) sum count
           (ln_currentSampleRate l)) in
    mkLoudnessNormalizer (targetLUFS l') (currentLUFS l') (currentGain l')
      (f_lit 0) 0 (ln_currentSampleRate l')
  else
    mkLoudnessNormalizer (targetLUFS l) (currentLUFS l) (currentGain l)
      sum count (ln_currentSampleRate l).

(** [LoudnessNormalizer::process (buffer, numSamples)] *)
Definition LoudnessNormalizer_process (l : LoudnessNormalizer)
    (buffer : AudioBuffer) (numSamples : nat)
    : LoudnessNormalizer * AudioBuffer :=
  let l' := LoudnessNormalizer_measure l buffer numSamples in
  (l', applyGain buffer (currentGain l')).

(** ** The stages of the chain that are not followed further

    [HighPassFilter], [PresenceEQ], [GentleCompressor], [SubtleDelay],
    [ModulationEffect], [WarmSaturation] and [FinalLimiter] enter the
    orchestrator through [process (buffer, numSamples)] and the setters its
    own setters call. *)
End Cinematic.

Arguments LoudnessNormalizer : clear implicits.

Class EnhancerStages (F : Type) := {
  HighPassFilter : Type;
  hp_process : HighPassFilter -> AudioBuffer F -> nat
               -> HighPassFilter * AudioBuffer F;
  hp_setCutoffFrequency : F -> HighPassFilter -> HighPassFilter;
  PresenceEQ : Type;
  peq_process : PresenceEQ -> AudioBuffer F -> nat -> PresenceEQ * AudioBuffer F;
  peq_setFrequency : F -> PresenceEQ -> PresenceEQ;
  peq_setGain : F -> PresenceEQ -> PresenceEQ;
  GentleCompressor : Type;
  gc_process : GentleCompressor -> AudioBuffer F -> nat
               -> GentleCompressor * AudioBuffer F;
  gc_setThreshold : F -> GentleCompressor -> GentleCompressor;
  gc_setRatio : F -> GentleCompressor -> GentleCompressor;
  SubtleDelay : Type;
  sd_process : SubtleDelay -> AudioBuffer F -> nat -> SubtleDelay * AudioBuffer F;
  sd_setDelayTime : F -> SubtleDelay -> SubtleDelay;
  sd_setMix : F -> SubtleDelay -> SubtleDelay;
  ModulationEffect : Type;
  me_process : ModulationEffect -> AudioBuffer F -> nat
               -> ModulationEffect * AudioBuffer F;
  me_setRate : F -> ModulationEffect -> ModulationEffect;
  me_setDepth : F -> ModulationEffect -> ModulationEffect;
  me_setMix : F -> ModulationEffect -> ModulationEffect;
  WarmSaturation : Type;
  ws_process : WarmSaturation -> AudioBuffer F -> nat
               -> WarmSaturation * AudioBuffer F;
  ws_setDrive : F -> WarmSaturation -> WarmSaturation;
  FinalLimiter : Type;
  fl_process : FinalLimiter -> AudioBuffer F -> nat
               -> FinalLimiter * AudioBuffer F;
  fl_setCeiling : F -> FinalLimiter -> FinalLimiter
}.

Section Enhancer.
Context {F D : Type} `{FloatOps F} `{LibmOps F} `{DoubleOps F D} `{JuceDsp F D}
  `{EnhancerStages F}.

Local Abbreviation AudioBuffer := (Juce.AudioBuffer F).

(** ** [CinematicAudioEnhancer] *)

Record CinematicAudioEnhancer := mkEnhancer {
  highPassFilter : HighPassFilter;
  presenceEQ : PresenceEQ;
  vocalCompressor : GentleCompressor;
  cinematicReverb : CinematicReverb;
  subtleDelay : SubtleDelay;
  modulationEffect : ModulationEffect;
  warmSaturation : WarmSaturation;
  multibandCompressor : MultibandCompressor;
  stereoImager : StereoImager;
  loudnessNormalizer : LoudnessNormalizer F D;
  finalLimiter : FinalLimiter;
  highPassEnabled : bool;
  presenceEQEnabled : bool;
  vocalCompressorEnabled : bool;
  cinematicReverbEnabled : bool;
  subtleDelayEnabled : bool;
  modulationEnabled : bool;
  saturationEnabled : bool;
  multibandCompressorEnabled : bool;
  stereoImagerEnabled : bool;
  loudnessNormalizerEnabled : bool;
  finalLimiterEnabled : bool
}.

(** Assignments to one member. *)
Definition set_highPassFilter (v : HighPassFilter) (e : CinematicAudioEnhancer)
    : CinematicAudioEnhancer :=
  mkEnhancer v (presenceEQ e) (vocalCompressor e) (cinematicReverb e)
    (subtleDelay e) (modulationEffect e) (warmSaturation e)
    (multibandCompressor e) (stereoImager e) (loudnessNormalizer e)
    (finalLimiter e) (highPassEnabled e) (presenceEQEnabled e)
    (vocalCompressorEnabled e) (cinematicReverbEnabled e)
    (subtleDelayEnabled e) (modulationEnabled e) (saturationEnabled e)
    (multibandCompressorEnabled e) (stereoImagerEnabled e)
    (loudnessNormalizerEnabled e) (finalLimiterEnabled e).

Definition set_presenceEQ (v : PresenceEQ) (e : CinematicAudioEnhancer)
    : CinematicAudioEnhancer :=
  mkEnhancer (highPassFilter e) v (vocalCompressor e) (cinematicReverb e)
    (subtleDelay e) (modulationEffect e) (warmSaturation e)
    (multibandCompressor e) (stereoImager e) (loudnessNormalizer e)
    (finalLimiter e) (highPassEnabled e) (presenceEQEnabled e)
    (vocalCompressorEnabled e) (cinematicReverbEnabled e)
    (subtleDelayEnabled e) (modulationEnabled e) (saturationEnabled e)
    (multibandCompressorEnabled e) (stereoImagerEnabled e)
    (loudnessNormalizerEnabled e) (finalLimiterEnabled e).

Definition set_vocalCompressor (v : GentleCompressor) (e : CinematicAudioEnhancer)
    : CinematicAudioEnhancer :=
  mkEnhancer (highPassFilter e) (presenceEQ e) v (cinematicReverb e)
    (subtleDelay e) (modulationEffect e) (warmSaturation e)
    (multibandCompressor e) (stereoImager e) (loudnessNormalizer e)
    (finalLimiter e) (highPassEnabled e) (presenceEQEnabled e)
    (vocalCompressorEnabled e) (cinematicReverbEnabled e)
    (subtleDelayEnabled e) (modulationEnabled e) (saturationEnabled e)
    (multibandCompressorEnabled e) (stereoImagerEnabled e)
    (loudnessNormalizerEnabled e) (finalLimiterEnabled e).

Definition set_cinematicReverb (v : CinematicReverb) (e : CinematicAudioEnhancer)
    : CinematicAudioEnhancer :=
  mkEnhancer (highPassFilter e) (presenceEQ e) (vocalCompressor e) v
    (subtleDelay e) (modulationEffect e) (warmSaturation e)
    (multibandCompressor e) (stereoImager e) (loudnessNormalizer e)
    (finalLimiter e) (highPassEnabled e) (presenceEQEnabled e)
    (vocalCompressorEnabled e) (cinematicReverbEnabled e)
    (subtleDelayEnabled e) (modulationEnabled e) (saturationEnabled e)
    (multibandCompressorEnabled e) (stereoImagerEnabled e)
    (loudnessNormalizerEnabled e) (finalLimiterEnabled e).

Definition set_subtleDelay (v : SubtleDelay) (e : CinematicAudioEnhancer)
    : CinematicAudioEnhancer :=
  mkEnhancer (highPassFilter e) (presenceEQ e) (vocalCompressor e)
    (cinematicReverb e) v (modulationEffect e) (warmSaturation e)
    (multibandCompressor e) (stereoImager e) (loudnessNormalizer e)
    (finalLimiter e) (highPassEnabled e) (presenceEQEnabled e)
    (vocalCompressorEnabled e) (cinematicReverbEnabled e)
    (subtleDelayEnabled e) (modulationEnabled e) (saturationEnabled e)
    (multibandCompressorEnabled e) (stereoImagerEnabled e)
    (loudnessNormalizerEnabled e) (finalLimiterEnabled e).

Definition set_modulationEffect (v : ModulationEffect) (e : CinematicAudioEnhancer)
    : CinematicAudioEnhancer :=
  mkEnhancer (highPassFilter e) (presenceEQ e) (vocalCompressor e)
    (cinematicReverb e) (subtleDelay e) v (warmSaturation e)
    (multibandCompressor e) (stereoImager e) (loudnessNormalizer e)
    (finalLimiter e) (highPassEnabled e) (presenceEQEnabled e)
    (vocalCompressorEnabled e) (cinematicReverbEnabled e)
    (subtleDelayEnabled e) (modulationEnabled e) (saturationEnabled e)
    (multibandCompressorEnabled e) (stereoImagerEnabled e)
    (loudnessNormalizerEnabled e) (finalLimiterEnabled e).

Definition set_warmSaturation (v : WarmSaturation) (e : CinematicAudioEnhancer)
    : CinematicAudioEnhancer :=
  mkEnhancer (highPassFilter e) (presenceEQ e) (vocalCompressor e)
    (cinematicReverb e) (subtleDelay e) (modulationEffect e) v
    (multibandCompressor e) (stereoImager e) (loudnessNormalizer e)
    (finalLimiter e) (highPassEnabled e) (presenceEQEnabled e)
    (vocalCompressorEnabled e) (cinematicReverbEnabled e)
    (subtleDelayEnabled e) (modulationEnabled e) (saturationEnabled e)
    (multibandCompressorEnabled e) (stereoImagerEnabled e)
    (loudnessNormalizerEnabled e) (finalLimiterEnabled e).

Definition set_multibandCompressor (v : MultibandCompressor) (e : CinematicAudioEnhancer)
    : CinematicAudioEnhancer :=
  mkEnhancer (highPassFilter e) (presenceEQ e) (vocalCompressor e)
    (cinematicReverb e) (subtleDelay e) (modulationEffect e)
    (warmSaturation e) v (stereoImager e) (loudnessNormalizer e)
    (finalLimiter e) (highPassEnabled e) (presenceEQEnabled e)
    (vocalCompressorEnabled e) (cinematicReverbEnabled e)
    (subtleDelayEnabled e) (modulationEnabled e) (saturationEnabled e)
    (multibandCompressorEnabled e) (stereoImagerEnabled e)
    (loudnessNormalizerEnabled e) (finalLimiterEnabled e).

Definition set_stereoImager (v : StereoImager) (e : CinematicAudioEnhancer)
    : CinematicAudioEnhancer :=
  mkEnhancer (highPassFilter e) (presenceEQ e) (vocalCompressor e)
    (cinematicReverb e) (subtleDelay e) (modulationEffect e)
    (warmSaturation e) (multibandCompressor e) v (loudnessNormalizer e)
    (finalLimiter e) (highPassEnabled e) (presenceEQEnabled e)
    (vocalCompressorEnabled e) (cinematicReverbEnabled e)
    (subtleDelayEnabled e) (modulationEnabled e) (saturationEnabled e)
    (multibandCompressorEnabled e) (stereoImagerEnabled e)
    (loudnessNormalizerEnabled e) (finalLimiterEnabled e).

Definition set_loudnessNormalizer (v : LoudnessNormalizer F D) (e : CinematicAudioEnhancer)
    : CinematicAudioEnhancer :=
  mkEnhancer (highPassFilter e) (presenceEQ e) (vocalCompressor e)
    (cinematicReverb e) (subtleDelay e) (modulationEffect e)
    (warmSaturation e) (multibandCompressor e) (stereoImager e) v
    (finalLimiter e) (highPassEnabled e) (presenceEQEnabled e)
    (vocalCompressorEnabled e) (cinematicReverbEnabled e)
    (subtleDelayEnabled e) (modulationEnabled e) (saturationEnabled e)
    (multibandCompressorEnabled e) (stereoImagerEnabled e)
    (loudnessNormalizerEnabled e) (finalLimiterEnabled e).

Definition set_finalLimiter (v : FinalLimiter) (e : CinematicAudioEnhancer)
    : CinematicAudioEnhancer :=
  mkEnhancer (highPassFilter e) (presenceEQ e) (vocalCompressor e)
    (cinematicReverb e) (subtleDelay e) (modulationEffect e)
    (warmSaturation e) (multibandCompressor e) (stereoImager e)
    (loudnessNormalizer e) v (highPassEnabled e) (presenceEQEnabled e)
    (vocalCompressorEnabled e) (cinematicReverbEnabled e)
    (subtleDelayEnabled e) (modulationEnabled e) (saturationEnabled e)
    (multibandCompressorEnabled e) (stereoImagerEnabled e)
    (loudnessNormalizerEnabled e) (finalLimiterEnabled e).

Definition set_highPassEnabled (v : bool) (e : CinematicAudioEnhancer)
    : CinematicAudioEnhancer :=
  mkEnhancer (highPassFilter e) (presenceEQ e) (vocalCompressor e)
    (cinematicReverb e) (subtleDelay e) (modulationEffect e)
    (warmSaturation e) (multibandCompressor e) (stereoImager e)
    (loudnessNormalizer e) (finalLimiter e) v (presenceEQEnabled e)
    (vocalCompressorEnabled e) (cinematicReverbEnabled e)
    (subtleDelayEnabled e) (modulationEnabled e) (saturationEnabled e)
    (multibandCompressorEnabled e) (stereoImagerEnabled e)
    (loudnessNormalizerEnabled e) (finalLimiterEnabled e).

Definition set_presenceEQEnabled (v : bool) (e : CinematicAudioEnhancer)
    : CinematicAudioEnhancer :=
  mkEnhancer (highPassFilter e) (presenceEQ e) (vocalCompressor e)
    (cinematicReverb e) (subtleDelay e) (modulationEffect e)
    (warmSaturation e) (multibandCompressor e) (stereoImager e)
    (loudnessNormalizer e) (finalLimiter e) (highPassEnabled e) v
    (vocalCompressorEnabled e) (cinematicReverbEnabled e)
    (subtleDelayEnabled e) (modulationEnabled e) (saturationEnabled e)
    (multibandCompressorEnabled e) (stereoImagerEnabled e)
    (loudnessNormalizerEnabled e) (finalLimiterEnabled e).

Definition set_vocalCompressorEnabled (v : bool) (e : CinematicAudioEnhancer)
    : CinematicAudioEnhancer :=
  mkEnhancer (highPassFilter e) (presenceEQ e) (vocalCompressor e)
    (cinematicReverb e) (subtleDelay e) (modulationEffect e)
    (warmSaturation e) (multibandCompressor e) (stereoImager e)
    (loudnessNormalizer e) (finalLimiter e) (highPassEnabled e)
    (presenceEQEnabled e) v (cinematicReverbEnabled e) (subtleDelayEnabled e)
    (modulationEnabled e) (saturationEnabled e)
    (multibandCompressorEnabled e) (stereoImagerEnabled e)
    (loudnessNormalizerEnabled e) (finalLimiterEnabled e).

Definition set_cinematicReverbEnabled (v : bool) (e : CinematicAudioEnhancer)
    : CinematicAudioEnhancer :=
  mkEnhancer (highPassFilter e) (presenceEQ e) (vocalCompressor e)
    (cinematicReverb e) (subtleDelay e) (modulationEffect e)
    (warmSaturation e) (multibandCompressor e) (stereoImager e)
    (loudnessNormalizer e) (finalLimiter e) (highPassEnabled e)
    (presenceEQEnabled e) (vocalCompressorEnabled e) v (subtleDelayEnabled e)
    (modulationEnabled e) (saturationEnabled e)
    (multibandCompressorEnabled e) (stereoImagerEnabled e)
    (loudnessNormalizerEnabled e) (finalLimiterEnabled e).

Definition set_subtleDelayEnabled (v : bool) (e : CinematicAudioEnhancer)
    : CinematicAudioEnhancer :=
  mkEnhancer (highPassFilter e) (presenceEQ e) (vocalCompressor e)
    (cinematicReverb e) (subtleDelay e) (modulationEffect e)
    (warmSaturation e) (multibandCompressor e) (stereoImager e)
    (loudnessNormalizer e) (finalLimiter e) (highPassEnabled e)
    (presenceEQEnabled e) (vocalCompressorEnabled e)
    (cinematicReverbEnabled e) v (modulationEnabled e) (saturationEnabled e)
    (multibandCompressorEnabled e) (stereoImagerEnabled e)
    (loudnessNormalizerEnabled e) (finalLimiterEnabled e).

Definition set_modulationEnabled (v : bool) (e : CinematicAudioEnhancer)
    : CinematicAudioEnhancer :=
  mkEnhancer (highPassFilter e) (presenceEQ e) (vocalCompressor e)
    (cinematicReverb e) (subtleDelay e) (modulationEffect e)
    (warmSaturation e) (multibandCompressor e) (stereoImager e)
    (loudnessNormalizer e) (finalLimiter e) (highPassEnabled e)
    (presenceEQEnabled e) (vocalCompressorEnabled e)
    (cinematicReverbEnabled e) (subtleDelayEnabled e) v (saturationEnabled e)
    (multibandCompressorEnabled e) (stereoImagerEnabled e)
    (loudnessNormalizerEnabled e) (finalLimiterEnabled e).

Definition set_saturationEnabled (v : bool) (e : CinematicAudioEnhancer)
    : CinematicAudioEnhancer :=
  mkEnhancer (highPassFilter e) (presenceEQ e) (vocalCompressor e)
    (cinematicReverb e) (subtleDelay e) (modulationEffect e)
    (warmSaturation e) (multibandCompressor e) (stereoImager e)
    (loudnessNormalizer e) (finalLimiter e) (highPassEnabled e)
    (presenceEQEnabled e) (vocalCompressorEnabled e)
    (cinematicReverbEnabled e) (subtleDelayEnabled e) (modulationEnabled e) v
    (multibandCompressorEnabled e) (stereoImagerEnabled e)
    (loudnessNormalizerEnabled e) (finalLimiterEnabled e).

Definition set_multibandCompressorEnabled (v : bool) (e : CinematicAudioEnhancer)
    : CinematicAudioEnhancer :=
  mkEnhancer (highPassFilter e) (presenceEQ e) (vocalCompressor e)
    (cinematicReverb e) (subtleDelay e) (modulationEffect e)
    (warmSaturation e) (multibandCompressor e) (stereoImager e)
    (loudnessNormalizer e) (finalLimiter e) (highPassEnabled e)
    (presenceEQEnabled e) (vocalCompressorEnabled e)
    (cinematicReverbEnabled e) (subtleDelayEnabled e) (modulationEnabled e)
    (saturationEnabled e) v (stereoImagerEnabled e)
    (loudnessNormalizerEnabled e) (finalLimiterEnabled e).

Definition set_stereoImagerEnabled (v : bool) (e : CinematicAudioEnhancer)
    : CinematicAudioEnhancer :=
  mkEnhancer (highPassFilter e) (presenceEQ e) (vocalCompressor e)
    (cinematicReverb e) (subtleDelay e) (modulationEffect e)
    (warmSaturation e) (multibandCompressor e) (stereoImager e)
    (loudnessNormalizer e) (finalLimiter e) (highPassEnabled e)
    (presenceEQEnabled e) (vocalCompressorEnabled e)
    (cinematicReverbEnabled e) (subtleDelayEnabled e) (modulationEnabled e)
    (saturationEnabled e) (multibandCompressorEnabled e) v
    (loudnessNormalizerEnabled e) (finalLimiterEnabled e).

Definition set_loudnessNormalizerEnabled (v : bool) (e : CinematicAudioEnhancer)
    : CinematicAudioEnhancer :=
  mkEnhancer (highPassFilter e) (presenceEQ e) (vocalCompressor e)
    (cinematicReverb e) (subtleDelay e) (modulationEffect e)
    (warmSaturation e) (multibandCompressor e) (stereoImager e)
    (loudnessNormalizer e) (finalLimiter e) (highPassEnabled e)
    (presenceEQEnabled e) (vocalCompressorEnabled e)
    (cinematicReverbEnabled e) (subtleDelayEnabled e) (modulationEnabled e)
    (saturationEnabled e) (multibandCompressorEnabled e)
    (stereoImagerEnabled e) v (finalLimiterEnabled e).

Definition set_finalLimiterEnabled (v : bool) (e : CinematicAudioEnhancer)
    : CinematicAudioEnhancer :=
  mkEnhancer (highPassFilter e) (presenceEQ e) (vocalCompressor e)
    (cinematicReverb e) (subtleDelay e) (modulationEffect e)
    (warmSaturation e) (multibandCompressor e) (stereoImager e)
    (loudnessNormalizer e) (finalLimiter e) (highPassEnabled e)
    (presenceEQEnabled e) (vocalCompressorEnabled e)
    (cinematicReverbEnabled e) (subtleDelayEnabled e) (modulationEnabled e)
    (saturationEnabled e) (multibandCompressorEnabled e)
    (stereoImagerEnabled e) (loudnessNormalizerEnabled e) v.

(** One call [member.process (buffer, numSamples)] for each member. *)
Definition call_highPassFilter (n : nat)
    (s : CinematicAudioEnhancer * AudioBuffer)
    : CinematicAudioEnhancer * AudioBuffer :=
  let '(o, b) := hp_process (highPassFilter s.1) s.2 n in
  (set_highPassFilter o s.1, b).

Definition call_presenceEQ (n : nat)
    (s : CinematicAudioEnhancer * AudioBuffer)
    : CinematicAudioEnhancer * AudioBuffer :=
  let '(o, b) := peq_process (presenceEQ s.1) s.2 n in
  (set_presenceEQ o s.1, b).

Definition call_vocalCompressor (n : nat)
    (s : CinematicAudioEnhancer * AudioBuffer)
    : CinematicAudioEnhancer * AudioBuffer :=
  let '(o, b) := gc_process (vocalCompressor s.1) s.2 n in
  (set_vocalCompressor o s.1, b).

Definition call_modulationEffect (n : nat)
    (s : CinematicAudioEnhancer * AudioBuffer)
    : CinematicAudioEnhancer * AudioBuffer :=
  let '(o, b) := me_process (modulationEffect s.1) s.2 n in
  (set_modulationEffect o s.1, b).

Definition call_warmSaturation (n : nat)
    (s : CinematicAudioEnhancer * AudioBuffer)
    : CinematicAudioEnhancer * AudioBuffer :=
  let '(o, b) := ws_process (warmSaturation s.1) s.2 n in
  (set_warmSaturation o s.1, b).

Definition call_subtleDelay (n : nat)
    (s : CinematicAudioEnhancer * AudioBuffer)
    : CinematicAudioEnhancer * AudioBuffer :=
  let '(o, b) := sd_process (subtleDelay s.1) s.2 n in
  (set_subtleDelay o s.1, b).

Definition call_cinematicReverb (n : nat)
    (s : CinematicAudioEnhancer * AudioBuffer)
    : CinematicAudioEnhancer * AudioBuffer :=
  let '(o, b) := CinematicReverb_process (cinematicReverb s.1) s.2 n in
  (set_cinematicReverb o s.1, b).

Definition call_multibandCompressor (n : nat)
    (s : CinematicAudioEnhancer * AudioBuffer)
    : CinematicAudioEnhancer * AudioBuffer :=
  let '(o, b) := MultibandCompressor_process (multibandCompressor s.1) s.2 n in
  (set_multibandCompressor o s.1, b).

Definition call_stereoImager (n : nat)
    (s : CinematicAudioEnhancer * AudioBuffer)
    : CinematicAudioEnhancer * AudioBuffer :=
  (s.1, StereoImager_process (stereoImager s.1) s.2 n).

Definition call_loudnessNormalizer (n : nat)
    (s : CinematicAudioEnhancer * AudioBuffer)
    : CinematicAudioEnhancer * AudioBuffer :=
  let '(o, b) := LoudnessNormalizer_process (loudnessNormalizer s.1) s.2 n in
  (set_loudnessNormalizer o s.1, b).

Definition call_finalLimiter (n : nat)
    (s : CinematicAudioEnhancer * AudioBuffer)
    : CinematicAudioEnhancer * AudioBuffer :=
  let '(o, b) := fl_process (finalLimiter s.1) s.2 n in
  (set_finalLimiter o s.1, b).

(** [if (flag) member.process (buffer, numSamples);] *)
Definition guarded (flag : CinematicAudioEnhancer -> bool)
    (call : CinematicAudioEnhancer * AudioBuffer
            -> CinematicAudioEnhancer * AudioBuffer)
    (s : CinematicAudioEnhancer * AudioBuffer)
    : CinematicAudioEnhancer * AudioBuffer :=
  if flag s.1 then call s else s.

(** [CinematicAudioEnhancer::process (buffer, numSamples)] *)
Definition CinematicAudioEnhancer_process (e : CinematicAudioEnhancer)
    (buffer : AudioBuffer) (numSamples : nat)
    : CinematicAudioEnhancer * AudioBuffer :=
  let s := (e, buffer) in
  (* Vocal Processing Chain *)
  let s := guarded highPassEnabled (call_highPassFilter numSamples) s in
  let s := guarded presenceEQEnabled (call_presenceEQ numSamples) s in
  let s := guarded vocalCompressorEnabled (call_vocalCompressor numSamples) s in
  (* Multi-FX Processing *)
  let s := guarded modulationEnabled (call_modulationEffect numSamples) s in
  let s := guarded saturationEnabled (call_warmSaturation numSamples) s in
  let s := guarded subtleDelayEnabled (call_subtleDelay numSamples) s in
  let s := guarded cinematicReverbEnabled (call_cinematicReverb numSamples) s in
  (* Mastering Chain *)
  let s :=
    guarded multibandCompressorEnabled (call_multibandCompressor numSamples) s in
  let s := guarded stereoImagerEnabled (call_stereoImager numSamples) s in
  let s :=
    guarded loudnessNormalizerEnabled (call_loudnessNormalizer numSamples) s in
  guarded finalLimiterEnabled (call_finalLimiter numSamples) s.

(** The setters of the orchestrator. *)
Definition setHighPassEnabled := set_highPassEnabled.
Definition setPresenceEQEnabled := set_presenceEQEnabled.
Definition setVocalCompressorEnabled := set_vocalCompressorEnabled.
Definition setCinematicReverbEnabled := set_cinematicReverbEnabled.
Definition setSubtleDelayEnabled := set_subtleDelayEnabled.
Definition setModulationEnabled := set_modulationEnabled.
Definition setSaturationEnabled := set_saturationEnabled.
Definition setMultibandCompressorEnabled := set_multibandCompressorEnabled.
Definition setStereoImagerEnabled := set_stereoImagerEnabled.
Definition setLoudnessNormalizerEnabled := set_loudnessNormalizerEnabled.
Definition setFinalLimiterEnabled := set_finalLimiterEnabled.

Definition setHighPassCutoff (frequency : F) (e : CinematicAudioEnhancer) :=
  set_highPassFilter (hp_setCutoffFrequency frequency (highPassFilter e)) e.

Definition setPresenceFrequency (frequency : F) (e : CinematicAudioEnhancer) :=
  set_presenceEQ (peq_setFrequency frequency (presenceEQ e)) e.

Definition setPresenceGain (dB : F) (e : CinematicAudioEnhancer) :=
  set_presenceEQ (peq_setGain dB (presenceEQ e)) e.

Definition setVocalCompressorThreshold (dB : F) (e : CinematicAudioEnhancer) :=
  set_vocalCompressor (gc_setThreshold dB (vocalCompressor e)) e.

Definition setVocalCompressorRatio (r : F) (e : CinematicAudioEnhancer) :=
  set_vocalCompressor (gc_setRatio r (vocalCompressor e)) e.

Definition setCinematicReverbSize (size : F) (e : CinematicAudioEnhancer) :=
  set_cinematicReverb (CinematicReverb_setRoomSize size (cinematicReverb e)) e.

Definition setCinematicReverbMix (mix : F) (e : CinematicAudioEnhancer) :=
  set_cinematicReverb
    (CinematicReverb_setDryLevel (f_sub (f_lit 1) mix)
       (CinematicReverb_setWetLevel mix (cinematicReverb e))) e.

Definition setCinematicReverbPreDelay (ms : F) (e : CinematicAudioEnhancer) :=
  set_cinematicReverb (CinematicReverb_setPreDelay ms (cinematicReverb e)) e.

Definition setSubtleDelayTime (ms : F) (e : CinematicAudioEnhancer) :=
  set_subtleDelay (sd_setDelayTime ms (subtleDelay e)) e.

Definition setSubtleDelayMix (mix : F) (e : CinematicAudioEnhancer) :=
  set_subtleDelay (sd_setMix mix (subtleDelay e)) e.

Definition setModulationRate (hz : F) (e : CinematicAudioEnhancer) :=
  set_modulationEffect (me_setRate hz (modulationEffect e)) e.

Definition setModulationDepth (depth : F) (e : CinematicAudioEnhancer) :=
  set_modulationEffect (me_setDepth depth (modulationEffect e)) e.

Definition setModulationMix (mix : F) (e : CinematicAudioEnhancer) :=
  set_modulationEffect (me_setMix mix (modulationEffect e)) e.

Definition setSaturationDrive (drive : F) (e : CinematicAudioEnhancer) :=
  set_warmSaturation (ws_setDrive drive (warmSaturation e)) e.

Definition setStereoWidth (width : F) (e : CinematicAudioEnhancer) :=
  set_stereoImager (StereoImager_setWidth width (stereoImager e)) e.

Definition setTargetLUFS (lufs : F) (e : CinematicAudioEnhancer) :=
  set_loudnessNormalizer
    (LoudnessNormalizer_setTargetLUFS lufs (loudnessNormalizer e)) e.

Definition setLimiterCeiling (dB : F) (e : CinematicAudioEnhancer) :=
  set_finalLimiter (fl_setCeiling dB (finalLimiter e)) e.

(** A preset is a sequence of setter calls, first call first. *)
Definition calls (setters : list (CinematicAudioEnhancer -> CinematicAudioEnhancer))
    (e : CinematicAudioEnhancer) : CinematicAudioEnhancer :=
  fold_left (fun acc set => set acc) setters e.

(** [applyCinematicVocalPreset ()] *)
Definition applyCinematicVocalPreset : CinematicAudioEnhancer -> CinematicAudioEnhancer :=
  calls
    [ setHighPassEnabled true; setHighPassCutoff (f_lit 80);
      setPresenceEQEnabled true; setPresenceFrequency (f_lit 4000);
      setPresenceGain (f_lit 3);
      setVocalCompressorEnabled true; setVocalCompressorThreshold (f_lit (-18));
      setVocalCompressorRatio (f_lit 2);
      setCinematicReverbEnabled true; setCinematicReverbSize (f_lit (8 # 10));
      setCinematicReverbMix (f_lit (25 # 100));
      setCinematicReverbPreDelay (f_lit 30);
      setSubtleDelayEnabled true; setSubtleDelayTime (f_lit 300);
      setSubtleDelayMix (f_lit (15 # 100));
      setModulationEnabled false; setSaturationEnabled false;
      setMultibandCompressorEnabled true;
      setStereoImagerEnabled true; setStereoWidth (f_lit (12 # 10));
      setLoudnessNormalizerEnabled true; setTargetLUFS (f_lit (-14));
      setFinalLimiterEnabled true; setLimiterCeiling (f_lit (-1 # 10)) ].

(** [applyCinematicMasteringPreset ()] *)
Definition applyCinematicMasteringPreset : CinematicAudioEnhancer -> CinematicAudioEnhancer :=
  calls
    [ setHighPassEnabled false; setPresenceEQEnabled false;
      setVocalCompressorEnabled false; setCinematicReverbEnabled false;
      setSubtleDelayEnabled false;
      setModulationEnabled false; setSaturationEnabled true;
      setSaturationDrive (f_lit (1 # 10));
      setMultibandCompressorEnabled true;
      setStereoImagerEnabled true; setStereoWidth (f_lit (13 # 10));
      setLoudnessNormalizerEnabled true; setTargetLUFS (f_lit (-14));
      setFinalLimiterEnabled true; setLimiterCeiling (f_lit (-1 # 10)) ].

(** [applyViralAppealPreset ()] *)
Definition applyViralAppealPreset : CinematicAudioEnhancer -> CinematicAudioEnhancer :=
  calls
    [ setHighPassEnabled true; setHighPassCutoff (f_lit 100);
      setPresenceEQEnabled true; setPresenceFrequency (f_lit 5000);
      setPresenceGain (f_lit 4);
      setVocalCompressorEnabled true; setVocalCompressorThreshold (f_lit (-15));
      setVocalCompressorRatio (f_lit 3);
      setCinematicReverbEnabled true; setCinematicReverbSize (f_lit (5 # 10));
      setCinematicReverbMix (f_lit (2 # 10));
      setCinematicReverbPreDelay (f_lit 20);
      setSubtleDelayEnabled true; setSubtleDelayTime (f_lit 250);
      setSubtleDelayMix (f_lit (1 # 10));
      setModulationEnabled true; setModulationRate (f_lit (3 # 10));
      setModulationDepth (f_lit (2 # 10)); setModulationMix (f_lit (15 # 100));
      setSaturationEnabled true; setSaturationDrive (f_lit (15 # 100));
      setMultibandCompressorEnabled true;
      setStereoImagerEnabled true; setStereoWidth (f_lit (14 # 10));
      setLoudnessNormalizerEnabled true; setTargetLUFS (f_lit (-12));
      setFinalLimiterEnabled true; setLimiterCeiling (f_lit (-1 # 10)) ].

End Enhancer.

End Cinematic.

(* ===================================================================== *)
(** * Specification-level definitions *)
(* ===================================================================== *)

Module Spec.

Section Spec.
Context {F D : Type} `{FloatOps F}.

Local Abbreviation AudioBuffer := (Juce.AudioBuffer F).

(** The sample of channel [ch] at index [i], when the buffer has one. *)
Definition sample_at (b : AudioBuffer) (ch i : nat) : option F :=
  b !! ch ≫= fun c => c !! i.

(** The buffer after the effects of a list have run on it one after the
    other, first element first, each on the result of the one before. *)
Definition apply_effects (engine : option (OnnxEngine F))
    (effects : list (Effect F D)) (numSamples : nat) (buffer : AudioBuffer)
    : AudioBuffer :=
  fold_left (fun b e => (Effect_process engine e b numSamples).2)
    effects buffer.

End Spec.

(** ** The pre-delay line as a record of its past input *)

Section LineSpec.
Context {F : Type} `{FloatOps F}.

(** With both cursors at [p], the sample in cell [j] of a circular buffer
    of [size] cells was pushed [cell_age p size j] pushes ago. *)
Definition cell_age (p size j : nat) : nat :=
  if p <? j then j - p else j + size - p.

(** Channel [ch] of the line holds the input [past], latest sample first,
    and silence before it. *)
Definition line_holds (line : DelayLine F) (ch : nat) (past : list F) : Prop :=
  exists (c : list F) (p : nat),
    bufferData line !! ch = Some c
    /\ length c = totalSize line
    /\ readPos line !! ch = Some p
    /\ writePos line !! ch = Some p
    /\ p < totalSize line
    /\ forall j, j < totalSize line ->
         c !! j = Some (nth (cell_age p (totalSize line) j - 1) past f_zero).

(** The first [n] samples that the loop reads from channel [ch]. *)
Definition channel_input (data : Juce.AudioBuffer F) (ch n : nat) : list F :=
  map (getSample data ch) (seq 0 n).

(** The signal [xs] delayed by [N] samples, as long as [xs]. *)
Definition delayed (N : nat) (xs : list F) : list F :=
  take (length xs) (replicate N f_zero ++ xs).

(** What the loop puts out for the input [xs] on a channel that holds
    [past] when the delay is [N] samples: at index [i] the sample read [N]
    pushes earlier. *)
Definition respond (N : nat) (past xs : list F) : list F :=
  imap (fun i _ => nth (N - 1) (rev (take i xs) ++ past) f_zero) xs.

(** Consecutive blocks through the pre-delay loop, the line carried from
    one call to the next. *)
Fixpoint run_blocks (line : DelayLine F) (blocks : list (Juce.AudioBuffer F))
    : DelayLine F * list (Juce.AudioBuffer F) :=
  match blocks with
  | [] => (line, [])
  | b :: rest =>
      let '(line1, out) :=
        applyPreDelay line b (getNumChannels b) (getNumSamples b) in
      let '(line2, outs) := run_blocks line1 rest in
      (line2, out :: outs)
  end.

(** Channel [ch] of a sequence of blocks, as one signal. *)
Definition channel_signal (blocks : list (Juce.AudioBuffer F)) (ch : nat)
    : list F :=
  concat (map (fun b => default [] (b !! ch)) blocks).

(** A block of [numChannels] channels of equal length. *)
Definition rectangular (numChannels : nat) (b : Juce.AudioBuffer F) : Prop :=
  length b = numChannels /\ Forall (fun c => length c = getNumSamples b) b.

(** A block of [n] samples with a one at index [0]. *)
Definition unit_impulse (n : nat) : list F :=
  take n (f_one :: replicate (n - 1) f_zero).

End LineSpec.

(** The sum of a list of reals, and the mean over the first [numChannels]
    channels of the absolute value of the sample at index [i]. *)
Definition Rsum (l : list R) : R := fold_right Rplus 0%R l.

Definition mean_abs (b : Juce.AudioBuffer R) (numChannels i : nat) : R :=
  (Rsum (map (fun ch => Rabs (getSample b ch i)) (seq 0 numChannels))
   / INR numChannels)%R.

End Spec.
Export Spec.

(** ** The mastering chain as the specification words it *)

Module ChainSpec.

Section ChainSpec.
Context {F D : Type} `{FloatOps F} `{LibmOps F} `{DoubleOps F D} `{JuceDsp F D}
  `{Cinematic.EnhancerStages F}.

Local Abbreviation AudioBuffer := (Juce.AudioBuffer F).
Local Abbreviation Enhancer := Cinematic.CinematicAudioEnhancer.

Inductive Stage :=
| HighPass | PresenceEq | GentleCompression | Modulation | Saturation
| Delay | ReverbStage | MultibandCompression | StereoImaging
| LoudnessNormalization | FinalLimiting.

(** "high-pass, presence EQ, gentle compressor, modulation, saturation,
    delay, reverb, multiband compressor, stereo imager, loudness
    normalizer, final limiter" *)
Definition stage_order : list Stage :=
  [HighPass; PresenceEq; GentleCompression; Modulation; Saturation; Delay;
   ReverbStage; MultibandCompression; StereoImaging; LoudnessNormalization;
   FinalLimiting].

(** The enable flag of a stage. *)
Definition stage_enabled (e : Enhancer) (s : Stage) : bool :=
  match s with
  | HighPass => Cinematic.highPassEnabled e
  | PresenceEq => Cinematic.presenceEQEnabled e
  | GentleCompression => Cinematic.vocalCompressorEnabled e
  | Modulation => Cinematic.modulationEnabled e
  | Saturation => Cinematic.saturationEnabled e
  | Delay => Cinematic.subtleDelayEnabled e
  | ReverbStage => Cinematic.cinematicReverbEnabled e
  | MultibandCompression => Cinematic.multibandCompressorEnabled e
  | StereoImaging => Cinematic.stereoImagerEnabled e
  | LoudnessNormalization => Cinematic.loudnessNormalizerEnabled e
  | FinalLimiting => Cinematic.finalLimiterEnabled e
  end.

(** One stage processing the block in place. *)
Definition run_stage (numSamples : nat) (s : Stage)
    : Enhancer * AudioBuffer -> Enhancer * AudioBuffer :=
  match s with
  | HighPass => Cinematic.call_highPassFilter numSamples
  | PresenceEq => Cinematic.call_presenceEQ numSamples
  | GentleCompression => Cinematic.call_vocalCompressor numSamples
  | Modulation => Cinematic.call_modulationEffect numSamples
  | Saturation => Cinematic.call_warmSaturation numSamples
  | Delay => Cinematic.call_subtleDelay numSamples
  | ReverbStage => Cinematic.call_cinematicReverb numSamples
  | MultibandCompression => Cinematic.call_multibandCompressor numSamples
  | StereoImaging => Cinematic.call_stereoImager numSamples
  | LoudnessNormalization => Cinematic.call_loudnessNormalizer numSamples
  | FinalLimiting => Cinematic.call_finalLimiter numSamples
  end.

(** The stages of a list, one after the other on the same block. *)
Definition run_stages (numSamples : nat) (stages : list Stage)
    (s : Enhancer * AudioBuffer) : Enhancer * AudioBuffer :=
  fold_left (fun acc st => run_stage numSamples st acc) stages s.

(** The enabled stages, in the order of the chain. *)
Definition enabled_stages (e : Enhancer) : list Stage :=
  filter (fun s => stage_enabled e s = true) stage_order.

End ChainSpec.

End ChainSpec.

(* ===================================================================== *)
(** * Small concrete objects to run the definitions on *)
(* ===================================================================== *)

Module Fixtures.

(** [1.0f] and [2^-25] as binary32 values. *)
Definition b32_one : binary32 := S754_finite false 8388608 (-23).
Definition b32_tiny : binary32 := S754_finite false 8388608 (-48).

(** A DSP effect that adds one to every sample and an effect that doubles
    every sample; the two do not commute. *)
Definition offset_effect : Effect binary32 binary64 :=
  mkEffect unit tt
    (fun _ st b _ => (st, map (map (fun x => f_add x (f_lit 1))) b))
    (fun _ _ st => st) (fun st => st) "offset".

Definition double_effect : Effect binary32 binary64 :=
  mkEffect unit tt
    (fun _ st b _ => (st, map (map (fun x => f_mul x (f_lit 2))) b))
    (fun _ _ st => st) (fun st => st) "double".

Definition silent_track : TrackFX binary32 binary64 := mkTrackFX Off [] [].

Definition marker_track (m : FXMode) : TrackFX binary32 binary64 :=
  mkTrackFX m [offset_effect] [double_effect].

Definition marker_engine (m : FXMode) : AIFXEngine binary32 binary64 :=
  mkAIFXEngine
    [marker_track m; silent_track; silent_track; silent_track; silent_track;
     silent_track]
    None (b64_of_int 44100) 512.

(** A backend whose model "vocal" is loaded and whose session throws. *)
Definition throwing_session : OrtSession binary32 :=
  mkOrtSession (fun _ _ => Throws "inference failed").

Definition throwing_engine : OnnxEngine binary32 :=
  mkOnnxEngine {[ "vocal" := mkOnnxModel true (Some throwing_session) [] ]}.

(** A backend whose model "vocal" answers every block with silence. *)
Definition silencing_engine : OnnxEngine binary32 :=
  mkOnnxEngine
    {[ "vocal" :=
         mkOnnxModel true
           (Some (mkOrtSession
                    (fun input _ => Returns (map (fun _ => f_lit 0) input))))
           [] ]}.

Definition vocal_effect : AIEffect binary32 binary64 :=
  mkAIEffect "vocal" (b64_of_int 44100) [] [].

(** JUCE processors that leave every sample as it is. *)
#[export] Instance bypass_dsp (F D : Type) : JuceDsp F D := {
  LinkwitzRileyFilter := unit;
  lr_processSample := fun st _ x => (st, x);
  Compressor := unit;
  comp_processSample := fun st _ x => (st, x);
  comp_setThreshold := fun _ st => st;
  comp_setRatio := fun _ st => st;
  IIRFilter := unit;
  IIRCoefficients := unit;
  iir_processSample := fun st _ x => (st, x);
  iir_setState := fun _ st => st;
  iir_reset := fun st => st;
  makeLowPass := fun _ _ => tt;
  makeHighPass := fun _ _ => tt;
  Reverb := unit;
  reverb_process := fun st b => (st, b);
  reverb_setParameters := fun _ st => st;
  reverb_prepare := fun _ _ _ st => st
}.

(** A stereo imager after [setWidth (1.0f)]. *)
Definition unity_imager : @Cinematic.StereoImager binary32 binary64 _ :=
  Cinematic.StereoImager_setWidth (F := binary32) (D := binary64) (f_lit 1)
    (Cinematic.StereoImager_new (F := binary32) (D := binary64)
       (b64_of_int 44100) tt).

(** The cinematic reverb after construction, [prepare (44100, 512)] and
    [setPreDelay (ms)]. *)
Definition reverb_with_predelay (ms : binary32)
    : @Cinematic.CinematicReverb binary32 binary64 _ :=
  Cinematic.CinematicReverb_setPreDelay (F := binary32) (D := binary64) ms
    (Cinematic.CinematicReverb_prepare (F := binary32) (D := binary64)
       (b64_of_int 44100) 512
       (Cinematic.CinematicReverb_new (F := binary32) (D := binary64)
          (b64_of_int 44100) tt)).

(** The epic space reverb with its pre-delay line as [prepare] leaves it at
    44.1 kHz ([setMaximumDelayInSamples (8820)]), after [setPreDelay (ms)]. *)
Definition epic_with_predelay (ms : binary32)
    : @DSPModules.EpicSpaceReverb binary32 binary64 _ :=
  DSPModules.EpicSpaceReverb_setPreDelay (F := binary32) (D := binary64) ms
    (DSPModules.mkEpicSpaceReverb (F := binary32) (D := binary64)
       (b32_lit 30) (b64_of_int 44100) (b32_lit (3 # 10)) (b32_lit (1 # 2))
       (b32_lit (7 # 10)) (b32_lit (8 # 10)) (b32_lit (1 # 2)) tt
       (DelayLine_setMaximumDelayInSamples (Z.to_nat 8820)
          (DelayLine_prepare 2 (DelayLine_new (Z.to_nat 192000))))
       [] tt (replicate 2 (replicate 512 (b32_lit 0)))).

(** A stereo block of four samples with a unit impulse in both channels. *)
Definition impulse_block : Juce.AudioBuffer binary32 :=
  [unit_impulse 4; unit_impulse 4].

(** A short line, [DelayLine (2)], prepared for one channel. *)
Definition short_line (delaySamples : binary32) : DelayLine binary32 :=
  DelayLine_setDelay delaySamples (DelayLine_prepare 1 (DelayLine_new 2)).

(** Stages of the mastering chain that leave every sample as it is. *)
#[export] Instance bypass_stages (F : Type) : Cinematic.EnhancerStages F := {
  Cinematic.HighPassFilter := unit;
  Cinematic.hp_process := fun st b _ => (st, b);
  Cinematic.hp_setCutoffFrequency := fun _ st => st;
  Cinematic.PresenceEQ := unit;
  Cinematic.peq_process := fun st b _ => (st, b);
  Cinematic.peq_setFrequency := fun _ st => st;
  Cinematic.peq_setGain := fun _ st => st;
  Cinematic.GentleCompressor := unit;
  Cinematic.gc_process := fun st b _ => (st, b);
  Cinematic.gc_setThreshold := fun _ st => st;
  Cinematic.gc_setRatio := fun _ st => st;
  Cinematic.SubtleDelay := unit;
  Cinematic.sd_process := fun st b _ => (st, b);
  Cinematic.sd_setDelayTime := fun _ st => st;
  Cinematic.sd_setMix := fun _ st => st;
  Cinematic.ModulationEffect := unit;
  Cinematic.me_process := fun st b _ => (st, b);
  Cinematic.me_setRate := fun _ st => st;
  Cinematic.me_setDepth := fun _ st => st;
  Cinematic.me_setMix := fun _ st => st;
  Cinematic.WarmSaturation := unit;
  Cinematic.ws_process := fun st b _ => (st, b);
  Cinematic.ws_setDrive := fun _ st => st;
  Cinematic.FinalLimiter := unit;
  Cinematic.fl_process := fun st b _ => (st, b);
  Cinematic.fl_setCeiling := fun _ st => st
}.

(** An orchestrator over exact arithmetic, every flag off. *)
Definition idle_enhancer :=
  Cinematic.mkEnhancer (F := R) (D := R) tt tt tt
    (Cinematic.CinematicReverb_new (F := R) (D := R) 44100%R tt)
    tt tt tt
    (Cinematic.MultibandCompressor_prepare (F := R) (D := R) 4
       (Cinematic.mkMultibandCompressor (F := R) (D := R) tt tt tt tt tt
          [] [] []))
    (Cinematic.StereoImager_new (F := R) (D := R) 44100%R tt)
    (Cinematic.LoudnessNormalizer_new (F := R) (D := R) 44100%R)
    tt false false false false false false false false false false false.

(** Objects over exact arithmetic. *)
Definition real_block : Juce.AudioBuffer R := [[1; 2]; [3; 4]]%R.

Definition real_multiband : @DSPModules.MultibandCompressor R R _ :=
  DSPModules.MultibandCompressor_prepare (F := R) (D := R) 2 4
    (DSPModules.mkMultibandCompressor (F := R) (D := R) tt tt tt tt tt
       [] [] []).

Definition real_deesser : @DSPModules.DeEsser R R _ :=
  DSPModules.DeEsser_new (F := R) (D := R) 44100%R tt tt.

(** The de-esser after [prepare] for stereo blocks of two samples. *)
Definition prepared_deesser : @DSPModules.DeEsser R R _ :=
  DSPModules.DeEsser_prepare (F := R) (D := R) 44100%R 2 2 real_deesser.

Definition real_normalizer : Cinematic.LoudnessNormalizer R R :=
  Cinematic.LoudnessNormalizer_new (F := R) (D := R) 44100%R.

End Fixtures.

(* ===================================================================== *)
(** * Further arithmetic on samples *)
(* ===================================================================== *)

Module ArithMore.

(** Two more operations of C++ [float]. *)
Class FloatCmpOps (F : Type) := {
  f_neg : F -> F;              (* unary minus *)
  f_leb : F -> F -> bool       (* [x <= y] *)
}.

(** More functions of [<cmath>]. *)
Class LibmMoreOps (F : Type) := {
  f_exp  : F -> F;             (* [std::exp] *)
  f_tanh : F -> F;             (* [std::tanh] *)
  f_sin  : F -> F              (* [std::sin] *)
}.

#[export] Instance binary32_cmp : FloatCmpOps binary32 := {
  f_neg := SFopp;
  f_leb := SFleb
}.

Definition R_leb (x y : R) : bool := if Rle_dec x y then true else false.

#[export] Instance R_cmp : FloatCmpOps R := {
  f_neg := Ropp;
  f_leb := R_leb
}.

#[export] Instance R_libm_more : LibmMoreOps R := {
  f_exp := exp;
  f_tanh := tanh;
  f_sin := sin
}.

End ArithMore.
Export ArithMore.

(* ===================================================================== *)
(** * [AIFXEngine.cpp]: the rest of the engine, and its caller *)
(* ===================================================================== *)

Module AIFXMore.

Section AIFXMore.
Context {F D : Type} `{FloatOps F} `{DoubleOps F D}.

Local Abbreviation AudioBuffer := (Juce.AudioBuffer F).

(** [effect->reset ()] *)
Definition Effect_reset (e : Effect F D) : Effect F D :=
  mkEffect (eff_state e) (eff_reset e (eff_this e))
    (eff_process e) (eff_prepare e) (eff_reset e) (eff_getName e).

(** [AIFXEngine::AIFXEngine (engine)]: [trackFX] is a
    [std::array<TrackFX, NUM_TRACKS>] of default-constructed entries. *)
Definition AIFXEngine_new (engine : option (OnnxEngine F)) : AIFXEngine F D :=
  mkAIFXEngine (replicate (Z.to_nat NUM_TRACKS) (mkTrackFX Off [] []))
    engine (d_lit 44100) 512.

(** [AIFXEngine::prepare (sampleRate, maxBlockSize)] *)
Definition AIFXEngine_prepare (sampleRate : D) (maxBlockSize : nat)
    (fx : AIFXEngine F D) : AIFXEngine F D :=
  mkAIFXEngine
    (map (fun track =>
            mkTrackFX (mode track)
              (map (Effect_prepare sampleRate maxBlockSize) (dspEffects track))
              (map (Effect_prepare sampleRate maxBlockSize) (aiEffects track)))
       (trackFX fx))
    (onnxEngine fx) sampleRate maxBlockSize.

(** [AIFXEngine::reset ()] *)
Definition AIFXEngine_reset (fx : AIFXEngine F D) : AIFXEngine F D :=
  mkAIFXEngine
    (map (fun track =>
            mkTrackFX (mode track)
              (map Effect_reset (dspEffects track))
              (map Effect_reset (aiEffects track)))
       (trackFX fx))
    (onnxEngine fx) (currentSampleRate fx) (currentMaxBlockSize fx).

(** [AIFXEngine::getFXMode (trackIndex)].  The array always has
    [NUM_TRACKS] entries; a shorter list reads as [Off]. *)
Definition getFXMode (fx : AIFXEngine F D) (trackIndex : Z) : FXMode :=
  if in_range trackIndex
  then match trackFX fx !! Z.to_nat trackIndex with
       | Some track => mode track
       | None => Off
       end
  else Off.

(** [AIFXEngine::clearEffects (trackIndex)] *)
Definition clearEffects (fx : AIFXEngine F D) (trackIndex : Z)
    : AIFXEngine F D :=
  if in_range trackIndex
  then update_track fx trackIndex (fun t => mkTrackFX (mode t) [] [])
  else fx.

(** [AIFXEngine::getNumTracks ()] *)
Definition getNumTracks (fx : AIFXEngine F D) : Z := NUM_TRACKS.

(** [AIFXEngine::setEffectParameter]: the body is empty. *)
Definition setEffectParameter (fx : AIFXEngine F D)
    (trackIndex effectIndex : Z) (paramName : string) (value : F)
    : AIFXEngine F D := fx.

(** [MAEVNAudioProcessor::processAllTracks (buffer, numSamples)]
    ([PluginProcessor.cpp]): every track that is not [Off] processes the
    one buffer, in the order of the track indices. *)
Definition processAllTracks (fx : AIFXEngine F D) (buffer : AudioBuffer)
    (numSamples : nat) : AIFXEngine F D * AudioBuffer :=
  for_range (Z.to_nat (getNumTracks fx))
    (fun trackIndex '(fx, buffer) =>
       match getFXMode fx (Z.of_nat trackIndex) with
       | Off => (fx, buffer)
       | _ => AIFX.process fx buffer numSamples (Z.of_nat trackIndex)
       end)
    (fx, buffer).

(** What one track does to a block: the chain that its mode selects. *)
Definition track_chain (engine : option (OnnxEngine F)) (track : TrackFX F D)
    (numSamples : nat) (buffer : AudioBuffer) : AudioBuffer :=
  match mode track with
  | Off => buffer
  | DSP => apply_effects engine (dspEffects track) numSamples buffer
  | AI => apply_effects engine (aiEffects track) numSamples buffer
  | Hybrid =>
      apply_effects engine (aiEffects track) numSamples
        (apply_effects engine (dspEffects track) numSamples buffer)
  end.

End AIFXMore.

End AIFXMore.

(* ===================================================================== *)
(** * [OnnxEngine.cpp]: loading, unloading and reloading models *)
(* ===================================================================== *)

Module OnnxStore.

Section OnnxStore.
Context {F : Type}.

(** What the loading code asks of the file system and of ONNX Runtime:
    [juce::File::existsAsFile], the construction of the environment, the
    options and the [Ort::Session], and the two reads of metadata.  Each
    call of ONNX Runtime returns or throws an [Ort::Exception];
    [readInputShape] is [None] for a model without input node. *)
Record Host := mkHost {
  existsAsFile : string -> bool;
  createSession : string -> Outcome (OrtSession F);
  readInputShape : OrtSession F -> Outcome (option (list Z));
  readOutputInfo : OrtSession F -> Outcome unit
}.

(** [OnnxModel::OnnxModel ()] *)
Definition OnnxModel_new : OnnxModel F := mkOnnxModel false None [].

(** [OnnxModel::unload ()] *)
Definition OnnxModel_unload (m : OnnxModel F) : OnnxModel F :=
  mkOnnxModel false None [].

(** [OnnxModel::loadModel (modelPath)]: the [try] block assigns [session],
    then [inputShape], then reads the output metadata and sets
    [modelLoaded]; the handler clears [modelLoaded] and leaves what was
    assigned before the exception. *)
Definition OnnxModel_loadModel (host : Host) (modelPath : string)
    (m : OnnxModel F) : bool * OnnxModel F :=
  match createSession host modelPath with
  | Throws _ => (false, mkOnnxModel false (session m) (inputShape m))
  | Returns s =>
      match readInputShape host s with
      | Throws _ => (false, mkOnnxModel false (Some s) (inputShape m))
      | Returns shape =>
          let shape' := default (inputShape m) shape in
          match readOutputInfo host s with
          | Throws _ => (false, mkOnnxModel false (Some s) shape')
          | Returns _ => (true, mkOnnxModel true (Some s) shape')
          end
      end
  end.

(** The members of [OnnxEngine]: [models] (the part that inference reads),
    [modelPaths], [initialized] and [useGPU]. *)
Record OnnxEngineState := mkOnnxEngineState {
  engine : OnnxEngine F;
  modelPaths : gmap string string;
  initialized : bool;
  useGPU : bool
}.

(** [OnnxEngine::OnnxEngine ()] *)
Definition OnnxEngine_new : OnnxEngineState :=
  mkOnnxEngineState (mkOnnxEngine ∅) ∅ false false.

(** [OnnxEngine::initialize ()]; nothing in its [try] block throws. *)
Definition initialize (st : OnnxEngineState) : bool * OnnxEngineState :=
  if initialized st then (true, st)
  else (true, mkOnnxEngineState (engine st) (modelPaths st) true (useGPU st)).

(** [OnnxEngine::loadModel (role, modelPath)] *)
Definition loadModel (host : Host) (st : OnnxEngineState)
    (role modelPath : string) : bool * OnnxEngineState :=
  let '(failed, st1) :=
    if initialized st then (false, st)
    else let '(ok, st') := initialize st in (negb ok, st') in
  if failed then (false, st1)
  else if negb (existsAsFile host modelPath) then (false, st1)
  else
    let '(loaded, model) := OnnxModel_loadModel host modelPath OnnxModel_new in
    if loaded
    then (true,
          mkOnnxEngineState
            (mkOnnxEngine (<[role := model]> (models (engine st1))))
            (<[role := modelPath]> (modelPaths st1))
            (initialized st1) (useGPU st1))
    else (false, st1).

(** [OnnxEngine::unloadModel (role)] *)
Definition unloadModel (st : OnnxEngineState) (role : string)
    : OnnxEngineState :=
  match models (engine st) !! role with
  | Some _ =>
      mkOnnxEngineState (mkOnnxEngine (delete role (models (engine st))))
        (modelPaths st) (initialized st) (useGPU st)
  | None => st
  end.

(** [OnnxEngine::unloadAllModels ()] *)
Definition unloadAllModels (st : OnnxEngineState) : OnnxEngineState :=
  mkOnnxEngineState (mkOnnxEngine ∅) ∅ (initialized st) (useGPU st).

(** [OnnxEngine::reloadModel (role)] *)
Definition reloadModel (host : Host) (st : OnnxEngineState) (role : string)
    : bool * OnnxEngineState :=
  match modelPaths st !! role with
  | None => (false, st)
  | Some path => loadModel host (unloadModel st role) role path
  end.

(** [OnnxEngine::getLoadedModels ()]: the roles whose model is ready.  The
    C++ code walks a [std::unordered_map], whose order is unspecified; the
    order of the list below has no meaning either. *)
Definition getLoadedModels (st : OnnxEngineState) : list string :=
  omap (fun p : string * OnnxModel F =>
          if OnnxModel_isReady p.2 then Some p.1 else None)
    (map_to_list (models (engine st))).

(** [OnnxEngine::setUseGPU (shouldUseGPU)] *)
Definition setUseGPU (shouldUseGPU : bool) (st : OnnxEngineState)
    : OnnxEngineState :=
  mkOnnxEngineState (engine st) (modelPaths st) (initialized st) shouldUseGPU.

(** Every stored model is loaded and has a session, and has its path on
    record. *)
Definition models_ready (st : OnnxEngineState) : Prop :=
  forall role m,
    models (engine st) !! role = Some m ->
    modelLoaded m = true /\ is_Some (session m)
    /\ is_Some (modelPaths st !! role).

End OnnxStore.

Arguments Host : clear implicits.
Arguments OnnxEngineState : clear implicits.

End OnnxStore.

(* ===================================================================== *)
(** * [DSPModules.h]: the other modules of namespace [dspmodules] *)
(* ===================================================================== *)

Module DSPMore.

(** More of JUCE that stays abstract: two more coefficient designs of
    [juce::dsp::IIR::Coefficients<float>] (sample rate, frequency, Q, gain
    factor) and [juce::dsp::Limiter<float>]. *)
Class JuceDspMore (F D : Type) `{JuceDsp F D} := {
  makeHighShelf : D -> F -> F -> F -> IIRCoefficients;
  makePeakFilter : D -> F -> F -> F -> IIRCoefficients;
  LimiterDsp : Type;
  limiter_process : LimiterDsp -> list (list F) -> LimiterDsp * list (list F);
  limiter_setThreshold : F -> LimiterDsp -> LimiterDsp;
  limiter_setRelease : F -> LimiterDsp -> LimiterDsp
}.

Section DSPMore.
Context {F D : Type} `{FloatOps F} `{LibmOps F} `{DoubleOps F D} `{JuceDsp F D}
  `{FloatCmpOps F} `{LibmMoreOps F} `{!JuceDspMore F D}.

Local Abbreviation AudioBuffer := (Juce.AudioBuffer F).
Local Abbreviation DelayLine := (Juce.DelayLine F).

(** ** [dspmodules::TransientShaper] *)

Record TransientShaper := mkTransientShaper {
  attackAmount : F;
  sustainAmount : F;
  ts_currentSampleRate : D;
  envelopeFollower : F;
  previousEnvelope : F;
  attackCoeff : F;
  releaseCoeff : F
}.

Definition ATTACK_SCALING_FACTOR : F := f_lit 10.
Definition SUSTAIN_SCALING_FACTOR : F := f_lit (1 # 2).
Definition MIN_GAIN : F := f_lit (1 # 10).
Definition MAX_GAIN : F := f_lit 4.

(** [TransientShaper ()].  The constructor does not initialise
    [attackCoeff] and [releaseCoeff]; [a] and [r] stand for what they hold
    until [prepare] is called. *)
Definition TransientShaper_new (a r : F) : TransientShaper :=
  mkTransientShaper (f_lit 0) (f_lit 0) (d_lit 44100) (f_lit 0) (f_lit 0) a r.

(** [std::exp (-1.0f / static_cast<float>(sampleRate * seconds))] *)
Definition envelopeCoeff (sampleRate : D) (seconds : F) : F :=
  f_exp (f_div (f_lit (-1)) (d_to_float (d_mul sampleRate (d_of_float seconds)))).

(** [prepare (spec)] *)
Definition TransientShaper_prepare (sampleRate : D) (ts : TransientShaper)
    : TransientShaper :=
  mkTransientShaper (attackAmount ts) (sustainAmount ts) sampleRate
    (envelopeFollower ts) (previousEnvelope ts)
    (envelopeCoeff sampleRate (f_lit (1 # 1000)))
    (envelopeCoeff sampleRate (f_lit (50 # 1000))).

(** [reset ()] *)
Definition TransientShaper_reset (ts : TransientShaper) : TransientShaper :=
  mkTransientShaper (attackAmount ts) (sustainAmount ts)
    (ts_currentSampleRate ts) (f_lit 0) (f_lit 0)
    (attackCoeff ts) (releaseCoeff ts).

(** [setAttack (amount)], [setSustain (amount)] *)
Definition TransientShaper_setAttack (amount : F) (ts : TransientShaper)
    : TransientShaper :=
  mkTransientShaper (jlimit (f_lit (-1)) (f_lit 1) amount) (sustainAmount ts)
    (ts_currentSampleRate ts) (envelopeFollower ts) (previousEnvelope ts)
    (attackCoeff ts) (releaseCoeff ts).

Definition TransientShaper_setSustain (amount : F) (ts : TransientShaper)
    : TransientShaper :=
  mkTransientShaper (attackAmount ts) (jlimit (f_lit (-1)) (f_lit 1) amount)
    (ts_currentSampleRate ts) (envelopeFollower ts) (previousEnvelope ts)
    (attackCoeff ts) (releaseCoeff ts).

(** "Calculate envelope from all channels" *)
Definition inputLevel_at (buffer : AudioBuffer) (numChannels i : nat) : F :=
  f_div
    (for_range numChannels
       (fun ch level => f_add level (f_abs (getSample buffer ch i)))
       f_zero)
    (f_of_int (Z.of_nat numChannels)).

(** "Envelope follower", "Detect transients", "Calculate gain
    modification": the shaper afterwards and [transientGain]. *)
Definition TransientShaper_follow (ts : TransientShaper) (inputLevel : F)
    : TransientShaper * F :=
  let coeff :=
    if f_ltb (envelopeFollower ts) inputLevel
    then attackCoeff ts else releaseCoeff ts in
  let envelope :=
    f_add (f_mul (envelopeFollower ts) coeff)
      (f_mul inputLevel (f_sub (f_lit 1) coeff)) in
  let envelopeDelta := f_sub envelope (previousEnvelope ts) in
  let transientGain := f_lit 1 in
  let transientGain :=
    if f_ltb (f_lit 0) envelopeDelta
    then f_add transientGain
           (f_mul (f_mul (attackAmount ts) envelopeDelta)
              ATTACK_SCALING_FACTOR)
    else f_add transientGain
           (f_mul (sustainAmount ts) SUSTAIN_SCALING_FACTOR) in
  let transientGain := jlimit MIN_GAIN MAX_GAIN transientGain in
  (mkTransientShaper (attackAmount ts) (sustainAmount ts)
     (ts_currentSampleRate ts) envelope envelope
     (attackCoeff ts) (releaseCoeff ts),
   transientGain).

(** The body of the loop over the samples. *)
Definition TransientShaper_sample (numChannels i : nat)
    (s : TransientShaper * AudioBuffer) : TransientShaper * AudioBuffer :=
  let '(ts, buffer) := s in
  let '(ts', transientGain) :=
    TransientShaper_follow ts (inputLevel_at buffer numChannels i) in
  (ts',
   for_range numChannels
     (fun ch b => setSample b ch i (f_mul (getSample b ch i) transientGain))
     buffer).

(** [TransientShaper::process (buffer)] *)
Definition TransientShaper_process (ts : TransientShaper) (buffer : AudioBuffer)
    : TransientShaper * AudioBuffer :=
  for_range (getNumSamples buffer)
    (TransientShaper_sample (getNumChannels buffer)) (ts, buffer).

(** ** [dspmodules::Saturation] *)

Record Saturation := mkSaturation {
  drive : F;
  tone : F;
  sat_outputGain : F;
  sat_currentSampleRate : D;
  toneFilter : IIRFilter
}.

Definition DRIVE_SCALING_FACTOR : F := f_lit 10.

(** [Saturation ()]; [flt] is the default-constructed filter. *)
Definition Saturation_new (flt : IIRFilter) : Saturation :=
  mkSaturation (f_lit (1 # 2)) (f_lit (1 # 2)) (f_lit 1) (d_lit 44100) flt.

(** "Apply drive", "Soft clipping saturation", "Apply output gain
    compensation" for one sample. *)
Definition Saturation_shape (s : Saturation) (x : F) : F :=
  let input := f_mul x (f_add (f_lit 1) (f_mul (drive s) DRIVE_SCALING_FACTOR)) in
  let saturated := f_tanh input in
  f_mul saturated (sat_outputGain s).

(** The wave shaper on every sample of the block. *)
Definition Saturation_waveshape (s : Saturation) (buffer : AudioBuffer)
    : AudioBuffer :=
  for_range (getNumChannels buffer)
    (fun ch =>
       for_range (getNumSamples buffer)
         (fun i data =>
            setSample data ch i (Saturation_shape s (getSample data ch i))))
    buffer.

(** [Saturation::process (buffer)] *)
Definition Saturation_process (s : Saturation) (buffer : AudioBuffer)
    : Saturation * AudioBuffer :=
  let '(flt, out) :=
    process_block iir_processSample (toneFilter s)
      (Saturation_waveshape s buffer) in
  (mkSaturation (drive s) (tone s) (sat_outputGain s)
     (sat_currentSampleRate s) flt,
   out).

(** [updateToneFilter ()] *)
Definition Saturation_updateToneFilter (s : Saturation) : Saturation :=
  let filterFreq := f_add (f_lit 1000) (f_mul (tone s) (f_lit 4000)) in
  let gainLinear := f_add (f_lit (1 # 2)) (tone s) in
  mkSaturation (drive s) (tone s) (sat_outputGain s) (sat_currentSampleRate s)
    (iir_setState
       (makeHighShelf (sat_currentSampleRate s) filterFreq (f_lit (7 # 10))
          gainLinear)
       (toneFilter s)).

(** [setDrive (d)], [setTone (t)], [setOutput (dB)] *)
Definition Saturation_setDrive (d : F) (s : Saturation) : Saturation :=
  mkSaturation (jlimit (f_lit 0) (f_lit 1) d) (tone s) (sat_outputGain s)
    (sat_currentSampleRate s) (toneFilter s).

Definition Saturation_setTone (t : F) (s : Saturation) : Saturation :=
  Saturation_updateToneFilter
    (mkSaturation (drive s) (jlimit (f_lit 0) (f_lit 1) t) (sat_outputGain s)
       (sat_currentSampleRate s) (toneFilter s)).

Definition Saturation_setOutput (dB : F) (s : Saturation) : Saturation :=
  mkSaturation (drive s) (tone s)
    (dBToGain (jlimit (f_lit (-24)) (f_lit 12) dB))
    (sat_currentSampleRate s) (toneFilter s).

(** ** [dspmodules::Limiter] *)

Record Limiter := mkLimiter {
  lim_threshold : F;
  ceiling : F;
  lim_attack : F;
  lim_release : F;
  limiter : LimiterDsp
}.

(** [Limiter ()]; [dsp] is the default-constructed JUCE limiter. *)
Definition Limiter_new (dsp : LimiterDsp) : Limiter :=
  mkLimiter (f_lit (-1)) (f_lit (-1 # 10)) (f_lit (1 # 2)) (f_lit 50) dsp.

(** "Apply ceiling" to one sample. *)
Definition applyCeiling (ceilingLinear : F) (ch i : nat) (data : AudioBuffer)
    : AudioBuffer :=
  if f_ltb ceilingLinear (getSample data ch i)
  then setSample data ch i ceilingLinear
  else if f_ltb (getSample data ch i) (f_neg ceilingLinear)
       then setSample data ch i (f_neg ceilingLinear)
       else data.

(** [Limiter::process (buffer)] *)
Definition Limiter_process (l : Limiter) (buffer : AudioBuffer)
    : Limiter * AudioBuffer :=
  let '(dsp, limited) := limiter_process (limiter l) buffer in
  let ceilingLinear := dBToGain (ceiling l) in
  (mkLimiter (lim_threshold l) (ceiling l) (lim_attack l) (lim_release l) dsp,
   for_range (getNumChannels limited)
     (fun ch => for_range (getNumSamples limited) (applyCeiling ceilingLinear ch))
     limited).

(** [setThreshold (dB)], [setCeiling (dB)], [setAttack (ms)],
    [setRelease (ms)] *)
Definition Limiter_setThreshold (dB : F) (l : Limiter) : Limiter :=
  let t := jlimit (f_lit (-24)) (f_lit 0) dB in
  mkLimiter t (ceiling l) (lim_attack l) (lim_release l)
    (limiter_setThreshold t (limiter l)).

Definition Limiter_setCeiling (dB : F) (l : Limiter) : Limiter :=
  mkLimiter (lim_threshold l) (jlimit (f_lit (-12)) (f_lit 0) dB)
    (lim_attack l) (lim_release l) (limiter l).

Definition Limiter_setAttack (ms : F) (l : Limiter) : Limiter :=
  mkLimiter (lim_threshold l) (ceiling l)
    (jlimit (f_lit (1 # 10)) (f_lit 50) ms) (lim_release l) (limiter l).

Definition Limiter_setRelease (ms : F) (l : Limiter) : Limiter :=
  let r := jlimit (f_lit 1) (f_lit 500) ms in
  mkLimiter (lim_threshold l) (ceiling l) (lim_attack l) r
    (limiter_setRelease r (limiter l)).

(** ** [dspmodules::PTHVocalClone] *)

Record PTHVocalClone := mkPTHVocalClone {
  pitchCorrection : F;
  correctionSpeed : F;
  pitchDrift : F;
  spectralShaping : F;
  formantShift : F;
  brightness : F;
  harmonyEnabled : bool;
  harmonyVoices : list F;            (* [std::array<float, 4>] *)
  harmonyLevels : list F;            (* [std::array<float, 4>] *)
  humanize : F;
  pth_currentSampleRate : D;
  brightnessFilter : IIRFilter;
  formantFilter : IIRFilter;
  pitchDelays : list DelayLine       (* [std::array<DelayLine<float>, 4>] *)
}.

Definition DRIFT_FREQUENCY_FACTOR : F := f_lit (1 # 1000).
Definition DRIFT_AMPLITUDE_FACTOR : F := f_lit (1 # 100).

(** [PTHVocalClone ()]; [bf] and [ff] are the default-constructed
    filters. *)
Definition PTHVocalClone_new (bf ff : IIRFilter) : PTHVocalClone :=
  mkPTHVocalClone (f_lit 0) (f_lit 50) (f_lit (1 # 10)) (f_lit (1 # 2))
    (f_lit 0) (f_lit (1 # 2)) false
    (replicate 4 (f_lit 0)) (replicate 4 (f_lit (1 # 2)))
    (f_lit (3 # 10)) (d_lit 44100) bf ff
    (replicate 4 (DelayLine_new 0)).

(** "Add subtle pitch drift for natural sound": the factor at sample [i]. *)
Definition driftAmount (p : PTHVocalClone) (i : nat) : F :=
  f_mul
    (f_mul (f_sin (f_mul (f_of_int (Z.of_nat i)) DRIFT_FREQUENCY_FACTOR))
       (pitchDrift p))
    DRIFT_AMPLITUDE_FACTOR.

(** [PTHVocalClone::process (buffer)] *)
Definition PTHVocalClone_process (p : PTHVocalClone) (buffer : AudioBuffer)
    : PTHVocalClone * AudioBuffer :=
  let numSamples := getNumSamples buffer in
  let '(bf, b1) := process_block iir_processSample (brightnessFilter p) buffer in
  let '(ff, b2) := process_block iir_processSample (formantFilter p) b1 in
  (mkPTHVocalClone (pitchCorrection p) (correctionSpeed p) (pitchDrift p)
     (spectralShaping p) (formantShift p) (brightness p) (harmonyEnabled p)
     (harmonyVoices p) (harmonyLevels p) (humanize p)
     (pth_currentSampleRate p) bf ff (pitchDelays p),
   for_range (getNumChannels b2)
     (fun ch =>
        for_range numSamples
          (fun i data =>
             setSample data ch i
               (f_mul (getSample data ch i)
                  (f_add (f_lit 1) (driftAmount p i)))))
     b2).

(** Assignments to [harmonyVoices] and [harmonyLevels]. *)
Definition with_harmonyVoices (v : list F) (p : PTHVocalClone) : PTHVocalClone :=
  mkPTHVocalClone (pitchCorrection p) (correctionSpeed p) (pitchDrift p)
    (spectralShaping p) (formantShift p) (brightness p) (harmonyEnabled p)
    v (harmonyLevels p) (humanize p) (pth_currentSampleRate p)
    (brightnessFilter p) (formantFilter p) (pitchDelays p).

Definition with_harmonyLevels (v : list F) (p : PTHVocalClone) : PTHVocalClone :=
  mkPTHVocalClone (pitchCorrection p) (correctionSpeed p) (pitchDrift p)
    (spectralShaping p) (formantShift p) (brightness p) (harmonyEnabled p)
    (harmonyVoices p) v (humanize p) (pth_currentSampleRate p)
    (brightnessFilter p) (formantFilter p) (pitchDelays p).

(** [setHarmonyVoice (voiceIndex, semitones)] *)
Definition setHarmonyVoice (voiceIndex : Z) (semitones : F) (p : PTHVocalClone)
    : PTHVocalClone :=
  if ((0 <=? voiceIndex) && (voiceIndex <? 4))%Z
  then with_harmonyVoices
         (<[Z.to_nat voiceIndex := jlimit (f_lit (-24)) (f_lit 24) semitones]>
            (harmonyVoices p)) p
  else p.

(** [setHarmonyLevel (voiceIndex, level)] *)
Definition setHarmonyLevel (voiceIndex : Z) (level : F) (p : PTHVocalClone)
    : PTHVocalClone :=
  if ((0 <=? voiceIndex) && (voiceIndex <? 4))%Z
  then with_harmonyLevels
         (<[Z.to_nat voiceIndex := jlimit (f_lit 0) (f_lit 1) level]>
            (harmonyLevels p)) p
  else p.

Inductive HarmonyMode := Thirds | Fifths | Sixths | Custom.

(** [setHarmonyMode (mode)] *)
Definition setHarmonyMode (mode : HarmonyMode) (p : PTHVocalClone)
    : PTHVocalClone :=
  match mode with
  | Thirds =>
      with_harmonyVoices
        (<[1 := f_lit (-3)]> (<[0 := f_lit 4]> (harmonyVoices p))) p
  | Fifths =>
      with_harmonyVoices
        (<[1 := f_lit (-5)]> (<[0 := f_lit 7]> (harmonyVoices p))) p
  | Sixths =>
      with_harmonyVoices
        (<[1 := f_lit (-4)]> (<[0 := f_lit 9]> (harmonyVoices p))) p
  | Custom => p
  end.

(** [setPitchDrift (amount)] *)
Definition PTHVocalClone_setPitchDrift (amount : F) (p : PTHVocalClone)
    : PTHVocalClone :=
  mkPTHVocalClone (pitchCorrection p) (correctionSpeed p)
    (jlimit (f_lit 0) (f_lit 1) amount)
    (spectralShaping p) (formantShift p) (brightness p) (harmonyEnabled p)
    (harmonyVoices p) (harmonyLevels p) (humanize p)
    (pth_currentSampleRate p) (brightnessFilter p) (formantFilter p)
    (pitchDelays p).

(** ** More setters of [StereoWidener] and [EpicSpaceReverb] *)

(** [StereoWidener::setOutput (dB)] *)
Definition StereoWidener_setOutput (dB : F) (s : DSPModules.StereoWidener)
    : DSPModules.StereoWidener :=
  DSPModules.mkStereoWidener (DSPModules.width s) (DSPModules.sw_frequency s)
    (dBToGain (jlimit (f_lit (-24)) (f_lit 12) dB))
    (DSPModules.sw_currentSampleRate s) (DSPModules.bassFilter s).

(** [EpicSpaceReverb::setWetDryMix (mix)] *)
Definition EpicSpaceReverb_setWetDryMix (mix : F)
    (r : DSPModules.EpicSpaceReverb) : DSPModules.EpicSpaceReverb :=
  DSPModules.mkEpicSpaceReverb (DSPModules.preDelay r)
    (DSPModules.es_currentSampleRate r)
    (jlimit (f_lit 0) (f_lit 1) mix)
    (DSPModules.earlyReflections r) (DSPModules.lateReverb r)
    (DSPModules.reverbTail r) (DSPModules.roomShape r) (DSPModules.reverb r)
    (DSPModules.preDelayLine r) (DSPModules.earlyReflectionDelays r)
    (DSPModules.dampingFilter r) (DSPModules.wetBuffer r).

End DSPMore.

Arguments TransientShaper : clear implicits.

End DSPMore.

(* ===================================================================== *)
(** * [CinematicAudioEnhancer.cpp]: the delay and the saturation stage *)
(* ===================================================================== *)

Module CinematicMore.

Section CinematicMore.
Context {F D : Type} `{FloatOps F} `{LibmOps F} `{DoubleOps F D}
  `{LibmMoreOps F}.

Local Abbreviation AudioBuffer := (Juce.AudioBuffer F).
Local Abbreviation DelayLine := (Juce.DelayLine F).

(** ** [SubtleDelay] *)

Record SubtleDelay := mkSubtleDelay {
  sd_currentSampleRate : D;
  delayTimeMs : F;
  feedbackAmount : F;
  mixLevel : F;
  delayLine : DelayLine;
  feedbackBuffer : AudioBuffer
}.

(** [SubtleDelay ()]; the header declares [delayLine{192000}]. *)
Definition SubtleDelay_new : SubtleDelay :=
  mkSubtleDelay (d_lit 44100) (f_lit 300) (f_lit (3 # 10)) (f_lit (2 # 10))
    (DelayLine_new (Z.to_nat 192000)) [].

(** [SubtleDelay::setDelayTime (ms)] *)
Definition SubtleDelay_setDelayTime (ms : F) (sd : SubtleDelay) : SubtleDelay :=
  let ms' := jlimit (f_lit 1) (f_lit 2000) ms in
  mkSubtleDelay (sd_currentSampleRate sd) ms' (feedbackAmount sd) (mixLevel sd)
    (DelayLine_setDelay (Cinematic.delaySamples ms' (sd_currentSampleRate sd))
       (delayLine sd))
    (feedbackBuffer sd).

(** [SubtleDelay::setDelayTimeFromBPM (bpm)] *)
Definition SubtleDelay_setDelayTimeFromBPM (bpm : D) (sd : SubtleDelay)
    : SubtleDelay :=
  let quarterNoteMs := d_to_float (d_div (d_lit 60000) bpm) in
  SubtleDelay_setDelayTime quarterNoteMs sd.

(** [SubtleDelay::setFeedback (feedback)], [SubtleDelay::setMix (mix)] *)
Definition SubtleDelay_setFeedback (feedback : F) (sd : SubtleDelay)
    : SubtleDelay :=
  mkSubtleDelay (sd_currentSampleRate sd) (delayTimeMs sd)
    (jlimit (f_lit 0) (f_lit (9 # 10)) feedback) (mixLevel sd)
    (delayLine sd) (feedbackBuffer sd).

Definition SubtleDelay_setMix (mix : F) (sd : SubtleDelay) : SubtleDelay :=
  mkSubtleDelay (sd_currentSampleRate sd) (delayTimeMs sd) (feedbackAmount sd)
    (jlimit (f_lit 0) (f_lit 1) mix) (delayLine sd) (feedbackBuffer sd).

(** [SubtleDelay::prepare (sampleRate, maxBlockSize)] *)
Definition SubtleDelay_prepare (sampleRate : D) (maxBlockSize : nat)
    (sd : SubtleDelay) : SubtleDelay :=
  let sd1 :=
    mkSubtleDelay sampleRate (delayTimeMs sd) (feedbackAmount sd) (mixLevel sd)
      (DelayLine_prepare 2 (delayLine sd)) (feedbackBuffer sd) in
  let sd2 := SubtleDelay_setDelayTime (delayTimeMs sd1) sd1 in
  mkSubtleDelay (sd_currentSampleRate sd2) (delayTimeMs sd2)
    (feedbackAmount sd2) (mixLevel sd2) (delayLine sd2)
    (replicate 2 (replicate maxBlockSize f_zero)).

(** [SubtleDelay::reset ()] *)
Definition SubtleDelay_reset (sd : SubtleDelay) : SubtleDelay :=
  mkSubtleDelay (sd_currentSampleRate sd) (delayTimeMs sd) (feedbackAmount sd)
    (mixLevel sd) (DelayLine_reset (delayLine sd)) (feedbackBuffer sd).

(** The body of the loop over the samples of one channel. *)
Definition SubtleDelay_sample (sd : SubtleDelay) (channel i : nat)
    (s : DelayLine * AudioBuffer) : DelayLine * AudioBuffer :=
  let '(line, data) := s in
  let input := getSample data channel i in
  let '(delayed, line1) := DelayLine_popSample line channel in
  let feedbackSample := f_mul delayed (feedbackAmount sd) in
  let line2 := DelayLine_pushSample line1 channel (f_add input feedbackSample) in
  (line2,
   setSample data channel i
     (f_add (f_mul input (f_sub (f_lit 1) (mixLevel sd)))
        (f_mul delayed (mixLevel sd)))).

(** [SubtleDelay::process (buffer, numSamples)] *)
Definition SubtleDelay_process (sd : SubtleDelay) (buffer : AudioBuffer)
    (numSamples : nat) : SubtleDelay * AudioBuffer :=
  let '(line, out) :=
    for_range (getNumChannels buffer)
      (fun channel => for_range numSamples (SubtleDelay_sample sd channel))
      (delayLine sd, buffer) in
  (mkSubtleDelay (sd_currentSampleRate sd) (delayTimeMs sd) (feedbackAmount sd)
     (mixLevel sd) line (feedbackBuffer sd),
   out).

(** A delay of [N] samples with feedback, on lists: the output for the
    input [xs] when the line holds [past] (latest sample first), and what
    the line holds afterwards.  Every sample that enters the line is the
    input plus [feedback] times the sample that leaves it. *)
Fixpoint feedback_echo (N : nat) (feedback mix : F) (past xs : list F)
    : list F * list F :=
  match xs with
  | [] => ([], past)
  | x :: rest =>
      let delayed := nth (N - 1) past f_zero in
      let '(ys, past') :=
        feedback_echo N feedback mix
          (f_add x (f_mul delayed feedback) :: past) rest in
      (f_add (f_mul x (f_sub (f_lit 1) mix)) (f_mul delayed mix) :: ys, past')
  end.

(** ** [WarmSaturation] *)

Record WarmSaturation := mkWarmSaturation {
  driveAmount : F;
  outputGainLinear : F
}.

(** [WarmSaturation ()] *)
Definition WarmSaturation_new : WarmSaturation :=
  mkWarmSaturation (f_lit (2 # 10)) (f_lit 1).

(** [WarmSaturation::saturate (sample)] *)
Definition saturate (sample : F) : F := f_tanh sample.

(** [WarmSaturation::process (buffer, numSamples)]; no member is
    written. *)
Definition WarmSaturation_process (ws : WarmSaturation) (buffer : AudioBuffer)
    (numSamples : nat) : AudioBuffer :=
  for_range (getNumChannels buffer)
    (fun channel =>
       for_range numSamples
         (fun i channelData =>
            let input :=
              f_mul (getSample channelData channel i)
                (f_add (f_lit 1) (f_mul (driveAmount ws) (f_lit 10))) in
            let saturated := saturate input in
            setSample channelData channel i
              (f_mul saturated (outputGainLinear ws))))
    buffer.

(** [WarmSaturation::setDrive (drive)],
    [WarmSaturation::setOutputGain (dB)] *)
Definition WarmSaturation_setDrive (drive : F) (ws : WarmSaturation)
    : WarmSaturation :=
  mkWarmSaturation (jlimit (f_lit 0) (f_lit 1) drive) (outputGainLinear ws).

Definition WarmSaturation_setOutputGain (dB : F) (ws : WarmSaturation)
    : WarmSaturation :=
  mkWarmSaturation (driveAmount ws)
    (dBToGain (jlimit (f_lit (-24)) (f_lit 12) dB)).

(** ** [LoudnessNormalizer], continued *)

(** [LoudnessNormalizer::prepare (sampleRate, maxBlockSize)] *)
Definition LoudnessNormalizer_prepare (sampleRate : D)
    (l : Cinematic.LoudnessNormalizer F D) : Cinematic.LoudnessNormalizer F D :=
  Cinematic.LoudnessNormalizer_reset
    (Cinematic.mkLoudnessNormalizer (Cinematic.targetLUFS l)
       (Cinematic.currentLUFS l) (Cinematic.currentGain l)
       (Cinematic.rmsSum l) (Cinematic.rmsSampleCount l) sampleRate).

(** [LoudnessNormalizer::getCurrentLUFS ()] *)
Definition getCurrentLUFS (l : Cinematic.LoudnessNormalizer F D) : F :=
  Cinematic.currentLUFS l.

(** Consecutive blocks through [LoudnessNormalizer::process], each with
    all its samples, the normalizer carried from one call to the next. *)
Fixpoint normalize_blocks (l : Cinematic.LoudnessNormalizer F D)
    (blocks : list AudioBuffer)
    : Cinematic.LoudnessNormalizer F D * list AudioBuffer :=
  match blocks with
  | [] => (l, [])
  | b :: rest =>
      let '(l1, out) :=
        Cinematic.LoudnessNormalizer_process l b (getNumSamples b) in
      let '(l2, outs) := normalize_blocks l1 rest in
      (l2, out :: outs)
  end.

(** The number of samples that a sequence of blocks adds to
    [rmsSampleCount]. *)
Definition samples_counted (blocks : list AudioBuffer) : Z :=
  fold_right
    (fun b acc =>
       (Z.of_nat (getNumSamples b) * Z.of_nat (getNumChannels b) + acc)%Z)
    0%Z blocks.

End CinematicMore.

Arguments SubtleDelay : clear implicits.
Arguments WarmSaturation : clear implicits.

End CinematicMore.

(* ===================================================================== *)
(** * [LegendaryProducerFXSuiteUltimate.cpp]: the processor of the suite *)
(* ===================================================================== *)

Module FXSuite.

Section FXSuite.
Context {F D : Type} `{FloatOps F} `{LibmOps F} `{DoubleOps F D} `{JuceDsp F D}
  `{FloatCmpOps F} `{LibmMoreOps F} `{!DSPMore.JuceDspMore F D}.

Local Abbreviation AudioBuffer := (Juce.AudioBuffer F).

(** ** The meters *)

(** [calculateRMSLevel (buffer)] *)
Definition calculateRMSLevel (buffer : AudioBuffer) : F :=
  let numSamples := getNumSamples buffer in
  let numChannels := getNumChannels buffer in
  let sumSquares :=
    for_range numChannels
      (fun ch =>
         for_range numSamples
           (fun i sum =>
              f_add sum (f_mul (getSample buffer ch i) (getSample buffer ch i))))
      f_zero in
  f_sqrt
    (f_div sumSquares
       (f_of_int (Z.of_nat numSamples * Z.of_nat numChannels))).

(** The test of the loop of [estimatePitch] at index [i]: the signal
    crosses zero between the samples [i - 1] and [i]. *)
Definition crosses_zero (buffer : AudioBuffer) (i : nat) : bool :=
  (f_leb (f_lit 0) (getSample buffer 0 (i - 1))
   && f_ltb (getSample buffer 0 i) (f_lit 0))
  || (f_ltb (getSample buffer 0 (i - 1)) (f_lit 0)
      && f_leb (f_lit 0) (getSample buffer 0 i)).

(** [for (int i = 1; i < numSamples; ++i) if (...) zeroCrossings++;] *)
Definition zeroCrossings (buffer : AudioBuffer) : Z :=
  fold_left
    (fun count i => if crosses_zero buffer i then (count + 1)%Z else count)
    (seq 1 (getNumSamples buffer - 1)) 0%Z.

(** [estimatePitch (buffer)]; [currentSampleRate] is the member of the
    processor. *)
Definition estimatePitch (currentSampleRate : D) (buffer : AudioBuffer) : F :=
  let numSamples := getNumSamples buffer in
  if numSamples <? 2 then f_lit 0
  else
    f_div
      (f_mul (f_of_int (zeroCrossings buffer)) (d_to_float currentSampleRate))
      (f_mul (f_lit 2) (f_of_int (Z.of_nat numSamples))).

(** ** The processor *)

(** The members of the processor; a stored preset is an object with one
    boolean property per enable flag.  The two channel counts are those of
    the bus layout, which the base class reports. *)
Record Processor := mkProcessor {
  multibandCompressor : DSPModules.MultibandCompressor;
  transientShaper : DSPMore.TransientShaper F D;
  deEsser : DSPModules.DeEsser;
  saturation : DSPMore.Saturation;
  stereoWidener : DSPModules.StereoWidener;
  limiter : DSPMore.Limiter;
  pthVocalClone : DSPMore.PTHVocalClone;
  epicSpaceReverb : DSPModules.EpicSpaceReverb;
  multibandCompressorEnabled : bool;
  transientShaperEnabled : bool;
  deEsserEnabled : bool;
  saturationEnabled : bool;
  stereoWidenerEnabled : bool;
  limiterEnabled : bool;
  pthVocalCloneEnabled : bool;
  epicSpaceReverbEnabled : bool;
  abComparisonEnabled : bool;
  abComparisonShowProcessed : bool;
  inputLevel : F;
  outputLevel : F;
  currentPitch : F;
  currentSampleRate : D;
  currentBlockSize : nat;
  presets : gmap string (gmap string bool);
  totalNumInputChannels : nat;
  totalNumOutputChannels : nat
}.

(** Assignments to one member. *)
Definition set_multibandCompressor (v : DSPModules.MultibandCompressor) (p : Processor)
    : Processor :=
  mkProcessor v (transientShaper p) (deEsser p) (saturation p)
  (stereoWidener p) (limiter p) (pthVocalClone p) (epicSpaceReverb p)
  (multibandCompressorEnabled p) (transientShaperEnabled p)
  (deEsserEnabled p) (saturationEnabled p) (stereoWidenerEnabled p)
  (limiterEnabled p) (pthVocalCloneEnabled p) (epicSpaceReverbEnabled p)
  (abComparisonEnabled p) (abComparisonShowProcessed p) (inputLevel p)
  (outputLevel p) (currentPitch p) (currentSampleRate p) (currentBlockSize p)
  (presets p) (totalNumInputChannels p) (totalNumOutputChannels p).

Definition set_transientShaper (v : DSPMore.TransientShaper F D) (p : Processor)
    : Processor :=
  mkProcessor (multibandCompressor p) v (deEsser p) (saturation p)
  (stereoWidener p) (limiter p) (pthVocalClone p) (epicSpaceReverb p)
  (multibandCompressorEnabled p) (transientShaperEnabled p)
  (deEsserEnabled p) (saturationEnabled p) (stereoWidenerEnabled p)
  (limiterEnabled p) (pthVocalCloneEnabled p) (epicSpaceReverbEnabled p)
  (abComparisonEnabled p) (abComparisonShowProcessed p) (inputLevel p)
  (outputLevel p) (currentPitch p) (currentSampleRate p) (currentBlockSize p)
  (presets p) (totalNumInputChannels p) (totalNumOutputChannels p).

Definition set_deEsser (v : DSPModules.DeEsser) (p : Processor)
    : Processor :=
  mkProcessor (multibandCompressor p) (transientShaper p) v (saturation p)
  (stereoWidener p) (limiter p) (pthVocalClone p) (epicSpaceReverb p)
  (multibandCompressorEnabled p) (transientShaperEnabled p)
  (deEsserEnabled p) (saturationEnabled p) (stereoWidenerEnabled p)
  (limiterEnabled p) (pthVocalCloneEnabled p) (epicSpaceReverbEnabled p)
  (abComparisonEnabled p) (abComparisonShowProcessed p) (inputLevel p)
  (outputLevel p) (currentPitch p) (currentSampleRate p) (currentBlockSize p)
  (presets p) (totalNumInputChannels p) (totalNumOutputChannels p).

Definition set_saturation (v : DSPMore.Saturation) (p : Processor)
    : Processor :=
  mkProcessor (multibandCompressor p) (transientShaper p) (deEsser p) v
  (stereoWidener p) (limiter p) (pthVocalClone p) (epicSpaceReverb p)
  (multibandCompressorEnabled p) (transientShaperEnabled p)
  (deEsserEnabled p) (saturationEnabled p) (stereoWidenerEnabled p)
  (limiterEnabled p) (pthVocalCloneEnabled p) (epicSpaceReverbEnabled p)
  (abComparisonEnabled p) (abComparisonShowProcessed p) (inputLevel p)
  (outputLevel p) (currentPitch p) (currentSampleRate p) (currentBlockSize p)
  (presets p) (totalNumInputChannels p) (totalNumOutputChannels p).

Definition set_limiter (v : DSPMore.Limiter) (p : Processor)
    : Processor :=
  mkProcessor (multibandCompressor p) (transientShaper p) (deEsser p)
  (saturation p) (stereoWidener p) v (pthVocalClone p) (epicSpaceReverb p)
  (multibandCompressorEnabled p) (transientShaperEnabled p)
  (deEsserEnabled p) (saturationEnabled p) (stereoWidenerEnabled p)
  (limiterEnabled p) (pthVocalCloneEnabled p) (epicSpaceReverbEnabled p)
  (abComparisonEnabled p) (abComparisonShowProcessed p) (inputLevel p)
  (outputLevel p) (currentPitch p) (currentSampleRate p) (currentBlockSize p)
  (presets p) (totalNumInputChannels p) (totalNumOutputChannels p).

Definition set_pthVocalClone (v : DSPMore.PTHVocalClone) (p : Processor)
    : Processor :=
  mkProcessor (multibandCompressor p) (transientShaper p) (deEsser p)
  (saturation p) (stereoWidener p) (limiter p) v (epicSpaceReverb p)
  (multibandCompressorEnabled p) (transientShaperEnabled p)
  (deEsserEnabled p) (saturationEnabled p) (stereoWidenerEnabled p)
  (limiterEnabled p) (pthVocalCloneEnabled p) (epicSpaceReverbEnabled p)
  (abComparisonEnabled p) (abComparisonShowProcessed p) (inputLevel p)
  (outputLevel p) (currentPitch p) (currentSampleRate p) (currentBlockSize p)
  (presets p) (totalNumInputChannels p) (totalNumOutputChannels p).

Definition set_epicSpaceReverb (v : DSPModules.EpicSpaceReverb) (p : Processor)
    : Processor :=
  mkProcessor (multibandCompressor p) (transientShaper p) (deEsser p)
  (saturation p) (stereoWidener p) (limiter p) (pthVocalClone p) v
  (multibandCompressorEnabled p) (transientShaperEnabled p)
  (deEsserEnabled p) (saturationEnabled p) (stereoWidenerEnabled p)
  (limiterEnabled p) (pthVocalCloneEnabled p) (epicSpaceReverbEnabled p)
  (abComparisonEnabled p) (abComparisonShowProcessed p) (inputLevel p)
  (outputLevel p) (currentPitch p) (currentSampleRate p) (currentBlockSize p)
  (presets p) (totalNumInputChannels p) (totalNumOutputChannels p).

Definition set_multibandCompressorEnabled (v : bool) (p : Processor)
    : Processor :=
  mkProcessor (multibandCompressor p) (transientShaper p) (deEsser p)
  (saturation p) (stereoWidener p) (limiter p) (pthVocalClone p)
  (epicSpaceReverb p) v (transientShaperEnabled p) (deEsserEnabled p)
  (saturationEnabled p) (stereoWidenerEnabled p) (limiterEnabled p)
  (pthVocalCloneEnabled p) (epicSpaceReverbEnabled p) (abComparisonEnabled p)
  (abComparisonShowProcessed p) (inputLevel p) (outputLevel p)
  (currentPitch p) (currentSampleRate p) (currentBlockSize p) (presets p)
  (totalNumInputChannels p) (totalNumOutputChannels p).

Definition set_transientShaperEnabled (v : bool) (p : Processor)
    : Processor :=
  mkProcessor (multibandCompressor p) (transientShaper p) (deEsser p)
  (saturation p) (stereoWidener p) (limiter p) (pthVocalClone p)
  (epicSpaceReverb p) (multibandCompressorEnabled p) v (deEsserEnabled p)
  (saturationEnabled p) (stereoWidenerEnabled p) (limiterEnabled p)
  (pthVocalCloneEnabled p) (epicSpaceReverbEnabled p) (abComparisonEnabled p)
  (abComparisonShowProcessed p) (inputLevel p) (outputLevel p)
  (currentPitch p) (currentSampleRate p) (currentBlockSize p) (presets p)
  (totalNumInputChannels p) (totalNumOutputChannels p).

Definition set_deEsserEnabled (v : bool) (p : Processor)
    : Processor :=
  mkProcessor (multibandCompressor p) (transientShaper p) (deEsser p)
  (saturation p) (stereoWidener p) (limiter p) (pthVocalClone p)
  (epicSpaceReverb p) (multibandCompressorEnabled p)
  (transientShaperEnabled p) v (saturationEnabled p) (stereoWidenerEnabled p)
  (limiterEnabled p) (pthVocalCloneEnabled p) (epicSpaceReverbEnabled p)
  (abComparisonEnabled p) (abComparisonShowProcessed p) (inputLevel p)
  (outputLevel p) (currentPitch p) (currentSampleRate p) (currentBlockSize p)
  (presets p) (totalNumInputChannels p) (totalNumOutputChannels p).

Definition set_saturationEnabled (v : bool) (p : Processor)
    : Processor :=
  mkProcessor (multibandCompressor p) (transientShaper p) (deEsser p)
  (saturation p) (stereoWidener p) (limiter p) (pthVocalClone p)
  (epicSpaceReverb p) (multibandCompressorEnabled p)
  (transientShaperEnabled p) (deEsserEnabled p) v (stereoWidenerEnabled p)
  (limiterEnabled p) (pthVocalCloneEnabled p) (epicSpaceReverbEnabled p)
  (abComparisonEnabled p) (abComparisonShowProcessed p) (inputLevel p)
  (outputLevel p) (currentPitch p) (currentSampleRate p) (currentBlockSize p)
  (presets p) (totalNumInputChannels p) (totalNumOutputChannels p).

Definition set_stereoWidenerEnabled (v : bool) (p : Processor)
    : Processor :=
  mkProcessor (multibandCompressor p) (transientShaper p) (deEsser p)
  (saturation p) (stereoWidener p) (limiter p) (pthVocalClone p)
  (epicSpaceReverb p) (multibandCompressorEnabled p)
  (transientShaperEnabled p) (deEsserEnabled p) (saturationEnabled p) v
  (limiterEnabled p) (pthVocalCloneEnabled p) (epicSpaceReverbEnabled p)
  (abComparisonEnabled p) (abComparisonShowProcessed p) (inputLevel p)
  (outputLevel p) (currentPitch p) (currentSampleRate p) (currentBlockSize p)
  (presets p) (totalNumInputChannels p) (totalNumOutputChannels p).

Definition set_limiterEnabled (v : bool) (p : Processor)
    : Processor :=
  mkProcessor (multibandCompressor p) (transientShaper p) (deEsser p)
  (saturation p) (stereoWidener p) (limiter p) (pthVocalClone p)
  (epicSpaceReverb p) (multibandCompressorEnabled p)
  (transientShaperEnabled p) (deEsserEnabled p) (saturationEnabled p)
  (stereoWidenerEnabled p) v (pthVocalCloneEnabled p)
  (epicSpaceReverbEnabled p) (abComparisonEnabled p)
  (abComparisonShowProcessed p) (inputLevel p) (outputLevel p)
  (currentPitch p) (currentSampleRate p) (currentBlockSize p) (presets p)
  (totalNumInputChannels p) (totalNumOutputChannels p).

Definition set_pthVocalCloneEnabled (v : bool) (p : Processor)
    : Processor :=
  mkProcessor (multibandCompressor p) (transientShaper p) (deEsser p)
  (saturation p) (stereoWidener p) (limiter p) (pthVocalClone p)
  (epicSpaceReverb p) (multibandCompressorEnabled p)
  (transientShaperEnabled p) (deEsserEnabled p) (saturationEnabled p)
  (stereoWidenerEnabled p) (limiterEnabled p) v (epicSpaceReverbEnabled p)
  (abComparisonEnabled p) (abComparisonShowProcessed p) (inputLevel p)
  (outputLevel p) (currentPitch p) (currentSampleRate p) (currentBlockSize p)
  (presets p) (totalNumInputChannels p) (totalNumOutputChannels p).

Definition set_epicSpaceReverbEnabled (v : bool) (p : Processor)
    : Processor :=
  mkProcessor (multibandCompressor p) (transientShaper p) (deEsser p)
  (saturation p) (stereoWidener p) (limiter p) (pthVocalClone p)
  (epicSpaceReverb p) (multibandCompressorEnabled p)
  (transientShaperEnabled p) (deEsserEnabled p) (saturationEnabled p)
  (stereoWidenerEnabled p) (limiterEnabled p) (pthVocalCloneEnabled p) v
  (abComparisonEnabled p) (abComparisonShowProcessed p) (inputLevel p)
  (outputLevel p) (currentPitch p) (currentSampleRate p) (currentBlockSize p)
  (presets p) (totalNumInputChannels p) (totalNumOutputChannels p).

Definition set_abComparisonEnabled (v : bool) (p : Processor)
    : Processor :=
  mkProcessor (multibandCompressor p) (transientShaper p) (deEsser p)
  (saturation p) (stereoWidener p) (limiter p) (pthVocalClone p)
  (epicSpaceReverb p) (multibandCompressorEnabled p)
  (transientShaperEnabled p) (deEsserEnabled p) (saturationEnabled p)
  (stereoWidenerEnabled p) (limiterEnabled p) (pthVocalCloneEnabled p)
  (epicSpaceReverbEnabled p) v (abComparisonShowProcessed p) (inputLevel p)
  (outputLevel p) (currentPitch p) (currentSampleRate p) (currentBlockSize p)
  (presets p) (totalNumInputChannels p) (totalNumOutputChannels p).

Definition set_abComparisonShowProcessed (v : bool) (p : Processor)
    : Processor :=
  mkProcessor (multibandCompressor p) (transientShaper p) (deEsser p)
  (saturation p) (stereoWidener p) (limiter p) (pthVocalClone p)
  (epicSpaceReverb p) (multibandCompressorEnabled p)
  (transientShaperEnabled p) (deEsserEnabled p) (saturationEnabled p)
  (stereoWidenerEnabled p) (limiterEnabled p) (pthVocalCloneEnabled p)
  (epicSpaceReverbEnabled p) (abComparisonEnabled p) v (inputLevel p)
  (outputLevel p) (currentPitch p) (currentSampleRate p) (currentBlockSize p)
  (presets p) (totalNumInputChannels p) (totalNumOutputChannels p).

Definition set_inputLevel (v : F) (p : Processor)
    : Processor :=
  mkProcessor (multibandCompressor p) (transientShaper p) (deEsser p)
  (saturation p) (stereoWidener p) (limiter p) (pthVocalClone p)
  (epicSpaceReverb p) (multibandCompressorEnabled p)
  (transientShaperEnabled p) (deEsserEnabled p) (saturationEnabled p)
  (stereoWidenerEnabled p) (limiterEnabled p) (pthVocalCloneEnabled p)
  (epicSpaceReverbEnabled p) (abComparisonEnabled p)
  (abComparisonShowProcessed p) v (outputLevel p) (currentPitch p)
  (currentSampleRate p) (currentBlockSize p) (presets p)
  (totalNumInputChannels p) (totalNumOutputChannels p).

Definition set_outputLevel (v : F) (p : Processor)
    : Processor :=
  mkProcessor (multibandCompressor p) (transientShaper p) (deEsser p)
  (saturation p) (stereoWidener p) (limiter p) (pthVocalClone p)
  (epicSpaceReverb p) (multibandCompressorEnabled p)
  (transientShaperEnabled p) (deEsserEnabled p) (saturationEnabled p)
  (stereoWidenerEnabled p) (limiterEnabled p) (pthVocalCloneEnabled p)
  (epicSpaceReverbEnabled p) (abComparisonEnabled p)
  (abComparisonShowProcessed p) (inputLevel p) v (currentPitch p)
  (currentSampleRate p) (currentBlockSize p) (presets p)
  (totalNumInputChannels p) (totalNumOutputChannels p).

Definition set_currentPitch (v : F) (p : Processor)
    : Processor :=
  mkProcessor (multibandCompressor p) (transientShaper p) (deEsser p)
  (saturation p) (stereoWidener p) (limiter p) (pthVocalClone p)
  (epicSpaceReverb p) (multibandCompressorEnabled p)
  (transientShaperEnabled p) (deEsserEnabled p) (saturationEnabled p)
  (stereoWidenerEnabled p) (limiterEnabled p) (pthVocalCloneEnabled p)
  (epicSpaceReverbEnabled p) (abComparisonEnabled p)
  (abComparisonShowProcessed p) (inputLevel p) (outputLevel p) v
  (currentSampleRate p) (currentBlockSize p) (presets p)
  (totalNumInputChannels p) (totalNumOutputChannels p).

Definition set_presets (v : gmap string (gmap string bool)) (p : Processor)
    : Processor :=
  mkProcessor (multibandCompressor p) (transientShaper p) (deEsser p)
  (saturation p) (stereoWidener p) (limiter p) (pthVocalClone p)
  (epicSpaceReverb p) (multibandCompressorEnabled p)
  (transientShaperEnabled p) (deEsserEnabled p) (saturationEnabled p)
  (stereoWidenerEnabled p) (limiterEnabled p) (pthVocalCloneEnabled p)
  (epicSpaceReverbEnabled p) (abComparisonEnabled p)
  (abComparisonShowProcessed p) (inputLevel p) (outputLevel p)
  (currentPitch p) (currentSampleRate p) (currentBlockSize p) v
  (totalNumInputChannels p) (totalNumOutputChannels p).
(** The setters of the header. *)
Definition setMultibandCompressorEnabled := set_multibandCompressorEnabled.
Definition setTransientShaperEnabled := set_transientShaperEnabled.
Definition setDeEsserEnabled := set_deEsserEnabled.
Definition setSaturationEnabled := set_saturationEnabled.
Definition setStereoWidenerEnabled := set_stereoWidenerEnabled.
Definition setLimiterEnabled := set_limiterEnabled.
Definition setPTHVocalCloneEnabled := set_pthVocalCloneEnabled.
Definition setEpicSpaceReverbEnabled := set_epicSpaceReverbEnabled.
Definition setABComparisonEnabled := set_abComparisonEnabled.

(** [toggleABComparison ()] *)
Definition toggleABComparison (p : Processor) : Processor :=
  set_abComparisonShowProcessed (negb (abComparisonShowProcessed p)) p.

(** One call [member.process (buffer)] for each module. *)
Definition call_multibandCompressor (s : Processor * AudioBuffer)
    : Processor * AudioBuffer :=
  let '(o, b) :=
    DSPModules.MultibandCompressor_process (multibandCompressor s.1) s.2 in
  (set_multibandCompressor o s.1, b).

Definition call_transientShaper (s : Processor * AudioBuffer)
    : Processor * AudioBuffer :=
  let '(o, b) := DSPMore.TransientShaper_process (transientShaper s.1) s.2 in
  (set_transientShaper o s.1, b).

Definition call_deEsser (s : Processor * AudioBuffer)
    : Processor * AudioBuffer :=
  let '(o, b) := DSPModules.DeEsser_process (deEsser s.1) s.2 in
  (set_deEsser o s.1, b).

Definition call_saturation (s : Processor * AudioBuffer)
    : Processor * AudioBuffer :=
  let '(o, b) := DSPMore.Saturation_process (saturation s.1) s.2 in
  (set_saturation o s.1, b).

Definition call_stereoWidener (s : Processor * AudioBuffer)
    : Processor * AudioBuffer :=
  (s.1, DSPModules.StereoWidener_process (stereoWidener s.1) s.2).

Definition call_pthVocalClone (s : Processor * AudioBuffer)
    : Processor * AudioBuffer :=
  let '(o, b) := DSPMore.PTHVocalClone_process (pthVocalClone s.1) s.2 in
  (set_pthVocalClone o s.1, b).

Definition call_epicSpaceReverb (s : Processor * AudioBuffer)
    : Processor * AudioBuffer :=
  let '(o, b) := DSPModules.EpicSpaceReverb_process (epicSpaceReverb s.1) s.2 in
  (set_epicSpaceReverb o s.1, b).

Definition call_limiter (s : Processor * AudioBuffer)
    : Processor * AudioBuffer :=
  let '(o, b) := DSPMore.Limiter_process (limiter s.1) s.2 in
  (set_limiter o s.1, b).

(** [if (flag) { member.process (buffer); }] *)
Definition guarded (flag : Processor -> bool)
    (call : Processor * AudioBuffer -> Processor * AudioBuffer)
    (s : Processor * AudioBuffer) : Processor * AudioBuffer :=
  if flag s.1 then call s else s.

(** [buffer.clear (channel, 0, numSamples)] *)
Definition clearChannel (buffer : AudioBuffer) (channel numSamples : nat)
    : AudioBuffer :=
  alter
    (fun c => replicate (Nat.min numSamples (length c)) f_zero
              ++ drop numSamples c)
    channel buffer.

(** "Clear unused output channels" *)
Definition clearUnusedOutputs (p : Processor) (buffer : AudioBuffer)
    : AudioBuffer :=
  for_range (totalNumOutputChannels p - totalNumInputChannels p)
    (fun k b =>
       clearChannel b (totalNumInputChannels p + k) (getNumSamples buffer))
    buffer.

(** The chain of [processBlock], between the two measurements. *)
Definition processChain (s : Processor * AudioBuffer)
    : Processor * AudioBuffer :=
  (* Vocal FX Processing Chain *)
  let s := guarded multibandCompressorEnabled call_multibandCompressor s in
  let s := guarded transientShaperEnabled call_transientShaper s in
  let s := guarded deEsserEnabled call_deEsser s in
  let s := guarded saturationEnabled call_saturation s in
  let s := guarded stereoWidenerEnabled call_stereoWidener s in
  (* PTH Vocal Clone Processing *)
  let s := guarded pthVocalCloneEnabled call_pthVocalClone s in
  (* Epic Space Reverb Processing *)
  let s := guarded epicSpaceReverbEnabled call_epicSpaceReverb s in
  (* Final Stage: Limiter *)
  guarded limiterEnabled call_limiter s.

(** [processBlock (buffer, midiMessages)]; the MIDI buffer is ignored. *)
Definition processBlock (p : Processor) (buffer : AudioBuffer)
    : Processor * AudioBuffer :=
  let buffer := clearUnusedOutputs p buffer in
  let p := set_inputLevel (calculateRMSLevel buffer) p in
  let p := set_currentPitch (estimatePitch (currentSampleRate p) buffer) p in
  if abComparisonEnabled p && negb (abComparisonShowProcessed p)
  then (set_outputLevel (calculateRMSLevel buffer) p, buffer)
  else
    let '(p, buffer) := processChain (p, buffer) in
    (set_outputLevel (calculateRMSLevel buffer) p, buffer).

(** ** Presets *)

(** The object that [savePreset] and [getStateInformation] build. *)
Definition flagsObject (p : Processor) : gmap string bool :=
  <["epicSpaceReverbEnabled" := epicSpaceReverbEnabled p]>
    (<["pthVocalCloneEnabled" := pthVocalCloneEnabled p]>
       (<["limiterEnabled" := limiterEnabled p]>
          (<["stereoWidenerEnabled" := stereoWidenerEnabled p]>
             (<["saturationEnabled" := saturationEnabled p]>
                (<["deEsserEnabled" := deEsserEnabled p]>
                   (<["transientShaperEnabled" := transientShaperEnabled p]>
                      (<["multibandCompressorEnabled" :=
                           multibandCompressorEnabled p]> ∅))))))).

(** [if (obj->hasProperty (name)) flag = obj->getProperty (name);] *)
Definition restore (obj : gmap string bool) (name : string)
    (set : bool -> Processor -> Processor) (p : Processor) : Processor :=
  match obj !! name with
  | Some v => set v p
  | None => p
  end.

(** The eight assignments of [loadPreset] and [setStateInformation]. *)
Definition restoreFlags (obj : gmap string bool) (p : Processor) : Processor :=
  let p := restore obj "multibandCompressorEnabled"
             set_multibandCompressorEnabled p in
  let p := restore obj "transientShaperEnabled" set_transientShaperEnabled p in
  let p := restore obj "deEsserEnabled" set_deEsserEnabled p in
  let p := restore obj "saturationEnabled" set_saturationEnabled p in
  let p := restore obj "stereoWidenerEnabled" set_stereoWidenerEnabled p in
  let p := restore obj "limiterEnabled" set_limiterEnabled p in
  let p := restore obj "pthVocalCloneEnabled" set_pthVocalCloneEnabled p in
  restore obj "epicSpaceReverbEnabled" set_epicSpaceReverbEnabled p.

(** [savePreset (name)] *)
Definition savePreset (name : string) (p : Processor) : Processor :=
  set_presets (<[name := flagsObject p]> (presets p)) p.

(** [loadPreset (name)] *)
Definition loadPreset (name : string) (p : Processor) : Processor :=
  match presets p !! name with
  | Some obj => restoreFlags obj p
  | None => p
  end.

(** [getPresetNames ()]; the C++ code walks a [std::map] in the order of
    its keys, the list below has the order of [map_to_list]. *)
Definition getPresetNames (p : Processor) : list string :=
  (map_to_list (presets p)).*1.

(** The eight enable flags, in the order of their declaration. *)
Definition flags (p : Processor) : list bool :=
  [multibandCompressorEnabled p; transientShaperEnabled p; deEsserEnabled p;
   saturationEnabled p; stereoWidenerEnabled p; limiterEnabled p;
   pthVocalCloneEnabled p; epicSpaceReverbEnabled p].

(** What the chain reads and writes of the processor: the eight modules
    and the eight flags. *)
Definition chain_view (p : Processor) :=
  (multibandCompressor p, transientShaper p, deEsser p, saturation p,
   stereoWidener p, limiter p, pthVocalClone p, epicSpaceReverb p, flags p).


(** ** The chain as a list of stages *)

Inductive Stage :=
| MultibandStage | TransientStage | DeEsserStage | SaturationStage
| WidenerStage | PTHStage | ReverbStage | LimiterStage.

Definition stage_order : list Stage :=
  [MultibandStage; TransientStage; DeEsserStage; SaturationStage;
   WidenerStage; PTHStage; ReverbStage; LimiterStage].

Definition stage_enabled (p : Processor) (s : Stage) : bool :=
  match s with
  | MultibandStage => multibandCompressorEnabled p
  | TransientStage => transientShaperEnabled p
  | DeEsserStage => deEsserEnabled p
  | SaturationStage => saturationEnabled p
  | WidenerStage => stereoWidenerEnabled p
  | PTHStage => pthVocalCloneEnabled p
  | ReverbStage => epicSpaceReverbEnabled p
  | LimiterStage => limiterEnabled p
  end.

Definition run_stage (s : Stage)
    : Processor * AudioBuffer -> Processor * AudioBuffer :=
  match s with
  | MultibandStage => call_multibandCompressor
  | TransientStage => call_transientShaper
  | DeEsserStage => call_deEsser
  | SaturationStage => call_saturation
  | WidenerStage => call_stereoWidener
  | PTHStage => call_pthVocalClone
  | ReverbStage => call_epicSpaceReverb
  | LimiterStage => call_limiter
  end.

Definition run_stages (stages : list Stage) (s : Processor * AudioBuffer)
    : Processor * AudioBuffer :=
  fold_left (fun acc st => run_stage st acc) stages s.

Definition enabled_stages (p : Processor) : list Stage :=
  filter (fun s => stage_enabled p s = true) stage_order.

End FXSuite.

End FXSuite.

(* ===================================================================== *)
(** * Notions used to state the results on the further modules *)
(* ===================================================================== *)

Module MoreSpec.

Section MoreSpec.
Context `{JuceDsp R R}.
Local Open Scope R_scope.

(** A sample held within [-c .. c]. *)
Definition ceil_clamp (c x : R) : R :=
  if R_ltb c x then c else if R_ltb x (- c) then - c else x.

(** The gains of 12 dB down and 12 dB up. *)
Definition gain_floor : R := Rpower 10 (-12 / 20).
Definition gain_ceiling : R := Rpower 10 (12 / 20).

(** The two arrays of the harmony voices hold four entries each, the
    intervals within two octaves and the levels within [0 .. 1]. *)
Definition harmony_in_range (p : DSPMore.PTHVocalClone) : Prop :=
  length (DSPMore.harmonyVoices p) = 4%nat
  /\ Forall (fun v => -24 <= v <= 24) (DSPMore.harmonyVoices p)
  /\ length (DSPMore.harmonyLevels p) = 4%nat
  /\ Forall (fun v => 0 <= v <= 1) (DSPMore.harmonyLevels p).

End MoreSpec.

End MoreSpec.
Export MoreSpec.

(* ===================================================================== *)
(** * Further concrete objects *)
(* ===================================================================== *)

Module MoreFixtures.
Import Fixtures.

(** The further JUCE processors, leaving every sample as it is. *)
#[export] Instance bypass_dsp_more (F D : Type)
    : @DSPMore.JuceDspMore F D (Fixtures.bypass_dsp F D) := {
  DSPMore.makeHighShelf := fun _ _ _ _ => tt;
  DSPMore.makePeakFilter := fun _ _ _ _ => tt;
  DSPMore.LimiterDsp := unit;
  DSPMore.limiter_process := fun st b => (st, b);
  DSPMore.limiter_setThreshold := fun _ st => st;
  DSPMore.limiter_setRelease := fun _ st => st
}.

(** A backend whose model "vocal" answers with its input tensor, and one
    that answers with the tensor reversed. *)
Definition echo_session : OrtSession binary32 :=
  mkOrtSession (fun input _ => Returns input).

Definition echo_engine : OnnxEngine binary32 :=
  mkOnnxEngine {[ "vocal" := mkOnnxModel true (Some echo_session) [] ]}.

Definition reversing_session : OrtSession binary32 :=
  mkOrtSession (fun input _ => Returns (reverse input)).

Definition reversing_engine : OnnxEngine binary32 :=
  mkOnnxEngine {[ "vocal" := mkOnnxModel true (Some reversing_session) [] ]}.

Definition b32_block : Juce.AudioBuffer binary32 :=
  [[f_lit 1; f_lit 2]; [f_lit 3; f_lit 4]].

(** Objects over exact arithmetic. *)
Definition real_shaper : DSPMore.TransientShaper R R :=
  DSPMore.TransientShaper_prepare (F := R) (D := R) 44100%R
    (DSPMore.TransientShaper_new (F := R) (D := R) 0%R 0%R).

Definition real_epic
    : @DSPModules.EpicSpaceReverb R R (Fixtures.bypass_dsp R R) :=
  DSPMore.EpicSpaceReverb_setWetDryMix (F := R) (D := R) (f_lit 0)
    (DSPModules.mkEpicSpaceReverb (F := R) (D := R)
       30%R 44100%R (3 / 10)%R (1 / 2)%R (7 / 10)%R (8 / 10)%R (1 / 2)%R tt
       (DelayLine_setMaximumDelayInSamples (Z.to_nat 8820)
          (DelayLine_prepare 2 (DelayLine_new (Z.to_nat 192000))))
       [] tt (replicate 2 (replicate 512 0%R))).

Definition real_clone
    : @DSPMore.PTHVocalClone R R (Fixtures.bypass_dsp R R) :=
  DSPMore.PTHVocalClone_new (F := R) (D := R) tt tt.

Definition real_saturation : CinematicMore.WarmSaturation R :=
  CinematicMore.WarmSaturation_new (F := R).

(** The delay of the mastering chain after construction and
    [prepare (48000, 512)]: 300 ms, 14400 samples. *)
Definition real_delay : CinematicMore.SubtleDelay R R :=
  CinematicMore.SubtleDelay_prepare (F := R) (D := R) 48000%R 512
    (CinematicMore.SubtleDelay_new (F := R) (D := R)).

Definition dry_delay : CinematicMore.SubtleDelay R R :=
  CinematicMore.SubtleDelay_setMix (F := R) (D := R) 0%R real_delay.

(** A mono block that changes sign twice. *)
Definition zigzag_block : Juce.AudioBuffer R := [[1; -1; 1]]%R.

End MoreFixtures.

(* ===================================================================== *)
(** * Loops and buffers *)
(* ===================================================================== *)

Section BufferFacts.
Context {F : Type} `{FloatOps F}.
Local Abbreviation AudioBuffer := (Juce.AudioBuffer F).
Implicit Types (b dest src : AudioBuffer) (ch i n : nat).

Lemma for_range_0 {S : Type} (body : nat -> S -> S) (s : S) :
  for_range 0 body s = s.
Proof. reflexivity. Qed.

Lemma for_range_S {S : Type} n (body : nat -> S -> S) (s : S) :
  for_range (Datatypes.S n) body s = body n (for_range n body s).
Proof. unfold for_range. by rewrite seq_S, fold_left_app. Qed.

Lemma for_range_id {S : Type} n (body : nat -> S -> S) (s : S) :
  (forall i x, body i x = x) -> for_range n body s = s.
Proof.
  intros Hid. induction n as [|n IH]; [done|]. by rewrite for_range_S, Hid.
Qed.

Lemma for_range_ext {S : Type} n (body1 body2 : nat -> S -> S) (s : S) :
  (forall i x, i < n -> body1 i x = body2 i x) ->
  for_range n body1 s = for_range n body2 s.
Proof.
  induction n as [|n IH]; intros He; [done|].
  rewrite !for_range_S, IH by (intros; apply He; lia). apply He. lia.
Qed.

Lemma getSample_sample_at b ch i :
  getSample b ch i = default f_zero (sample_at b ch i).
Proof. reflexivity. Qed.

Lemma getSample_Some b ch i x : sample_at b ch i = Some x -> getSample b ch i = x.
Proof. rewrite getSample_sample_at. by intros ->. Qed.

Lemma sample_at_setSample b ch i v ch' i' :
  sample_at (setSample b ch i v) ch' i'
  = if decide (ch = ch' /\ i = i')
    then (fun _ => v) <$> sample_at b ch' i'
    else sample_at b ch' i'.
Proof.
  unfold sample_at, setSample. rewrite list_lookup_alter.
  destruct (decide (ch = ch')) as [->|Hne];
    [|by rewrite decide_False by tauto].
  destruct (b !! ch') as [c|]; cbn; [|by case_decide].
  rewrite list_lookup_insert.
  destruct (decide (i = i')) as [->|Hi].
  - rewrite (decide_True (P := ch' = ch' /\ i' = i')) by done.
    destruct (decide (i' < length c)) as [Hlt|Hge].
    + rewrite decide_True by done.
      by destruct (lookup_lt_is_Some_2 c i' Hlt) as [x ->].
    + rewrite decide_False by tauto.
      by rewrite (lookup_ge_None_2 c i') by lia.
  - by rewrite !decide_False by tauto.
Qed.

Lemma setSample_getSample b ch i : setSample b ch i (getSample b ch i) = b.
Proof.
  unfold setSample, getSample.
  destruct (b !! ch) as [c|] eqn:Hc; cbn.
  - rewrite <- (list_alter_id (fun c => c) b ch) at 2 by done.
    apply list_alter_ext; [|done]. intros c' Hc'. rewrite Hc in Hc'.
    simplify_eq. destruct (c' !! i) as [x|] eqn:Hx; cbn.
    + by apply list_insert_id.
    + apply list_insert_ge. by apply lookup_ge_None_1.
  - apply list_eq. intros j. rewrite list_lookup_alter.
    destruct (decide (ch = j)) as [->|]; [by rewrite Hc|done].
Qed.

(** A loop over the samples of one channel, each new sample computed from
    the old one at the same place. *)
Lemma sample_at_channel_loop (g : nat -> F -> F) ch n b ch' i' :
  sample_at
    (for_range n (fun i d => setSample d ch i (g i (getSample d ch i))) b)
    ch' i'
  = if decide (ch = ch' /\ i' < n)
    then g i' <$> sample_at b ch' i'
    else sample_at b ch' i'.
Proof.
  induction n as [|n IH].
  - rewrite for_range_0. by rewrite decide_False by lia.
  - rewrite for_range_S, sample_at_setSample.
    set (X := for_range n _ b) in *.
    destruct (decide (ch = ch' /\ n = i')) as [[-> ->]|Hne].
    + rewrite getSample_sample_at, IH.
      rewrite (decide_False (P := ch' = ch' /\ i' < i')) by lia.
      rewrite decide_True by lia.
      by destruct (sample_at b ch' i').
    + rewrite IH. destruct (decide (ch = ch' /\ i' < n)) as [Hy|Hn].
      * by rewrite decide_True by lia.
      * by rewrite decide_False by lia.
Qed.

(** The nest [for (ch) for (i)]. *)
Lemma sample_at_channel_major (g : nat -> nat -> F -> F) nch n b ch' i' :
  sample_at
    (for_range nch
       (fun ch =>
          for_range n
            (fun i d => setSample d ch i (g ch i (getSample d ch i))))
       b)
    ch' i'
  = if decide (ch' < nch /\ i' < n)
    then g ch' i' <$> sample_at b ch' i'
    else sample_at b ch' i'.
Proof.
  induction nch as [|nch IH].
  - rewrite for_range_0. by rewrite decide_False by lia.
  - rewrite for_range_S, (sample_at_channel_loop (g nch)), IH.
    destruct (decide (nch = ch' /\ i' < n)) as [[-> Hi]|Hne].
    + rewrite (decide_False (P := ch' < ch' /\ i' < n)) by lia.
      by rewrite decide_True by lia.
    + destruct (decide (ch' < nch /\ i' < n)).
      * by rewrite decide_True by lia.
      * by rewrite decide_False by lia.
Qed.

(** A loop over the channels at one sample index. *)
Lemma sample_at_index_loop (g : nat -> F -> F) i nch b ch' i' :
  sample_at
    (for_range nch (fun ch d => setSample d ch i (g ch (getSample d ch i))) b)
    ch' i'
  = if decide (ch' < nch /\ i = i')
    then g ch' <$> sample_at b ch' i'
    else sample_at b ch' i'.
Proof.
  induction nch as [|nch IH].
  - rewrite for_range_0. by rewrite decide_False by lia.
  - rewrite for_range_S, sample_at_setSample.
    set (X := for_range nch _ b) in *.
    destruct (decide (nch = ch' /\ i = i')) as [[-> ->]|Hne].
    + rewrite getSample_sample_at, IH.
      rewrite (decide_False (P := ch' < ch' /\ i' = i')) by lia.
      rewrite decide_True by lia.
      by destruct (sample_at b ch' i').
    + rewrite IH. destruct (decide (ch' < nch /\ i = i')) as [Hy|Hn].
      * by rewrite decide_True by lia.
      * by rewrite decide_False by lia.
Qed.

(** The nest [for (i) for (ch)], the new sample computed by [g i ch]. *)
Lemma sample_at_sample_major (g : nat -> nat -> F -> F) nch n b ch' i' :
  sample_at
    (for_range n
       (fun i =>
          for_range nch
            (fun ch d => setSample d ch i (g i ch (getSample d ch i))))
       b)
    ch' i'
  = if decide (ch' < nch /\ i' < n)
    then g i' ch' <$> sample_at b ch' i'
    else sample_at b ch' i'.
Proof.
  induction n as [|n IH].
  - rewrite for_range_0. by rewrite decide_False by lia.
  - rewrite for_range_S, (sample_at_index_loop (g n)), IH.
    destruct (decide (ch' < nch /\ n = i')) as [[Hc ->]|Hne].
    + rewrite (decide_False (P := ch' < nch /\ i' < i')) by lia.
      by rewrite decide_True by lia.
    + destruct (decide (ch' < nch /\ i' < n)).
      * by rewrite decide_True by lia.
      * by rewrite decide_False by lia.
Qed.

(** [copyFrom] and the copy loop. *)
Lemma sample_at_copyFrom_other dest destCh src srcCh n ch i :
  destCh <> ch ->
  sample_at (copyFrom dest destCh src srcCh n) ch i = sample_at dest ch i.
Proof.
  intros Hne. unfold sample_at, copyFrom.
  by rewrite list_lookup_alter_ne.
Qed.

Lemma length_copyFrom dest destCh src srcCh n :
  length (copyFrom dest destCh src srcCh n) = length dest.
Proof. unfold copyFrom. apply length_alter. Qed.

Lemma sample_at_copyFrom_prefix dest src n ch i x :
  ch < length dest ->
  i < n ->
  sample_at src ch i = Some x ->
  sample_at (copyFrom dest ch src ch n) ch i = Some x.
Proof.
  intros Hch Hi Hx. unfold sample_at, copyFrom.
  rewrite list_lookup_alter_eq.
  destruct (lookup_lt_is_Some_2 dest ch Hch) as [d ->]. cbn.
  unfold sample_at in Hx. destruct (src !! ch) as [c|]; [|done]. cbn in *.
  assert (i < length c) by (by eapply lookup_lt_Some).
  rewrite lookup_app_l by (rewrite length_take; lia).
  by rewrite lookup_take_lt.
Qed.

Lemma copy_loop_lookup (src : AudioBuffer) n nch dest ch :
  for_range nch (fun c d => copyFrom d c src c n) dest !! ch
  = if decide (ch < nch)
    then (fun d => take n (default [] (src !! ch)) ++ drop n d) <$> dest !! ch
    else dest !! ch.
Proof.
  induction nch as [|nch IH].
  - rewrite for_range_0. by rewrite decide_False by lia.
  - rewrite for_range_S. unfold copyFrom at 1. rewrite list_lookup_alter.
    destruct (decide (nch = ch)) as [->|Hne].
    + rewrite IH, decide_False, decide_True by lia. done.
    + rewrite IH. destruct (decide (ch < nch)).
      * by rewrite decide_True by lia.
      * by rewrite decide_False by lia.
Qed.

Lemma sample_at_copy_loop (src : AudioBuffer) n nch dest ch i x :
  ch < nch -> ch < length dest -> i < n ->
  sample_at src ch i = Some x ->
  sample_at (for_range nch (fun c d => copyFrom d c src c n) dest) ch i
  = Some x.
Proof.
  intros Hch Hd Hi Hx. unfold sample_at at 1.
  rewrite copy_loop_lookup, decide_True by done.
  destruct (lookup_lt_is_Some_2 dest ch Hd) as [d ->]. cbn.
  unfold sample_at in Hx. destruct (src !! ch) as [c|]; [|done]. cbn in *.
  assert (i < length c) by (by eapply lookup_lt_Some).
  rewrite lookup_app_l by (rewrite length_take; lia).
  by rewrite lookup_take_lt.
Qed.

(** Processing sample by sample keeps the shape of a buffer. *)
Lemma run_samples_length {St : Type} (step : St -> F -> St * F) st xs :
  length (run_samples step st xs).2 = length xs.
Proof.
  revert st. induction xs as [|x xs IH]; intros st; [done|].
  cbn. destruct (step st x) as [st1 y]. specialize (IH st1).
  destruct (run_samples step st1 xs). cbn in *. by rewrite IH.
Qed.

End BufferFacts.

(* ===================================================================== *)
(** * Literals and comparisons in exact arithmetic *)
(* ===================================================================== *)

Section ExactArithmetic.
Local Open Scope R_scope.

Lemma Q2R_0 : Q2R 0 = 0.
Proof. unfold Q2R; cbn; lra. Qed.

Lemma Q2R_1 : Q2R 1 = 1.
Proof. unfold Q2R; cbn; lra. Qed.

Lemma Q2R_2 : Q2R 2 = 2.
Proof. unfold Q2R; cbn; lra. Qed.

Lemma Q2R_half : Q2R (1 # 2) = / 2.
Proof. unfold Q2R; cbn; lra. Qed.

Lemma f_zero_R : (f_zero : R) = 0.
Proof. exact Q2R_0. Qed.

Lemma f_one_R : (f_one : R) = 1.
Proof. exact Q2R_1. Qed.

Lemma R_ltb_true x y : x < y -> R_ltb x y = true.
Proof. unfold R_ltb. by destruct (Rlt_dec x y). Qed.

Lemma R_ltb_false x y : y <= x -> R_ltb x y = false.
Proof. unfold R_ltb. destruct (Rlt_dec x y); [lra|done]. Qed.

End ExactArithmetic.

(* ===================================================================== *)
(** * The per-track chains *)
(* ===================================================================== *)

Section AIFXFacts.
Context {F D : Type} `{FloatOps F}.
Local Abbreviation AudioBuffer := (Juce.AudioBuffer F).
Implicit Types (fx : AIFXEngine F D) (track : TrackFX F D) (buffer : AudioBuffer).

Lemma processEffects_buffer engine (effects : list (Effect F D)) buffer n :
  (processEffects engine effects buffer n).2
  = apply_effects engine effects n buffer.
Proof.
  revert buffer. induction effects as [|e rest IH]; intros buffer; [done|].
  cbn [processEffects apply_effects fold_left].
  destruct (Effect_process engine e buffer n) as [e' b1] eqn:E1.
  specialize (IH b1).
  destruct (processEffects engine rest b1 n) as [rest' b2] eqn:E2.
  cbn in *. exact IH.
Qed.

Lemma processEffects_length engine (effects : list (Effect F D)) buffer n :
  length (processEffects engine effects buffer n).1 = length effects.
Proof.
  revert buffer. induction effects as [|e rest IH]; intros buffer; [done|].
  cbn [processEffects].
  destruct (Effect_process engine e buffer n) as [e' b1].
  specialize (IH b1).
  destruct (processEffects engine rest b1 n) as [rest' b2].
  cbn in *. by rewrite IH.
Qed.

Lemma apply_effects_app engine (l1 l2 : list (Effect F D)) n buffer :
  apply_effects engine (l1 ++ l2) n buffer
  = apply_effects engine l2 n (apply_effects engine l1 n buffer).
Proof. unfold apply_effects. by rewrite fold_left_app. Qed.

Lemma in_range_guard (t : Z) :
  in_range t = true -> ((t <? 0) || (NUM_TRACKS <=? t))%Z = false.
Proof. unfold in_range, NUM_TRACKS. lia. Qed.

Lemma process_at fx buffer n t track :
  in_range t = true ->
  trackFX fx !! Z.to_nat t = Some track ->
  (AIFX.process fx buffer n t).2 =
    match mode track with
    | Off => buffer
    | DSP => apply_effects (onnxEngine fx) (dspEffects track) n buffer
    | AI => apply_effects (onnxEngine fx) (aiEffects track) n buffer
    | Hybrid =>
        apply_effects (onnxEngine fx) (aiEffects track) n
          (apply_effects (onnxEngine fx) (dspEffects track) n buffer)
    end.
Proof.
  intros Hr Ht. unfold AIFX.process.
  rewrite (in_range_guard _ Hr), Ht.
  destruct (mode track); cbn.
  - done.
  - unfold processDSP.
    pose proof (processEffects_buffer (onnxEngine fx) (dspEffects track) buffer n) as E.
    destruct (processEffects _ (dspEffects track) buffer n); cbn in *. done.
  - unfold processAI.
    pose proof (processEffects_buffer (onnxEngine fx) (aiEffects track) buffer n) as E.
    destruct (processEffects _ (aiEffects track) buffer n); cbn in *. done.
  - unfold processHybrid, processDSP.
    pose proof (processEffects_buffer (onnxEngine fx) (dspEffects track) buffer n) as E.
    destruct (processEffects _ (dspEffects track) buffer n) as [d' b1]; cbn in *.
    unfold processAI; cbn.
    pose proof (processEffects_buffer (onnxEngine fx) (aiEffects track) b1 n) as E2.
    destruct (processEffects _ (aiEffects track) b1 n); cbn in *. by subst.
Qed.

Lemma process_off_engine fx buffer n t track :
  in_range t = true ->
  trackFX fx !! Z.to_nat t = Some track ->
  mode track = Off ->
  AIFX.process fx buffer n t = (fx, buffer).
Proof.
  intros Hr Ht Hm. unfold AIFX.process.
  rewrite (in_range_guard _ Hr), Ht, Hm.
  rewrite list_insert_id by done. by destruct fx.
Qed.

Lemma addDSPEffect_at fx t track (e : Effect F D) :
  in_range t = true ->
  trackFX fx !! Z.to_nat t = Some track ->
  trackFX (addDSPEffect fx t e) !! Z.to_nat t
  = Some (mkTrackFX (mode track)
            (dspEffects track
             ++ [Effect_prepare (currentSampleRate fx) (currentMaxBlockSize fx) e])
            (aiEffects track)).
Proof.
  intros Hr Ht. unfold addDSPEffect, update_track. rewrite Hr. cbn.
  by rewrite list_lookup_alter_eq, Ht.
Qed.

Lemma addAIEffect_at fx t track role :
  in_range t = true ->
  is_Some (onnxEngine fx) ->
  trackFX fx !! Z.to_nat t = Some track ->
  trackFX (addAIEffect fx t role) !! Z.to_nat t
  = Some (mkTrackFX (mode track) (dspEffects track)
            (aiEffects track
             ++ [Effect_prepare (currentSampleRate fx) (currentMaxBlockSize fx)
                   (AIEffect_new (currentSampleRate fx) role)])).
Proof.
  intros Hr He Ht. unfold addAIEffect, update_track.
  rewrite Hr, bool_decide_eq_true_2 by done. cbn.
  by rewrite list_lookup_alter_eq, Ht.
Qed.

(** C1.  On a valid track index, [AIFXEngine::process] leaves the engine
    and the buffer as they are when the mode of the track is [Off]; in
    mode [DSP] the buffer is the result of the DSP effects of the track,
    run in list order, each on the output of the one before; in mode [AI]
    the same with the AI effects; in mode [Hybrid] all DSP effects run
    first and all AI effects after them, on the same buffer.  The list
    order is the insertion order: [addDSPEffect] and [addAIEffect] append
    at the end of their list. *)
Theorem process_dispatches_by_mode fx buffer n t track :
  in_range t = true ->
  trackFX fx !! Z.to_nat t = Some track ->
  let out := (AIFX.process fx buffer n t).2 in
  let run := apply_effects (onnxEngine fx) in
  (mode track = Off -> AIFX.process fx buffer n t = (fx, buffer))
  /\ (mode track = DSP -> out = run (dspEffects track) n buffer)
  /\ (mode track = AI -> out = run (aiEffects track) n buffer)
  /\ (mode track = Hybrid ->
      out = run (aiEffects track) n (run (dspEffects track) n buffer)
      /\ out = run (dspEffects track ++ aiEffects track) n buffer)
  /\ (forall e,
      trackFX (addDSPEffect fx t e) !! Z.to_nat t
      = Some (mkTrackFX (mode track)
                (dspEffects track
                 ++ [Effect_prepare (currentSampleRate fx)
                       (currentMaxBlockSize fx) e])
                (aiEffects track)))
  /\ (forall role,
      is_Some (onnxEngine fx) ->
      trackFX (addAIEffect fx t role) !! Z.to_nat t
      = Some (mkTrackFX (mode track) (dspEffects track)
                (aiEffects track
                 ++ [Effect_prepare (currentSampleRate fx)
                       (currentMaxBlockSize fx)
                       (AIEffect_new (currentSampleRate fx) role)]))).
Proof.
  intros Hr Ht out run. subst out run.
  rewrite (process_at _ _ _ _ _ Hr Ht).
  split; [|split; [|split; [|split; [|split]]]].
  - intros. by eapply process_off_engine.
  - by intros ->.
  - by intros ->.
  - intros ->. by rewrite apply_effects_app.
  - intros. by apply addDSPEffect_at.
  - intros. by apply addAIEffect_at.
Qed.

End AIFXFacts.


(* ===================================================================== *)
(** * The bridge to the inference backend *)
(* ===================================================================== *)

Section AIEffectFacts.
Context {F D : Type} `{FloatOps F}.
Local Abbreviation AudioBuffer := (Juce.AudioBuffer F).

Lemma runInference_throws (en : OnnxEngine F) role m s input shape out what :
  models en !! role = Some m ->
  modelLoaded m = true ->
  session m = Some s ->
  Run s input (match shape with [] => inputShape m | _ => shape end)
    = Throws what ->
  runInference en role input shape out = (false, out).
Proof.
  intros Hm Hl Hs Hr. unfold runInference, OnnxModel_isReady.
  rewrite Hm, Hl. unfold OnnxModel_runInference. rewrite Hl, Hs.
  cbn. by rewrite Hr.
Qed.

Lemma AIEffect_process_failed (en : OnnxEngine F) (e : AIEffect F D)
    (buffer : AudioBuffer) n :
  (runInference en (modelRole e) (concat (map (take n) buffer))
     [1%Z; Z.of_nat (length buffer); Z.of_nat n] (outputBuffer e)).1 = false ->
  (AIEffect_process (Some en) e buffer n).2 = buffer.
Proof.
  intros Hf. unfold AIEffect_process.
  destruct (negb (isModelReady en (modelRole e))); [done|].
  destruct (runInference _ _ _ _ _) as [ok output]. cbn in Hf. by subst ok.
Qed.

(** C3.  [AIEffect::process] returns the effect and the block unchanged
    when it has no engine and when the engine reports the model role not
    ready; it returns the block unchanged when [runInference] reports
    failure.  An [Ort::Exception] thrown by the session is caught inside
    [runInference], which then reports failure: the exception does not
    reach [process], and the block is unchanged. *)
Theorem AIEffect_passes_through (e : AIEffect F D) (buffer : AudioBuffer) n :
  AIEffect_process None e buffer n = (e, buffer)
  /\ (forall en,
        isModelReady en (modelRole e) = false ->
        AIEffect_process (Some en) e buffer n = (e, buffer))
  /\ (forall en,
        (runInference en (modelRole e) (concat (map (take n) buffer))
           [1%Z; Z.of_nat (length buffer); Z.of_nat n] (outputBuffer e)).1
        = false ->
        (AIEffect_process (Some en) e buffer n).2 = buffer)
  /\ (forall en m s what,
        models en !! modelRole e = Some m ->
        modelLoaded m = true ->
        session m = Some s ->
        Run s (concat (map (take n) buffer))
          [1%Z; Z.of_nat (length buffer); Z.of_nat n] = Throws what ->
        runInference en (modelRole e) (concat (map (take n) buffer))
          [1%Z; Z.of_nat (length buffer); Z.of_nat n] (outputBuffer e)
        = (false, outputBuffer e)
        /\ (AIEffect_process (Some en) e buffer n).2 = buffer).
Proof.
  split; [done|]. split; [|split].
  - intros en Hn. unfold AIEffect_process. by rewrite Hn.
  - intros en. apply AIEffect_process_failed.
  - intros en m s what Hm Hl Hs Hr.
    assert (runInference en (modelRole e) (concat (map (take n) buffer))
              [1%Z; Z.of_nat (length buffer); Z.of_nat n] (outputBuffer e)
            = (false, outputBuffer e)) as E
      by (by eapply runInference_throws).
    split; [exact E|]. apply AIEffect_process_failed. by rewrite E.
Qed.

End AIEffectFacts.


(* ===================================================================== *)
(** * The band split of the multiband compressors *)
(* ===================================================================== *)

Section BandSplit.
Context `{JuceDsp R R}.
Local Open Scope R_scope.
Local Abbreviation AudioBuffer := (Juce.AudioBuffer R).

Lemma copy_loop_triple (buffer : AudioBuffer) n nch (l md h : AudioBuffer) :
  for_range nch
    (fun ch '(l, md, h) =>
       (copyFrom l ch buffer ch n, copyFrom md ch buffer ch n,
        copyFrom h ch buffer ch n))
    (l, md, h)
  = (for_range nch (fun ch d => copyFrom d ch buffer ch n) l,
     for_range nch (fun ch d => copyFrom d ch buffer ch n) md,
     for_range nch (fun ch d => copyFrom d ch buffer ch n) h).
Proof.
  induction nch as [|nch IH]; [done|]. by rewrite !for_range_S, IH.
Qed.

Lemma sample_at_lt_channels (b : AudioBuffer) ch i x :
  sample_at b ch i = Some x -> (ch < getNumChannels b)%nat.
Proof.
  unfold sample_at, getNumChannels. intros Hx.
  destruct (b !! ch) eqn:Hc; [|done]. by eapply lookup_lt_Some.
Qed.

Lemma dsp_split_bands (m : DSPModules.MultibandCompressor)
    (buffer : AudioBuffer) ch i x :
  (ch < length (DSPModules.midBandBuffer m))%nat ->
  (i < getNumSamples buffer)%nat ->
  sample_at buffer ch i = Some x ->
  let m1 := DSPModules.MultibandCompressor_split m buffer in
  let low := getSample (DSPModules.lowBandBuffer m1) ch i in
  let mid := getSample (DSPModules.midBandBuffer m1) ch i in
  let high := getSample (DSPModules.highBandBuffer m1) ch i in
  mid = x - low - high /\ low + mid + high = x.
Proof.
  intros Hch Hi Hx. unfold DSPModules.MultibandCompressor_split.
  rewrite copy_loop_triple.
  destruct (process_block lr_processSample (DSPModules.lowCrossover m) _)
    as [lowX low1].
  destruct (process_block lr_processSample (DSPModules.highCrossover m) _)
    as [highX high1].
  cbn [DSPModules.lowBandBuffer DSPModules.midBandBuffer
       DSPModules.highBandBuffer].
  set (mid0 := for_range _ _ (DSPModules.midBandBuffer m)).
  assert (sample_at mid0 ch i = Some x) as Hmid0.
  { apply sample_at_copy_loop; try done. by eapply sample_at_lt_channels. }
  pose proof (sample_at_channel_major
    (fun c j _ => f_sub (f_sub (getSample buffer c j) (getSample low1 c j))
                    (getSample high1 c j))
    (getNumChannels buffer) (getNumSamples buffer) mid0 ch i) as Hloop.
  rewrite decide_True in Hloop
    by (split; [by eapply sample_at_lt_channels|done]).
  rewrite Hmid0 in Hloop. cbn in Hloop.
  rewrite (getSample_Some _ _ _ _ Hx) in Hloop.
  rewrite (getSample_Some _ _ _ _ Hloop). cbn. split; [done|lra].
Qed.

Lemma cinematic_split_bands (m : Cinematic.MultibandCompressor)
    (buffer : AudioBuffer) n ch i x :
  (ch < 2)%nat ->
  (ch < length (Cinematic.midBandBuffer m))%nat ->
  (i < n)%nat ->
  sample_at buffer ch i = Some x ->
  let m1 := Cinematic.MultibandCompressor_split m buffer n in
  let low := getSample (Cinematic.lowBandBuffer m1) ch i in
  let mid := getSample (Cinematic.midBandBuffer m1) ch i in
  let high := getSample (Cinematic.highBandBuffer m1) ch i in
  mid = x - low - high /\ low + mid + high = x.
Proof.
  intros Hch2 Hch Hi Hx. unfold Cinematic.MultibandCompressor_split.
  destruct (process_subblock lr_processSample 2 n (Cinematic.lowCrossover m) _)
    as [lowX low1].
  destruct (process_subblock lr_processSample 2 n (Cinematic.highCrossover m) _)
    as [highX high1].
  cbn [Cinematic.lowBandBuffer Cinematic.midBandBuffer
       Cinematic.highBandBuffer].
  set (mid0 := copyFrom (copyFrom (Cinematic.midBandBuffer m) 0 buffer 0 n)
                 1 buffer 1 n).
  assert (sample_at mid0 ch i = Some x) as Hmid0.
  { subst mid0. destruct ch as [|[|ch]]; [| |lia].
    - rewrite sample_at_copyFrom_other by done.
      by apply sample_at_copyFrom_prefix.
    - apply sample_at_copyFrom_prefix; [|done..].
      by rewrite length_copyFrom. }
  pose proof (sample_at_channel_major
    (fun c j v => f_sub (f_sub v (getSample low1 c j)) (getSample high1 c j))
    2 n mid0 ch i) as Hloop.
  rewrite decide_True in Hloop by done.
  rewrite Hmid0 in Hloop. cbn in Hloop.
  rewrite (getSample_Some _ _ _ _ Hloop). cbn. split; [done|lra].
Qed.

Lemma dsp_prepare_channels (m : DSPModules.MultibandCompressor) nch maxBlock :
  length (DSPModules.midBandBuffer
            (DSPModules.MultibandCompressor_prepare nch maxBlock m)) = nch.
Proof. cbn. apply length_replicate. Qed.

(** C2.  Before the bands are compressed, the band buffers of both
    multiband compressors hold, at every sample of the block,
    [mid = x - low - high], so that [low + mid + high = x]: in exact
    arithmetic the three bands sum to the input sample for sample, whatever
    the two crossover filters compute.  The compressor must have been
    prepared for the channel. *)
Theorem bands_sum_to_input :
  (forall (m : DSPModules.MultibandCompressor) (buffer : AudioBuffer) ch i x,
     (ch < length (DSPModules.midBandBuffer m))%nat ->
     (i < getNumSamples buffer)%nat ->
     sample_at buffer ch i = Some x ->
     let m1 := DSPModules.MultibandCompressor_split m buffer in
     let low := getSample (DSPModules.lowBandBuffer m1) ch i in
     let mid := getSample (DSPModules.midBandBuffer m1) ch i in
     let high := getSample (DSPModules.highBandBuffer m1) ch i in
     mid = x - low - high /\ low + mid + high = x)
  /\ (forall (m : Cinematic.MultibandCompressor) (buffer : AudioBuffer)
        n ch i x,
     (ch < 2)%nat ->
     (ch < length (Cinematic.midBandBuffer m))%nat ->
     (i < n)%nat ->
     sample_at buffer ch i = Some x ->
     let m1 := Cinematic.MultibandCompressor_split m buffer n in
     let low := getSample (Cinematic.lowBandBuffer m1) ch i in
     let mid := getSample (Cinematic.midBandBuffer m1) ch i in
     let high := getSample (Cinematic.highBandBuffer m1) ch i in
     mid = x - low - high /\ low + mid + high = x).
Proof. split; [apply dsp_split_bands|apply cinematic_split_bands]. Qed.

End BandSplit.

(* ===================================================================== *)
(** * The pre-delay of the reverbs *)
(* ===================================================================== *)

Section PreDelayExact.
Local Open Scope R_scope.
Local Abbreviation AudioBuffer := (Juce.AudioBuffer R).
Local Abbreviation DelayLine := (Juce.DelayLine R).
Implicit Types (line : DelayLine) (data : AudioBuffer) (past : list R).
Implicit Types (ch i j p n N size : nat).

Lemma cursor_back p size :
  (p < size)%nat ->
  ((p + size - 1) mod size = if p =? 0 then size - 1 else p - 1)%nat.
Proof.
  intros Hp. destruct (Nat.eqb_spec p 0) as [->|Hne].
  - apply Nat.mod_small. lia.
  - replace (p + size - 1)%nat with (p - 1 + 1 * size)%nat by lia.
    rewrite Nat.Div0.mod_add. apply Nat.mod_small. lia.
Qed.

Lemma wrap_once a size :
  (size <= a < 2 * size)%nat -> (a mod size = a - size)%nat.
Proof.
  intros Ha. replace a with (a - size + 1 * size)%nat at 1 by lia.
  rewrite Nat.Div0.mod_add. apply Nat.mod_small. lia.
Qed.

(** The cell that [popSample] reads was pushed [N] pushes ago. *)
Lemma read_index_age p N size :
  (p < size)%nat -> (1 <= N <= size)%nat ->
  let index1 := (p + N)%nat in
  let index2 := (index1 + 1)%nat in
  let j := if (size <=? index2)%nat then (index1 mod size)%nat else index1 in
  (j < size)%nat /\ cell_age p size j = N.
Proof.
  intros Hp HN index1 index2 j. subst index1 index2 j. unfold cell_age.
  destruct (Nat.leb_spec size (p + N + 1)) as [Hw|Hw].
  - destruct (decide (p + N < size)%nat) as [Hs|Hs].
    + rewrite Nat.mod_small by done.
      destruct (Nat.ltb_spec p (p + N)); lia.
    + rewrite wrap_once by lia.
      destruct (Nat.ltb_spec p (p + N - size)); lia.
  - destruct (Nat.ltb_spec p (p + N)); lia.
Qed.

Lemma cell_age_pos p size j :
  (p < size)%nat -> (j < size)%nat -> (1 <= cell_age p size j <= size)%nat.
Proof. intros. unfold cell_age. destruct (Nat.ltb_spec p j); lia. Qed.

Lemma cell_age_after_push p size j :
  (p < size)%nat -> (j < size)%nat ->
  cell_age (if p =? 0 then size - 1 else p - 1) size j
  = if decide (j = p) then 1%nat else S (cell_age p size j).
Proof.
  intros Hp Hj. unfold cell_age.
  destruct (Nat.eqb_spec p 0) as [->|Hne]; destruct (decide (j = _));
    repeat match goal with
           | |- context [(?a <? ?b)%nat] => destruct (Nat.ltb_spec a b)
           end; lia.
Qed.

(** What [popSample] returns and what [pushSample] leaves behind. *)
Lemma popSample_holds line ch past N :
  delayInt line = N -> delayFrac line = 0 ->
  (1 <= N <= totalSize line)%nat ->
  line_holds line ch past ->
  (DelayLine_popSample line ch).1 = nth (N - 1) past 0.
Proof.
  intros HN Hf Hr (c & p & Hc & Hlen & Hrp & Hwp & Hp & Hcells).
  unfold DelayLine_popSample, DelayLine_interpolateSample. cbn [fst].
  rewrite Hrp, HN, Hf. change (default 0%nat (Some p)) with p.
  cbn [f_add f_mul f_sub R_ops].
  destruct (read_index_age p N (totalSize line) Hp Hr) as [Hj Hage].
  cbn zeta in Hj, Hage.
  set (j := if (totalSize line <=? p + N + 1)%nat then _ else _) in *.
  assert (getSample (bufferData line) ch j = nth (N - 1) past 0) as ->.
  { unfold getSample. rewrite Hc.
    change (Some c ≫= (fun c0 : list R => c0 !! j)) with (c !! j).
    rewrite (Hcells j Hj), Hage, f_zero_R. reflexivity. }
  lra.
Qed.

Lemma preDelay_sample_holds line data ch i past N :
  delayInt line = N -> delayFrac line = 0 ->
  (1 <= N <= totalSize line)%nat ->
  line_holds line ch past ->
  exists line',
    preDelay_sample ch i (line, data)
    = (line', setSample data ch i (nth (N - 1) past 0))
    /\ line_holds line' ch (getSample data ch i :: past)
    /\ delayInt line' = N /\ delayFrac line' = 0
    /\ totalSize line' = totalSize line
    /\ (forall ch' past',
          ch' <> ch -> line_holds line ch' past' -> line_holds line' ch' past').
Proof.
  intros HN Hf Hr Hh.
  pose proof (popSample_holds line ch past N HN Hf Hr Hh) as Hpop.
  destruct Hh as (c & p & Hc & Hlen & Hrp & Hwp & Hp & Hcells).
  unfold preDelay_sample.
  destruct (DelayLine_popSample line ch) as [delayed line1] eqn:Epop.
  cbn [fst] in Hpop. subst delayed.
  unfold DelayLine_popSample in Epop. injection Epop as _ Hline1.
  subst line1.
  eexists. split; [reflexivity|].
  unfold DelayLine_pushSample.
  cbn [bufferData writePos readPos delay delayFrac delayInt totalSize].
  rewrite Hrp, Hwp. change (default 0%nat (Some p)) with p.
  set (x := getSample data ch i). set (size := totalSize line) in *.
  split; [|split; [done|split; [done|split; [done|]]]].
  - exists (<[p := x]> c), ((p + size - 1) mod size)%nat.
    cbn [bufferData writePos readPos totalSize].
    split; [|split; [|split; [|split; [|split]]]].
    + unfold setSample. by rewrite list_lookup_alter_eq, Hc.
    + by rewrite length_insert.
    + apply list_lookup_insert_eq. by eapply lookup_lt_Some.
    + apply list_lookup_insert_eq. by eapply lookup_lt_Some.
    + apply Nat.mod_upper_bound. lia.
    + intros j Hj. rewrite cursor_back by done.
      rewrite cell_age_after_push by done.
      rewrite list_lookup_insert. destruct (decide (j = p)) as [->|Hne].
      * rewrite decide_True by (split; [done|lia]). done.
      * rewrite decide_False by (intros [? _]; done).
        rewrite (Hcells j Hj).
        pose proof (cell_age_pos p size j Hp Hj).
        destruct (cell_age p size j) as [|a]; [lia|].
        cbn. by rewrite Nat.sub_0_r.
  - intros ch' past' Hne (c' & p' & Hc' & Hlen' & Hrp' & Hwp' & Hp' & Hcells').
    exists c', p'. cbn [bufferData writePos readPos totalSize].
    split; [|split; [done|split; [|split; [|split; [done|done]]]]].
    + unfold setSample. by rewrite list_lookup_alter_ne.
    + by rewrite list_lookup_insert_ne.
    + by rewrite list_lookup_insert_ne.
Qed.

(** The loop over one channel: [n] samples read from the block, each
    replaced by the sample read [N] pushes earlier. *)
Lemma channel_loop_holds line data ch n past N :
  delayInt line = N -> delayFrac line = 0 ->
  (1 <= N <= totalSize line)%nat ->
  line_holds line ch past ->
  exists line' data',
    for_range n (preDelay_sample ch) (line, data) = (line', data')
    /\ line_holds line' ch (rev (channel_input data ch n) ++ past)
    /\ delayInt line' = N /\ delayFrac line' = 0
    /\ totalSize line' = totalSize line
    /\ (forall ch' past',
          ch' <> ch -> line_holds line ch' past' -> line_holds line' ch' past')
    /\ (forall ch' i',
          sample_at data' ch' i'
          = if decide (ch = ch' /\ (i' < n)%nat)
            then (fun _ => nth (N - 1)
                             (rev (channel_input data ch i') ++ past) 0)
                 <$> sample_at data ch' i'
            else sample_at data ch' i').
Proof.
  intros HN Hf Hr Hh. induction n as [|n IH].
  - exists line, data. rewrite for_range_0. split; [done|].
    split; [done|]. split; [done|]. split; [done|]. split; [done|].
    split; [done|]. intros ch' i'. by rewrite decide_False by lia.
  - destruct IH as (line1 & data1 & Eloop & Hh1 & HN1 & Hf1 & Hs1 & Hoth1 & Hd1).
    rewrite for_range_S, Eloop.
    destruct (preDelay_sample_holds line1 data1 ch n _ N HN1 Hf1
                ltac:(rewrite Hs1; done) Hh1)
      as (line2 & Estep & Hh2 & HN2 & Hf2 & Hs2 & Hoth2).
    eexists _, _. split; [exact Estep|].
    assert (getSample data1 ch n = getSample data ch n) as Hread.
    { rewrite !getSample_sample_at, Hd1. by rewrite decide_False by lia. }
    split; [|split; [done|split; [done|split; [congruence|split]]]].
    + unfold channel_input. rewrite seq_S, map_app, rev_app_distr. cbn.
      by rewrite <- Hread.
    + intros ch' past' Hne Hl. by apply Hoth2, Hoth1.
    + intros ch' i'. rewrite sample_at_setSample, Hd1.
      destruct (decide (ch = ch' /\ n = i')) as [[-> ->]|Hne].
      * rewrite (decide_False (P := ch' = ch' /\ (i' < i')%nat)) by lia.
        by rewrite decide_True by lia.
      * destruct (decide (ch = ch' /\ (i' < n)%nat)).
        -- by rewrite decide_True by lia.
        -- by rewrite decide_False by lia.
Qed.

Lemma channel_input_ext data1 data2 ch n :
  (forall i, (i < n)%nat -> getSample data1 ch i = getSample data2 ch i) ->
  channel_input data1 ch n = channel_input data2 ch n.
Proof.
  intros He. unfold channel_input. apply map_ext_in. intros i Hi.
  apply in_seq in Hi. apply He. lia.
Qed.

(** The whole nest, channel by channel. *)
Lemma applyPreDelay_holds line data nch n N (pasts : nat -> list R) :
  delayInt line = N -> delayFrac line = 0 ->
  (1 <= N <= totalSize line)%nat ->
  (forall ch, (ch < nch)%nat -> line_holds line ch (pasts ch)) ->
  exists line' data',
    applyPreDelay line data nch n = (line', data')
    /\ (forall ch, (ch < nch)%nat ->
          line_holds line' ch (rev (channel_input data ch n) ++ pasts ch))
    /\ delayInt line' = N /\ delayFrac line' = 0
    /\ totalSize line' = totalSize line
    /\ (forall ch' past',
          (nch <= ch')%nat -> line_holds line ch' past' ->
          line_holds line' ch' past')
    /\ (forall ch' i',
          sample_at data' ch' i'
          = if decide ((ch' < nch)%nat /\ (i' < n)%nat)
            then (fun _ => nth (N - 1)
                             (rev (channel_input data ch' i') ++ pasts ch') 0)
                 <$> sample_at data ch' i'
            else sample_at data ch' i').
Proof.
  intros HN Hf Hr. unfold applyPreDelay. induction nch as [|nch IH]; intros Hh.
  - exists line, data. rewrite for_range_0.
    split; [done|]. split; [intros; lia|]. split; [done|]. split; [done|].
    split; [done|]. split; [done|]. intros ch' i'.
    by rewrite decide_False by lia.
  - destruct IH as (line1 & data1 & Eloop & Hh1 & HN1 & Hf1 & Hs1 & Hoth1 & Hd1).
    { intros ch Hch. apply Hh. lia. }
    rewrite for_range_S, Eloop.
    assert (forall i, getSample data1 nch i = getSample data nch i) as Hread.
    { intros i. rewrite !getSample_sample_at, Hd1.
      by rewrite decide_False by lia. }
    destruct (channel_loop_holds line1 data1 nch n (pasts nch) N HN1 Hf1
                ltac:(rewrite Hs1; done)
                ltac:(apply Hoth1; [lia|apply Hh; lia]))
      as (line2 & data2 & Eloop2 & Hh2 & HN2 & Hf2 & Hs2 & Hoth2 & Hd2).
    exists line2, data2. split; [exact Eloop2|].
    split; [|split; [done|split; [done|split; [congruence|split]]]].
    + intros ch Hch. destruct (decide (ch = nch)) as [->|Hne].
      * rewrite <- (channel_input_ext data1 data nch n) by (intros; apply Hread).
        done.
      * apply Hoth2; [done|]. apply Hh1. lia.
    + intros ch' past' Hge Hl. apply Hoth2; [lia|]. apply Hoth1; [lia|done].
    + intros ch' i'. rewrite Hd2, Hd1.
      destruct (decide (nch = ch' /\ (i' < n)%nat)) as [[-> Hi]|Hne].
      * rewrite (decide_False (P := (ch' < ch')%nat /\ _)) by lia.
        rewrite decide_True by lia.
        by rewrite (channel_input_ext data1 data ch' i')
          by (intros; apply Hread).
      * destruct (decide ((ch' < nch)%nat /\ (i' < n)%nat)).
        -- by rewrite decide_True by lia.
        -- by rewrite decide_False by lia.
Qed.

(** A line that was prepared, or reset, holds silence. *)
Lemma reset_holds line ch :
  (ch < length (bufferData line))%nat ->
  length (readPos line) = length (bufferData line) ->
  length (writePos line) = length (bufferData line) ->
  Forall (fun c => length c = totalSize line) (bufferData line) ->
  (0 < totalSize line)%nat ->
  line_holds (DelayLine_reset line) ch [].
Proof.
  intros Hch Hrl Hwl Hlen Hsize.
  destruct (lookup_lt_is_Some_2 (bufferData line) ch Hch) as [c Hc].
  exists (map (fun _ => f_zero) c), 0%nat.
  cbn [DelayLine_reset bufferData readPos writePos totalSize].
  assert (length c = totalSize line) as Hc_len.
  { rewrite Forall_forall in Hlen. apply Hlen. by eapply list_elem_of_lookup_2. }
  split; [|split; [|split; [|split; [|split; [done|]]]]].
  - unfold clear. by rewrite list_lookup_fmap, Hc.
  - by rewrite length_map.
  - destruct (lookup_lt_is_Some_2 (readPos line) ch ltac:(lia)) as [r Hr].
    by rewrite list_lookup_fmap, Hr.
  - destruct (lookup_lt_is_Some_2 (writePos line) ch ltac:(lia)) as [w Hw].
    by rewrite list_lookup_fmap, Hw.
  - intros j Hj.
    destruct (lookup_lt_is_Some_2 c j ltac:(lia)) as [x Hx].
    rewrite list_lookup_fmap, Hx. cbn. f_equal.
    by destruct (cell_age 0 (totalSize line) j - 1)%nat.
Qed.

Lemma floor_IZR (z : Z) : f_floor (IZR z) = z.
Proof.
  cbn. assert (up (IZR z) = (z + 1)%Z) as ->; [|lia].
  symmetry. apply tech_up; rewrite plus_IZR; lra.
Qed.

(** The line of a reverb after [prepare] and [setDelay (N)], for a whole
    number [N] of samples within the maximum of the line. *)
Lemma prepared_line_holds maxDelay numChannels N ch :
  (N <= maxDelay)%nat -> (ch < numChannels)%nat ->
  let line :=
    DelayLine_setDelay (f_of_int (Z.of_nat N))
      (DelayLine_prepare numChannels (DelayLine_new maxDelay)) in
  line_holds line ch []
  /\ delayInt line = N /\ delayFrac line = 0
  /\ totalSize line = Nat.max 4 (maxDelay + 2).
Proof.
  intros HN Hch line. subst line.
  set (size := Nat.max 4 (maxDelay + 2)).
  assert (totalSize (DelayLine_new maxDelay) = size) as Hsize by done.
  assert (jlimit f_zero
            (f_of_int (Z.of_nat (DelayLine_getMaximumDelayInSamples
               (DelayLine_prepare numChannels (DelayLine_new maxDelay)))))
            (f_of_int (Z.of_nat N)) = IZR (Z.of_nat N)) as Hlim.
  { unfold DelayLine_getMaximumDelayInSamples. cbn [DelayLine_prepare
      DelayLine_reset totalSize]. rewrite Hsize.
    unfold jlimit. cbn [f_ltb f_of_int R_ops]. rewrite f_zero_R.
    rewrite !R_ltb_false; [done| |].
    - apply IZR_le. lia.
    - apply IZR_le. lia. }
  unfold DelayLine_setDelay. rewrite Hlim, floor_IZR, Nat2Z.id.
  cbn [delayInt delayFrac totalSize].
  split; [|split; [done|split; [cbn; lra|done]]].
  destruct (reset_holds
              {| bufferData := replicate numChannels (replicate size f_zero);
                 writePos := replicate numChannels 0%nat;
                 readPos := replicate numChannels 0%nat;
                 delay := delay (DelayLine_new maxDelay);
                 delayFrac := delayFrac (DelayLine_new maxDelay);
                 delayInt := delayInt (DelayLine_new maxDelay);
                 totalSize := size |} ch)
    as (c & p & Hc & Hl & Hrp & Hwp & Hp & Hcells).
  - cbn. by rewrite length_replicate.
  - cbn. by rewrite !length_replicate.
  - cbn. by rewrite !length_replicate.
  - cbn. apply Forall_replicate. by rewrite length_replicate.
  - cbn. lia.
  - exists c, p. cbn [bufferData readPos writePos totalSize] in *.
    done.
Qed.

Lemma nth_rev_input data ch i N :
  (1 <= N)%nat ->
  nth (N - 1) (rev (channel_input data ch i) ++ []) 0
  = if (i <? N)%nat then 0 else getSample data ch (i - N).
Proof.
  intros HN. rewrite app_nil_r. unfold channel_input.
  destruct (Nat.ltb_spec i N) as [Hlt|Hge].
  - apply nth_overflow. rewrite length_rev, length_map, length_seq. lia.
  - rewrite rev_nth by (rewrite length_map, length_seq; lia).
    rewrite length_map, length_seq.
    rewrite (nth_indep _ 0 (getSample data ch 0))
      by (rewrite length_map, length_seq; lia).
    rewrite map_nth, seq_nth by lia. f_equal. lia.
Qed.

(** For every whole delay [1 <= N] within the maximum of the line, the
    pre-delay loop on a freshly prepared line puts out [N] samples of
    silence and then the input, sample for sample (exact arithmetic). *)
Theorem predelay_delays_by_N maxDelay numChannels N data n ch i x :
  (1 <= N <= maxDelay)%nat ->
  (getNumChannels data <= numChannels)%nat ->
  (i < n)%nat ->
  sample_at data ch i = Some x ->
  sample_at
    (applyPreDelay
       (DelayLine_setDelay (f_of_int (Z.of_nat N))
          (DelayLine_prepare numChannels (DelayLine_new maxDelay)))
       data (getNumChannels data) n).2 ch i
  = Some (if (i <? N)%nat then 0 else getSample data ch (i - N)).
Proof.
  intros HN Hnch Hi Hx.
  assert (ch < getNumChannels data)%nat as Hch.
  { unfold sample_at in Hx. destruct (data !! ch) eqn:E; [|done].
    by eapply lookup_lt_Some. }
  set (line := DelayLine_setDelay _ _).
  assert (forall c, (c < getNumChannels data)%nat ->
            line_holds line c ((fun _ => []) c)) as Hh.
  { intros c Hc. apply prepared_line_holds; lia. }
  destruct (prepared_line_holds maxDelay numChannels N ch) as (_ & HdN & Hdf & Hs);
    [lia..|]. fold line in HdN, Hdf, Hs.
  destruct (applyPreDelay_holds line data (getNumChannels data) n N
              (fun _ => []) HdN Hdf ltac:(rewrite Hs; lia) Hh)
    as (line' & data' & E & _ & _ & _ & _ & _ & Hd).
  rewrite E. cbn [snd]. rewrite Hd, decide_True, Hx by done. cbn.
  by rewrite nth_rev_input by lia.
Qed.

End PreDelayExact.

(** ** Block after block *)

Section PreDelayStream.
Local Open Scope R_scope.
Local Abbreviation AudioBuffer := (Juce.AudioBuffer R).
Local Abbreviation DelayLine := (Juce.DelayLine R).
Implicit Types (line : DelayLine) (data : AudioBuffer) (past xs ys : list R).
Implicit Types (ch i j n N : nat).

Lemma preDelay_sample_length line data ch i :
  length (preDelay_sample ch i (line, data)).2 = length data.
Proof.
  unfold preDelay_sample. destruct (DelayLine_popSample line ch). cbn.
  unfold setSample. apply length_alter.
Qed.

Lemma sample_loop_length ch n (s : DelayLine * AudioBuffer) :
  length (for_range n (preDelay_sample ch) s).2 = length s.2.
Proof.
  induction n as [|n IH]; [done|]. rewrite for_range_S.
  destruct (for_range n (preDelay_sample ch) s) as [l d].
  rewrite preDelay_sample_length. exact IH.
Qed.

Lemma applyPreDelay_length line data nch n :
  length (applyPreDelay line data nch n).2 = length data.
Proof.
  unfold applyPreDelay. induction nch as [|nch IH]; [done|].
  rewrite for_range_S. by rewrite sample_loop_length.
Qed.

Lemma channel_input_take data ch c i :
  data !! ch = Some c -> (i <= length c)%nat ->
  channel_input data ch i = take i c.
Proof.
  intros Hc Hi. unfold channel_input. apply list_eq. intros j.
  rewrite list_lookup_fmap.
  destruct (decide (j < i)%nat) as [Hj|Hj].
  - rewrite lookup_seq_lt by done. cbn. rewrite lookup_take_lt by done.
    destruct (lookup_lt_is_Some_2 c j ltac:(lia)) as [x Hx].
    rewrite Hx. f_equal. unfold getSample. by rewrite Hc; cbn; rewrite Hx.
  - rewrite lookup_seq_ge by lia. cbn. by rewrite lookup_take_ge by lia.
Qed.

Lemma length_respond N past xs : length (respond N past xs) = length xs.
Proof. unfold respond. apply length_imap. Qed.

Lemma respond_app N past xs ys :
  respond N past (xs ++ ys)
  = respond N past xs ++ respond N (rev xs ++ past) ys.
Proof.
  unfold respond. rewrite imap_app. f_equal.
  - apply imap_ext. intros i x Hx. cbn.
    by rewrite take_app_le by (apply lookup_lt_Some in Hx; lia).
  - apply imap_ext. intros i y Hy. cbn.
    rewrite take_app_ge by lia.
    replace (length xs + i - length xs)%nat with i by lia.
    by rewrite rev_app_distr, <- app_assoc.
Qed.

Lemma respond_silence N xs : (1 <= N)%nat -> respond N [] xs = delayed N xs.
Proof.
  intros HN. unfold respond, delayed. apply list_eq. intros i.
  rewrite list_lookup_imap.
  destruct (decide (i < length xs)%nat) as [Hi|Hi].
  - destruct (lookup_lt_is_Some_2 xs i Hi) as [x Hx]. rewrite Hx. cbn.
    rewrite lookup_take_lt by done. rewrite app_nil_r.
    destruct (decide (i < N)%nat) as [Hlt|Hge].
    + rewrite lookup_app_l by (rewrite length_replicate; lia).
      rewrite lookup_replicate_2 by done. f_equal.
      apply nth_overflow. rewrite length_rev, length_take. lia.
    + rewrite lookup_app_r by (rewrite length_replicate; lia).
      rewrite length_replicate.
      destruct (lookup_lt_is_Some_2 xs (i - N) ltac:(lia)) as [y Hy].
      rewrite Hy. f_equal.
      rewrite rev_nth by (rewrite length_take; lia).
      rewrite length_take, Nat.min_l by lia.
      apply nth_lookup_Some.
      rewrite lookup_take_lt by lia.
      by replace (i - S (N - 1))%nat with (i - N)%nat by lia.
  - rewrite (lookup_ge_None_2 xs i) by lia. cbn.
    by rewrite lookup_take_ge by lia.
Qed.

(** One block, as lists: every channel of the output is the response of
    the line to that channel of the block. *)
Lemma applyPreDelay_respond line data nch N (pasts : nat -> list R) :
  delayInt line = N -> delayFrac line = 0 ->
  (1 <= N <= totalSize line)%nat ->
  rectangular nch data ->
  (forall ch, (ch < nch)%nat -> line_holds line ch (pasts ch)) ->
  exists line' data',
    applyPreDelay line data (getNumChannels data) (getNumSamples data)
    = (line', data')
    /\ delayInt line' = N /\ delayFrac line' = 0
    /\ totalSize line' = totalSize line
    /\ (forall ch c, data !! ch = Some c ->
          line_holds line' ch (rev c ++ pasts ch)
          /\ data' !! ch = Some (respond N (pasts ch) c)).
Proof.
  intros HN Hf Hr [Hnch Hrect] Hh.
  assert (getNumChannels data = nch) as Hg by done.
  destruct (applyPreDelay_holds line data (getNumChannels data)
              (getNumSamples data) N pasts HN Hf Hr
              ltac:(rewrite Hg; exact Hh))
    as (line' & data' & E & Hh' & HN' & Hf' & Hs' & _ & Hd).
  exists line', data'. split; [done|]. split; [done|]. split; [done|].
  split; [done|]. intros ch c Hc.
  assert (ch < getNumChannels data)%nat as Hch by (by eapply lookup_lt_Some).
  assert (length c = getNumSamples data) as Hlen.
  { rewrite Forall_forall in Hrect. apply Hrect.
    by eapply list_elem_of_lookup_2. }
  split.
  - rewrite <- (firstn_all c), Hlen at 1.
    rewrite <- (channel_input_take data ch c) by (done || lia).
    by apply Hh'.
  - pose proof (applyPreDelay_length line data (getNumChannels data)
                  (getNumSamples data)) as Hl. rewrite E in Hl. cbn in Hl.
    destruct (lookup_lt_is_Some_2 data' ch ltac:(unfold getNumChannels in Hch; lia))
      as [c' Hc'].
    rewrite Hc'. f_equal. apply list_eq. intros i.
    specialize (Hd ch i). unfold sample_at in Hd. rewrite Hc', Hc in Hd.
    cbn in Hd. rewrite Hd. unfold respond. rewrite list_lookup_imap.
    destruct (decide (i < length c)%nat) as [Hi|Hi].
    + rewrite decide_True by lia.
      destruct (lookup_lt_is_Some_2 c i Hi) as [x Hx]. rewrite Hx. cbn.
      rewrite (channel_input_take data ch c) by (done || lia).
      change (@f_zero R R_ops) with (Q2R 0). by rewrite Q2R_0.
    + rewrite decide_False by lia. by rewrite (lookup_ge_None_2 c i) by lia.
Qed.

Lemma run_blocks_respond line (blocks : list AudioBuffer) nch N
    (pasts : nat -> list R) :
  delayInt line = N -> delayFrac line = 0 ->
  (1 <= N <= totalSize line)%nat ->
  Forall (rectangular nch) blocks ->
  (forall ch, (ch < nch)%nat -> line_holds line ch (pasts ch)) ->
  forall ch, (ch < nch)%nat ->
    channel_signal (run_blocks line blocks).2 ch
    = respond N (pasts ch) (channel_signal blocks ch).
Proof.
  intros HN Hf Hr Hrect. revert line pasts HN Hf Hr.
  induction Hrect as [|b blocks Hb Hbs IH]; intros line pasts HN Hf Hr Hh ch Hch.
  - done.
  - cbn [run_blocks].
    destruct (applyPreDelay_respond line b nch N pasts HN Hf Hr Hb Hh)
      as (line1 & out & E & HN1 & Hf1 & Hs1 & Hc1).
    rewrite E.
    destruct (lookup_lt_is_Some_2 b ch ltac:(destruct Hb; lia)) as [c Hc].
    specialize (IH line1 (fun k => rev (default [] (b !! k)) ++ pasts k)
                  HN1 Hf1 ltac:(rewrite Hs1; done)).
    destruct (run_blocks line1 blocks) as [line2 outs]. cbn [snd] in *.
    unfold channel_signal in *. cbn [map concat].
    rewrite respond_app, Hc. cbn [default].
    rewrite (proj2 (Hc1 ch c Hc)). cbn [default from_option]. f_equal.
    rewrite IH; [by rewrite Hc| |done].
    intros k Hk.
    destruct (lookup_lt_is_Some_2 b k ltac:(destruct Hb; lia)) as [ck Hck].
    rewrite Hck. cbn. by apply Hc1.
Qed.

(** For every whole delay [1 <= N] within the maximum of the line, and
    blocks of any sizes: every channel of the output, taken as one signal,
    is the input delayed by [N] samples (exact arithmetic). *)
Theorem predelay_stream_delays_by_N maxDelay numChannels nch N
    (blocks : list AudioBuffer) ch :
  (1 <= N <= maxDelay)%nat ->
  (ch < nch <= numChannels)%nat ->
  Forall (rectangular nch) blocks ->
  channel_signal
    (run_blocks
       (DelayLine_setDelay (f_of_int (Z.of_nat N))
          (DelayLine_prepare numChannels (DelayLine_new maxDelay)))
       blocks).2 ch
  = delayed N (channel_signal blocks ch).
Proof.
  intros HN Hch Hrect.
  destruct (prepared_line_holds maxDelay numChannels N ch)
    as (_ & HdN & Hdf & Hs); [lia..|].
  rewrite (run_blocks_respond _ blocks nch N (fun _ => []) HdN Hdf
             ltac:(rewrite Hs; lia) Hrect); [|..|lia].
  - apply respond_silence. lia.
  - intros k Hk. apply prepared_line_holds; lia.
Qed.

End PreDelayStream.

(* ===================================================================== *)
(** * The loudness normalizer *)
(* ===================================================================== *)

Section NormalizerExact.
Local Open Scope R_scope.
Local Abbreviation AudioBuffer := (Juce.AudioBuffer R).
Local Abbreviation LoudnessNormalizer := (Cinematic.LoudnessNormalizer R R).

Lemma jlimit_Rmax_Rmin (lo hi v : R) :
  lo <= hi -> jlimit lo hi v = Rmax lo (Rmin hi v).
Proof.
  intros Hle. unfold jlimit. cbn. unfold R_ltb, Rmax, Rmin.
  repeat first [destruct (Rlt_dec _ _) | destruct (Rle_dec _ _)]; lra.
Qed.

Lemma gainDB_clamped (l : LoudnessNormalizer) :
  Cinematic.gainDB l
  = Rmax (-12) (Rmin 12 (Cinematic.targetLUFS l - Cinematic.currentLUFS l))
  /\ -12 <= Cinematic.gainDB l <= 12.
Proof.
  unfold Cinematic.gainDB.
  replace (f_lit (-12)) with (-12) by (cbn; unfold Q2R; cbn; lra).
  replace (f_lit 12) with 12 by (cbn; unfold Q2R; cbn; lra).
  rewrite jlimit_Rmax_Rmin by lra. split; [done|].
  unfold Rmax, Rmin.
  repeat first [destruct (Rlt_dec _ _) | destruct (Rle_dec _ _)]; lra.
Qed.

Lemma updateGain_law (l : LoudnessNormalizer) :
  Cinematic.currentGain (Cinematic.updateGain l)
  = Cinematic.currentGain l * (9 / 10)
    + Rpower 10 (Cinematic.gainDB l / 20) * (1 / 10).
Proof.
  unfold Cinematic.updateGain, dBToGain. cbn. unfold Q2R. cbn.
  rewrite ?Rinv_1, ?Rmult_1_r. lra.
Qed.

Lemma measure_within_window (l : LoudnessNormalizer) (buffer : AudioBuffer) n :
  (Cinematic.rmsSampleCount l
   + Z.of_nat n * Z.of_nat (getNumChannels buffer) < 44100)%Z ->
  Cinematic.LoudnessNormalizer_measure l buffer n
  = Cinematic.mkLoudnessNormalizer (Cinematic.targetLUFS l)
      (Cinematic.currentLUFS l) (Cinematic.currentGain l)
      (Cinematic.rmsSum l + Cinematic.sumSquares buffer n)
      (Cinematic.rmsSampleCount l
       + Z.of_nat n * Z.of_nat (getNumChannels buffer))
      (Cinematic.ln_currentSampleRate l).
Proof.
  intros Hlt. unfold Cinematic.LoudnessNormalizer_measure.
  unfold Cinematic.RMS_WINDOW_SIZE.
  destruct (Z.leb_spec 44100
              (Cinematic.rmsSampleCount l
               + Z.of_nat n * Z.of_nat (getNumChannels buffer))); [lia|done].
Qed.

Lemma measure_window_complete (l : LoudnessNormalizer) (buffer : AudioBuffer) n :
  (44100 <= Cinematic.rmsSampleCount l
            + Z.of_nat n * Z.of_nat (getNumChannels buffer))%Z ->
  let count :=
    (Cinematic.rmsSampleCount l
     + Z.of_nat n * Z.of_nat (getNumChannels buffer))%Z in
  let sum := Cinematic.rmsSum l + Cinematic.sumSquares buffer n in
  let lufs := 20 * (ln (sqrt (sum / IZR count) + / 10000000) / ln 10) in
  let delta := Rmax (-12) (Rmin 12 (Cinematic.targetLUFS l - lufs)) in
  Cinematic.LoudnessNormalizer_measure l buffer n
  = Cinematic.mkLoudnessNormalizer (Cinematic.targetLUFS l) lufs
      (Cinematic.currentGain l * (9 / 10) + Rpower 10 (delta / 20) * (1 / 10))
      0 0 (Cinematic.ln_currentSampleRate l).
Proof.
  intros Hge count sum lufs delta.
  unfold Cinematic.LoudnessNormalizer_measure.
  unfold Cinematic.RMS_WINDOW_SIZE. fold count.
  destruct (Z.leb_spec 44100 count); [|lia].
  set (m := Cinematic.mkLoudnessNormalizer (Cinematic.targetLUFS l) _
              (Cinematic.currentGain l) _ _ _).
  assert (Cinematic.currentLUFS m = lufs) as Hlufs.
  { subst m lufs. cbn. unfold Q2R. cbn.
    by rewrite ?Rinv_1, ?Rmult_1_r, ?Rmult_1_l. }
  destruct (gainDB_clamped m) as [Hg _]. rewrite Hlufs in Hg.
  change (Cinematic.targetLUFS m) with (Cinematic.targetLUFS l) in Hg.
  fold delta in Hg.
  f_equal.
  - exact Hlufs.
  - rewrite updateGain_law, Hg. done.
  - cbn. unfold Q2R. cbn. lra.
Qed.

(** C5.  With [count] the accumulated sample count after the block
    (samples times channels), the loudness normalizer keeps its gain (and
    goes on accumulating) while [count] is below the window of 44100; when
    [count] reaches the window it takes the level [lufs] from the
    accumulated sum, clamps the difference to the target to the range
    [-12, 12] decibels, moves the gain by
    [gain * 0.9 + dBToGain (delta) * 0.1], and starts a new window.  In
    both cases every sample of the block is multiplied by the gain the
    normalizer holds after these steps. *)
Theorem normalizer_gain_schedule (l : LoudnessNormalizer)
    (buffer : AudioBuffer) (numSamples : nat) :
  let count :=
    (Cinematic.rmsSampleCount l
     + Z.of_nat numSamples * Z.of_nat (getNumChannels buffer))%Z in
  let sum := Cinematic.rmsSum l + Cinematic.sumSquares buffer numSamples in
  let l' := (Cinematic.LoudnessNormalizer_process l buffer numSamples).1 in
  let out := (Cinematic.LoudnessNormalizer_process l buffer numSamples).2 in
  ((count < 44100)%Z ->
     Cinematic.currentGain l' = Cinematic.currentGain l
     /\ Cinematic.currentLUFS l' = Cinematic.currentLUFS l
     /\ Cinematic.rmsSampleCount l' = count
     /\ Cinematic.rmsSum l' = sum)
  /\ ((44100 <= count)%Z ->
      let lufs := 20 * (ln (sqrt (sum / IZR count) + / 10000000) / ln 10) in
      let delta := Rmax (-12) (Rmin 12 (Cinematic.targetLUFS l - lufs)) in
      -12 <= delta <= 12
      /\ Cinematic.currentLUFS l' = lufs
      /\ Cinematic.currentGain l'
         = Cinematic.currentGain l * (9 / 10)
           + Rpower 10 (delta / 20) * (1 / 10)
      /\ Cinematic.rmsSampleCount l' = 0%Z
      /\ Cinematic.rmsSum l' = 0)
  /\ out = map (map (fun x => x * Cinematic.currentGain l')) buffer.
Proof.
  intros count sum l' out.
  assert (l' = Cinematic.LoudnessNormalizer_measure l buffer numSamples)
    as Hl' by done.
  split; [|split; [|done]].
  - intros Hlt. by rewrite Hl', measure_within_window.
  - intros Hge lufs delta. rewrite Hl', measure_window_complete by done.
    split; [|done]. subst delta. unfold Rmax, Rmin.
    repeat first [destruct (Rlt_dec _ _) | destruct (Rle_dec _ _)]; lra.
Qed.

End NormalizerExact.

(* ===================================================================== *)
(** * The de-esser *)
(* ===================================================================== *)

Section DeEsserFacts.
Context {F D : Type} `{FloatOps F} `{LibmOps F} `{DoubleOps F D} `{JuceDsp F D}.
Local Abbreviation AudioBuffer := (Juce.AudioBuffer F).

(** Every sample of the block is the input sample times the gain computed
    for its index; samples outside the block are left alone. *)
Lemma sample_at_DeEsser_process (d : DSPModules.DeEsser) (buffer : AudioBuffer)
    ch i :
  sample_at (DSPModules.DeEsser_process d buffer).2 ch i
  = if decide (ch < getNumChannels buffer /\ i < getNumSamples buffer)
    then (fun x =>
            f_mul x
              (DSPModules.gainReduction d
                 (DSPModules.sibilanceLevel
                    (DSPModules.DeEsser_sideChain d buffer).2
                    (getNumChannels buffer) i)))
         <$> sample_at buffer ch i
    else sample_at buffer ch i.
Proof.
  unfold DSPModules.DeEsser_process.
  destruct (DSPModules.DeEsser_sideChain d buffer) as [flt sc]. cbn [snd].
  unfold DSPModules.DeEsser_sample.
  apply (sample_at_sample_major
           (fun j _ x =>
              f_mul x
                (DSPModules.gainReduction d
                   (DSPModules.sibilanceLevel sc (getNumChannels buffer) j)))).
Qed.

End DeEsserFacts.

Section DeEsserExact.
Context `{JuceDsp R R}.
Local Open Scope R_scope.
Local Abbreviation AudioBuffer := (Juce.AudioBuffer R).

Lemma Rsum_loop (f : nat -> R) n :
  for_range n (fun k acc => acc + f k) 0 = Rsum (map f (seq 0 n)).
Proof.
  induction n as [|n IH]; [done|].
  rewrite for_range_S, IH, seq_S, map_app. cbn.
  generalize (map f (seq 0 n)). intros l. unfold Rsum.
  induction l as [|y l IHl]; cbn in *; lra.
Qed.

Lemma sibilanceLevel_mean_abs (sc : AudioBuffer) nch i :
  DSPModules.sibilanceLevel sc nch i = mean_abs sc nch i.
Proof.
  unfold DSPModules.sibilanceLevel, mean_abs. cbn.
  unfold f_zero. cbn. rewrite Q2R_0.
  rewrite (Rsum_loop (fun ch => Rabs (getSample sc ch i))).
  by rewrite INR_IZR_INZ.
Qed.

Lemma dBToGain_pos (dB : R) : 0 < dBToGain dB.
Proof. unfold dBToGain. cbn. unfold Rpower. apply exp_pos. Qed.

Lemma Rpower_ge_1 (x e : R) : 1 < x -> 0 <= e -> 1 <= Rpower x e.
Proof.
  intros Hx He. unfold Rpower.
  assert (0 < ln x) by (rewrite <- ln_1; apply ln_increasing; lra).
  assert (0 <= e * ln x) by (apply Rmult_le_pos; lra).
  destruct (Req_dec (e * ln x) 0) as [->|Hne]; [rewrite exp_0; lra|].
  pose proof (exp_ineq1 (e * ln x)). lra.
Qed.

Lemma gainReduction_above (d : DSPModules.DeEsser) (level : R) :
  dBToGain (DSPModules.threshold d) < level ->
  DSPModules.gainReduction d level
  = 1 / Rpower (level / dBToGain (DSPModules.threshold d))
          (1 - 1 / DSPModules.ratio d).
Proof.
  intros Hl. unfold DSPModules.gainReduction. cbn.
  rewrite R_ltb_true by done. unfold f_one. cbn. by rewrite Q2R_1.
Qed.

Lemma gainReduction_below (d : DSPModules.DeEsser) (level : R) :
  level <= dBToGain (DSPModules.threshold d) ->
  DSPModules.gainReduction d level = 1.
Proof.
  intros Hl. unfold DSPModules.gainReduction. cbn.
  rewrite R_ltb_false by done. unfold f_one. cbn. by rewrite Q2R_1.
Qed.

Lemma gainReduction_range (d : DSPModules.DeEsser) (level : R) :
  1 <= DSPModules.ratio d ->
  0 < DSPModules.gainReduction d level <= 1.
Proof.
  intros Hr.
  destruct (Rlt_le_dec (dBToGain (DSPModules.threshold d)) level) as [Hl|Hl].
  - rewrite gainReduction_above by done.
    pose proof (dBToGain_pos (DSPModules.threshold d)) as Ht.
    set (t := dBToGain (DSPModules.threshold d)) in *.
    assert (1 < level / t).
    { apply (Rmult_lt_reg_r t); [done|]. field_simplify; lra. }
    assert (0 < / DSPModules.ratio d <= 1).
    { split; [apply Rinv_0_lt_compat; lra|].
      rewrite <- Rinv_1. apply Rinv_le_contravar; lra. }
    assert (1 <= Rpower (level / t) (1 - 1 / DSPModules.ratio d)) as Hp.
    { apply Rpower_ge_1; [done|]. lra. }
    set (p := Rpower _ _) in *.
    assert (0 < / p <= 1).
    { split; [apply Rinv_0_lt_compat; lra|].
      rewrite <- Rinv_1. apply Rinv_le_contravar; lra. }
    lra.
  - rewrite gainReduction_below by done. lra.
Qed.

(** The side chain before the filter: the block copied into the side-chain
    buffer.  Where the block has a sample the copy has the same one; and
    when the buffer has the channels of the block and no more samples, the
    copy is the block. *)
Lemma side_chain_copy_samples (buffer dest : AudioBuffer) ch i y :
  (getNumChannels buffer <= getNumChannels dest)%nat ->
  (i < getNumSamples buffer)%nat ->
  sample_at buffer ch i = Some y ->
  sample_at
    (for_range (getNumChannels buffer)
       (fun c sc => copyFrom sc c buffer c (getNumSamples buffer)) dest)
    ch i = Some y.
Proof.
  intros Hfit Hi Hy.
  pose proof (sample_at_lt_channels buffer ch i y Hy) as Hch.
  apply sample_at_copy_loop; try done.
  unfold getNumChannels in *. lia.
Qed.

Lemma side_chain_copy_same_shape (buffer dest : AudioBuffer) :
  getNumChannels dest = getNumChannels buffer ->
  Forall (fun c => length c = getNumSamples buffer) buffer ->
  Forall (fun c => (length c <= getNumSamples buffer)%nat) dest ->
  for_range (getNumChannels buffer)
    (fun c sc => copyFrom sc c buffer c (getNumSamples buffer)) dest
  = buffer.
Proof.
  intros Hlen Hb Hd. apply list_eq. intros k. rewrite copy_loop_lookup.
  unfold getNumChannels in *.
  destruct (decide (k < length buffer)%nat) as [Hk|Hk].
  - destruct (lookup_lt_is_Some_2 buffer k Hk) as [bk Hbk].
    destruct (lookup_lt_is_Some_2 dest k) as [dk Hdk]; [lia|].
    rewrite Hbk, Hdk. cbn. f_equal.
    rewrite Forall_forall in Hb, Hd.
    pose proof (Hb bk (list_elem_of_lookup_2 _ _ _ Hbk)) as Hbl.
    pose proof (Hd dk (list_elem_of_lookup_2 _ _ _ Hdk)) as Hdl.
    rewrite take_ge, drop_ge by lia. apply app_nil_r.
  - rewrite (lookup_ge_None_2 dest k) by lia.
    by rewrite (lookup_ge_None_2 buffer k) by lia.
Qed.

(** C6.  With a side-chain buffer that has a channel for every channel of
    the block, as [prepare] sizes it: the side chain that the de-esser
    measures is the sibilance filter (the high-pass) run over a copy of the
    block, which holds every sample of the block at its place and is the
    block itself when the buffer has the shape of the block.  For every
    sample of the block the level is the mean over the channels of the
    absolute value of that filtered copy at the same index; above the
    linear threshold [10^(threshold/20)] the output is the input sample
    times [1 / (level/threshold)^(1 - 1/ratio)], at or below it the output
    is the input sample.  The filtered copy is kept in the side-chain
    buffer and enters the output through that gain only. *)
Theorem deesser_scales_the_original (d : DSPModules.DeEsser)
    (buffer : AudioBuffer) ch i x :
  (i < getNumSamples buffer)%nat ->
  sample_at buffer ch i = Some x ->
  (getNumChannels buffer <= getNumChannels (DSPModules.sideChainBuffer d))%nat ->
  exists copy : AudioBuffer,
    (forall ch' i' y,
       (i' < getNumSamples buffer)%nat ->
       sample_at buffer ch' i' = Some y -> sample_at copy ch' i' = Some y)
    /\ (getNumChannels (DSPModules.sideChainBuffer d) = getNumChannels buffer ->
        Forall (fun c => length c = getNumSamples buffer) buffer ->
        Forall (fun c => (length c <= getNumSamples buffer)%nat)
          (DSPModules.sideChainBuffer d) ->
        copy = buffer)
    /\ let sideChain :=
         (process_block iir_processSample (DSPModules.sibilanceFilter d)
            copy).2 in
       let level := mean_abs sideChain (getNumChannels buffer) i in
       let thresholdLinear := Rpower 10 (DSPModules.threshold d / 20) in
       let out := getSample (DSPModules.DeEsser_process d buffer).2 ch i in
       (DSPModules.DeEsser_sideChain d buffer).2 = sideChain
       /\ DSPModules.sideChainBuffer (DSPModules.DeEsser_process d buffer).1
          = sideChain
       /\ DSPModules.sibilanceLevel
            (DSPModules.DeEsser_sideChain d buffer).2
            (getNumChannels buffer) i = level
       /\ (thresholdLinear < level ->
           out = x * (1 / Rpower (level / thresholdLinear)
                            (1 - 1 / DSPModules.ratio d)))
       /\ (level <= thresholdLinear -> out = x)
       /\ (forall rate nch maxBlock,
             getNumChannels
               (DSPModules.sideChainBuffer
                  (DSPModules.DeEsser_prepare rate nch maxBlock d)) = nch).
Proof.
  intros Hi Hx Hfit.
  exists (for_range (getNumChannels buffer)
            (fun c sc => copyFrom sc c buffer c (getNumSamples buffer))
            (DSPModules.sideChainBuffer d)).
  split; [|split].
  { intros ch' i' y Hi' Hy. by apply side_chain_copy_samples. }
  { intros Hlen Hb Hd. by apply side_chain_copy_same_shape. }
  intros sideChain level thresholdLinear out.
  assert ((DSPModules.DeEsser_sideChain d buffer).2 = sideChain) as Hsc
    by reflexivity.
  assert (DSPModules.sibilanceLevel (DSPModules.DeEsser_sideChain d buffer).2
            (getNumChannels buffer) i = level) as Hlevel.
  { rewrite Hsc. apply sibilanceLevel_mean_abs. }
  assert (thresholdLinear = dBToGain (DSPModules.threshold d)) as Ht.
  { unfold dBToGain, thresholdLinear. cbn. unfold Q2R. cbn.
    f_equal; lra. }
  assert (sample_at (DSPModules.DeEsser_process d buffer).2 ch i
          = Some (x * DSPModules.gainReduction d level)) as Hout.
  { rewrite sample_at_DeEsser_process, decide_True.
    - rewrite Hx, Hlevel. reflexivity.
    - split; [|done]. by eapply sample_at_lt_channels. }
  subst out. rewrite (getSample_Some _ _ _ _ Hout).
  split; [done|]. split.
  { unfold DSPModules.DeEsser_process. rewrite <- Hsc.
    by destruct (DSPModules.DeEsser_sideChain d buffer). }
  split; [done|]. split; [|split].
  - intros Hcmp.
    rewrite gainReduction_above by (rewrite <- Ht; done). by rewrite <- Ht.
  - intros Hcmp. rewrite gainReduction_below by (rewrite <- Ht; done). lra.
  - intros rate nch maxBlock. cbn. apply length_replicate.
Qed.

(** C10.  With the ratio at least [1], which [setRatio] guarantees, the
    gain of the de-esser lies in (0, 1] for every level and is [1] at or
    below the threshold; so the absolute value of every output sample is
    at most that of the input sample. *)
Theorem deesser_never_amplifies (d : DSPModules.DeEsser) :
  1 <= DSPModules.ratio d ->
  (forall level,
     0 < DSPModules.gainReduction d level <= 1
     /\ (level <= dBToGain (DSPModules.threshold d) ->
         DSPModules.gainReduction d level = 1))
  /\ (forall (buffer : AudioBuffer) ch i,
        Rabs (getSample (DSPModules.DeEsser_process d buffer).2 ch i)
        <= Rabs (getSample buffer ch i))
  /\ (forall r, 1 <= DSPModules.ratio (DSPModules.DeEsser_setRatio r d)).
Proof.
  intros Hr. split; [|split].
  - intros level. split; [by apply gainReduction_range|].
    apply gainReduction_below.
  - intros buffer ch i. rewrite !getSample_sample_at.
    rewrite sample_at_DeEsser_process.
    destruct (decide _) as [_|_]; [|lra].
    destruct (sample_at buffer ch i) as [x|]; cbn; [|lra].
    set (g := DSPModules.gainReduction d _).
    assert (0 < g <= 1) as Hg by (by apply gainReduction_range).
    rewrite Rabs_mult, (Rabs_pos_eq g) by lra.
    pose proof (Rabs_pos x). nra.
  - intros r. cbn. unfold jlimit. cbn. unfold Q2R. cbn.
    unfold R_ltb. repeat destruct (Rlt_dec _ _); lra.
Qed.

End DeEsserExact.

(* ===================================================================== *)
(** * The stereo imager *)
(* ===================================================================== *)

Section ImagerFacts.
Context {F D : Type} `{FloatOps F} `{LibmOps F} `{DoubleOps F D} `{JuceDsp F D}.
Local Abbreviation AudioBuffer := (Juce.AudioBuffer F).

Lemma StereoImager_process_width (s1 s2 : Cinematic.StereoImager)
    (buffer : AudioBuffer) n :
  Cinematic.stereoWidth s1 = Cinematic.stereoWidth s2 ->
  Cinematic.StereoImager_process s1 buffer n
  = Cinematic.StereoImager_process s2 buffer n.
Proof.
  intros Hw. unfold Cinematic.StereoImager_process.
  destruct (getNumChannels buffer <? 2); [done|].
  apply for_range_ext. intros i x _.
  unfold Cinematic.StereoImager_sample. by rewrite Hw.
Qed.

(** C9.  The frequency given to [setMonoFrequency] has no effect on the
    audio: after any two calls with any two frequencies, [process] gives
    the same output for the same block.  [process] reads [stereoWidth]
    only; the low-pass filter that [setMonoFrequency] configures is not
    used in it. *)
Theorem monoFrequency_has_no_effect (s : Cinematic.StereoImager)
    (frequency1 frequency2 : F) (buffer : AudioBuffer) n :
  Cinematic.StereoImager_process
    (Cinematic.StereoImager_setMonoFrequency frequency1 s) buffer n
  = Cinematic.StereoImager_process
      (Cinematic.StereoImager_setMonoFrequency frequency2 s) buffer n.
Proof. by apply StereoImager_process_width. Qed.

End ImagerFacts.

Section ImagerExact.
Context `{JuceDsp R R}.
Local Open Scope R_scope.

Lemma jlimit_unit_width : jlimit (f_lit 0) (f_lit 2) (f_lit 1) = (1 : R).
Proof.
  unfold jlimit; cbn. rewrite Q2R_0, Q2R_1, Q2R_2.
  rewrite !R_ltb_false by lra. done.
Qed.

Lemma mid_side_left (l r : R) : (l + r) * / 2 + (l - r) * / 2 * 1 = l.
Proof. lra. Qed.
Lemma mid_side_right (l r : R) : (l + r) * / 2 - (l - r) * / 2 * 1 = r.
Proof. lra. Qed.

Lemma StereoImager_sample_unity (s : Cinematic.StereoImager) i
    (buffer : AudioBuffer R) :
  Cinematic.stereoWidth s = 1 ->
  Cinematic.StereoImager_sample s i buffer = buffer.
Proof.
  intros Hw. unfold Cinematic.StereoImager_sample. rewrite Hw. cbn.
  rewrite Q2R_half, mid_side_left, mid_side_right.
  rewrite (setSample_getSample buffer 0 i). apply setSample_getSample.
Qed.

Lemma StereoWidener_sample_unity (s : DSPModules.StereoWidener) i
    (buffer : AudioBuffer R) :
  DSPModules.width s = 1 -> DSPModules.outputGain s = 1 ->
  DSPModules.StereoWidener_sample s i buffer = buffer.
Proof.
  intros Hw Hg. unfold DSPModules.StereoWidener_sample. rewrite Hw, Hg. cbn.
  rewrite Q2R_half, !Rmult_1_r.
  replace ((getSample buffer 0 i + getSample buffer 1 i) * / 2
           + (getSample buffer 0 i - getSample buffer 1 i) * / 2)
    with (getSample buffer 0 i) by lra.
  replace ((getSample buffer 0 i + getSample buffer 1 i) * / 2
           - (getSample buffer 0 i - getSample buffer 1 i) * / 2)
    with (getSample buffer 1 i) by lra.
  rewrite (setSample_getSample buffer 0 i). apply setSample_getSample.
Qed.

(** C7, as amended.  In exact arithmetic, the stereo imager after
    [setWidth (1.0)] gives back every block unchanged, and so does the
    stereo widener of [DSPModules.h] after [setWidth (1.0)] with its
    initial output gain: [(L+R)/2 + (L-R)/2 = L] and
    [(L+R)/2 - (L-R)/2 = R].  The [float] operations of the code round
    these sums. *)
Theorem unity_width_is_identity_in_exact_arithmetic
    (s : Cinematic.StereoImager) (rate : R) (bassFilter : IIRFilter)
    (buffer : AudioBuffer R) n :
  Cinematic.StereoImager_process
    (Cinematic.StereoImager_setWidth (f_lit 1) s) buffer n = buffer
  /\ DSPModules.StereoWidener_process
       (DSPModules.StereoWidener_setWidth (f_lit 1)
          (DSPModules.StereoWidener_new rate bassFilter))
       buffer = buffer.
Proof.
  split.
  - unfold Cinematic.StereoImager_process.
    destruct (getNumChannels buffer <? 2); [done|].
    apply for_range_id. intros i x. apply StereoImager_sample_unity.
    apply jlimit_unit_width.
  - unfold DSPModules.StereoWidener_process.
    destruct (getNumChannels buffer <? 2); [done|].
    apply for_range_id. intros i x. apply StereoWidener_sample_unity.
    + apply jlimit_unit_width.
    + cbn. apply Q2R_1.
Qed.

End ImagerExact.


(* ===================================================================== *)
(** * The mastering chain *)
(* ===================================================================== *)

Section ChainFacts.
Context {F D : Type} `{FloatOps F} `{LibmOps F} `{DoubleOps F D} `{JuceDsp F D}
  `{Cinematic.EnhancerStages F}.
Import ChainSpec.

Local Abbreviation AudioBuffer := (Juce.AudioBuffer F).
Local Abbreviation Enhancer := Cinematic.CinematicAudioEnhancer.
Implicit Types (e : Enhancer) (buffer : AudioBuffer) (s : Enhancer * AudioBuffer).

(** No stage writes an enable flag. *)
Lemma run_stage_flags n st s st' :
  stage_enabled (run_stage n st s).1 st' = stage_enabled s.1 st'.
Proof.
  destruct s as [e b]. destruct st; cbn;
    unfold Cinematic.call_highPassFilter, Cinematic.call_presenceEQ,
      Cinematic.call_vocalCompressor, Cinematic.call_modulationEffect,
      Cinematic.call_warmSaturation, Cinematic.call_subtleDelay,
      Cinematic.call_cinematicReverb, Cinematic.call_multibandCompressor,
      Cinematic.call_stereoImager, Cinematic.call_loudnessNormalizer,
      Cinematic.call_finalLimiter; cbn;
    repeat match goal with
           | |- context [let '(_, _) := ?x in _] => destruct x
           end; by destruct st'.
Qed.

(** Running the enabled stages of a list is running the list with each
    stage guarded by its flag. *)
Lemma run_stages_guarded n (stages : list Stage) s :
  run_stages n (filter (fun st => stage_enabled s.1 st = true) stages) s
  = fold_left
      (fun acc st =>
         Cinematic.guarded (fun e => stage_enabled e st) (run_stage n st) acc)
      stages s.
Proof.
  revert s. induction stages as [|st stages IH]; intros s; [done|].
  cbn [fold_left].
  assert (Cinematic.guarded (fun e => stage_enabled e st) (run_stage n st) s
          = if stage_enabled s.1 st then run_stage n st s else s) as ->
    by reflexivity.
  destruct (stage_enabled s.1 st) eqn:Hst.
  - rewrite filter_cons_True by done. rewrite <- IH.
    unfold run_stages. cbn [fold_left]. f_equal.
    apply list_filter_iff. intros st'. by rewrite run_stage_flags.
  - rewrite filter_cons_False by (by rewrite Hst). apply IH.
Qed.

Lemma process_runs_enabled_stages e buffer n :
  Cinematic.CinematicAudioEnhancer_process e buffer n
  = run_stages n (enabled_stages e) (e, buffer).
Proof.
  unfold enabled_stages.
  etrans; [|symmetry; apply (run_stages_guarded n stage_order (e, buffer))].
  unfold Cinematic.CinematicAudioEnhancer_process, stage_order.
  cbn [fold_left run_stage stage_enabled]. reflexivity.
Qed.

(** The flags after a sequence of setter calls that end with the given
    ones do not depend on the stage objects. *)
Lemma vocal_preset_stages e :
  enabled_stages (Cinematic.applyCinematicVocalPreset e)
  = [HighPass; PresenceEq; GentleCompression; Delay; ReverbStage;
     MultibandCompression; StereoImaging; LoudnessNormalization;
     FinalLimiting].
Proof. reflexivity. Qed.

Lemma mastering_preset_stages e :
  enabled_stages (Cinematic.applyCinematicMasteringPreset e)
  = [Saturation; MultibandCompression; StereoImaging; LoudnessNormalization;
     FinalLimiting].
Proof. reflexivity. Qed.

Lemma viral_preset_stages e :
  enabled_stages (Cinematic.applyViralAppealPreset e) = stage_order.
Proof. reflexivity. Qed.

(** C8.  For every combination of the enable flags and every block,
    [CinematicAudioEnhancer::process] runs exactly the stages whose flag is
    set, each once, one after the other on the same block, in the order
    high-pass, presence EQ, gentle compressor, modulation, saturation,
    delay, reverb, multiband compressor, stereo imager, loudness
    normalizer, final limiter.  A preset sets flags and parameters: after
    each of the three presets the stages that run are a selection from
    that same order, with the order kept. *)
Theorem chain_order_is_fixed e buffer n :
  Cinematic.CinematicAudioEnhancer_process e buffer n
  = run_stages n (enabled_stages e) (e, buffer)
  /\ (forall st, st ∈ enabled_stages e <-> stage_enabled e st = true)
  /\ enabled_stages e `sublist_of` stage_order
  /\ (forall preset,
        preset ∈ [Cinematic.applyCinematicVocalPreset;
                  Cinematic.applyCinematicMasteringPreset;
                  Cinematic.applyViralAppealPreset] ->
        Cinematic.CinematicAudioEnhancer_process (preset e) buffer n
        = run_stages n (enabled_stages (preset e)) (preset e, buffer)
        /\ enabled_stages (preset e) `sublist_of` stage_order)
  /\ enabled_stages (Cinematic.applyCinematicVocalPreset e)
     = [HighPass; PresenceEq; GentleCompression; Delay; ReverbStage;
        MultibandCompression; StereoImaging; LoudnessNormalization;
        FinalLimiting]
  /\ enabled_stages (Cinematic.applyCinematicMasteringPreset e)
     = [Saturation; MultibandCompression; StereoImaging;
        LoudnessNormalization; FinalLimiting]
  /\ enabled_stages (Cinematic.applyViralAppealPreset e) = stage_order.
Proof.
  split; [apply process_runs_enabled_stages|].
  split; [|split; [|split; [|split; [|split]]]].
  - intros st. unfold enabled_stages. rewrite list_elem_of_filter.
    split; [tauto|]. intros Hst. split; [done|].
    destruct st; unfold stage_order; set_solver.
  - apply sublist_filter.
  - intros preset _. split; [apply process_runs_enabled_stages|].
    apply sublist_filter.
  - apply vocal_preset_stages.
  - apply mastering_preset_stages.
  - apply viral_preset_stages.
Qed.

End ChainFacts.

(* ===================================================================== *)
(** * The engine: modes, cleared chains, all tracks in a row *)
(* ===================================================================== *)

Section EngineFacts.
Context {F D : Type} `{FloatOps F} `{DoubleOps F D}.
Local Abbreviation AudioBuffer := (Juce.AudioBuffer F).
Implicit Types (fx : AIFXEngine F D) (t : Z) (buffer : AudioBuffer).

Lemma in_range_to_nat t t' :
  in_range t = true -> in_range t' = true ->
  Z.to_nat t = Z.to_nat t' -> t = t'.
Proof. unfold in_range. lia. Qed.

Lemma in_range_lt t : in_range t = true -> Z.to_nat t < 6.
Proof. unfold in_range, NUM_TRACKS. lia. Qed.

Lemma in_range_of_nat k : k < 6 -> in_range (Z.of_nat k) = true.
Proof. unfold in_range, NUM_TRACKS. lia. Qed.

Lemma update_track_lookup fx t (f : TrackFX F D -> TrackFX F D) k :
  trackFX (update_track fx t f) !! k
  = if decide (Z.to_nat t = k) then f <$> trackFX fx !! k
    else trackFX fx !! k.
Proof.
  unfold update_track. cbn. rewrite list_lookup_alter.
  by destruct (decide (Z.to_nat t = k)) as [<-|].
Qed.

(** X1.  [getFXMode] after [setFXMode]: a track index within the range
    reads back the mode that was set, every other track reads as before,
    an index outside the range changes nothing and reads as [Off]; the
    effect chains stay as they were. *)
Theorem setFXMode_then_getFXMode fx t t' m :
  length (trackFX fx) = Z.to_nat NUM_TRACKS ->
  AIFXMore.getFXMode (setFXMode fx t m) t'
  = (if decide (t = t' /\ in_range t = true) then m
     else AIFXMore.getFXMode fx t')
  /\ (in_range t = false -> setFXMode fx t m = fx)
  /\ (in_range t' = false -> AIFXMore.getFXMode fx t' = Off)
  /\ (forall k track,
        trackFX fx !! k = Some track ->
        exists track',
          trackFX (setFXMode fx t m) !! k = Some track'
          /\ dspEffects track' = dspEffects track
          /\ aiEffects track' = aiEffects track).
Proof.
  intros Hlen. unfold setFXMode, AIFXMore.getFXMode.
  split; [|split; [|split]].
  - destruct (in_range t) eqn:Ht.
    + destruct (in_range t') eqn:Ht'.
      * rewrite update_track_lookup.
        destruct (decide (t = t' /\ true = true)) as [[<- _]|Hne].
        -- rewrite decide_True by done.
           destruct (lookup_lt_is_Some_2 (trackFX fx) (Z.to_nat t)) as [tr Htr].
           { rewrite Hlen. pose proof (in_range_lt t Ht).
             unfold NUM_TRACKS. lia. }
           by rewrite Htr.
        -- rewrite decide_False; [done|].
           intros Heq. apply Hne. split; [|done].
           by apply in_range_to_nat.
      * rewrite decide_False; [done|]. intros [<- _]. congruence.
    + rewrite decide_False; [done|]. by intros [_ ?].
  - by intros ->.
  - by intros ->.
  - intros k track Hk. destruct (in_range t); [|by exists track].
    rewrite update_track_lookup, Hk.
    destruct (decide (Z.to_nat t = k)); eexists; (split; [reflexivity|done]).
Qed.

(** X2.  [clearEffects]: the track then passes every block through
    unchanged, whatever its mode; the mode is kept, and the other tracks
    are not touched. *)
Theorem clearEffects_empties_the_chain fx t buffer n :
  length (trackFX fx) = Z.to_nat NUM_TRACKS ->
  in_range t = true ->
  let fx' := AIFXMore.clearEffects fx t in
  (AIFX.process fx' buffer n t).2 = buffer
  /\ (forall m, (AIFX.process (setFXMode fx' t m) buffer n t).2 = buffer)
  /\ AIFXMore.getFXMode fx' t = AIFXMore.getFXMode fx t
  /\ (forall k, k <> Z.to_nat t -> trackFX fx' !! k = trackFX fx !! k).
Proof.
  intros Hlen Ht fx'.
  destruct (lookup_lt_is_Some_2 (trackFX fx) (Z.to_nat t)) as [tr Htr].
  { rewrite Hlen. pose proof (in_range_lt t Ht). unfold NUM_TRACKS. lia. }
  assert (trackFX fx' !! Z.to_nat t = Some (mkTrackFX (mode tr) [] [])) as Hcl.
  { subst fx'. unfold AIFXMore.clearEffects. rewrite Ht.
    rewrite update_track_lookup, decide_True by done. by rewrite Htr. }
  split; [|split; [|split]].
  - rewrite (process_at fx' buffer n t _ Ht Hcl). cbn. by destruct (mode tr).
  - intros m.
    assert (trackFX (setFXMode fx' t m) !! Z.to_nat t
            = Some (mkTrackFX m [] [])) as Hm.
    { unfold setFXMode. rewrite Ht.
      rewrite update_track_lookup, decide_True by done. by rewrite Hcl. }
    rewrite (process_at _ buffer n t _ Ht Hm). cbn. by destruct m.
  - unfold AIFXMore.getFXMode. by rewrite Ht, Hcl, Htr.
  - intros k Hk. subst fx'. unfold AIFXMore.clearEffects. rewrite Ht.
    rewrite update_track_lookup. by rewrite decide_False.
Qed.

(** [process] on one track: the engine pointer and the other tracks stay. *)
Lemma process_other_tracks fx buffer n t :
  onnxEngine (AIFX.process fx buffer n t).1 = onnxEngine fx
  /\ length (trackFX (AIFX.process fx buffer n t).1) = length (trackFX fx)
  /\ (forall k, k <> Z.to_nat t ->
        trackFX (AIFX.process fx buffer n t).1 !! k = trackFX fx !! k).
Proof.
  unfold AIFX.process.
  destruct ((t <? 0) || (NUM_TRACKS <=? t))%Z; [done|].
  destruct (trackFX fx !! Z.to_nat t) as [track|]; [|done].
  destruct (match mode track with
            | Off => _ | DSP => _ | AI => _ | Hybrid => _ end) as [track' b'].
  cbn. split; [done|split].
  - apply length_insert.
  - intros k Hk. by apply list_lookup_insert_ne.
Qed.

Lemma process_track_chain fx buffer n t track :
  in_range t = true ->
  trackFX fx !! Z.to_nat t = Some track ->
  (AIFX.process fx buffer n t).2
  = AIFXMore.track_chain (onnxEngine fx) track n buffer.
Proof. intros Ht Htr. by rewrite (process_at fx buffer n t track Ht Htr). Qed.

(** The loop of [processAllTracks] after [k] tracks. *)
Lemma processAllTracks_prefix fx buffer n k :
  k <= length (trackFX fx) -> k <= 6 ->
  let s :=
    for_range k
      (fun trackIndex '(fx, buffer) =>
         match AIFXMore.getFXMode fx (Z.of_nat trackIndex) with
         | Off => (fx, buffer)
         | _ => AIFX.process fx buffer n (Z.of_nat trackIndex)
         end)
      (fx, buffer) in
  onnxEngine s.1 = onnxEngine fx
  /\ length (trackFX s.1) = length (trackFX fx)
  /\ (forall j, k <= j -> trackFX s.1 !! j = trackFX fx !! j)
  /\ s.2 = fold_left
             (fun b track => AIFXMore.track_chain (onnxEngine fx) track n b)
             (take k (trackFX fx)) buffer.
Proof.
  induction k as [|k IH]; intros Hk Hk6 s.
  - subst s. rewrite for_range_0. cbn. by rewrite take_0.
  - subst s. rewrite for_range_S.
    destruct (IH ltac:(lia) ltac:(lia)) as (He & Hl & Hrest & Hb).
    destruct (for_range k _ (fx, buffer)) as [fx1 b1]. cbn [fst snd] in *.
    destruct (lookup_lt_is_Some_2 (trackFX fx) k ltac:(lia)) as [track Htrack].
    assert (trackFX fx1 !! k = Some track) as Htrack1
      by (rewrite Hrest by lia; done).
    rewrite (take_S_r _ _ _ Htrack), fold_left_app. cbn [fold_left].
    rewrite <- Hb.
    pose proof (in_range_of_nat k ltac:(lia)) as Hin.
    assert (AIFXMore.getFXMode fx1 (Z.of_nat k) = mode track) as Hmode.
    { unfold AIFXMore.getFXMode. by rewrite Hin, Nat2Z.id, Htrack1. }
    destruct (process_other_tracks fx1 b1 n (Z.of_nat k)) as (He' & Hl' & Ho').
    rewrite Nat2Z.id in Ho'.
    assert ((AIFX.process fx1 b1 n (Z.of_nat k)).2
            = AIFXMore.track_chain (onnxEngine fx) track n b1) as Hp.
    { rewrite <- He. apply process_track_chain; [done|].
      by rewrite Nat2Z.id. }
    rewrite Hmode.
    destruct (mode track) eqn:Em.
    + cbn [fst snd]. split; [done|split; [done|split]].
      * intros j Hj. apply Hrest. lia.
      * unfold AIFXMore.track_chain. by rewrite Em.
    + split; [congruence|split; [congruence|split]]; [|done].
      intros j Hj. rewrite Ho' by lia. apply Hrest. lia.
    + split; [congruence|split; [congruence|split]]; [|done].
      intros j Hj. rewrite Ho' by lia. apply Hrest. lia.
    + split; [congruence|split; [congruence|split]]; [|done].
      intros j Hj. rewrite Ho' by lia. apply Hrest. lia.
Qed.

(** X3.  [processAllTracks]: the block goes through the chains of the six
    tracks one after the other, in the order of the track indices, each
    chain selected by the mode of its track; with every track [Off]
    nothing changes. *)
Theorem processAllTracks_runs_tracks_in_order fx buffer n :
  length (trackFX fx) = Z.to_nat NUM_TRACKS ->
  (AIFXMore.processAllTracks fx buffer n).2
  = fold_left
      (fun b track => AIFXMore.track_chain (onnxEngine fx) track n b)
      (trackFX fx) buffer
  /\ (Forall (fun track => mode track = Off) (trackFX fx) ->
      (AIFXMore.processAllTracks fx buffer n).2 = buffer).
Proof.
  intros Hlen.
  assert ((AIFXMore.processAllTracks fx buffer n).2
          = fold_left
              (fun b track => AIFXMore.track_chain (onnxEngine fx) track n b)
              (trackFX fx) buffer) as Hall.
  { unfold AIFXMore.processAllTracks, AIFXMore.getNumTracks.
    destruct (processAllTracks_prefix fx buffer n (Z.to_nat NUM_TRACKS))
      as (_ & _ & _ & Hb).
    - lia.
    - unfold NUM_TRACKS. lia.
    - cbn zeta in Hb. rewrite Hb. by rewrite <- Hlen, firstn_all. }
  split; [done|].
  intros Hoff. rewrite Hall. clear Hall Hlen.
  induction Hoff as [|track rest Hm _ IH]; [done|].
  cbn [fold_left]. unfold AIFXMore.track_chain at 2. rewrite Hm. exact IH.
Qed.

End EngineFacts.

(* ===================================================================== *)
(** * [AIEffect::process]: what a successful inference writes back *)
(* ===================================================================== *)

Section WriteBack.
Context {F D : Type} `{FloatOps F}.
Local Abbreviation AudioBuffer := (Juce.AudioBuffer F).
Implicit Types (b buffer : AudioBuffer) (output : list F).

Lemma copyBack_sample_set output ch i b k v :
  output !! k = Some v ->
  copyBack_sample output ch i (b, k) = (setSample b ch i v, S k).
Proof. intros Hv. unfold copyBack_sample. by rewrite Hv. Qed.

Lemma copyBack_sample_end output ch i b k :
  output !! k = None -> copyBack_sample output ch i (b, k) = (b, k).
Proof. intros Hv. unfold copyBack_sample. by rewrite Hv. Qed.

(** The write-back loop over one channel, entered with [K] samples of the
    output already consumed (or the output exhausted). *)
Lemma copyBack_channel output ch m b K :
  let s := for_range m (copyBack_sample output ch)
             (b, Nat.min K (length output)) in
  s.2 = Nat.min (K + m) (length output)
  /\ forall c j,
       sample_at s.1 c j
       = if decide (c = ch /\ j < m)
         then match output !! (K + j) with
              | Some v => (fun _ => v) <$> sample_at b c j
              | None => sample_at b c j
              end
         else sample_at b c j.
Proof.
  induction m as [|m IH]; intros s.
  - subst s. rewrite for_range_0. cbn. split; [f_equal; lia|].
    intros c j. rewrite decide_False; [done|lia].
  - subst s. rewrite for_range_S. cbn zeta in IH. destruct IH as [Hidx Hs].
    destruct (for_range m _ _) as [b1 k1]. cbn [fst snd] in *. subst k1.
    destruct (decide (K + m < length output)) as [Hlt|Hge].
    + destruct (lookup_lt_is_Some_2 output (K + m) Hlt) as [v Hv].
      rewrite Nat.min_l by lia.
      rewrite (copyBack_sample_set _ _ _ _ _ v Hv). cbn [fst snd].
      split; [lia|]. intros c j.
      rewrite sample_at_setSample, Hs.
      destruct (decide (ch = c /\ m = j)) as [[<- <-]|Hne].
      * rewrite decide_False by lia. rewrite decide_True by (split; [done|lia]).
        by rewrite Hv.
      * destruct (decide (c = ch /\ j < m)) as [[-> Hj]|Hn2].
        -- by rewrite decide_True by (split; [done|lia]).
        -- rewrite decide_False; [done|]. intros [-> Hj].
           apply Hn2. split; [done|]. destruct (decide (m = j)); [|lia].
           subst. by destruct Hne.
    + rewrite Nat.min_r by lia.
      rewrite copyBack_sample_end by (apply lookup_ge_None_2; lia).
      cbn [fst snd]. split; [lia|]. intros c j. rewrite Hs.
      destruct (decide (c = ch /\ j < m)) as [[-> Hj]|Hn2].
      * by rewrite decide_True by (split; [done|lia]).
      * destruct (decide (c = ch /\ j < S m)) as [[-> Hj]|Hn3]; [|done].
        assert (j = m) as -> by (destruct (decide (j = m)); [done|];
                                 exfalso; apply Hn2; split; [done|lia]).
        by rewrite (lookup_ge_None_2 output (K + m)) by lia.
Qed.

(** The whole write-back loop: sample [(c, j)] takes element [c * n + j]
    of the output, as far as the output goes. *)
Lemma sample_at_copyBack output nch n b c j :
  sample_at (copyBack output nch n b) c j
  = if decide (c < nch /\ j < n)
    then match output !! (c * n + j) with
         | Some v => (fun _ => v) <$> sample_at b c j
         | None => sample_at b c j
         end
    else sample_at b c j.
Proof.
  unfold copyBack.
  assert (forall k,
            let s := for_range k
                       (fun channel =>
                          for_range n (copyBack_sample output channel))
                       (b, 0) in
            s.2 = Nat.min (k * n) (length output)
            /\ forall c j,
                 sample_at s.1 c j
                 = if decide (c < k /\ j < n)
                   then match output !! (c * n + j) with
                        | Some v => (fun _ => v) <$> sample_at b c j
                        | None => sample_at b c j
                        end
                   else sample_at b c j) as Hall.
  { induction k as [|k IH]; intros s.
    - subst s. rewrite for_range_0. cbn. split; [done|].
      intros c' j'. rewrite decide_False; [done|lia].
    - subst s. rewrite for_range_S. cbn zeta in IH. destruct IH as [Hidx Hs].
      destruct (for_range k _ _) as [b1 k1]. cbn [fst snd] in *. subst k1.
      destruct (copyBack_channel output k n b1 (k * n)) as [Hidx' Hs'].
      cbn zeta in Hidx', Hs'. split.
      + rewrite Hidx'. f_equal. lia.
      + intros c' j'. rewrite Hs', Hs.
        destruct (decide (c' = k /\ j' < n)) as [[-> Hj]|Hne].
        * rewrite decide_False by lia.
          by rewrite decide_True by (split; [lia|done]).
        * destruct (decide (c' < k /\ j' < n)) as [[Hc Hj]|Hn2].
          -- by rewrite decide_True by (split; [lia|done]).
          -- rewrite decide_False; [done|]. intros [Hc Hj].
             destruct (decide (c' = k)) as [->|]; [by apply Hne|].
             apply Hn2. split; [lia|done]. }
  apply (Hall nch).
Qed.

(** Element [c * n + j] of the flattened block is sample [(c, j)]. *)
Lemma lookup_flattened (buffer : AudioBuffer) n c j :
  Forall (fun ch => n <= length ch) buffer ->
  j < n ->
  concat (map (take n) buffer) !! (c * n + j) = sample_at buffer c j.
Proof.
  intros Hlen Hj. revert c.
  induction Hlen as [|ch rest Hch _ IH]; intros c.
  - by destruct c.
  - cbn [map concat]. destruct c as [|c].
    + cbn [Nat.mul Nat.add]. rewrite lookup_app_l by (rewrite length_take; lia).
      unfold sample_at. cbn. by rewrite lookup_take_lt.
    + rewrite lookup_app_r by (rewrite length_take; lia).
      rewrite length_take, Nat.min_l by lia.
      replace (S c * n + j - n) with (c * n + j) by lia.
      rewrite IH. reflexivity.
Qed.

Lemma runInference_returns (en : OnnxEngine F) role m s input shape out result :
  models en !! role = Some m ->
  modelLoaded m = true ->
  session m = Some s ->
  Run s input (match shape with [] => inputShape m | _ => shape end)
    = Returns result ->
  runInference en role input shape out = (true, result).
Proof.
  intros Hm Hl Hs Hr. unfold runInference, OnnxModel_isReady.
  rewrite Hm, Hl. unfold OnnxModel_runInference. by rewrite Hl, Hs, Hr.
Qed.

Lemma isModelReady_loaded (en : OnnxEngine F) role m :
  models en !! role = Some m -> modelLoaded m = true ->
  isModelReady en role = true.
Proof. intros Hm Hl. unfold isModelReady, OnnxModel_isReady. by rewrite Hm. Qed.

(** X4.  When the model of the effect is ready and the inference returns
    the tensor [result], sample [i] of channel [ch] of the block becomes
    element [ch * numSamples + i] of the tensor; where the tensor is too
    short the sample keeps its value. *)
Theorem AIEffect_writes_back_channel_major (en : OnnxEngine F)
    (e : AIEffect F D) (buffer : AudioBuffer) n m s result ch i x :
  models en !! modelRole e = Some m ->
  modelLoaded m = true ->
  session m = Some s ->
  Run s (concat (map (take n) buffer))
    [1%Z; Z.of_nat (length buffer); Z.of_nat n] = Returns result ->
  i < n ->
  sample_at buffer ch i = Some x ->
  sample_at (AIEffect_process (Some en) e buffer n).2 ch i
  = Some (default x (result !! (ch * n + i))).
Proof.
  intros Hm Hl Hs Hr Hi Hx. unfold AIEffect_process.
  rewrite (isModelReady_loaded en _ m Hm Hl). cbn [negb].
  rewrite (runInference_returns en _ m s (concat (map (take n) buffer))
             [1%Z; Z.of_nat (length buffer); Z.of_nat n] _ result
             Hm Hl Hs Hr).
  cbn [snd]. rewrite sample_at_copyBack.
  assert (ch < length buffer) as Hch.
  { unfold sample_at in Hx. destruct (buffer !! ch) eqn:E; [|done].
    by eapply lookup_lt_Some. }
  rewrite decide_True by done. rewrite Hx.
  by destruct (result !! (ch * n + i)).
Qed.

(** X5.  Flattening the block and writing it back are inverse to each
    other: with a model that returns its input tensor, the block comes back
    unchanged. *)
Theorem AIEffect_echo_is_identity (en : OnnxEngine F) (e : AIEffect F D)
    (buffer : AudioBuffer) n m s :
  models en !! modelRole e = Some m ->
  modelLoaded m = true ->
  session m = Some s ->
  Run s (concat (map (take n) buffer))
    [1%Z; Z.of_nat (length buffer); Z.of_nat n]
  = Returns (concat (map (take n) buffer)) ->
  Forall (fun c => n <= length c) buffer ->
  (AIEffect_process (Some en) e buffer n).2 = buffer.
Proof.
  intros Hm Hl Hs Hr Hlen. unfold AIEffect_process.
  rewrite (isModelReady_loaded en _ m Hm Hl). cbn [negb].
  rewrite (runInference_returns en _ m s (concat (map (take n) buffer))
             [1%Z; Z.of_nat (length buffer); Z.of_nat n] _ _
             Hm Hl Hs Hr).
  cbn [snd].
  assert (forall c j,
            sample_at (copyBack (concat (map (take n) buffer))
                         (length buffer) n buffer) c j
            = sample_at buffer c j) as Hsame.
  { intros c j. rewrite sample_at_copyBack.
    destruct (decide (c < length buffer /\ j < n)) as [[Hc Hj]|]; [|done].
    rewrite lookup_flattened by done.
    by destruct (sample_at buffer c j). }
  assert (length (copyBack (concat (map (take n) buffer))
                    (length buffer) n buffer) = length buffer) as Hl2.
  { unfold copyBack.
    generalize (concat (map (take n) buffer)). intros out.
    generalize (length buffer) at 1. intros nch.
    assert (forall k (s0 : AudioBuffer * nat) ch0,
              length (for_range k (copyBack_sample out ch0) s0).1
              = length s0.1) as Hin.
    { induction k as [|k IH]; intros s0 ch0; [done|].
      rewrite for_range_S. rewrite <- (IH s0 ch0).
      destruct (for_range k _ s0) as [b1 k1]. unfold copyBack_sample.
      destruct (out !! k1); [|done]. cbn. apply length_alter. }
    induction nch as [|k IH]; [done|].
    rewrite for_range_S. by rewrite Hin. }
  apply list_eq. intros c.
  destruct (buffer !! c) as [chan|] eqn:Ec.
  - destruct (lookup_lt_is_Some_2
                (copyBack (concat (map (take n) buffer)) (length buffer) n buffer)
                c) as [chan' Ec'].
    { rewrite Hl2. by eapply lookup_lt_Some. }
    rewrite Ec'. f_equal. apply list_eq. intros j.
    specialize (Hsame c j). unfold sample_at in Hsame.
    by rewrite Ec, Ec' in Hsame.
  - apply lookup_ge_None_2. rewrite Hl2. by apply lookup_ge_None_1.
Qed.

End WriteBack.

(* ===================================================================== *)
(** * The model store of the inference backend *)
(* ===================================================================== *)

Section ModelStore.
Context {F : Type}.
Implicit Types (st : OnnxStore.OnnxEngineState F) (host : OnnxStore.Host F).
Implicit Types (role path : string).

Import OnnxStore.

Lemma loadModel_unfold host st role path :
  loadModel host st role path
  = (let st1 :=
       mkOnnxEngineState (engine st) (modelPaths st) true (useGPU st) in
     if negb (existsAsFile host path) then (false, st1)
     else
       let '(loaded, model) := OnnxModel_loadModel host path OnnxModel_new in
       if loaded
       then (true,
             mkOnnxEngineState
               (mkOnnxEngine (<[role := model]> (models (engine st))))
               (<[role := path]> (modelPaths st)) true (useGPU st))
       else (false, st1)).
Proof.
  unfold loadModel, initialize. destruct st as [en paths [] gpu]; reflexivity.
Qed.

Lemma OnnxModel_loadModel_ready host path m ok m' :
  OnnxModel_loadModel host path m = (ok, m') ->
  ok = modelLoaded m' /\ (ok = true -> is_Some (session m')).
Proof.
  unfold OnnxModel_loadModel.
  destruct (createSession host path) as [s|]; [|by intros [= <- <-]].
  destruct (readInputShape host s) as [shape|]; [|by intros [= <- <-]].
  destruct (readOutputInfo host s); intros [= <- <-]; (split; [done|]);
    intros; try done; by eexists.
Qed.

(** X6.  [unloadModel]: afterwards the role is not ready and an inference
    on it fails without touching the output vector; the other roles and the
    recorded paths are as before. *)
Theorem unloadModel_forgets_the_role st role :
  let st' := unloadModel st role in
  isModelReady (engine st') role = false
  /\ (forall input shape out,
        runInference (engine st') role input shape out = (false, out))
  /\ (forall role',
        role' <> role ->
        models (engine st') !! role' = models (engine st) !! role')
  /\ modelPaths st' = modelPaths st.
Proof.
  intros st'. subst st'. unfold unloadModel.
  destruct (models (engine st) !! role) as [m|] eqn:Em; cbn.
  - unfold isModelReady, runInference. cbn. rewrite lookup_delete_eq.
    split; [done|split; [done|split; [|done]]].
    intros role' Hne. by rewrite lookup_delete_ne.
  - unfold isModelReady, runInference. rewrite Em. done.
Qed.

Lemma loadModel_spec host st role path :
  let r := loadModel host st role path in
  (r.1 = true <->
     existsAsFile host path = true
     /\ exists s shape,
          createSession host path = Returns s
          /\ readInputShape host s = Returns shape
          /\ readOutputInfo host s = Returns tt)
  /\ (r.1 = true ->
      (exists m,
         models (engine r.2) !! role = Some m
         /\ modelLoaded m = true /\ is_Some (session m))
      /\ modelPaths r.2 !! role = Some path
      /\ forall role',
           role' <> role ->
           models (engine r.2) !! role' = models (engine st) !! role'
           /\ modelPaths r.2 !! role' = modelPaths st !! role')
  /\ (r.1 = false ->
      engine r.2 = engine st /\ modelPaths r.2 = modelPaths st)
  /\ initialized r.2 = true.
Proof.
  intros r. subst r. rewrite loadModel_unfold. cbn zeta.
  unfold OnnxModel_loadModel.
  destruct (existsAsFile host path); cbn [negb fst snd].
  2: { split; [split; [done|by intros [? _]]|done]. }
  destruct (createSession host path) as [s|what]; cbn [fst snd].
  2: { split; [split; [done|by intros (_ & ? & ? & ? & _)]|done]. }
  destruct (readInputShape host s) as [shape|what] eqn:Es; cbn [fst snd].
  2: { split; [split; [done|]|done].
       intros (_ & s' & ? & [= <-] & ? & _). congruence. }
  destruct (readOutputInfo host s) as [[]|what] eqn:Eo; cbn [fst snd].
  2: { split; [split; [done|]|done].
       intros (_ & s' & ? & [= <-] & ? & ?). congruence. }
  split; [split; [intros _; split; [done|]; by exists s, shape|done]|].
  split; [|done].
  intros _. cbn. rewrite !lookup_insert_eq.
  split; [eexists; split; [reflexivity|split; [done|by eexists]]|].
  split; [done|].
  intros role' Hne. by rewrite !lookup_insert_ne.
Qed.

(** X7.  [loadModel] succeeds exactly when the file exists and ONNX
    Runtime creates the session and reads its metadata without an
    exception.  On success the role holds a loaded model with a session and
    its path is on record; on failure the models and the paths are as
    before, so a model already stored under the role stays in use. *)
Theorem loadModel_succeeds_or_changes_nothing host st role path :
  let r := loadModel host st role path in
  (r.1 = true <->
     existsAsFile host path = true
     /\ exists s shape,
          createSession host path = Returns s
          /\ readInputShape host s = Returns shape
          /\ readOutputInfo host s = Returns tt)
  /\ (r.1 = true ->
      isModelReady (engine r.2) role = true
      /\ (exists m,
            models (engine r.2) !! role = Some m
            /\ modelLoaded m = true /\ is_Some (session m))
      /\ modelPaths r.2 !! role = Some path
      /\ forall role',
           role' <> role ->
           models (engine r.2) !! role' = models (engine st) !! role')
  /\ (r.1 = false ->
      engine r.2 = engine st /\ modelPaths r.2 = modelPaths st)
  /\ initialized r.2 = true.
Proof.
  intros r. subst r.
  destruct (loadModel_spec host st role path) as (Hiff & Hok & Hno & Hi).
  cbn zeta in *.
  split; [done|split; [|done]].
  intros Ht. destruct (Hok Ht) as ((m & Hm & Hl & Hs) & Hp & Ho).
  split; [|split; [by exists m|split; [done|]]].
  - unfold isModelReady, OnnxModel_isReady. by rewrite Hm.
  - intros role' Hne. by apply Ho.
Qed.

Lemma unloadModel_lookup st role role' :
  models (engine (unloadModel st role)) !! role'
  = if decide (role = role') then None else models (engine st) !! role'.
Proof.
  unfold unloadModel.
  destruct (models (engine st) !! role) as [m|] eqn:Em; cbn.
  - rewrite lookup_delete. by destruct (decide (role = role')).
  - destruct (decide (role = role')) as [<-|]; done.
Qed.

Lemma unloadModel_paths st role :
  modelPaths (unloadModel st role) = modelPaths st.
Proof. unfold unloadModel. by destruct (models (engine st) !! role). Qed.

(** X8.  [reloadModel]: without a recorded path nothing happens.  With
    one, the stored model is unloaded first: when loading the file again
    fails, the role is left without a model although its old model was in
    working order; the path stays on record, and the other roles are not
    touched. *)
Theorem reloadModel_failure_drops_the_model host st role :
  (modelPaths st !! role = None -> reloadModel host st role = (false, st))
  /\ (forall path,
        modelPaths st !! role = Some path ->
        let r := reloadModel host st role in
        (r.1 = false ->
           isModelReady (engine r.2) role = false
           /\ (forall input shape out,
                 runInference (engine r.2) role input shape out = (false, out)))
        /\ (r.1 = true -> isModelReady (engine r.2) role = true)
        /\ modelPaths r.2 !! role = Some path
        /\ (forall role',
              role' <> role ->
              models (engine r.2) !! role' = models (engine st) !! role')).
Proof.
  split.
  - intros Hp. unfold reloadModel. by rewrite Hp.
  - intros path Hp r. subst r. unfold reloadModel. rewrite Hp.
    destruct (loadModel_spec host (unloadModel st role) role path)
      as (_ & Hok & Hno & _).
    cbn zeta in Hok, Hno.
    destruct (loadModel host (unloadModel st role) role path) as [ok st'].
    cbn [fst snd] in *. destruct ok.
    + destruct (Hok eq_refl) as ((m & Hm & Hl & _) & Hpath & Ho).
      split; [done|split; [|split; [done|]]].
      * intros _. unfold isModelReady, OnnxModel_isReady. by rewrite Hm.
      * intros role' Hne. rewrite (proj1 (Ho role' Hne)).
        rewrite unloadModel_lookup. by rewrite decide_False.
    + destruct (Hno eq_refl) as (He & Hpaths).
      assert (models (engine st') !! role = None) as Hnone.
      { rewrite He, unloadModel_lookup. by rewrite decide_True. }
      split; [|split; [done|split]].
      * intros _. unfold isModelReady, runInference. by rewrite Hnone.
      * by rewrite Hpaths, unloadModel_paths.
      * intros role' Hne. rewrite He, unloadModel_lookup.
        by rewrite decide_False.
Qed.

Lemma models_ready_ext st st' :
  engine st' = engine st -> modelPaths st' = modelPaths st ->
  models_ready st -> models_ready st'.
Proof. unfold models_ready. intros -> ->. done. Qed.

Lemma models_ready_unload st role :
  models_ready st -> models_ready (unloadModel st role).
Proof.
  intros Hr role' m. rewrite unloadModel_lookup, unloadModel_paths.
  destruct (decide (role = role')); [done|]. apply Hr.
Qed.

Lemma models_ready_load host st role path :
  models_ready st -> models_ready (loadModel host st role path).2.
Proof.
  intros Hr.
  destruct (loadModel_spec host st role path) as (_ & Hok & Hno & _).
  cbn zeta in Hok, Hno.
  destruct (loadModel host st role path) as [ok st']. cbn [fst snd] in *.
  destruct ok.
  - destruct (Hok eq_refl) as ((m & Hm & Hl & Hs) & Hpath & Ho).
    intros role' m'. destruct (decide (role' = role)) as [->|Hne].
    + rewrite Hm, Hpath. intros [= <-]. split; [done|split; [done|by eexists]].
    + rewrite (proj1 (Ho role' Hne)), (proj2 (Ho role' Hne)). apply Hr.
  - destruct (Hno eq_refl) as (He & Hp). by apply (models_ready_ext st).
Qed.

(** X9.  Every model that the engine stores is loaded, has a session and
    has its path on record: this holds for a new engine and is kept by
    every operation.  In such an engine a role is ready exactly when it is
    stored, and [getLoadedModels] lists exactly the stored roles. *)
Theorem stored_models_are_ready host :
  models_ready (OnnxEngine_new (F := F))
  /\ (forall st,
        models_ready st ->
        (forall role path, models_ready (loadModel host st role path).2)
        /\ (forall role, models_ready (unloadModel st role))
        /\ models_ready (unloadAllModels st)
        /\ (forall role, models_ready (reloadModel host st role).2)
        /\ (forall b, models_ready (setUseGPU b st))
        /\ (forall role,
              isModelReady (engine st) role = true
              <-> is_Some (models (engine st) !! role))
        /\ (forall role,
              role ∈ getLoadedModels st
              <-> is_Some (models (engine st) !! role))).
Proof.
  split; [by intros role m|].
  intros st Hr.
  split; [intros; by apply models_ready_load|].
  split; [intros; by apply models_ready_unload|].
  split; [by intros role m|].
  split.
  { intros role. unfold reloadModel.
    destruct (modelPaths st !! role); [|done].
    by apply models_ready_load, models_ready_unload. }
  split; [intros b; by apply (models_ready_ext st)|].
  split.
  - intros role. unfold isModelReady, OnnxModel_isReady.
    destruct (models (engine st) !! role) as [m|] eqn:Em.
    + destruct (Hr role m Em) as (-> & _). split; [by eexists|done].
    + split; [done|]. by intros [? ?].
  - intros role. unfold getLoadedModels. rewrite list_elem_of_omap. split.
    + intros ([role' m] & Hin & Hsome).
      apply elem_of_map_to_list in Hin. cbn in Hsome.
      destruct (OnnxModel_isReady m); [|done].
      injection Hsome as ->. by eexists.
    + intros [m Hm]. exists (role, m). split.
      * by apply elem_of_map_to_list.
      * cbn. unfold OnnxModel_isReady.
        by rewrite (proj1 (Hr role m Hm)).
Qed.

End ModelStore.

(* ===================================================================== *)
(** * More on loops over a block *)
(* ===================================================================== *)

Section BufferMore.
Context {F : Type} `{FloatOps F}.
Local Abbreviation AudioBuffer := (Juce.AudioBuffer F).
Implicit Types (b : AudioBuffer).

Lemma for_range_invariant {S : Type} (P : S -> Prop) n
    (body : nat -> S -> S) (s : S) :
  (forall i x, i < n -> P x -> P (body i x)) -> P s -> P (for_range n body s).
Proof.
  intros Hbody Hs. induction n as [|n IH]; [done|].
  rewrite for_range_S. apply Hbody; [lia|]. apply IH.
  intros i x Hi. apply Hbody. lia.
Qed.

Lemma getNumChannels_setSample b ch i v :
  getNumChannels (setSample b ch i v) = getNumChannels b.
Proof. unfold getNumChannels, setSample. apply length_alter. Qed.

Lemma getNumSamples_setSample b ch i v :
  getNumSamples (setSample b ch i v) = getNumSamples b.
Proof.
  unfold getNumSamples, setSample. destruct b as [|c rest]; [done|].
  destruct ch as [|ch]; cbn; [apply length_insert|done].
Qed.

Lemma sample_at_is_Some b ch i :
  ch < getNumChannels b -> i < getNumSamples b ->
  Forall (fun c => length c = getNumSamples b) b ->
  is_Some (sample_at b ch i).
Proof.
  intros Hch Hi Hrect. unfold sample_at.
  destruct (lookup_lt_is_Some_2 b ch Hch) as [c Hc]. rewrite Hc. cbn.
  apply lookup_lt_is_Some_2. rewrite Forall_forall in Hrect.
  rewrite (Hrect c) by (by eapply list_elem_of_lookup_2). done.
Qed.

(** Two blocks with the same samples are the same block. *)
Lemma buffer_eq b1 b2 :
  length b1 = length b2 ->
  (forall ch i, sample_at b1 ch i = sample_at b2 ch i) ->
  b1 = b2.
Proof.
  intros Hlen Hs. apply list_eq. intros ch.
  destruct (b2 !! ch) as [c2|] eqn:E2.
  - destruct (lookup_lt_is_Some_2 b1 ch) as [c1 E1].
    { rewrite Hlen. by eapply lookup_lt_Some. }
    rewrite E1. f_equal. apply list_eq. intros i.
    specialize (Hs ch i). unfold sample_at in Hs. by rewrite E1, E2 in Hs.
  - apply lookup_ge_None_2. rewrite Hlen. by apply lookup_ge_None_1.
Qed.

(** A loop over the samples that rewrites channels [0] and [1] at index
    [i] from the two samples it finds there. *)
Lemma sample_at_stereo_loop (fL fR : F -> F -> F) n b ch i :
  sample_at
    (for_range n
       (fun i d =>
          setSample
            (setSample d 0 i (fL (getSample d 0 i) (getSample d 1 i)))
            1 i (fR (getSample d 0 i) (getSample d 1 i)))
       b)
    ch i
  = if decide (i < n /\ ch < 2)
    then (fun _ =>
            (if decide (ch = 0) then fL else fR)
              (getSample b 0 i) (getSample b 1 i))
         <$> sample_at b ch i
    else sample_at b ch i.
Proof.
  induction n as [|n IH].
  - rewrite for_range_0. rewrite decide_False; [done|lia].
  - rewrite for_range_S.
    set (d := for_range n _ b) in *.
    assert (forall c, getSample d c n = getSample b c n) as Hread.
    { intros c. rewrite !getSample_sample_at. f_equal.
      clear IH. subst d.
      assert (forall m k,
                m <= k ->
                sample_at
                  (for_range m
                     (fun i d =>
                        setSample
                          (setSample d 0 i
                             (fL (getSample d 0 i) (getSample d 1 i)))
                          1 i (fR (getSample d 0 i) (getSample d 1 i)))
                     b) c k
                = sample_at b c k) as Hkeep.
      { induction m as [|m IHm]; intros k Hk; [done|].
        rewrite for_range_S, !sample_at_setSample.
        rewrite !decide_False by lia. apply IHm. lia. }
      by apply Hkeep. }
    rewrite !sample_at_setSample, !Hread, IH.
    destruct (decide (1 = ch /\ n = i)) as [[<- <-]|Hne1].
    + rewrite (decide_False (P := n < n /\ 1 < 2)) by lia.
      rewrite (decide_True (P := n < S n /\ 1 < 2)) by lia.
      rewrite (decide_False (P := 0 = 1 /\ n = n)) by lia.
      by rewrite (decide_False (P := 1 = 0)) by lia.
    + destruct (decide (0 = ch /\ n = i)) as [[<- <-]|Hne0].
      * rewrite (decide_False (P := n < n /\ 0 < 2)) by lia.
        rewrite (decide_True (P := n < S n /\ 0 < 2)) by lia.
        by rewrite (decide_True (P := 0 = 0)) by lia.
      * destruct (decide (i < n /\ ch < 2)) as [[Hi Hc]|Hn].
        -- by rewrite (decide_True (P := i < S n /\ ch < 2)) by lia.
        -- rewrite (decide_False (P := i < S n /\ ch < 2)); [done|].
           intros [Hi Hc].
           destruct (decide (i = n)) as [->|]; [|lia].
           destruct ch as [|[|ch]]; [by apply Hne0|by apply Hne1|lia].
Qed.

End BufferMore.

(* ===================================================================== *)
(** * The other modules of [DSPModules.h], in exact arithmetic *)
(* ===================================================================== *)

Section DSPMoreExact.
Context `{JuceDsp R R} `{!DSPMore.JuceDspMore R R}.
Local Open Scope R_scope.
Local Abbreviation AudioBuffer := (Juce.AudioBuffer R).
Implicit Types (buffer : AudioBuffer).

Lemma jlimit_between (lo hi v : R) : lo <= hi -> lo <= jlimit lo hi v <= hi.
Proof.
  intros Hle. rewrite jlimit_Rmax_Rmin by done. unfold Rmax, Rmin.
  repeat first [destruct (Rlt_dec _ _) | destruct (Rle_dec _ _)]; lra.
Qed.

Lemma jlimit_inside (lo hi v : R) : lo <= v <= hi -> jlimit lo hi v = v.
Proof.
  intros Hv. rewrite jlimit_Rmax_Rmin by lra. unfold Rmax, Rmin.
  repeat first [destruct (Rlt_dec _ _) | destruct (Rle_dec _ _)]; lra.
Qed.

(** ** The transient shaper *)

Lemma transientGain_bounds (ts : DSPMore.TransientShaper R R) (level : R) :
  1 / 10 <= (DSPMore.TransientShaper_follow ts level).2 <= 4.
Proof.
  unfold DSPMore.TransientShaper_follow. cbn [snd].
  unfold DSPMore.MIN_GAIN, DSPMore.MAX_GAIN.
  replace (f_lit (1 # 10)) with (1 / 10) by (cbn; unfold Q2R; cbn; lra).
  replace (f_lit 4) with 4 by (cbn; unfold Q2R; cbn; lra).
  apply jlimit_between. lra.
Qed.

Lemma transientGain_neutral (ts : DSPMore.TransientShaper R R) (level : R) :
  DSPMore.attackAmount ts = 0 -> DSPMore.sustainAmount ts = 0 ->
  (DSPMore.TransientShaper_follow ts level).2 = 1
  /\ DSPMore.attackAmount (DSPMore.TransientShaper_follow ts level).1 = 0
  /\ DSPMore.sustainAmount (DSPMore.TransientShaper_follow ts level).1 = 0.
Proof.
  intros Ha Hs. unfold DSPMore.TransientShaper_follow. cbn [fst snd].
  split; [|done]. rewrite Ha, Hs.
  unfold DSPMore.MIN_GAIN, DSPMore.MAX_GAIN.
  replace (f_lit (1 # 10)) with (1 / 10) by (cbn; unfold Q2R; cbn; lra).
  replace (f_lit 4) with 4 by (cbn; unfold Q2R; cbn; lra).
  replace (f_lit 1) with 1 by (cbn; unfold Q2R; cbn; lra).
  match goal with |- jlimit _ _ ?v = _ => assert (v = 1) as -> end.
  { destruct (f_ltb (f_lit 0) _); cbn [f_add f_mul R_ops]; ring. }
  apply jlimit_inside. lra.
Qed.

(** The loop of [process] after [n] samples: every sample with an index
    below [n] has been scaled by the gain computed at its index. *)
Lemma TransientShaper_loop (ts : DSPMore.TransientShaper R R) buffer nch n :
  exists g : nat -> R,
    (forall i, 1 / 10 <= g i <= 4)
    /\ forall ch i,
         sample_at
           (for_range n (DSPMore.TransientShaper_sample nch) (ts, buffer)).2
           ch i
         = if decide (ch < nch /\ i < n)%nat
           then (fun x => x * g i) <$> sample_at buffer ch i
           else sample_at buffer ch i.
Proof.
  induction n as [|n (g & Hg & Hs)].
  - exists (fun _ => 1). split; [intros; lra|]. intros ch i.
    rewrite for_range_0. rewrite decide_False; [done|lia].
  - rewrite for_range_S.
    destruct (for_range n (DSPMore.TransientShaper_sample nch) (ts, buffer))
      as [ts1 b1]. cbn [snd] in Hs.
    unfold DSPMore.TransientShaper_sample.
    pose proof (transientGain_bounds ts1 (DSPMore.inputLevel_at b1 nch n))
      as Hb.
    destruct (DSPMore.TransientShaper_follow ts1
                (DSPMore.inputLevel_at b1 nch n)) as [ts2 gain].
    cbn [snd] in *.
    exists (fun i => if decide (i = n) then gain else g i). split.
    + intros i. destruct (decide (i = n)); [done|apply Hg].
    + intros ch i.
      rewrite (sample_at_index_loop (fun _ x => f_mul x gain) n nch b1 ch i).
      rewrite Hs.
      destruct (decide (ch < nch /\ n = i)%nat) as [[Hc <-]|Hne].
      * rewrite (decide_False (P := (ch < nch /\ n < n)%nat)) by lia.
        rewrite (decide_True (P := (ch < nch /\ n < S n)%nat)) by lia.
        rewrite decide_True by done. done.
      * destruct (decide (ch < nch /\ i < n)%nat) as [[Hc Hi]|Hn].
        -- rewrite (decide_True (P := (ch < nch /\ i < S n)%nat)) by lia.
           by rewrite decide_False by lia.
        -- rewrite (decide_False (P := (ch < nch /\ i < S n)%nat)); [done|].
           intros [Hc Hi]. destruct (decide (i = n)) as [->|]; [|lia].
           by apply Hne.
Qed.

(** X10.  [TransientShaper::process]: every sample of the block is
    multiplied by a gain between [0.1] and [4.0], the same for all channels
    at one sample index; whatever the settings and the signal, a sample is
    neither silenced nor raised by more than a factor of four. *)
Theorem TransientShaper_gain_is_bounded (ts : DSPMore.TransientShaper R R) buffer :
  exists g : nat -> R,
    (forall i, 1 / 10 <= g i <= 4)
    /\ forall ch i x,
         (i < getNumSamples buffer)%nat ->
         sample_at buffer ch i = Some x ->
         sample_at (DSPMore.TransientShaper_process ts buffer).2 ch i
         = Some (x * g i)
         /\ Rabs x / 10 <= Rabs (x * g i) <= 4 * Rabs x.
Proof.
  destruct (TransientShaper_loop ts buffer (getNumChannels buffer)
              (getNumSamples buffer)) as (g & Hg & Hs).
  exists g. split; [done|]. intros ch i x Hi Hx.
  unfold DSPMore.TransientShaper_process. rewrite Hs.
  rewrite decide_True by (split; [by eapply sample_at_lt_channels|done]).
  rewrite Hx. split; [done|].
  rewrite Rabs_mult. rewrite (Rabs_pos_eq (g i)) by (specialize (Hg i); lra).
  pose proof (Rabs_pos x). specialize (Hg i). nra.
Qed.

(** X11.  With the attack and sustain amounts at zero, as the constructor
    sets them, [TransientShaper::process] gives back every block
    unchanged. *)
Theorem TransientShaper_neutral_is_identity (ts : DSPMore.TransientShaper R R)
    buffer :
  DSPMore.attackAmount ts = 0 -> DSPMore.sustainAmount ts = 0 ->
  (DSPMore.TransientShaper_process ts buffer).2 = buffer.
Proof.
  intros Ha Hs. unfold DSPMore.TransientShaper_process.
  generalize (getNumChannels buffer). intros nch.
  generalize (getNumSamples buffer). intros n.
  assert (DSPMore.attackAmount
            (for_range n (DSPMore.TransientShaper_sample nch) (ts, buffer)).1
          = 0
          /\ DSPMore.sustainAmount
               (for_range n (DSPMore.TransientShaper_sample nch)
                  (ts, buffer)).1 = 0
          /\ (for_range n (DSPMore.TransientShaper_sample nch) (ts, buffer)).2
             = buffer) as (_ & _ & Hb); [|done].
  induction n as [|n (Ha' & Hs' & Hb)]; [done|].
  rewrite for_range_S.
  destruct (for_range n (DSPMore.TransientShaper_sample nch) (ts, buffer))
    as [ts1 b1]. cbn [fst snd] in *. subst b1.
  unfold DSPMore.TransientShaper_sample.
  destruct (transientGain_neutral ts1 (DSPMore.inputLevel_at buffer nch n)
              Ha' Hs') as (Hg & Ha2 & Hs2).
  destruct (DSPMore.TransientShaper_follow ts1
              (DSPMore.inputLevel_at buffer nch n)) as [ts2 gain].
  cbn [fst snd] in *. subst gain.
  split; [done|split; [done|]].
  apply for_range_id. intros ch b. cbn [f_mul R_ops].
  rewrite Rmult_1_r. apply setSample_getSample.
Qed.

(** ** The limiter *)

Lemma applyCeiling_setSample c ch i (data : AudioBuffer) :
  DSPMore.applyCeiling c ch i data
  = setSample data ch i (ceil_clamp c (getSample data ch i)).
Proof.
  unfold DSPMore.applyCeiling, ceil_clamp. cbn [f_ltb f_neg R_ops R_cmp].
  destruct (R_ltb c (getSample data ch i)); [done|].
  destruct (R_ltb (getSample data ch i) (- c)); [done|].
  by rewrite setSample_getSample.
Qed.

Lemma ceil_clamp_bound c x : 0 <= c -> Rabs (ceil_clamp c x) <= c.
Proof.
  intros Hc. unfold ceil_clamp, R_ltb.
  destruct (Rlt_dec c x); [rewrite Rabs_pos_eq; lra|].
  destruct (Rlt_dec x (- c)); [rewrite Rabs_Ropp, Rabs_pos_eq; lra|].
  apply Rabs_le. lra.
Qed.

Lemma dBToGain_le_1 (dB : R) : dB <= 0 -> dBToGain dB <= 1.
Proof.
  intros Hd. unfold dBToGain. cbn. unfold Rpower.
  replace (Q2R 10) with 10 by (unfold Q2R; cbn; lra).
  replace (Q2R 20) with 20 by (unfold Q2R; cbn; lra).
  rewrite <- exp_0.
  destruct (Req_dec dB 0) as [->|Hne].
  - right. f_equal. lra.
  - left. apply exp_increasing.
    assert (0 < ln 10) by (rewrite <- ln_1; apply ln_increasing; lra).
    nra.
Qed.

Lemma Limiter_process_samples (l : DSPMore.Limiter) buffer ch i :
  let limited := (DSPMore.limiter_process (DSPMore.limiter l) buffer).2 in
  sample_at (DSPMore.Limiter_process l buffer).2 ch i
  = if decide ((ch < getNumChannels limited)%nat
               /\ (i < getNumSamples limited)%nat)
    then ceil_clamp (dBToGain (DSPMore.ceiling l)) <$> sample_at limited ch i
    else sample_at limited ch i.
Proof.
  intros limited. subst limited. unfold DSPMore.Limiter_process.
  destruct (DSPMore.limiter_process (DSPMore.limiter l) buffer)
    as [dsp limited]. cbn [snd].
  rewrite <- (sample_at_channel_major
                (fun _ _ x => ceil_clamp (dBToGain (DSPMore.ceiling l)) x)).
  f_equal. apply for_range_ext. intros c x _.
  apply for_range_ext. intros j d _. apply applyCeiling_setSample.
Qed.

Lemma Limiter_process_shape (l : DSPMore.Limiter) buffer :
  let limited := (DSPMore.limiter_process (DSPMore.limiter l) buffer).2 in
  getNumChannels (DSPMore.Limiter_process l buffer).2 = getNumChannels limited
  /\ getNumSamples (DSPMore.Limiter_process l buffer).2 = getNumSamples limited.
Proof.
  intros limited. subst limited. unfold DSPMore.Limiter_process.
  destruct (DSPMore.limiter_process (DSPMore.limiter l) buffer)
    as [dsp limited]. cbn [snd].
  apply (for_range_invariant
           (fun b : AudioBuffer =>
              getNumChannels b = getNumChannels limited
              /\ getNumSamples b = getNumSamples limited)); [|done].
  intros c b _ Hb.
  apply (for_range_invariant
           (fun b : AudioBuffer =>
              getNumChannels b = getNumChannels limited
              /\ getNumSamples b = getNumSamples limited)); [|done].
  intros j d _ [Hd1 Hd2]. rewrite applyCeiling_setSample.
  by rewrite getNumChannels_setSample, getNumSamples_setSample.
Qed.

(** X12.  [Limiter::process]: whatever the JUCE limiter puts out, every
    sample of the block ends within the ceiling, [|x| <= dBToGain
    (ceiling)]; after [setCeiling], and with the ceiling of the
    constructor, that bound is at most [1.0], full scale. *)
Theorem Limiter_holds_the_ceiling (l : DSPMore.Limiter) buffer :
  (forall ch i y,
     (i < getNumSamples (DSPMore.Limiter_process l buffer).2)%nat ->
     sample_at (DSPMore.Limiter_process l buffer).2 ch i = Some y ->
     Rabs y <= dBToGain (DSPMore.ceiling l))
  /\ (forall dB,
        0 < dBToGain (DSPMore.ceiling (DSPMore.Limiter_setCeiling dB l)) <= 1)
  /\ (forall dsp, 0 < dBToGain (DSPMore.ceiling (DSPMore.Limiter_new dsp)) <= 1).
Proof.
  split; [|split].
  - intros ch i y Hi Hy.
    destruct (Limiter_process_shape l buffer) as [Hc Hn]. cbn zeta in Hc, Hn.
    assert (ch < getNumChannels (DSPMore.Limiter_process l buffer).2)%nat
      as Hch by (by eapply sample_at_lt_channels).
    rewrite Limiter_process_samples in Hy. cbn zeta in Hy.
    rewrite decide_True in Hy by (split; [by rewrite <- Hc|by rewrite <- Hn]).
    destruct (sample_at _ ch i) as [x|]; [|done].
    injection Hy as <-. apply ceil_clamp_bound.
    left. apply dBToGain_pos.
  - intros dB. split; [apply dBToGain_pos|]. apply dBToGain_le_1.
    unfold DSPMore.Limiter_setCeiling. cbn [DSPMore.ceiling].
    replace (f_lit (-12)) with (-12) by (cbn; unfold Q2R; cbn; lra).
    replace (f_lit 0) with 0 by (cbn; unfold Q2R; cbn; lra).
    apply jlimit_between. lra.
  - intros dsp. split; [apply dBToGain_pos|]. apply dBToGain_le_1.
    cbn. unfold Q2R. cbn. lra.
Qed.

(** ** The stereo widener and the stereo imager: mid and side *)

Lemma StereoImager_process_samples (s : Cinematic.StereoImager) buffer n
    i l r :
  (i < n)%nat ->
  sample_at buffer 0 i = Some l ->
  sample_at buffer 1 i = Some r ->
  let mid := (l + r) * / 2 in
  let side := (l - r) * / 2 * Cinematic.stereoWidth s in
  sample_at (Cinematic.StereoImager_process s buffer n) 0 i = Some (mid + side)
  /\ sample_at (Cinematic.StereoImager_process s buffer n) 1 i
     = Some (mid - side).
Proof.
  intros Hi Hl Hr mid side. unfold Cinematic.StereoImager_process.
  assert ((getNumChannels buffer <? 2)%nat = false) as ->.
  { apply Nat.ltb_ge. apply sample_at_lt_channels in Hr. lia. }
  pose proof (sample_at_stereo_loop
                (fun l r =>
                   (l + r) * Q2R (1 # 2)
                   + (l - r) * Q2R (1 # 2) * Cinematic.stereoWidth s)
                (fun l r =>
                   (l + r) * Q2R (1 # 2)
                   - (l - r) * Q2R (1 # 2) * Cinematic.stereoWidth s)
                n buffer) as Hloop.
  change (for_range n (Cinematic.StereoImager_sample s) buffer)
    with (for_range n
            (fun i d =>
               setSample
                 (setSample d 0 i
                    ((getSample d 0 i + getSample d 1 i) * Q2R (1 # 2)
                     + (getSample d 0 i - getSample d 1 i) * Q2R (1 # 2)
                       * Cinematic.stereoWidth s))
                 1 i
                 ((getSample d 0 i + getSample d 1 i) * Q2R (1 # 2)
                  - (getSample d 0 i - getSample d 1 i) * Q2R (1 # 2)
                    * Cinematic.stereoWidth s))
            buffer).
  rewrite !Hloop. rewrite !decide_True by lia.
  rewrite (getSample_Some buffer 0 i l Hl), (getSample_Some buffer 1 i r Hr).
  rewrite Hl, Hr. cbn. rewrite Q2R_half. done.
Qed.

Lemma StereoWidener_process_samples (s : DSPModules.StereoWidener) buffer
    i l r :
  (i < getNumSamples buffer)%nat ->
  sample_at buffer 0 i = Some l ->
  sample_at buffer 1 i = Some r ->
  let mid := (l + r) * / 2 in
  let side := (l - r) * / 2 * DSPModules.width s in
  sample_at (DSPModules.StereoWidener_process s buffer) 0 i
  = Some ((mid + side) * DSPModules.outputGain s)
  /\ sample_at (DSPModules.StereoWidener_process s buffer) 1 i
     = Some ((mid - side) * DSPModules.outputGain s).
Proof.
  intros Hi Hl Hr mid side. unfold DSPModules.StereoWidener_process.
  assert ((getNumChannels buffer <? 2)%nat = false) as ->.
  { apply Nat.ltb_ge. apply sample_at_lt_channels in Hr. lia. }
  pose proof (sample_at_stereo_loop
                (fun l r =>
                   ((l + r) * Q2R (1 # 2)
                    + (l - r) * Q2R (1 # 2) * DSPModules.width s)
                   * DSPModules.outputGain s)
                (fun l r =>
                   ((l + r) * Q2R (1 # 2)
                    - (l - r) * Q2R (1 # 2) * DSPModules.width s)
                   * DSPModules.outputGain s)
                (getNumSamples buffer) buffer) as Hloop.
  change (for_range (getNumSamples buffer)
            (DSPModules.StereoWidener_sample s) buffer)
    with (for_range (getNumSamples buffer)
            (fun i d =>
               setSample
                 (setSample d 0 i
                    (((getSample d 0 i + getSample d 1 i) * Q2R (1 # 2)
                      + (getSample d 0 i - getSample d 1 i) * Q2R (1 # 2)
                        * DSPModules.width s)
                     * DSPModules.outputGain s))
                 1 i
                 (((getSample d 0 i + getSample d 1 i) * Q2R (1 # 2)
                   - (getSample d 0 i - getSample d 1 i) * Q2R (1 # 2)
                     * DSPModules.width s)
                  * DSPModules.outputGain s))
            buffer).
  rewrite !Hloop. rewrite !decide_True by lia.
  rewrite (getSample_Some buffer 0 i l Hl), (getSample_Some buffer 1 i r Hr).
  rewrite Hl, Hr. cbn. rewrite Q2R_half. done.
Qed.

(** X13.  The stereo imager and the stereo widener keep the sum of the two
    channels and scale their difference by the width: with [L'], [R'] the
    output for [L], [R], [L' + R' = L + R] and [L' - R' = width * (L - R)]
    (both times the output gain for the widener).  At width [0] the two
    output channels are equal. *)
Theorem width_scales_the_side_only :
  (forall (s : Cinematic.StereoImager) buffer n i l r,
     (i < n)%nat ->
     sample_at buffer 0 i = Some l ->
     sample_at buffer 1 i = Some r ->
     let out := Cinematic.StereoImager_process s buffer n in
     let l' := getSample out 0 i in
     let r' := getSample out 1 i in
     l' + r' = l + r
     /\ l' - r' = Cinematic.stereoWidth s * (l - r)
     /\ (Cinematic.stereoWidth s = 0 -> l' = r'))
  /\ (forall (s : DSPModules.StereoWidener) buffer i l r,
        (i < getNumSamples buffer)%nat ->
        sample_at buffer 0 i = Some l ->
        sample_at buffer 1 i = Some r ->
        let out := DSPModules.StereoWidener_process s buffer in
        let l' := getSample out 0 i in
        let r' := getSample out 1 i in
        l' + r' = (l + r) * DSPModules.outputGain s
        /\ l' - r' = DSPModules.width s * (l - r) * DSPModules.outputGain s
        /\ (DSPModules.width s = 0 -> l' = r')).
Proof.
  split.
  - intros s buffer n i l r Hi Hl Hr out l' r'.
    destruct (StereoImager_process_samples s buffer n i l r Hi Hl Hr)
      as [HL HR]. cbn zeta in HL, HR.
    subst l' r' out.
    rewrite (getSample_Some _ 0 i _ HL), (getSample_Some _ 1 i _ HR).
    split; [lra|split; [lra|]]. intros ->. lra.
  - intros s buffer i l r Hi Hl Hr out l' r'.
    destruct (StereoWidener_process_samples s buffer i l r Hi Hl Hr)
      as [HL HR]. cbn zeta in HL, HR.
    subst l' r' out.
    rewrite (getSample_Some _ 0 i _ HL), (getSample_Some _ 1 i _ HR).
    split; [lra|split; [lra|]]. intros ->. lra.
Qed.

(** ** The epic space reverb: the dry path *)

(** X14.  With the wet/dry mix at [0], [EpicSpaceReverb::process] gives
    back every block unchanged, whatever the pre-delay, the early
    reflections and the reverb put into the wet buffer; [setWetDryMix (0)]
    sets that mix. *)
Theorem EpicSpaceReverb_mix_zero_is_dry (r : DSPModules.EpicSpaceReverb)
    buffer :
  DSPModules.wetDryMix r = 0 ->
  (DSPModules.EpicSpaceReverb_process r buffer).2 = buffer.
Proof.
  intros Hmix. unfold DSPModules.EpicSpaceReverb_process.
  destruct (DSPModules.EpicSpaceReverb_preDelay r buffer) as [pre wet1].
  destruct (if f_ltb (f_lit 0) (DSPModules.earlyReflections r) then _ else _)
    as [ers wet2].
  destruct (reverb_process (DSPModules.reverb r) wet2) as [rev wet3].
  destruct (process_block iir_processSample (DSPModules.dampingFilter r) wet3)
    as [damp wet4].
  cbn [snd]. apply for_range_id. intros ch b.
  apply for_range_id. intros i d. rewrite Hmix. cbn.
  rewrite Q2R_1.
  replace (getSample d ch i * (1 - 0) + _ * 0) with (getSample d ch i) by lra.
  apply setSample_getSample.
Qed.

Lemma setWetDryMix_zero (r : DSPModules.EpicSpaceReverb) :
  DSPModules.wetDryMix (DSPMore.EpicSpaceReverb_setWetDryMix (f_lit 0) r) = 0.
Proof.
  unfold DSPMore.EpicSpaceReverb_setWetDryMix. cbn [DSPModules.wetDryMix].
  replace (f_lit 0) with 0 by (cbn; unfold Q2R; cbn; lra).
  replace (f_lit 1) with 1 by (cbn; unfold Q2R; cbn; lra).
  apply jlimit_inside. lra.
Qed.

End DSPMoreExact.

(* ===================================================================== *)
(** * The PTH vocal clone, in exact arithmetic *)
(* ===================================================================== *)

Section PTHExact.
Context `{JuceDsp R R} `{!DSPMore.JuceDspMore R R}.
Local Open Scope R_scope.
Local Abbreviation AudioBuffer := (Juce.AudioBuffer R).
Implicit Types (buffer : AudioBuffer) (p : DSPMore.PTHVocalClone).

Lemma clamp_between (lo hi v : R) : lo <= hi -> lo <= jlimit lo hi v <= hi.
Proof.
  intros Hle. rewrite jlimit_Rmax_Rmin by done. unfold Rmax, Rmin.
  repeat first [destruct (Rlt_dec _ _) | destruct (Rle_dec _ _)]; lra.
Qed.

Lemma driftAmount_bounds p i :
  0 <= DSPMore.pitchDrift p <= 1 ->
  - (1 / 100) <= DSPMore.driftAmount p i <= 1 / 100.
Proof.
  intros Hd. unfold DSPMore.driftAmount, DSPMore.DRIFT_FREQUENCY_FACTOR,
    DSPMore.DRIFT_AMPLITUDE_FACTOR.
  cbn [f_mul f_sin f_of_int f_lit R_ops R_libm_more].
  replace (Q2R (1 # 100)) with (1 / 100) by (unfold Q2R; cbn; lra).
  set (s := sin _). assert (-1 <= s <= 1) as Hs by apply SIN_bound.
  nra.
Qed.

Lemma PTHVocalClone_process_samples p buffer ch i :
  let filtered :=
    (process_block iir_processSample (DSPMore.formantFilter p)
       (process_block iir_processSample (DSPMore.brightnessFilter p)
          buffer).2).2 in
  sample_at (DSPMore.PTHVocalClone_process p buffer).2 ch i
  = if decide ((ch < getNumChannels filtered)%nat
               /\ (i < getNumSamples buffer)%nat)
    then (fun x => x * (1 + DSPMore.driftAmount p i))
         <$> sample_at filtered ch i
    else sample_at filtered ch i.
Proof.
  intros filtered. subst filtered. unfold DSPMore.PTHVocalClone_process.
  destruct (process_block iir_processSample (DSPMore.brightnessFilter p)
              buffer) as [bf b1]. cbn [snd].
  destruct (process_block iir_processSample (DSPMore.formantFilter p) b1)
    as [ff b2]. cbn [snd].
  rewrite <- (sample_at_channel_major
                (fun _ i x => x * (1 + DSPMore.driftAmount p i))).
  f_equal. apply for_range_ext. intros c b _.
  apply for_range_ext. intros j d _.
  cbn [f_mul f_add f_lit R_ops].
  replace (Q2R 1) with 1 by (unfold Q2R; cbn; lra). done.
Qed.

(** X15.  [PTHVocalClone::process]: after the two filters every sample is
    multiplied by [1 + sin (i / 1000) * pitchDrift / 100]; with the drift
    amount within [0 .. 1], as the constructor and [setPitchDrift] leave
    it, that factor lies between [0.99] and [1.01]: the drift changes no
    sample by more than one percent. *)
Theorem PTHVocalClone_drift_is_within_one_percent p buffer ch i x :
  0 <= DSPMore.pitchDrift p <= 1 ->
  (i < getNumSamples buffer)%nat ->
  sample_at
    (process_block iir_processSample (DSPMore.formantFilter p)
       (process_block iir_processSample (DSPMore.brightnessFilter p)
          buffer).2).2 ch i = Some x ->
  exists g,
    99 / 100 <= g <= 101 / 100
    /\ sample_at (DSPMore.PTHVocalClone_process p buffer).2 ch i
       = Some (x * g)
    /\ Rabs (x * g - x) <= Rabs x / 100.
Proof.
  intros Hd Hi Hx. exists (1 + DSPMore.driftAmount p i).
  pose proof (driftAmount_bounds p i Hd) as Hb.
  split; [lra|]. split.
  - rewrite PTHVocalClone_process_samples. cbn zeta. rewrite Hx.
    case_decide as Hdec; [done|]. exfalso. apply Hdec. split; [|done].
    unfold sample_at in Hx. unfold getNumChannels.
    apply lookup_lt_is_Some_1.
    destruct (_ !! ch) as [c|]; [by eexists|done].
  - replace (x * (1 + DSPMore.driftAmount p i) - x)
      with (x * DSPMore.driftAmount p i) by ring.
    rewrite Rabs_mult.
    assert (Rabs (DSPMore.driftAmount p i) <= 1 / 100) as Ha
      by (apply Rabs_le; lra).
    pose proof (Rabs_pos x). nra.
Qed.

Lemma drift_settings a bf ff p :
  0 <= DSPMore.pitchDrift (DSPMore.PTHVocalClone_setPitchDrift a p) <= 1
  /\ 0 <= DSPMore.pitchDrift (DSPMore.PTHVocalClone_new bf ff) <= 1.
Proof.
  cbn [DSPMore.pitchDrift DSPMore.PTHVocalClone_setPitchDrift
       DSPMore.PTHVocalClone_new]. split.
  - replace (f_lit 0 : R) with 0 by (cbn; unfold Q2R; cbn; lra).
    replace (f_lit 1 : R) with 1 by (cbn; unfold Q2R; cbn; lra).
    apply clamp_between. lra.
  - cbn. unfold Q2R. cbn. lra.
Qed.

Lemma Forall_insert_in_range (P : R -> Prop) (l : list R) k v :
  Forall P l -> P v -> Forall P (<[k := v]> l).
Proof. intros Hl Hv. by apply Forall_insert. Qed.

(** X16.  The harmony settings: the two arrays keep four entries, the
    intervals within two octaves and the levels within [0 .. 1], from the
    constructor on and through [setHarmonyVoice], [setHarmonyLevel] and
    [setHarmonyMode]; a voice index outside [0 .. 3] changes nothing, one
    inside reads back the value limited to the range, and the modes other
    than [Custom] set the first two voices and leave the other two. *)
Theorem harmony_settings_stay_in_range :
  (forall bf ff, harmony_in_range (DSPMore.PTHVocalClone_new bf ff))
  /\ (forall p k v,
        harmony_in_range p ->
        harmony_in_range (DSPMore.setHarmonyVoice k v p)
        /\ harmony_in_range (DSPMore.setHarmonyLevel k v p))
  /\ (forall p mode,
        harmony_in_range p ->
        harmony_in_range (DSPMore.setHarmonyMode mode p)
        /\ (forall j, (2 <= j)%nat ->
              DSPMore.harmonyVoices (DSPMore.setHarmonyMode mode p) !! j
              = DSPMore.harmonyVoices p !! j))
  /\ (forall p k v,
        (k < 0 \/ 4 <= k)%Z ->
        DSPMore.setHarmonyVoice k v p = p
        /\ DSPMore.setHarmonyLevel k v p = p)
  /\ (forall p k v,
        harmony_in_range p -> (0 <= k < 4)%Z ->
        DSPMore.harmonyVoices (DSPMore.setHarmonyVoice k v p) !! Z.to_nat k
        = Some (jlimit (-24) 24 v)
        /\ DSPMore.harmonyLevels (DSPMore.setHarmonyLevel k v p) !! Z.to_nat k
           = Some (jlimit 0 1 v)).
Proof.
  assert (f_lit (-24) = -24 :> R) as Hm24 by (cbn; unfold Q2R; cbn; lra).
  assert (f_lit 24 = 24 :> R) as H24 by (cbn; unfold Q2R; cbn; lra).
  assert (f_lit 0 = 0 :> R) as Hl0 by (cbn; unfold Q2R; cbn; lra).
  assert (f_lit 1 = 1 :> R) as Hl1 by (cbn; unfold Q2R; cbn; lra).
  split; [|split; [|split; [|split]]].
  - intros bf ff. unfold harmony_in_range.
    cbn [DSPMore.PTHVocalClone_new DSPMore.harmonyVoices
         DSPMore.harmonyLevels].
    rewrite !length_replicate.
    split; [done|]. split; [|split; [done|]].
    + apply Forall_replicate. rewrite Hl0. lra.
    + apply Forall_replicate.
      replace (f_lit (1 # 2) : R) with (1 / 2)
        by (cbn; unfold Q2R; cbn; lra). lra.
  - intros p k v (Hv1 & Hv2 & Hl1' & Hl2).
    unfold DSPMore.setHarmonyVoice, DSPMore.setHarmonyLevel.
    destruct ((0 <=? k) && (k <? 4))%Z; [|done].
    unfold harmony_in_range.
    cbn [DSPMore.with_harmonyVoices DSPMore.with_harmonyLevels
         DSPMore.harmonyVoices DSPMore.harmonyLevels].
    rewrite !length_insert, Hm24, H24, Hl0, Hl1.
    repeat split; try done.
    + apply Forall_insert_in_range; [done|]. apply clamp_between. lra.
    + apply Forall_insert_in_range; [done|]. apply clamp_between. lra.
  - intros p mode (Hv1 & Hv2 & Hl1' & Hl2). split.
    + unfold harmony_in_range.
      destruct mode;
        cbn [DSPMore.setHarmonyMode DSPMore.with_harmonyVoices
             DSPMore.harmonyVoices DSPMore.harmonyLevels];
        rewrite ?length_insert; repeat split; try done;
        repeat apply Forall_insert_in_range; try done;
        cbn; unfold Q2R; cbn; lra.
    + intros j Hj.
      destruct mode;
        cbn [DSPMore.setHarmonyMode DSPMore.with_harmonyVoices
             DSPMore.harmonyVoices]; try done;
        rewrite !list_lookup_insert_ne by lia; done.
  - intros p k v Hk. unfold DSPMore.setHarmonyVoice, DSPMore.setHarmonyLevel.
    assert ((0 <=? k) && (k <? 4) = false)%Z as ->; [|done].
    apply andb_false_iff. rewrite Z.leb_gt, Z.ltb_ge. lia.
  - intros p k v (Hv1 & Hv2 & Hl1' & Hl2) Hk.
    unfold DSPMore.setHarmonyVoice, DSPMore.setHarmonyLevel.
    assert ((0 <=? k) && (k <? 4) = true)%Z as ->.
    { apply andb_true_iff. rewrite Z.leb_le, Z.ltb_lt. lia. }
    cbn [DSPMore.with_harmonyVoices DSPMore.with_harmonyLevels
         DSPMore.harmonyVoices DSPMore.harmonyLevels].
    rewrite Hm24, H24, Hl0, Hl1.
    split; apply list_lookup_insert_eq; lia.
Qed.

End PTHExact.

(* ===================================================================== *)
(** * The saturation, the normalizer and the reverb mix, in exact
      arithmetic *)
(* ===================================================================== *)

Section CinematicMoreExact.
Context `{JuceDsp R R} `{Cinematic.EnhancerStages R}.
Local Open Scope R_scope.
Local Abbreviation AudioBuffer := (Juce.AudioBuffer R).
Local Abbreviation LoudnessNormalizer := (Cinematic.LoudnessNormalizer R R).
Implicit Types (buffer : AudioBuffer).

(** ** The warm saturation *)

Lemma tanh_bounds (x : R) : -1 < tanh x < 1.
Proof.
  unfold tanh, sinh, cosh.
  pose proof (exp_pos x) as Ha. pose proof (exp_pos (- x)) as Hb.
  set (a := exp x) in *. set (b := exp (- x)) in *.
  replace ((a - b) / 2 / ((a + b) / 2)) with ((a - b) / (a + b))
    by (field; lra).
  split.
  - apply Rmult_lt_reg_r with (a + b); [lra|].
    unfold Rdiv. rewrite Rmult_assoc, Rinv_l by lra. lra.
  - apply Rmult_lt_reg_r with (a + b); [lra|].
    unfold Rdiv. rewrite Rmult_assoc, Rinv_l by lra. lra.
Qed.

Lemma WarmSaturation_process_samples (ws : CinematicMore.WarmSaturation R)
    buffer n ch i :
  sample_at (CinematicMore.WarmSaturation_process ws buffer n) ch i
  = if decide ((ch < getNumChannels buffer)%nat /\ (i < n)%nat)
    then (fun x =>
            tanh (x * (1 + CinematicMore.driveAmount ws * 10))
            * CinematicMore.outputGainLinear ws)
         <$> sample_at buffer ch i
    else sample_at buffer ch i.
Proof.
  unfold CinematicMore.WarmSaturation_process.
  rewrite <- (sample_at_channel_major
                (fun _ _ x =>
                   tanh (x * (1 + CinematicMore.driveAmount ws * 10))
                   * CinematicMore.outputGainLinear ws)).
  f_equal. apply for_range_ext. intros c b _.
  apply for_range_ext. intros j d _.
  unfold CinematicMore.saturate. cbn.
  replace (Q2R 1) with 1 by (unfold Q2R; cbn; lra).
  replace (Q2R 10) with 10 by (unfold Q2R; cbn; lra).
  done.
Qed.

(** X17.  [WarmSaturation::process]: every processed sample is
    [tanh (x * (1 + 10 * drive))] times the output gain, so its magnitude
    never exceeds the output gain; with the output gain of the constructor,
    [1.0], it never exceeds full scale, whatever the input and the drive. *)
Theorem WarmSaturation_is_bounded_by_the_output_gain
    (ws : CinematicMore.WarmSaturation R) buffer n ch i x :
  (i < n)%nat ->
  sample_at buffer ch i = Some x ->
  let y := getSample (CinematicMore.WarmSaturation_process ws buffer n) ch i in
  y = tanh (x * (1 + CinematicMore.driveAmount ws * 10))
      * CinematicMore.outputGainLinear ws
  /\ Rabs y <= Rabs (CinematicMore.outputGainLinear ws)
  /\ (CinematicMore.outputGainLinear ws = 1 -> Rabs y <= 1).
Proof.
  intros Hi Hx y. subst y.
  assert (sample_at (CinematicMore.WarmSaturation_process ws buffer n) ch i
          = Some (tanh (x * (1 + CinematicMore.driveAmount ws * 10))
                  * CinematicMore.outputGainLinear ws)) as Hy.
  { rewrite WarmSaturation_process_samples.
    rewrite decide_True by (split; [by eapply sample_at_lt_channels|done]).
    by rewrite Hx. }
  rewrite (getSample_Some _ _ _ _ Hy).
  pose proof (tanh_bounds (x * (1 + CinematicMore.driveAmount ws * 10)))
    as Ht.
  assert (Rabs (tanh (x * (1 + CinematicMore.driveAmount ws * 10))) < 1)
    as Habs by (apply Rabs_def1; lra).
  split; [done|split].
  - rewrite Rabs_mult.
    pose proof (Rabs_pos (CinematicMore.outputGainLinear ws)).
    pose proof (Rabs_pos (tanh (x * (1 + CinematicMore.driveAmount ws * 10)))).
    nra.
  - intros ->. rewrite Rmult_1_r. lra.
Qed.

(** ** The loudness normalizer over consecutive blocks *)

Lemma applyGain_one buffer : applyGain buffer 1 = buffer.
Proof.
  unfold applyGain. cbn.
  rewrite <- (map_id buffer) at 2. apply map_ext. intros c.
  rewrite <- (map_id c) at 2. apply map_ext. intros x. lra.
Qed.

Lemma samples_counted_nonneg (blocks : list AudioBuffer) :
  (0 <= CinematicMore.samples_counted blocks)%Z.
Proof.
  induction blocks as [|b rest IH]; [done|].
  change (CinematicMore.samples_counted (b :: rest))
    with (Z.of_nat (getNumSamples b) * Z.of_nat (getNumChannels b)
          + CinematicMore.samples_counted rest)%Z.
  lia.
Qed.

(** X18.  A normalizer whose gain is [1.0], as [prepare] and [reset] leave
    it, gives back every block unchanged as long as the samples it has
    counted stay below the window of 44100: for the first second of a
    44.1 kHz mono stream (half a second in stereo) nothing is normalized. *)
Theorem normalizer_idles_through_the_first_window (l : LoudnessNormalizer)
    (blocks : list AudioBuffer) :
  Cinematic.currentGain l = 1 ->
  (Cinematic.rmsSampleCount l + CinematicMore.samples_counted blocks
   < 44100)%Z ->
  (CinematicMore.normalize_blocks l blocks).2 = blocks
  /\ Cinematic.currentGain (CinematicMore.normalize_blocks l blocks).1 = 1
  /\ Cinematic.rmsSampleCount (CinematicMore.normalize_blocks l blocks).1
     = (Cinematic.rmsSampleCount l + CinematicMore.samples_counted blocks)%Z.
Proof.
  revert l. induction blocks as [|b rest IH]; intros l Hg Hc.
  - cbn. split; [done|split; [done|lia]].
  - cbn [CinematicMore.normalize_blocks CinematicMore.samples_counted
         fold_right] in *.
    pose proof (samples_counted_nonneg rest) as Hpos.
    fold (CinematicMore.samples_counted rest) in Hc.
    unfold Cinematic.LoudnessNormalizer_process.
    rewrite measure_within_window by lia.
    cbn [Cinematic.currentGain]. rewrite Hg, applyGain_one.
    set (l1 := Cinematic.mkLoudnessNormalizer _ _ _ _ _ _).
    destruct (IH l1 eq_refl) as (Hout & Hgain & Hcount).
    { subst l1. cbn [Cinematic.rmsSampleCount].
      fold (CinematicMore.samples_counted rest). lia. }
    subst l1. cbn [Cinematic.rmsSampleCount] in Hcount.
    destruct (CinematicMore.normalize_blocks _ rest) as [l2 outs].
    cbn [fst snd] in *. subst outs.
    split; [done|split; [done|]].
    rewrite Hcount. fold (CinematicMore.samples_counted rest). lia.
Qed.

Lemma prepare_sets_unit_gain sampleRate (l : LoudnessNormalizer) :
  Cinematic.currentGain (CinematicMore.LoudnessNormalizer_prepare sampleRate l)
  = 1
  /\ Cinematic.rmsSampleCount
       (CinematicMore.LoudnessNormalizer_prepare sampleRate l) = 0%Z.
Proof. cbn. split; [apply Q2R_1|done]. Qed.

Lemma gain_floor_below_one : gain_floor <= 1 <= gain_ceiling.
Proof.
  unfold gain_floor, gain_ceiling. split.
  - apply Rle_trans with (Rpower 10 0); [apply Rle_Rpower; lra|].
    rewrite Rpower_O; lra.
  - apply Rle_trans with (Rpower 10 0); [|apply Rle_Rpower; lra].
    rewrite Rpower_O; lra.
Qed.

Lemma target_gain_range (delta : R) :
  -12 <= delta <= 12 ->
  gain_floor <= Rpower 10 (delta / 20) <= gain_ceiling.
Proof.
  intros Hd. unfold gain_floor, gain_ceiling.
  split; apply Rle_Rpower; lra.
Qed.

Lemma process_keeps_gain_range (l : LoudnessNormalizer) buffer n :
  gain_floor <= Cinematic.currentGain l <= gain_ceiling ->
  gain_floor
  <= Cinematic.currentGain (Cinematic.LoudnessNormalizer_process l buffer n).1
  <= gain_ceiling.
Proof.
  intros Hg. unfold Cinematic.LoudnessNormalizer_process. cbn [fst].
  destruct (Z_lt_le_dec
              (Cinematic.rmsSampleCount l
               + Z.of_nat n * Z.of_nat (getNumChannels buffer)) 44100)
    as [Hlt|Hge].
  - by rewrite measure_within_window.
  - rewrite measure_window_complete by done. cbn zeta.
    cbn [Cinematic.currentGain].
    match goal with
    | |- _ <= _ + Rpower 10 (?d / 20) * _ <= _ =>
        pose proof (target_gain_range d) as Ht
    end.
    match type of Ht with
    | ?P -> _ =>
        assert P as HP;
        [unfold Rmax, Rmin;
         repeat first [destruct (Rlt_dec _ _) | destruct (Rle_dec _ _)]; lra|]
    end.
    specialize (Ht HP). lra.
Qed.

(** X19.  The gain of the normalizer never leaves the range of 12 dB down
    to 12 dB up, [10^(-12/20) .. 10^(12/20)]: it starts at [1.0] and every
    update moves it a tenth of the way towards a target inside that range.
    So, over any sequence of blocks, no sample is raised by more than
    12 dB. *)
Theorem normalizer_gain_stays_within_12_dB (l : LoudnessNormalizer)
    (blocks : list AudioBuffer) :
  gain_floor <= Cinematic.currentGain l <= gain_ceiling ->
  gain_floor
  <= Cinematic.currentGain (CinematicMore.normalize_blocks l blocks).1
  <= gain_ceiling
  /\ (forall buffer n ch i x,
        sample_at buffer ch i = Some x ->
        let y :=
          getSample (Cinematic.LoudnessNormalizer_process l buffer n).2 ch i in
        Rabs y <= gain_ceiling * Rabs x).
Proof.
  intros Hg. split.
  - revert l Hg. induction blocks as [|b rest IH]; intros l Hg; [done|].
    cbn [CinematicMore.normalize_blocks].
    pose proof (process_keeps_gain_range l b (getNumSamples b) Hg) as Hstep.
    destruct (Cinematic.LoudnessNormalizer_process l b (getNumSamples b))
      as [l1 out]. cbn [fst] in Hstep.
    specialize (IH l1 Hstep).
    by destruct (CinematicMore.normalize_blocks l1 rest).
  - intros buffer n ch i x Hx y. subst y.
    pose proof (process_keeps_gain_range l buffer n Hg) as Hstep.
    unfold Cinematic.LoudnessNormalizer_process in *. cbn [fst snd] in *.
    set (g := Cinematic.currentGain
                (Cinematic.LoudnessNormalizer_measure l buffer n)) in *.
    assert (sample_at (applyGain buffer g) ch i = Some (x * g)) as Hy.
    { unfold sample_at, applyGain in *.
      rewrite list_lookup_fmap.
      destruct (buffer !! ch) as [c|]; [|done]. cbn in *.
      rewrite list_lookup_fmap, Hx. done. }
    rewrite (getSample_Some _ _ _ _ Hy).
    pose proof gain_floor_below_one as Hone.
    assert (0 < gain_floor) by (unfold gain_floor, Rpower; apply exp_pos).
    rewrite Rabs_mult, (Rabs_pos_eq g) by lra.
    pose proof (Rabs_pos x). nra.
Qed.

(** ** The mix of the cinematic reverb *)

Lemma clamp_unit (v : R) :
  clamp v (f_lit 0) (f_lit 1) = Rmax 0 (Rmin v 1).
Proof.
  unfold clamp, jmax, jmin. cbn.
  replace (Q2R 0) with 0 by (unfold Q2R; cbn; lra).
  replace (Q2R 1) with 1 by (unfold Q2R; cbn; lra).
  unfold R_ltb, Rmax, Rmin.
  repeat first [destruct (Rlt_dec _ _) | destruct (Rle_dec _ _)]; lra.
Qed.

(** X20.  [setCinematicReverbMix (mix)]: the wet and the dry level that
    the reverb receives lie between [0] and [1] and add up to [1], for
    every [mix], also one outside [0 .. 1]. *)
Theorem reverb_mix_adds_up_to_one (e : Cinematic.CinematicAudioEnhancer)
    (mix : R) :
  let p :=
    Cinematic.reverbParams
      (Cinematic.cinematicReverb (Cinematic.setCinematicReverbMix mix e)) in
  rp_wetLevel p + rp_dryLevel p = 1
  /\ 0 <= rp_wetLevel p <= 1
  /\ 0 <= rp_dryLevel p <= 1
  /\ (0 <= mix <= 1 -> rp_wetLevel p = mix /\ rp_dryLevel p = 1 - mix).
Proof.
  intros p. subst p.
  unfold Cinematic.setCinematicReverbMix, Cinematic.set_cinematicReverb,
    Cinematic.CinematicReverb_setDryLevel, Cinematic.CinematicReverb_setWetLevel,
    Cinematic.with_reverbParams.
  cbn [Cinematic.cinematicReverb Cinematic.reverbParams rp_wetLevel
       rp_dryLevel].
  rewrite !clamp_unit. cbn [f_sub R_ops].
  replace (f_lit 1) with 1 by (cbn; unfold Q2R; cbn; lra).
  unfold Rmax, Rmin.
  repeat first [destruct (Rlt_dec _ _) | destruct (Rle_dec _ _)]; lra.
Qed.

End CinematicMoreExact.

(* ===================================================================== *)
(** * The subtle delay, in exact arithmetic *)
(* ===================================================================== *)

Section SubtleDelayExact.
Local Open Scope R_scope.
Local Abbreviation AudioBuffer := (Juce.AudioBuffer R).
Local Abbreviation DelayLine := (Juce.DelayLine R).
Local Abbreviation SubtleDelay := (CinematicMore.SubtleDelay R R).
Implicit Types (line : DelayLine) (data buffer : AudioBuffer).
Implicit Types (past xs : list R) (sd : SubtleDelay).
Implicit Types (ch i j p n N size : nat).

(** ** The dry path *)

Lemma SubtleDelay_sample_dry sd ch i line data :
  CinematicMore.mixLevel sd = 0 ->
  (CinematicMore.SubtleDelay_sample sd ch i (line, data)).2 = data.
Proof.
  intros Hmix. unfold CinematicMore.SubtleDelay_sample.
  destruct (DelayLine_popSample line ch) as [delayed line1]. cbn [snd].
  rewrite Hmix. cbn. rewrite Q2R_1.
  replace (getSample data ch i * (1 - 0) + delayed * 0)
    with (getSample data ch i) by lra.
  apply setSample_getSample.
Qed.

(** X21.  With the mix at [0], [SubtleDelay::process] gives back every
    block unchanged, whatever the delay line holds. *)
Theorem SubtleDelay_mix_zero_is_dry sd buffer n :
  CinematicMore.mixLevel sd = 0 ->
  (CinematicMore.SubtleDelay_process sd buffer n).2 = buffer.
Proof.
  intros Hmix. unfold CinematicMore.SubtleDelay_process.
  assert (forall k (s : DelayLine * AudioBuffer),
            (for_range k
               (fun channel =>
                  for_range n (CinematicMore.SubtleDelay_sample sd channel))
               s).2 = s.2) as Hall.
  { intros k s. apply (for_range_invariant (fun s' => s'.2 = s.2)); [|done].
    intros c s1 _ Hs1.
    apply (for_range_invariant (fun s' => s'.2 = s.2)); [|done].
    intros j [line data] _ Hd. cbn [snd] in Hd. subst data.
    by apply SubtleDelay_sample_dry. }
  specialize (Hall (getNumChannels buffer)
                (CinematicMore.delayLine sd, buffer)).
  destruct (for_range _ _ _) as [line out]. done.
Qed.

(** ** The echo *)

(** One [popSample] followed by one [pushSample] on a line that holds
    [past]. *)
Lemma pop_push_holds line ch past N v :
  delayInt line = N -> delayFrac line = 0 ->
  (1 <= N <= totalSize line)%nat ->
  line_holds line ch past ->
  let line2 := DelayLine_pushSample (DelayLine_popSample line ch).2 ch v in
  (DelayLine_popSample line ch).1 = nth (N - 1) past 0
  /\ line_holds line2 ch (v :: past)
  /\ delayInt line2 = N /\ delayFrac line2 = 0
  /\ totalSize line2 = totalSize line
  /\ (forall ch' past',
        ch' <> ch -> line_holds line ch' past' -> line_holds line2 ch' past').
Proof.
  intros HN Hf Hr Hh line2.
  split; [by apply popSample_holds|].
  destruct Hh as (c & p & Hc & Hlen & Hrp & Hwp & Hp & Hcells).
  subst line2. unfold DelayLine_popSample. cbn [snd].
  unfold DelayLine_pushSample.
  cbn [bufferData writePos readPos delay delayFrac delayInt totalSize].
  rewrite Hrp, Hwp. change (default 0%nat (Some p)) with p.
  set (size := totalSize line) in *.
  split; [|split; [done|split; [done|split; [done|]]]].
  - exists (<[p := v]> c), ((p + size - 1) mod size)%nat.
    cbn [bufferData writePos readPos totalSize].
    split; [|split; [|split; [|split; [|split]]]].
    + unfold setSample. by rewrite list_lookup_alter_eq, Hc.
    + by rewrite length_insert.
    + apply list_lookup_insert_eq. by eapply lookup_lt_Some.
    + apply list_lookup_insert_eq. by eapply lookup_lt_Some.
    + apply Nat.mod_upper_bound. lia.
    + intros j Hj. rewrite cursor_back by done.
      rewrite cell_age_after_push by done.
      rewrite list_lookup_insert. destruct (decide (j = p)) as [->|Hne].
      * rewrite decide_True by (split; [done|lia]). done.
      * rewrite decide_False by (intros [? _]; done).
        rewrite (Hcells j Hj).
        pose proof (cell_age_pos p size j Hp Hj).
        destruct (cell_age p size j) as [|a]; [lia|].
        cbn. by rewrite Nat.sub_0_r.
  - intros ch' past' Hne (c' & p' & Hc' & Hlen' & Hrp' & Hwp' & Hp' & Hcells').
    exists c', p'. cbn [bufferData writePos readPos totalSize].
    split; [|split; [done|split; [|split; [|split; [done|done]]]]].
    + unfold setSample. by rewrite list_lookup_alter_ne.
    + by rewrite list_lookup_insert_ne.
    + by rewrite list_lookup_insert_ne.
Qed.

Lemma feedback_echo_snoc N fb mix past xs x :
  CinematicMore.feedback_echo N fb mix past (xs ++ [x])
  = let r := CinematicMore.feedback_echo N fb mix past xs in
    let delayed := nth (N - 1) r.2 0 in
    (r.1 ++ [x * (1 - mix) + delayed * mix], (x + delayed * fb) :: r.2).
Proof.
  revert past. induction xs as [|x0 rest IH]; intros past.
  - cbn. rewrite Q2R_1, Q2R_0. done.
  - cbn [app CinematicMore.feedback_echo]. rewrite IH. cbn zeta.
    destruct (CinematicMore.feedback_echo N fb mix _ rest) as [ys past'].
    done.
Qed.

Lemma feedback_echo_length N fb mix past xs :
  length (CinematicMore.feedback_echo N fb mix past xs).1 = length xs.
Proof.
  revert past. induction xs as [|x rest IH]; intros past; [done|].
  cbn [CinematicMore.feedback_echo].
  specialize (IH (f_add x (f_mul (nth (N - 1) past f_zero) fb) :: past)).
  destruct (CinematicMore.feedback_echo N fb mix _ rest) as [ys past'].
  cbn in *. by rewrite IH.
Qed.

Lemma feedback_echo_take N fb mix past xs i :
  (i <= length xs)%nat ->
  (CinematicMore.feedback_echo N fb mix past (take i xs)).1
  = take i (CinematicMore.feedback_echo N fb mix past xs).1.
Proof.
  revert past i. induction xs as [|x rest IH]; intros past i Hi.
  - by destruct i.
  - destruct i as [|i]; [by rewrite !take_0|].
    cbn [take CinematicMore.feedback_echo]. cbn in Hi.
    specialize (IH (f_add x (f_mul (nth (N - 1) past f_zero) fb) :: past) i
                  ltac:(lia)).
    destruct (CinematicMore.feedback_echo N fb mix _ (take i rest))
      as [ys1 p1].
    destruct (CinematicMore.feedback_echo N fb mix _ rest) as [ys2 p2].
    cbn [fst take] in *. by rewrite IH.
Qed.

(** The loop over one channel. *)
Lemma SubtleDelay_channel_holds sd line data ch n past N :
  delayInt line = N -> delayFrac line = 0 ->
  (1 <= N <= totalSize line)%nat ->
  line_holds line ch past ->
  let echo :=
    CinematicMore.feedback_echo N (CinematicMore.feedbackAmount sd)
      (CinematicMore.mixLevel sd) past in
  exists line' data',
    for_range n (CinematicMore.SubtleDelay_sample sd ch) (line, data)
    = (line', data')
    /\ line_holds line' ch (echo (channel_input data ch n)).2
    /\ delayInt line' = N /\ delayFrac line' = 0
    /\ totalSize line' = totalSize line
    /\ (forall ch' past',
          ch' <> ch -> line_holds line ch' past' -> line_holds line' ch' past')
    /\ (forall ch' i',
          sample_at data' ch' i'
          = if decide (ch = ch' /\ (i' < n)%nat)
            then (fun _ => nth i' (echo (channel_input data ch n)).1 0)
                 <$> sample_at data ch' i'
            else sample_at data ch' i').
Proof.
  intros HN Hf Hr Hh echo. induction n as [|n IH].
  - exists line, data. rewrite for_range_0. split; [done|].
    split; [done|]. split; [done|]. split; [done|]. split; [done|].
    split; [done|]. intros ch' i'. by rewrite decide_False by lia.
  - destruct IH as (line1 & data1 & Eloop & Hh1 & HN1 & Hf1 & Hs1 & Hoth1 & Hd1).
    rewrite for_range_S, Eloop.
    assert (getSample data1 ch n = getSample data ch n) as Hread.
    { rewrite !getSample_sample_at, Hd1. by rewrite decide_False by lia. }
    unfold CinematicMore.SubtleDelay_sample.
    set (x := getSample data1 ch n) in *.
    destruct (pop_push_holds line1 ch _ N
                (x + (DelayLine_popSample line1 ch).1
                     * CinematicMore.feedbackAmount sd)
                HN1 Hf1 ltac:(rewrite Hs1; done) Hh1)
      as (Hpop & Hh2 & HN2 & Hf2 & Hs2 & Hoth2).
    destruct (DelayLine_popSample line1 ch) as [delayed line1'].
    cbn [fst snd] in *. cbn [f_add f_mul f_sub R_ops].
    eexists _, _. split; [reflexivity|].
    assert (channel_input data ch (S n) = channel_input data ch n ++ [x])
      as Hinput.
    { unfold channel_input. rewrite seq_S, map_app. cbn. by rewrite Hread. }
    subst echo. rewrite Hinput, feedback_echo_snoc. cbn zeta. cbn [fst snd].
    rewrite <- Hpop.
    split; [done|split; [done|split; [done|split; [congruence|split]]]].
    + intros ch' past' Hne Hl. by apply Hoth2, Hoth1.
    + intros ch' i'. rewrite sample_at_setSample, Hd1.
      pose proof (feedback_echo_length N (CinematicMore.feedbackAmount sd)
                    (CinematicMore.mixLevel sd) past
                    (channel_input data ch n)) as Hlen.
      assert (length (channel_input data ch n) = n) as Hn
        by (unfold channel_input; by rewrite length_map, length_seq).
      rewrite Hn in Hlen.
      destruct (decide (ch = ch' /\ n = i')) as [[-> ->]|Hne].
      * rewrite (decide_False (P := ch' = ch' /\ (i' < i')%nat)) by lia.
        rewrite decide_True by lia.
        rewrite app_nth2 by lia. rewrite Hlen, Nat.sub_diag. cbn.
        by rewrite Q2R_1.
      * destruct (decide (ch = ch' /\ (i' < n)%nat)) as [[-> Hi]|Hn2].
        -- rewrite decide_True by lia. by rewrite app_nth1 by lia.
        -- by rewrite decide_False by lia.
Qed.

(** The whole nest, channel by channel. *)
Lemma SubtleDelay_nest_holds sd line data nch n N (pasts : nat -> list R) :
  delayInt line = N -> delayFrac line = 0 ->
  (1 <= N <= totalSize line)%nat ->
  (forall ch, (ch < nch)%nat -> line_holds line ch (pasts ch)) ->
  let echo ch :=
    CinematicMore.feedback_echo N (CinematicMore.feedbackAmount sd)
      (CinematicMore.mixLevel sd) (pasts ch) (channel_input data ch n) in
  exists line' data',
    for_range nch
      (fun channel => for_range n (CinematicMore.SubtleDelay_sample sd channel))
      (line, data)
    = (line', data')
    /\ (forall ch, (ch < nch)%nat -> line_holds line' ch (echo ch).2)
    /\ delayInt line' = N /\ delayFrac line' = 0
    /\ totalSize line' = totalSize line
    /\ (forall ch' past',
          (nch <= ch')%nat -> line_holds line ch' past' ->
          line_holds line' ch' past')
    /\ (forall ch' i',
          sample_at data' ch' i'
          = if decide ((ch' < nch)%nat /\ (i' < n)%nat)
            then (fun _ => nth i' (echo ch').1 0) <$> sample_at data ch' i'
            else sample_at data ch' i').
Proof.
  intros HN Hf Hr. induction nch as [|nch IH]; intros Hh echo.
  - exists line, data. rewrite for_range_0.
    split; [done|]. split; [intros; lia|]. split; [done|]. split; [done|].
    split; [done|]. split; [done|]. intros ch' i'.
    by rewrite decide_False by lia.
  - destruct IH as (line1 & data1 & Eloop & Hh1 & HN1 & Hf1 & Hs1 & Hoth1 & Hd1).
    { intros ch Hch. apply Hh. lia. }
    rewrite for_range_S, Eloop.
    assert (forall i, getSample data1 nch i = getSample data nch i) as Hread.
    { intros i. rewrite !getSample_sample_at, Hd1.
      by rewrite decide_False by lia. }
    destruct (SubtleDelay_channel_holds sd line1 data1 nch n (pasts nch) N
                HN1 Hf1 ltac:(rewrite Hs1; done)
                ltac:(apply Hoth1; [lia|apply Hh; lia]))
      as (line2 & data2 & Eloop2 & Hh2 & HN2 & Hf2 & Hs2 & Hoth2 & Hd2).
    rewrite (channel_input_ext data1 data nch n) in Hh2, Hd2
      by (intros; apply Hread).
    exists line2, data2. split; [exact Eloop2|].
    split; [|split; [done|split; [done|split; [congruence|split]]]].
    + intros ch Hch. destruct (decide (ch = nch)) as [->|Hne]; [done|].
      apply Hoth2; [done|]. apply Hh1. lia.
    + intros ch' past' Hge Hl. apply Hoth2; [lia|]. apply Hoth1; [lia|done].
    + intros ch' i'. rewrite Hd2, Hd1.
      destruct (decide (nch = ch' /\ (i' < n)%nat)) as [[<- Hi]|Hne].
      * rewrite (decide_False (P := (nch < nch)%nat /\ _)) by lia.
        by rewrite decide_True by lia.
      * destruct (decide ((ch' < nch)%nat /\ (i' < n)%nat)).
        -- by rewrite decide_True by lia.
        -- by rewrite decide_False by lia.
Qed.

Lemma SubtleDelay_process_length sd buffer n :
  length (CinematicMore.SubtleDelay_process sd buffer n).2 = length buffer.
Proof.
  unfold CinematicMore.SubtleDelay_process.
  assert (forall k (s : DelayLine * AudioBuffer),
            length (for_range k
                      (fun channel =>
                         for_range n
                           (CinematicMore.SubtleDelay_sample sd channel))
                      s).2 = length s.2) as Hall.
  { intros k s.
    apply (for_range_invariant (fun s' => length s'.2 = length s.2)); [|done].
    intros c s1 _ Hs1.
    apply (for_range_invariant (fun s' => length s'.2 = length s.2)); [|done].
    intros j [line data] _ Hd. unfold CinematicMore.SubtleDelay_sample.
    destruct (DelayLine_popSample line c). cbn [snd] in *.
    unfold setSample. by rewrite length_alter. }
  specialize (Hall (getNumChannels buffer)
                (CinematicMore.delayLine sd, buffer)).
  by destruct (for_range _ _ _).
Qed.

(** Before the first repeat comes round, the echo of a silent line is the
    dry signal scaled by [1 - mix]. *)
Lemma feedback_echo_head N fb mix past xs i x :
  (length past + i < N)%nat ->
  xs !! i = Some x ->
  (CinematicMore.feedback_echo N fb mix past xs).1 !! i = Some (x * (1 - mix)).
Proof.
  revert past i. induction xs as [|x0 rest IH]; intros past i Hi Hx; [done|].
  cbn [CinematicMore.feedback_echo].
  assert (nth (N - 1) past f_zero = 0) as Hd.
  { rewrite nth_overflow by lia. apply f_zero_R. }
  rewrite Hd.
  destruct i as [|i].
  - injection Hx as ->.
    destruct (CinematicMore.feedback_echo N fb mix _ rest) as [ys past'].
    cbn. rewrite Q2R_1. f_equal. lra.
  - specialize (IH (f_add x0 (f_mul 0 fb) :: past) i ltac:(cbn; lia) Hx).
    destruct (CinematicMore.feedback_echo N fb mix _ rest) as [ys past'].
    exact IH.
Qed.

(** Without feedback the echo is the input mixed with the input delayed by
    [N] samples. *)
Lemma feedback_echo_no_feedback N mix past xs :
  (CinematicMore.feedback_echo N 0 mix past xs).1
  = zip_with (fun x d => x * (1 - mix) + d * mix) xs (respond N past xs).
Proof.
  revert past. induction xs as [|x rest IH]; intros past; [done|].
  cbn [CinematicMore.feedback_echo].
  specialize (IH (f_add x (f_mul (nth (N - 1) past f_zero) 0) :: past)).
  destruct (CinematicMore.feedback_echo N 0 mix _ rest) as [ys past'].
  cbn [fst] in *. rewrite IH. unfold respond. rewrite imap_cons.
  cbn [zip_with take rev app f_add f_mul f_sub R_ops].
  change (f_lit 1 : R) with (Q2R 1). rewrite Q2R_1. f_equal. f_equal.
  apply imap_ext. intros i y Hy. cbn.
  replace (x + nth (N - 1) past (Q2R 0) * 0) with x by lra.
  by rewrite <- app_assoc.
Qed.

(** X22.  [SubtleDelay::process] on a line set to a whole delay of [N]
    samples, [1 <= N], is a delay of [N] samples with feedback: on every
    channel the first [n] samples become [feedback_echo] of the input, the
    rest of the channel stays, and the line then holds what the echo left.
    On a silent line the first [N] samples of the output are the dry
    signal times [1 - mix]; without feedback the output is the input mixed
    with the input delayed by [N] samples. *)
Theorem SubtleDelay_is_a_feedback_echo sd buffer n N (pasts : nat -> list R)
    ch (c : list R) :
  delayInt (CinematicMore.delayLine sd) = N ->
  delayFrac (CinematicMore.delayLine sd) = 0 ->
  (1 <= N <= totalSize (CinematicMore.delayLine sd))%nat ->
  (forall k, (k < getNumChannels buffer)%nat ->
     line_holds (CinematicMore.delayLine sd) k (pasts k)) ->
  buffer !! ch = Some c ->
  (n <= length c)%nat ->
  let fb := CinematicMore.feedbackAmount sd in
  let mix := CinematicMore.mixLevel sd in
  let echo := CinematicMore.feedback_echo N fb mix (pasts ch) (take n c) in
  (CinematicMore.SubtleDelay_process sd buffer n).2 !! ch
  = Some (echo.1 ++ drop n c)
  /\ line_holds
       (CinematicMore.delayLine (CinematicMore.SubtleDelay_process sd buffer n).1)
       ch echo.2
  /\ (pasts ch = [] ->
      forall i x, (i < N)%nat -> take n c !! i = Some x ->
                  echo.1 !! i = Some (x * (1 - mix)))
  /\ (pasts ch = [] -> fb = 0 ->
      echo.1 = zip_with (fun x d => x * (1 - mix) + d * mix)
                 (take n c) (delayed N (take n c))).
Proof.
  intros HN Hf Hr Hh Hc Hn fb mix echo.
  assert (ch < getNumChannels buffer)%nat as Hch by (by eapply lookup_lt_Some).
  destruct (SubtleDelay_nest_holds sd (CinematicMore.delayLine sd) buffer
              (getNumChannels buffer) n N pasts HN Hf Hr Hh)
    as (line' & data' & E & Hh' & _ & _ & _ & _ & Hd).
  cbn zeta in Hh', Hd.
  assert (channel_input buffer ch n = take n c) as Hin
    by (by apply channel_input_take).
  pose proof (SubtleDelay_process_length sd buffer n) as Hlen.
  unfold CinematicMore.SubtleDelay_process in *. rewrite E in *.
  cbn [fst snd CinematicMore.delayLine] in *.
  split; [|split; [|split]].
  - destruct (lookup_lt_is_Some_2 data' ch ltac:(unfold getNumChannels in Hch; lia))
      as [c' Hc'].
    rewrite Hc'. f_equal. apply list_eq. intros i.
    specialize (Hd ch i). unfold sample_at in Hd. rewrite Hc', Hc in Hd.
    cbn in Hd. rewrite Hd, Hin. fold fb mix echo.
    pose proof (feedback_echo_length N fb mix (pasts ch) (take n c)) as Hel.
    fold echo in Hel. rewrite length_take, Nat.min_l in Hel by lia.
    destruct (decide (i < n)%nat) as [Hi|Hi].
    + rewrite decide_True by lia.
      rewrite lookup_app_l by lia.
      destruct (lookup_lt_is_Some_2 c i ltac:(lia)) as [x Hx]. rewrite Hx. cbn.
      destruct (lookup_lt_is_Some_2 echo.1 i ltac:(lia)) as [y Hy].
      rewrite Hy. f_equal. by apply nth_lookup_Some.
    + rewrite decide_False by lia.
      rewrite lookup_app_r by lia. rewrite Hel, lookup_drop. f_equal. lia.
  - specialize (Hh' ch Hch). by rewrite Hin in Hh'.
  - intros Hp i x Hi Hx. subst echo. rewrite Hp.
    apply feedback_echo_head; [cbn; lia|done].
  - intros Hp Hfb. subst echo. rewrite Hp, Hfb.
    rewrite feedback_echo_no_feedback. by rewrite respond_silence by lia.
Qed.

(** The line that [SubtleDelay::prepare] leaves, when the delay time comes
    to a whole number [N] of samples. *)
Lemma SubtleDelay_prepared sampleRate maxBlockSize sd N ch :
  CinematicMore.delayLine sd = DelayLine_new (Z.to_nat 192000) ->
  jlimit (f_lit 1) (f_lit 2000) (CinematicMore.delayTimeMs sd) * sampleRate
  / 1000 = IZR (Z.of_nat N) ->
  (N <= Z.to_nat 192000)%nat ->
  (ch < 2)%nat ->
  let sd' := CinematicMore.SubtleDelay_prepare sampleRate maxBlockSize sd in
  line_holds (CinematicMore.delayLine sd') ch []
  /\ delayInt (CinematicMore.delayLine sd') = N
  /\ delayFrac (CinematicMore.delayLine sd') = 0
  /\ totalSize (CinematicMore.delayLine sd')
     = Nat.max 4 (Z.to_nat 192000 + 2).
Proof.
  intros Hline Hdelay HN Hch sd'. subst sd'.
  unfold CinematicMore.SubtleDelay_prepare,
    CinematicMore.SubtleDelay_setDelayTime.
  cbn [CinematicMore.delayLine CinematicMore.delayTimeMs
       CinematicMore.sd_currentSampleRate].
  rewrite Hline.
  assert (Cinematic.delaySamples
            (jlimit (f_lit 1) (f_lit 2000) (CinematicMore.delayTimeMs sd))
            sampleRate = f_of_int (Z.of_nat N)) as ->.
  { unfold Cinematic.delaySamples.
    cbn [d_to_float d_div d_mul d_of_float d_lit R_double f_of_int R_ops].
    replace (Q2R 1000) with 1000 by (unfold Q2R; cbn; lra). exact Hdelay. }
  by apply prepared_line_holds.
Qed.

End SubtleDelayExact.

(* ===================================================================== *)
(** * The processor of the suite: chain, A/B comparison, presets *)
(* ===================================================================== *)

Section SuiteFacts.
Context {F D : Type} `{FloatOps F} `{LibmOps F} `{DoubleOps F D} `{JuceDsp F D}
  `{FloatCmpOps F} `{LibmMoreOps F} `{!DSPMore.JuceDspMore F D}.
Import FXSuite.

Local Abbreviation AudioBuffer := (Juce.AudioBuffer F).
Implicit Types (p q : Processor) (buffer b : AudioBuffer).
Implicit Types (s : Processor * AudioBuffer).

Lemma chain_view_flags p q st :
  chain_view p = chain_view q -> stage_enabled p st = stage_enabled q st.
Proof.
  unfold chain_view, flags. intros [= _ _ _ _ _ _ _ _ ? ? ? ? ? ? ? ?].
  by destruct st.
Qed.

(** No stage writes an enable flag, and a stage depends on the processor
    through the modules only. *)
Lemma suite_run_stage_flags st s st' :
  stage_enabled (run_stage st s).1 st' = stage_enabled s.1 st'.
Proof.
  destruct s as [p b]. destruct st; cbn;
    unfold call_multibandCompressor, call_transientShaper, call_deEsser,
      call_saturation, call_stereoWidener, call_pthVocalClone,
      call_epicSpaceReverb, call_limiter; cbn;
    repeat match goal with
           | |- context [let '(_, _) := ?x in _] => destruct x
           end; by destruct st'.
Qed.

Lemma suite_run_stage_view st p q b :
  chain_view p = chain_view q ->
  (run_stage st (p, b)).2 = (run_stage st (q, b)).2
  /\ chain_view (run_stage st (p, b)).1 = chain_view (run_stage st (q, b)).1.
Proof.
  unfold chain_view, flags.
  intros [= Hmb Hts Hde Hsat Hsw Hlim Hpth Hrev ? ? ? ? ? ? ? ?].
  destruct st; cbn;
    unfold call_multibandCompressor, call_transientShaper, call_deEsser,
      call_saturation, call_stereoWidener, call_pthVocalClone,
      call_epicSpaceReverb, call_limiter; cbn [fst snd];
    rewrite <- ?Hmb, <- ?Hts, <- ?Hde, <- ?Hsat, <- ?Hsw, <- ?Hlim, <- ?Hpth,
      <- ?Hrev;
    repeat match goal with
           | |- context [let '(_, _) := ?x in _] => destruct x
           end; cbn; split; congruence.
Qed.

Lemma suite_run_stages_view (stages : list Stage) p q b :
  chain_view p = chain_view q ->
  (run_stages stages (p, b)).2 = (run_stages stages (q, b)).2.
Proof.
  revert p q b. induction stages as [|st stages IH]; intros p q b Hv; [done|].
  unfold run_stages. cbn [fold_left].
  destruct (suite_run_stage_view st p q b Hv) as [Hb Hv'].
  destruct (run_stage st (p, b)) as [p1 b1].
  destruct (run_stage st (q, b)) as [q1 b2]. cbn [fst snd] in *. subst b2.
  by apply IH.
Qed.

Lemma suite_run_stages_guarded (stages : list Stage) s :
  run_stages (filter (fun st => stage_enabled s.1 st = true) stages) s
  = fold_left
      (fun acc st => guarded (fun p => stage_enabled p st) (run_stage st) acc)
      stages s.
Proof.
  revert s. induction stages as [|st stages IH]; intros s; [done|].
  cbn [fold_left].
  assert (guarded (fun p => stage_enabled p st) (run_stage st) s
          = if stage_enabled s.1 st then run_stage st s else s) as ->
    by reflexivity.
  destruct (stage_enabled s.1 st) eqn:Hst.
  - rewrite filter_cons_True by done. rewrite <- IH.
    unfold run_stages. cbn [fold_left]. f_equal.
    apply list_filter_iff. intros st'. by rewrite suite_run_stage_flags.
  - rewrite filter_cons_False by (by rewrite Hst). apply IH.
Qed.

Lemma processChain_runs_enabled_stages p b :
  processChain (p, b) = run_stages (enabled_stages p) (p, b).
Proof.
  unfold enabled_stages.
  etrans; [|symmetry; apply (suite_run_stages_guarded stage_order (p, b))].
  unfold processChain, stage_order.
  cbn [fold_left run_stage stage_enabled]. reflexivity.
Qed.

Lemma clearUnusedOutputs_none p buffer :
  totalNumOutputChannels p <= totalNumInputChannels p ->
  clearUnusedOutputs p buffer = buffer.
Proof.
  intros Hle. unfold clearUnusedOutputs.
  replace (totalNumOutputChannels p - totalNumInputChannels p) with 0 by lia.
  done.
Qed.

(** X23.  [processBlock]: with the A/B comparison on and showing the
    original, the block is returned as it came (after the unused output
    channels are cleared) and no module runs.  Otherwise the block goes
    through exactly the modules whose flag is set, each once, in the order
    multiband compressor, transient shaper, de-esser, saturation, stereo
    widener, PTH vocal clone, epic space reverb, limiter.  With as many
    input as output channels, as the one supported bus layout has them,
    nothing is cleared. *)
Theorem processBlock_runs_the_enabled_modules p buffer :
  let b0 := clearUnusedOutputs p buffer in
  (abComparisonEnabled p = true -> abComparisonShowProcessed p = false ->
   (processBlock p buffer).2 = b0
   /\ chain_view (processBlock p buffer).1 = chain_view p)
  /\ (abComparisonEnabled p && negb (abComparisonShowProcessed p) = false ->
      (processBlock p buffer).2 = (run_stages (enabled_stages p) (p, b0)).2)
  /\ (forall st, st ∈ enabled_stages p <-> stage_enabled p st = true)
  /\ enabled_stages p `sublist_of` stage_order
  /\ (enabled_stages p = [] ->
      abComparisonEnabled p && negb (abComparisonShowProcessed p) = false ->
      (processBlock p buffer).2 = b0)
  /\ (totalNumOutputChannels p <= totalNumInputChannels p -> b0 = buffer).
Proof.
  intros b0.
  assert (abComparisonEnabled p && negb (abComparisonShowProcessed p) = false ->
          (processBlock p buffer).2
          = (run_stages (enabled_stages p) (p, b0)).2) as Hchain.
  { intros Hab. unfold processBlock. fold b0. cbn [abComparisonEnabled
      abComparisonShowProcessed set_currentPitch set_inputLevel].
    rewrite Hab.
    rewrite processChain_runs_enabled_stages.
    set (p1 := set_currentPitch _ _).
    assert (chain_view p1 = chain_view p) as Hv by reflexivity.
    assert (enabled_stages p1 = enabled_stages p) as -> by reflexivity.
    rewrite <- (suite_run_stages_view (enabled_stages p) p1 p b0 Hv).
    by destruct (run_stages (enabled_stages p) (p1, b0)). }
  split; [|split; [done|split; [|split; [|split]]]].
  - intros Hon Hshow. unfold processBlock. fold b0.
    cbn [abComparisonEnabled abComparisonShowProcessed set_currentPitch
         set_inputLevel]. by rewrite Hon, Hshow.
  - intros st. unfold enabled_stages. rewrite list_elem_of_filter.
    split; [tauto|]. intros Hst. split; [done|].
    destruct st; unfold stage_order; set_solver.
  - apply sublist_filter.
  - intros Hnone Hab. rewrite (Hchain Hab), Hnone. done.
  - apply clearUnusedOutputs_none.
Qed.

(** ** Presets *)

Lemma flagsObject_lookups p :
  flagsObject p !! "multibandCompressorEnabled"
  = Some (multibandCompressorEnabled p)
  /\ flagsObject p !! "transientShaperEnabled" = Some (transientShaperEnabled p)
  /\ flagsObject p !! "deEsserEnabled" = Some (deEsserEnabled p)
  /\ flagsObject p !! "saturationEnabled" = Some (saturationEnabled p)
  /\ flagsObject p !! "stereoWidenerEnabled" = Some (stereoWidenerEnabled p)
  /\ flagsObject p !! "limiterEnabled" = Some (limiterEnabled p)
  /\ flagsObject p !! "pthVocalCloneEnabled" = Some (pthVocalCloneEnabled p)
  /\ flagsObject p !! "epicSpaceReverbEnabled"
     = Some (epicSpaceReverbEnabled p).
Proof.
  unfold flagsObject.
  repeat split;
    repeat first [rewrite lookup_insert_eq; reflexivity
                 |rewrite lookup_insert_ne by discriminate].
Qed.

Lemma restoreFlags_flagsObject p q :
  flags (restoreFlags (flagsObject p) q) = flags p
  /\ chain_view (restoreFlags (flagsObject p) q)
     = (multibandCompressor q, transientShaper q, deEsser q, saturation q,
        stereoWidener q, limiter q, pthVocalClone q, epicSpaceReverb q,
        flags p)
  /\ presets (restoreFlags (flagsObject p) q) = presets q.
Proof.
  destruct (flagsObject_lookups p)
    as (L1 & L2 & L3 & L4 & L5 & L6 & L7 & L8).
  unfold restoreFlags, restore.
  rewrite L1, L2, L3, L4, L5, L6, L7, L8. done.
Qed.

(** X24.  Presets: [savePreset] stores the eight enable flags under the
    name, replacing what was stored there and leaving the other presets;
    [loadPreset] of that name, at any later time, sets the eight flags to
    the stored ones and touches nothing else; [loadPreset] of a name that
    was never saved changes nothing. *)
Theorem preset_round_trip name p :
  presets (savePreset name p) !! name = Some (flagsObject p)
  /\ (forall name', name' <> name ->
        presets (savePreset name p) !! name' = presets p !! name')
  /\ chain_view (savePreset name p) = chain_view p
  /\ (forall q,
        presets q !! name = Some (flagsObject p) ->
        flags (loadPreset name q) = flags p
        /\ chain_view (loadPreset name q)
           = (multibandCompressor q, transientShaper q, deEsser q,
              saturation q, stereoWidener q, limiter q, pthVocalClone q,
              epicSpaceReverb q, flags p)
        /\ presets (loadPreset name q) = presets q)
  /\ flags (loadPreset name (savePreset name p)) = flags p
  /\ (presets p !! name = None -> loadPreset name p = p)
  /\ (forall name', name' ∈ getPresetNames p <-> is_Some (presets p !! name')).
Proof.
  split; [|split; [|split; [|split; [|split; [|split]]]]].
  - unfold savePreset. cbn. apply lookup_insert_eq.
  - intros name' Hne. unfold savePreset. cbn. by apply lookup_insert_ne.
  - reflexivity.
  - intros q Hq. unfold loadPreset. rewrite Hq.
    apply restoreFlags_flagsObject.
  - unfold loadPreset, savePreset. cbn [presets set_presets].
    rewrite lookup_insert_eq.
    destruct (restoreFlags_flagsObject p
                (set_presets (<[name := flagsObject p]> (presets p)) p))
      as (Hf & _). exact Hf.
  - intros Hnone. unfold loadPreset. by rewrite Hnone.
  - intros name'. unfold getPresetNames. rewrite list_elem_of_fmap. split.
    + intros ([k v] & -> & Hin). apply elem_of_map_to_list in Hin.
      by eexists.
    + intros [v Hv]. exists (name', v). split; [done|].
      by apply elem_of_map_to_list.
Qed.

End SuiteFacts.

(* ===================================================================== *)
(** * The meters of the suite, in exact arithmetic *)
(* ===================================================================== *)

Section SuiteMeters.
Context `{JuceDsp R R} `{!DSPMore.JuceDspMore R R}.
Import FXSuite.
Local Open Scope R_scope.

Local Abbreviation AudioBuffer := (Juce.AudioBuffer R).
Implicit Types (buffer : AudioBuffer).

Lemma count_loop_bounds (P : nat -> bool) (l : list nat) (c : Z) :
  (c <= fold_left (fun count i => if P i then (count + 1)%Z else count) l c
   <= c + Z.of_nat (length l))%Z.
Proof.
  revert c. induction l as [|i l IH]; intros c; cbn [fold_left length];
    [lia|].
  destruct (P i); [specialize (IH (c + 1)%Z)|specialize (IH c)]; lia.
Qed.

Lemma count_loop_none (P : nat -> bool) (l : list nat) (c : Z) :
  (forall i, i ∈ l -> P i = false) ->
  fold_left (fun count i => if P i then (count + 1)%Z else count) l c = c.
Proof.
  revert c. induction l as [|i l IH]; intros c Hl; cbn [fold_left]; [done|].
  rewrite (Hl i) by set_solver. apply IH. intros j Hj. apply Hl. set_solver.
Qed.

Lemma zeroCrossings_bounds buffer :
  (0 <= zeroCrossings buffer <= Z.of_nat (getNumSamples buffer - 1))%Z.
Proof.
  unfold zeroCrossings.
  pose proof (count_loop_bounds (crosses_zero buffer)
                (seq 1 (getNumSamples buffer - 1)) 0) as Hb.
  rewrite length_seq in Hb. lia.
Qed.

Lemma R_leb_true x y : x <= y -> R_leb x y = true.
Proof. intros Hxy. unfold R_leb. by destruct (Rle_dec x y). Qed.

Lemma R_leb_false x y : y < x -> R_leb x y = false.
Proof. intros Hxy. unfold R_leb. destruct (Rle_dec x y); [lra|done]. Qed.

Lemma crosses_zero_same_sign buffer i :
  (0 <= getSample buffer 0 (i - 1) -> 0 <= getSample buffer 0 i ->
   crosses_zero buffer i = false)
  /\ (getSample buffer 0 (i - 1) < 0 -> getSample buffer 0 i < 0 ->
      crosses_zero buffer i = false).
Proof.
  unfold crosses_zero. cbn [f_leb f_ltb R_cmp R_ops f_lit].
  replace (Q2R 0) with 0 by (unfold Q2R; cbn; lra).
  split; intros Ha Hb.
  - rewrite (R_ltb_false (getSample buffer 0 i) 0) by done.
    rewrite (R_ltb_false (getSample buffer 0 (i - 1)) 0) by done.
    by rewrite andb_false_r.
  - rewrite (R_leb_false 0 (getSample buffer 0 (i - 1))) by done.
    rewrite (R_leb_false 0 (getSample buffer 0 i)) by done.
    by rewrite andb_false_r.
Qed.

(** X25.  [estimatePitch]: the number of zero crossings counted on a block
    of [n] samples is between [0] and [n - 1], so that for a sample rate
    that is not negative the estimate lies between [0] and half the sample
    rate; a block of fewer than two samples, and a block whose first
    channel never changes sign, give [0]. *)
Theorem estimatePitch_is_at_most_half_the_rate (rate : R) buffer :
  0 <= rate ->
  0 <= estimatePitch rate buffer <= rate / 2
  /\ (0 <= zeroCrossings buffer <= Z.of_nat (getNumSamples buffer - 1))%Z
  /\ ((getNumSamples buffer < 2)%nat -> estimatePitch rate buffer = 0)
  /\ ((forall i, (i < getNumSamples buffer)%nat -> 0 <= getSample buffer 0 i)
      -> estimatePitch rate buffer = 0)
  /\ ((forall i, (i < getNumSamples buffer)%nat -> getSample buffer 0 i < 0)
      -> estimatePitch rate buffer = 0).
Proof.
  intros Hrate.
  pose proof (zeroCrossings_bounds buffer) as Hz.
  assert (Q2R 0 = 0) as Hq0 by (unfold Q2R; cbn; lra).
  assert (Q2R 2 = 2) as Hq2 by (unfold Q2R; cbn; lra).
  assert (forall z : Z,
            (2 <= getNumSamples buffer)%nat -> zeroCrossings buffer = z ->
            estimatePitch rate buffer
            = IZR z * rate / (2 * INR (getNumSamples buffer))) as Hest.
  { intros z Hn Hzc. unfold estimatePitch.
    destruct (Nat.ltb_spec (getNumSamples buffer) 2) as [?|_]; [lia|].
    cbn [f_div f_mul f_of_int f_lit R_ops d_to_float R_double].
    rewrite Hzc, Hq2, <- INR_IZR_INZ. done. }
  assert (forall P : nat -> Prop,
            (forall i, (i < getNumSamples buffer)%nat -> P i) ->
            (forall i, P (i - 1)%nat -> P i -> crosses_zero buffer i = false) ->
            estimatePitch rate buffer = 0) as Hsign.
  { intros P HP Hcross.
    destruct (Nat.ltb_spec (getNumSamples buffer) 2) as [Hlt|Hge].
    - unfold estimatePitch.
      destruct (Nat.ltb_spec (getNumSamples buffer) 2) as [_|?]; [|lia].
      exact Hq0.
    - rewrite (Hest 0%Z Hge).
      + unfold Rdiv. by rewrite !Rmult_0_l.
      + unfold zeroCrossings. apply count_loop_none. intros i Hi.
        apply elem_of_seq in Hi. apply Hcross; apply HP; lia. }
  split; [|split; [done|split; [|split]]].
  - destruct (Nat.ltb_spec (getNumSamples buffer) 2) as [Hlt|Hge].
    + unfold estimatePitch.
      destruct (Nat.ltb_spec (getNumSamples buffer) 2) as [_|?]; [|lia].
      cbn [f_lit R_ops]. rewrite Hq0. lra.
    + rewrite (Hest _ Hge eq_refl).
      assert (0 < INR (getNumSamples buffer)) as Hn
        by (apply lt_0_INR; lia).
      assert (0 <= IZR (zeroCrossings buffer)) as Hz0
        by (apply IZR_le; lia).
      assert (IZR (zeroCrossings buffer) <= INR (getNumSamples buffer)) as Hz1.
      { rewrite INR_IZR_INZ. apply IZR_le. lia. }
      replace (IZR (zeroCrossings buffer) * rate
               / (2 * INR (getNumSamples buffer)))
        with (IZR (zeroCrossings buffer) / INR (getNumSamples buffer)
              * (rate / 2)) by (field; lra).
      assert (0 <= IZR (zeroCrossings buffer) / INR (getNumSamples buffer)
              <= 1) as [Hq1 Hq3].
      { split.
        - apply Rmult_le_pos; [done|]. left. by apply Rinv_0_lt_compat.
        - apply Rmult_le_reg_r with (INR (getNumSamples buffer)); [done|].
          replace (IZR (zeroCrossings buffer) / INR (getNumSamples buffer)
                   * INR (getNumSamples buffer))
            with (IZR (zeroCrossings buffer)) by (field; lra).
          lra. }
      split; [apply Rmult_le_pos; lra|]. nra.
  - intros Hlt. unfold estimatePitch.
    destruct (Nat.ltb_spec (getNumSamples buffer) 2) as [_|?]; [|lia].
    exact Hq0.
  - intros Hpos.
    apply (Hsign (fun i => 0 <= getSample buffer 0 i)).
    + exact Hpos.
    + intros i. apply crosses_zero_same_sign.
  - intros Hneg.
    destruct (Nat.ltb_spec (getNumSamples buffer) 2) as [Hlt|Hge].
    + unfold estimatePitch.
      destruct (Nat.ltb_spec (getNumSamples buffer) 2) as [_|?]; [|lia].
      exact Hq0.
    + rewrite (Hest 0%Z Hge).
      * unfold Rdiv. by rewrite !Rmult_0_l.
      * unfold zeroCrossings. apply count_loop_none. intros i Hi.
        apply elem_of_seq in Hi.
        apply crosses_zero_same_sign; apply Hneg; lia.
Qed.

(** ** The level meter *)

Lemma sum_loop_bounds (g : nat -> R) (lo hi : R) n (s : R) :
  (forall i, (i < n)%nat -> lo <= g i <= hi) ->
  s + INR n * lo <= for_range n (fun i sum => sum + g i) s <= s + INR n * hi.
Proof.
  intros Hg. induction n as [|n IH].
  - rewrite for_range_0. cbn. lra.
  - rewrite for_range_S, S_INR.
    destruct IH as [IH1 IH2]; [intros i Hi; apply Hg; lia|].
    destruct (Hg n) as [Hg1 Hg2]; [lia|]. lra.
Qed.

Lemma nested_sum_loop_bounds (g : nat -> nat -> R) (lo hi : R) nch n (s : R) :
  (forall ch i, (ch < nch)%nat -> (i < n)%nat -> lo <= g ch i <= hi) ->
  s + INR nch * (INR n * lo)
  <= for_range nch (fun ch => for_range n (fun i sum => sum + g ch i)) s
  <= s + INR nch * (INR n * hi).
Proof.
  intros Hg. induction nch as [|nch IH].
  - rewrite for_range_0. cbn. lra.
  - rewrite for_range_S, S_INR.
    destruct IH as [IH1 IH2]; [intros ch i Hch Hi; apply Hg; lia|].
    set (acc := for_range nch _ s) in *.
    destruct (sum_loop_bounds (g nch) lo hi n acc) as [H1' H2'].
    { intros i Hi. apply Hg; lia. }
    lra.
Qed.

(** X26.  [calculateRMSLevel]: on a block with at least one channel and
    one sample, the level lies between the smallest and the largest
    magnitude of its samples; so it is never negative, a block of silence
    reads [0], and a block on which every sample has the magnitude [c]
    reads [c]. *)
Theorem calculateRMSLevel_is_between_the_magnitudes buffer (lo hi : R) :
  (0 < getNumChannels buffer)%nat -> (0 < getNumSamples buffer)%nat ->
  0 <= lo ->
  (forall ch i,
     (ch < getNumChannels buffer)%nat -> (i < getNumSamples buffer)%nat ->
     lo <= Rabs (getSample buffer ch i) <= hi) ->
  lo <= calculateRMSLevel buffer <= hi.
Proof.
  intros Hch Hn Hlo Hx. unfold calculateRMSLevel.
  cbn [f_sqrt R_libm f_div f_of_int f_add f_mul R_ops].
  unfold f_zero. cbn [f_lit R_ops].
  replace (Q2R 0) with 0 by (unfold Q2R; cbn; lra).
  set (nch := getNumChannels buffer) in *. set (n := getNumSamples buffer) in *.
  assert (0 < INR nch) as Hnch' by (by apply lt_0_INR).
  assert (0 < INR n) as Hn' by (by apply lt_0_INR).
  assert (lo <= hi) as Hlh.
  { destruct (Hx 0%nat 0%nat Hch Hn). lra. }
  destruct (nested_sum_loop_bounds
              (fun ch i => getSample buffer ch i * getSample buffer ch i)
              (lo * lo) (hi * hi) nch n 0) as [Hs1 Hs2].
  { intros ch i Hc Hi. destruct (Hx ch i Hc Hi) as [Hx1 Hx2].
    replace (getSample buffer ch i * getSample buffer ch i)
      with (Rabs (getSample buffer ch i) * Rabs (getSample buffer ch i)).
    - split; apply Rmult_le_compat; lra.
    - rewrite <- Rabs_mult. apply Rabs_pos_eq. nra. }
  set (total := for_range nch _ 0) in *.
  rewrite mult_IZR, <- !INR_IZR_INZ.
  assert (lo * lo <= total / (INR n * INR nch) <= hi * hi) as [Hq1 Hq2].
  { assert (0 < INR n * INR nch) as Hd by (by apply Rmult_lt_0_compat).
    split.
    - apply Rmult_le_reg_r with (INR n * INR nch); [done|].
      replace (total / (INR n * INR nch) * (INR n * INR nch)) with total
        by (field; lra).
      lra.
    - apply Rmult_le_reg_r with (INR n * INR nch); [done|].
      replace (total / (INR n * INR nch) * (INR n * INR nch)) with total
        by (field; lra).
      lra. }
  split.
  - rewrite <- (sqrt_square lo) by done. by apply sqrt_le_1_alt.
  - rewrite <- (sqrt_square hi) by lra. by apply sqrt_le_1_alt.
Qed.

End SuiteMeters.

(* ===================================================================== *)
(** * The definitions at work: IEEE 754 single precision *)
(* ===================================================================== *)

Import Fixtures.

(** The two marker effects in mode [Hybrid]: [(3 + 1) * 2], not
    [3 * 2 + 1]. *)
Example hybrid_runs_dsp_first :
  (AIFX.process (marker_engine Hybrid) [[f_lit 3]] 1 0).2 = [[f_lit 8]].
Proof. vm_compute. reflexivity. Qed.

Example out_of_range_track_is_ignored :
  (AIFX.process (marker_engine Hybrid) [[f_lit 3]] 1 6).2 = [[f_lit 3]].
Proof. vm_compute. reflexivity. Qed.

(** A ready model replaces the block. *)
Example ready_model_replaces_block :
  (AIEffect_process (Some silencing_engine) vocal_effect
     [[f_lit 1; f_lit 2]; [f_lit 3; f_lit 4]] 2).2
  = [[f_lit 0; f_lit 0]; [f_lit 0; f_lit 0]].
Proof. vm_compute. reflexivity. Qed.

(** C7, the claim as stated: at unity width the [float] code does not give
    back the block (0.5, 0.8); it gives the neighbours of both values. *)
Lemma unity_width_is_not_exact_in_binary32 :
  Cinematic.StereoImager_process unity_imager
    [[b32_lit (1 # 2)]; [b32_lit (8 # 10)]] 1
  <> [[b32_lit (1 # 2)]; [b32_lit (8 # 10)]].
Proof. vm_compute. discriminate. Qed.

Example unity_width_of_half_and_four_fifths :
  Cinematic.StereoImager_process unity_imager
    [[b32_lit (1 # 2)]; [b32_lit (8 # 10)]] 1
  = [[S754_finite false 16777215 (-25)]; [S754_finite false 13421772 (-24)]].
Proof. vm_compute. reflexivity. Qed.

(** A quiet right channel next to a loud left one is lost altogether. *)
Example unity_width_drops_a_quiet_channel :
  Cinematic.StereoImager_process unity_imager [[b32_one]; [b32_tiny]] 1
  = [[b32_one]; [S754_zero false]].
Proof. vm_compute. reflexivity. Qed.

(** The default pre-delay of 30 ms is 1323 whole samples at 44.1 kHz. *)
Example default_predelay_in_samples :
  delayInt (Cinematic.cr_preDelayLine (reverb_with_predelay (f_lit 30))) = 1323
  /\ delayFrac (Cinematic.cr_preDelayLine (reverb_with_predelay (f_lit 30)))
     = f_lit 0.
Proof. vm_compute. split; reflexivity. Qed.

(** With a delay of two samples the impulse comes out after two samples of
    silence. *)
Example predelay_of_two_samples :
  (applyPreDelay (short_line (f_lit 2)) [unit_impulse 4] 1 4).2
  = [[f_lit 0; f_lit 0; f_lit 1; f_lit 0]].
Proof. vm_compute. reflexivity. Qed.

(** C4.  With the pre-delay set to 0 ms, which [setPreDelay] and the
    slider of the editor accept, the delay is [N = 0] whole samples, and
    the claim asks for the impulse at once, after no silence.  The
    pre-delay loops of both reverbs put out silence for the whole block
    instead: [popSample] reads the cell that [pushSample] fills only
    afterwards. *)
Theorem predelay_of_zero_loses_the_impulse :
  let line := Cinematic.cr_preDelayLine (reverb_with_predelay (f_lit 0)) in
  let out :=
    (Cinematic.CinematicReverb_preDelay (reverb_with_predelay (f_lit 0))
       impulse_block 4).2 in
  let wet :=
    (DSPModules.EpicSpaceReverb_preDelay (epic_with_predelay (f_lit 0))
       impulse_block).2 in
  let silence := [replicate 4 (f_lit 0); replicate 4 (f_lit 0)] in
  (delayInt line = 0 /\ delayFrac line = f_lit 0)
  /\ out = silence
  /\ map (take 4) wet = silence
  /\ silence <> [delayed 0 (unit_impulse 4); delayed 0 (unit_impulse 4)].
Proof. vm_compute. repeat split; try reflexivity. discriminate. Qed.

(** On a line of four cells the impulse comes back when the cursors have
    gone round once. *)
Example predelay_of_zero_wraps_around :
  (applyPreDelay (short_line (f_lit 0)) [unit_impulse 6] 1 6).2
  = [[f_lit 0; f_lit 0; f_lit 0; f_lit 0; f_lit 1; f_lit 0]].
Proof. vm_compute. reflexivity. Qed.

(* ===================================================================== *)
(** * The theorems at concrete objects *)
(* ===================================================================== *)

Lemma process_dispatches_by_mode_witness :
  in_range 0 = true
  /\ (AIFX.process (marker_engine Hybrid) [[f_lit 3]] 1 0).2
     = apply_effects None [double_effect] 1
         (apply_effects None [offset_effect] 1 [[f_lit 3]]).
Proof.
  split; [reflexivity|].
  pose proof (process_dispatches_by_mode (marker_engine Hybrid) [[f_lit 3]] 1 0
                (marker_track Hybrid) eq_refl eq_refl) as (_ & _ & _ & Hh & _).
  exact (proj1 (Hh eq_refl)).
Defined.

Lemma AIEffect_passes_through_witness :
  isModelReady throwing_engine "vocal" = true
  /\ (AIEffect_process (Some throwing_engine) vocal_effect
        [[f_lit 1; f_lit 2]; [f_lit 3; f_lit 4]] 2).2
     = [[f_lit 1; f_lit 2]; [f_lit 3; f_lit 4]].
Proof.
  split; [reflexivity|].
  pose proof (AIEffect_passes_through vocal_effect
                [[f_lit 1; f_lit 2]; [f_lit 3; f_lit 4]] 2) as (_ & _ & _ & Ht).
  refine (proj2 (Ht throwing_engine _ throwing_session "inference failed"
                   _ _ _ _)); reflexivity.
Defined.

Lemma bands_sum_to_input_witness :
  let m1 := DSPModules.MultibandCompressor_split real_multiband real_block in
  (getSample (DSPModules.lowBandBuffer m1) 1 0
   + getSample (DSPModules.midBandBuffer m1) 1 0
   + getSample (DSPModules.highBandBuffer m1) 1 0 = 3)%R.
Proof.
  refine (proj2 (proj1 bands_sum_to_input real_multiband real_block 1 0 3%R
                   _ _ _)).
  - cbn. lia.
  - cbn. lia.
  - reflexivity.
Defined.

Lemma normalizer_gain_schedule_witness :
  Cinematic.currentGain
    (Cinematic.LoudnessNormalizer_process real_normalizer real_block 2).1
  = Cinematic.currentGain real_normalizer.
Proof.
  refine (proj1 (proj1 (normalizer_gain_schedule real_normalizer real_block 2)
                   _)).
  cbn. lia.
Defined.

Lemma deesser_scales_the_original_witness :
  (DSPModules.DeEsser_sideChain prepared_deesser real_block).2
  = (process_block iir_processSample
       (DSPModules.sibilanceFilter prepared_deesser) real_block).2.
Proof.
  destruct (deesser_scales_the_original prepared_deesser real_block 0 1 2%R)
    as (copy & _ & Hcopy & Hside & _).
  - cbn. lia.
  - reflexivity.
  - cbn. lia.
  - rewrite Hside, Hcopy; [reflexivity|reflexivity| |];
      repeat constructor.
Defined.

Lemma deesser_never_amplifies_witness :
  (Rabs (getSample (DSPModules.DeEsser_process real_deesser real_block).2 1 1)
   <= Rabs (getSample real_block 1 1))%R.
Proof.
  refine (proj1 (proj2 (deesser_never_amplifies real_deesser _)) real_block 1 1).
  cbn. unfold Q2R. cbn. lra.
Defined.

Lemma chain_order_is_fixed_witness :
  Cinematic.CinematicAudioEnhancer_process
    (Cinematic.applyCinematicMasteringPreset idle_enhancer) real_block 2
  = ChainSpec.run_stages 2
      [ChainSpec.Saturation; ChainSpec.MultibandCompression;
       ChainSpec.StereoImaging; ChainSpec.LoudnessNormalization;
       ChainSpec.FinalLimiting]
      (Cinematic.applyCinematicMasteringPreset idle_enhancer, real_block).
Proof.
  pose proof (chain_order_is_fixed idle_enhancer real_block 2)
    as (_ & _ & _ & Hp & _ & Hm & _).
  rewrite <- Hm. refine (proj1 (Hp _ _)).
  apply list_elem_of_further, list_elem_of_here.
Defined.

(* ===================================================================== *)
(** * The further theorems at concrete objects *)
(* ===================================================================== *)

Import MoreFixtures.

Lemma setFXMode_then_getFXMode_witness :
  length (trackFX (marker_engine Off)) = Z.to_nat NUM_TRACKS
  /\ AIFXMore.getFXMode (setFXMode (marker_engine Off) 2 AI) 2 = AI.
Proof.
  split; [reflexivity|].
  exact (proj1 (setFXMode_then_getFXMode (marker_engine Off) 2 2 AI eq_refl)).
Defined.

Lemma clearEffects_empties_the_chain_witness :
  in_range 0 = true
  /\ (AIFX.process (AIFXMore.clearEffects (marker_engine Hybrid) 0)
        [[f_lit 3]] 1 0).2 = [[f_lit 3]].
Proof.
  split; [reflexivity|].
  exact (proj1 (clearEffects_empties_the_chain (marker_engine Hybrid) 0
                  [[f_lit 3]] 1 eq_refl eq_refl)).
Defined.

Lemma processAllTracks_runs_tracks_in_order_witness :
  (AIFXMore.processAllTracks (marker_engine Hybrid) [[f_lit 3]] 1).2
  = fold_left
      (fun b track => AIFXMore.track_chain None track 1 b)
      (trackFX (marker_engine Hybrid)) [[f_lit 3]].
Proof.
  exact (proj1 (processAllTracks_runs_tracks_in_order (marker_engine Hybrid)
                  [[f_lit 3]] 1 eq_refl)).
Defined.

Lemma AIEffect_writes_back_channel_major_witness :
  sample_at (AIEffect_process (Some reversing_engine) vocal_effect
               b32_block 2).2 1 0
  = Some (f_lit 2).
Proof.
  refine (AIEffect_writes_back_channel_major reversing_engine vocal_effect
            b32_block 2 (mkOnnxModel true (Some reversing_session) [])
            reversing_session [f_lit 4; f_lit 3; f_lit 2; f_lit 1]
            1 0 (f_lit 3) _ _ _ _ _ _);
    first [reflexivity | lia].
Defined.

Lemma AIEffect_echo_is_identity_witness :
  (AIEffect_process (Some echo_engine) vocal_effect b32_block 2).2
  = b32_block.
Proof.
  refine (AIEffect_echo_is_identity echo_engine vocal_effect b32_block 2
            (mkOnnxModel true (Some echo_session) []) echo_session
            _ _ _ _ _); try reflexivity.
  repeat constructor.
Defined.

Lemma TransientShaper_neutral_is_identity_witness :
  (DSPMore.TransientShaper_process real_shaper real_block).2 = real_block.
Proof.
  apply (TransientShaper_neutral_is_identity real_shaper real_block);
    cbn; unfold Q2R; cbn; lra.
Defined.

Lemma EpicSpaceReverb_mix_zero_is_dry_witness :
  (DSPModules.EpicSpaceReverb_process real_epic real_block).2 = real_block.
Proof.
  apply (EpicSpaceReverb_mix_zero_is_dry real_epic real_block).
  apply setWetDryMix_zero.
Defined.

Lemma PTHVocalClone_drift_is_within_one_percent_witness :
  exists g : R,
    (99 / 100 <= g <= 101 / 100)%R
    /\ sample_at (DSPMore.PTHVocalClone_process real_clone real_block).2 1 0
       = Some (3 * g)%R
    /\ (Rabs (3 * g - 3) <= Rabs 3 / 100)%R.
Proof.
  apply (PTHVocalClone_drift_is_within_one_percent real_clone real_block 1 0
           3%R).
  - cbn. unfold Q2R. cbn. lra.
  - cbn. lia.
  - reflexivity.
Defined.

Lemma WarmSaturation_is_bounded_by_the_output_gain_witness :
  (Rabs (getSample
           (CinematicMore.WarmSaturation_process real_saturation real_block 2)
           1 0) <= 1)%R.
Proof.
  refine (proj2 (proj2 (WarmSaturation_is_bounded_by_the_output_gain
                          real_saturation real_block 2 1 0 3%R _ _)) _).
  - lia.
  - reflexivity.
  - cbn. unfold Q2R. cbn. lra.
Defined.

Lemma SubtleDelay_mix_zero_is_dry_witness :
  (CinematicMore.SubtleDelay_process dry_delay real_block 2).2 = real_block.
Proof.
  apply (SubtleDelay_mix_zero_is_dry dry_delay real_block 2).
  unfold dry_delay, CinematicMore.SubtleDelay_setMix.
  cbn [CinematicMore.mixLevel].
  replace (f_lit 0 : R) with 0%R by (cbn; unfold Q2R; cbn; lra).
  replace (f_lit 1 : R) with 1%R by (cbn; unfold Q2R; cbn; lra).
  apply jlimit_inside. lra.
Defined.

Lemma real_delay_prepared ch :
  ch < 2 ->
  line_holds (CinematicMore.delayLine real_delay) ch []
  /\ delayInt (CinematicMore.delayLine real_delay) = Z.to_nat 14400
  /\ delayFrac (CinematicMore.delayLine real_delay) = 0%R
  /\ totalSize (CinematicMore.delayLine real_delay)
     = Nat.max 4 (Z.to_nat 192000 + 2).
Proof.
  intros Hch.
  apply (SubtleDelay_prepared 48000%R 512 CinematicMore.SubtleDelay_new
           (Z.to_nat 14400) ch); [reflexivity| |lia|done].
  cbn [CinematicMore.delayTimeMs CinematicMore.SubtleDelay_new].
  replace (f_lit 1 : R) with 1%R by (cbn; unfold Q2R; cbn; lra).
  replace (f_lit 2000 : R) with 2000%R by (cbn; unfold Q2R; cbn; lra).
  replace (f_lit 300 : R) with 300%R by (cbn; unfold Q2R; cbn; lra).
  rewrite jlimit_inside by lra. rewrite Z2Nat.id by lia. lra.
Qed.

Lemma SubtleDelay_is_a_feedback_echo_witness :
  let echo :=
    CinematicMore.feedback_echo (Z.to_nat 14400)
      (CinematicMore.feedbackAmount real_delay)
      (CinematicMore.mixLevel real_delay) [] (take 2 [1; 2]%R) in
  (CinematicMore.SubtleDelay_process real_delay real_block 2).2 !! 0
  = Some (echo.1 ++ drop 2 [1; 2]%R).
Proof.
  refine (proj1 (SubtleDelay_is_a_feedback_echo real_delay real_block 2
                   (Z.to_nat 14400) (fun _ => []) 0 [1; 2]%R _ _ _ _ _ _)).
  - apply (real_delay_prepared 0). lia.
  - apply (real_delay_prepared 0). lia.
  - rewrite (proj2 (proj2 (proj2 (real_delay_prepared 0 ltac:(lia))))). lia.
  - intros k Hk. apply (real_delay_prepared k). exact Hk.
  - reflexivity.
  - cbn. lia.
Defined.

Lemma normalizer_idles_through_the_first_window_witness :
  (CinematicMore.normalize_blocks real_normalizer [real_block; real_block]).2
  = [real_block; real_block].
Proof.
  refine (proj1 (normalizer_idles_through_the_first_window real_normalizer
                   [real_block; real_block] _ _)).
  - apply Q2R_1.
  - cbn. lia.
Defined.

Lemma normalizer_gain_stays_within_12_dB_witness :
  (gain_floor
   <= Cinematic.currentGain
        (CinematicMore.normalize_blocks real_normalizer [real_block]).1
   <= gain_ceiling)%R.
Proof.
  refine (proj1 (normalizer_gain_stays_within_12_dB real_normalizer
                   [real_block] _)).
  change (Cinematic.currentGain real_normalizer) with (Q2R 1).
  rewrite Q2R_1. apply gain_floor_below_one.
Defined.

Lemma estimatePitch_is_at_most_half_the_rate_witness :
  (0 <= FXSuite.estimatePitch 48000%R zigzag_block <= 48000 / 2)%R.
Proof.
  refine (proj1 (estimatePitch_is_at_most_half_the_rate 48000%R zigzag_block
                   _)).
  lra.
Defined.

Lemma calculateRMSLevel_is_between_the_magnitudes_witness :
  (1 <= FXSuite.calculateRMSLevel real_block <= 4)%R.
Proof.
  apply (calculateRMSLevel_is_between_the_magnitudes real_block 1%R 4%R).
  - cbn. lia.
  - cbn. lia.
  - lra.
  - intros ch i Hch Hi.
    destruct ch as [|[|ch]]; [| |cbn in Hch; lia];
      (destruct i as [|[|i]]; [| |cbn in Hi; lia]);
      cbn; rewrite Rabs_pos_eq; lra.
Defined.
